(* ===== verification/_CoqProject ===== *)
-Q . S2P
Prelude.v
Crypto.v
Aead.v
AesGcmSw.v
AesGcmRing.v
AesGcmRef.v
Wire.v
Ipc.v
Cryptod.v
Bench.v
Serve.v
Concurrent.v
Daemon.v
ConcLogic.v
ConcDaemon.v
ConcCells.v
ConcLin.v
ProviderProps.v
WireProps.v
CryptodProps.v
ConcProps.v
LinProps.v
StartProps.v
BenchProps.v
UnitTests.v
TestProps.v
