(* ===== verification/Prelude.v ===== *)
(** * ACM-UZ cryptod: a verification of the Rust workspace src/cryptod

    ** The program

    acm-cryptod is a daemon that encrypts and decrypts frames for a management
    agent over a Unix socket.  Its parts, from the bottom:

    - acm-crypto (src/cryptod/crates/acm-crypto): the algorithm identifiers,
      the key handle, the trait [CryptoProvider], and two AES-GCM providers,
      one over the crate aes-gcm (aes_gcm_sw.rs) and one over ring
      (aes_gcm_ring.rs);
    - acm-wire (acm-wire/src/lib.rs): the frame, a 12-byte header, the nonce,
      the ciphertext and the tag, the header being the additional data;
    - acm-ipc (acm-ipc/src/lib.rs): the JSON messages, one per line, and the
      loop that serves a connection;
    - acm-cryptod (acm-cryptod/src/main.rs): the state (a provider, an
      algorithm and a key under three mutexes, three atomic counters), the
      handlers of GetStatus, RotateKey, SetPolicy, Encrypt and Decrypt, the
      command line, and a benchmark of the two providers;
    - acm-dpdk: a placeholder constant.

    [main] runs the benchmark, or creates the state and hands it to
    [server::serve], which accepts connections and spawns a task for each,
    until accepting fails; [main] then returns, and dropping the tokio runtime
    cancels the tasks.  A
    request travels from [serve_connection] to [Handler::handle], which calls
    [acm_wire::seal] or [open], which call the provider.

    ** The files

    - Prelude.v: results, panics, computations on a buffer, slices, 64-bit
      sizes, and the logic [safe_at] of computations that never panic.
    - Crypto.v: AlgoId, CryptoError, KeyHandle, CryptoProvider (lib.rs).
    - Aead.v: the interfaces.  [Aead] is the AES-GCM scheme; [AesGcmCrate] and
      [RingCrate] are the two third-party crates, with the classes
      [AesGcmCrateLaws] and [RingCrateLaws] of what the sources rely on;
      [ProviderContract] is what a provider promises to acm-wire and
      acm-cryptod, whose theorems are proved from it alone.
    - AesGcmSw.v, AesGcmRing.v: the providers, statement by statement, and the
      proofs that they keep the contract.
    - AesGcmRef.v: an executable AES-GCM (FIPS 197, SP 800-38D) and the two
      crates instantiated with it, which shows that the laws can hold and
      lets the witnesses run.  It models no code of the workspace.
    - Wire.v: [FrameHeader::encode], [decode], [seal], [open], [frame_len],
      and their specifications [decode_spec], [wire_seal_spec],
      [wire_open_spec].
    - Ipc.v: the messages, [serve_connection], [write_response], and the
      specification [session]: the lines answered one by one.
    - Cryptod.v: [CryptodState], [self_test] and the handlers as functions from
      state to answer and state; [state_inv] holds between requests,
      [state_safe] at every moment.
    - Bench.v: [run_bench] and [bench_one] over a clock, one instant for each
      reading, with their loops and their binary64 arithmetic.  The readings,
      the calls of a provider, the lines and the rows of numbers printed are
      recorded in a trace, which the code does not read.
    - Serve.v: [server::serve] over the system calls (the record [Os]), with
      [Path::parent]; [Cli].
    - Concurrent.v: the same handlers as programs over the mutexes and the
      counters ([proc]), and the interleavings of the tasks of several
      connections: [step] lets one task make one access, [run_schedule] a
      list of them.  A task that has not moved yet is a connection that has
      not arrived yet, so the list of connections is no restriction; a
      connection brings the requests that parse, the other lines, answered 400
      by [Ipc.serve_connection], touching nothing that is shared; and one that
      breaks is one that has sent no more.
    - Daemon.v: [main] and the accept loop, interleaved with the tasks it
      spawns ([run_server]), up to the exit.
    - ConcLogic.v: an invariant logic for these programs: [checked] examines a
      handler once, against whatever the other tasks may leave behind, and
      [inv_step] carries the invariant through every interleaving.
    - ConcDaemon.v: the handlers checked in that logic.
    - ConcCells.v: the three mutexes as registers: [CellInv] relates the log of
      all reads and writes to the configuration, [served] says which accesses
      a request makes and how its answer follows from them.
    - ConcLin.v: linearizability of the handlers, by a log of the requests in
      the order in which they take effect; [lin] says that a handler takes
      effect once, [LinInv] that the log explains the configuration.
    - UnitTests.v: the unit tests of acm-crypto, acm-wire and acm-dpdk as
      programs that panic where an assertion fails.
    - ProviderProps.v, WireProps.v, CryptodProps.v, ConcProps.v, LinProps.v,
      StartProps.v, BenchProps.v, TestProps.v: the properties, each followed by
      its witness.

    ** What is shown

    - Providers: both keep [ProviderContract], answer alike, open what either
      seals, open nothing else, and refuse a wiped key.
    - Frames: [seal] and [open] implement their specifications on every
      branch, never panic, round trip between providers, and [open] accepts
      exactly the frames whose tag is that of their header, nonce and
      plaintext under the key; the header codec is a bijection
      between headers and the 12-byte strings [decode] accepts, up to the two
      reserved bytes.
    - Connections: the loop ends, answers every line in order, and no input
      panics the daemon.
    - Handlers one at a time: every branch of every request, the invariant,
      the type of the answer to each request, the counters, the effect of a
      rotation.
    - Handlers interleaved: safety, mutual exclusion, absence of deadlock,
      a bound of twelve steps per request, the counters; every answer is
      explained by the register accesses of its request
      ([ConcProps.concurrent_answers]); key rotations within one algorithm
      disturb nothing, while two rotations to
      different algorithms can leave provider and key mismatched
      ([ConcProps.rotation_race]).  Short of those, the daemon is linearizable
      ([LinProps.linearizable]): some order of the requests, extended as
      the daemon runs, has the sequential daemon answer the same.
    - Start-up: [serve] on every branch, and the daemon from [main] through
      the connections it accepts to its exit ([StartProps.daemon_lifecycle]).
    - Benchmark: it ends when the clock advances, without a panic or an error,
      and its trace has, for each algorithm, provider and size, the calls that
      the row printed reports.
    - Tests: the unit tests of the sources pass, those that depend on AES-GCM
      itself with any crates that implement it, the others with any crates
      that keep their laws.

    ** How the code is modelled

    Integers are [Z]; [usize] sums wrap at 2^64, as with the release profile's
    [overflow-checks = false], and [usize_add_small] and its kin show where they
    do not.  Buffers behind [&mut [u8]] are state: a computation [M bytes E A]
    takes the buffer and returns a result and the buffer, or [Panics], for
    each slice, index or copy out of range and each [unreachable!] or
    [expect]; the profile sets [panic = "abort"], so a panic ends the process.
    [fits] bounds a length by [isize::MAX], as every Rust allocation is.  The
    clock is an argument of the handlers.

    [serve_connection] takes fuel, one unit for each request; a request line
    is at least one byte, so [S (length inp)] is enough for the input [inp]
    ([Ipc.serve_session]).  Schedules need no fuel: [always_answered] bounds
    them.  The accept loop takes one unit for each accepted connection and one
    for the failure that ends it ([StartProps.serve_spec]); the loops of the
    benchmark one for each reading of the clock, and some amount is enough
    for any clock that advances ([BenchProps.run_bench_ends]).

    The mutexes are taken by any waiting task, where tokio's are fair: the
    theorems hold for more schedules than occur.  The atomics are
    sequentially consistent; each counter is only ever added to or read by
    itself, for which [Relaxed] gives the same values.

    ** What is not modelled

    serde_json, base64 and the socket are parameters of Ipc.v, so the JSON text
    of a message is not fixed here, and the unit tests of acm-ipc, which
    compare that text, are left out.  clap's parsing of the command line, the
    set-up of logging and the log lines themselves have no effect on the
    state and are left out; building the tokio runtime is a result that [main]
    is given.  The numbers of a benchmark row are kept as values, not as the
    text they are printed as.  The Go agent and controller and the web
    interface are other programs. *)

From Stdlib Require Export Init.Byte ZArith Lia.
From Stdlib Require Import Strings.Byte.
From stdpp Require Export base tactics option list strings pretty sets.

#[global] Open Scope Z_scope.

Declare Scope rust_scope.
Delimit Scope rust_scope with rust.
#[global] Open Scope rust_scope.

(** * Results, panics and stateful computations *)

(** [Result<A, E>]. *)
Inductive result (A E : Type) : Type :=
| Ok (a : A)
| Err (e : E).
Arguments Ok {A E} _.
Arguments Err {A E} _.

(** What a call does: it returns a value, or it panics (a slice index out of
    range, [unreachable!], [expect]); the release profile sets
    [panic = "abort"], so a panic ends the daemon. *)
Inductive outcome (A : Type) : Type :=
| Returns (a : A)
| Panics.
Arguments Returns {A} _.
Arguments Panics {A}.

Definition obind {A B} (o : outcome A) (f : A -> outcome B) : outcome B :=
  match o with
  | Returns a => f a
  | Panics => Panics
  end.

Notation "'let!' x ':=' o 'in' k" := (obind o (fun x => k))
  (at level 10, x pattern, k at level 200) : rust_scope.

Definition map_err {A E F} (f : E -> F) (r : result A E) : result A F :=
  match r with
  | Ok a => Ok a
  | Err e => Err (f e)
  end.

Definition ok_or {A E} (o : option A) (e : E) : result A E :=
  match o with
  | Some a => Ok a
  | None => Err e
  end.

Definition is_ok {A E} (r : result A E) : bool :=
  match r with Ok _ => true | Err _ => false end.

(** A fallible function that works on a mutable place of type [S] (for the
    providers and the frame format, the buffer behind [out: &mut [u8]]). *)
Definition M (S E A : Type) : Type := S -> outcome (result A E * S).

Definition mret {S E A} (a : A) : M S E A := fun s => Returns (Ok a, s).
Definition mthrow {S E A} (e : E) : M S E A := fun s => Returns (Err e, s).
Definition mpanic {S E A} : M S E A := fun _ => Panics.

(** Sequencing; an [Err] returns early, as [?] does. *)
Definition mseq {S E A B} (m : M S E A) (f : A -> M S E B) : M S E B :=
  fun s =>
    match m s with
    | Returns (Ok a, s') => f a s'
    | Returns (Err e, s') => Returns (Err e, s')
    | Panics => Panics
    end.

Notation "'let?' x ':=' m 'in' k" := (mseq m (fun x => k))
  (at level 10, x pattern, k at level 200) : rust_scope.
Notation "'do?' m ';;' k" := (mseq m (fun _ => k))
  (at level 10, m at level 99, k at level 200) : rust_scope.

Definition mlift {S E A} (r : result A E) : M S E A := fun s => Returns (r, s).
Definition mpure {S E A} (o : outcome A) : M S E A :=
  fun s => let! a := o in Returns (Ok a, s).
Definition mmap_err {S E F A} (f : E -> F) (m : M S E A) : M S F A :=
  fun s => let! (r, s') := m s in Returns (map_err f r, s').
Definition mget {S E} : M S E S := fun s => Returns (Ok s, s).
Definition mguard {S E} (b : bool) (e : E) : M S E unit :=
  if b then mthrow e else mret tt.

(** * Machine integers *)

Definition u8_max : Z := 2 ^ 8 - 1.
Definition u32_max : Z := 2 ^ 32 - 1.
Definition isize_max : Z := 2 ^ 63 - 1.

Definition wrap64 (z : Z) : Z := z mod 2 ^ 64.
Definition usize_add (a b : Z) : Z := wrap64 (a + b).
Definition usize_sub (a b : Z) : Z := wrap64 (a - b).
Definition usize_saturating_sub (a b : Z) : Z := Z.max 0 (a - b).

(** [as u8] keeps the low eight bits. *)
Definition u8_of_Z (z : Z) : byte :=
  match Byte.of_N (Z.to_N (z mod 256)) with
  | Some b => b
  | None => x00
  end.
Definition Z_of_u8 (b : byte) : Z := Z.of_N (Byte.to_N b).

#[export] Instance byte_eq_dec : EqDecision byte := Byte.byte_eq_dec.
#[export] Instance byte_inhabited : Inhabited byte := populate x00.

(** * Byte buffers *)

Abbreviation bytes := (list byte).

Definition zlen {A} (l : list A) : Z := Z.of_nat (length l).
Definition ztake {A} (n : Z) (l : list A) : list A := take (Z.to_nat n) l.
Definition zdrop {A} (n : Z) (l : list A) : list A := drop (Z.to_nat n) l.

(** No Rust allocation is longer than [isize::MAX] bytes. *)
Definition fits {A} (l : list A) : Prop := zlen l <= isize_max.

(** [vec![0u8; n]]. *)
Definition zeros (n : Z) : bytes := replicate (Z.to_nat n) x00.

(** [&s[a..b]], [&s[..b]] and [&s[a..]]: out of range panics. *)
Definition slice {A} (a b : Z) (s : list A) : outcome (list A) :=
  if (0 <=? a) && (a <=? b) && (b <=? zlen s)
  then Returns (ztake (b - a) (zdrop a s))
  else Panics.
Definition slice_to {A} (b : Z) (s : list A) : outcome (list A) := slice 0 b s.
Definition slice_from {A} (a : Z) (s : list A) : outcome (list A) := slice a (zlen s) s.

(** [s[i]]. *)
Definition index (i : Z) (s : bytes) : outcome byte :=
  if 0 <=? i then
    match s !! Z.to_nat i with
    | Some b => Returns b
    | None => Panics
    end
  else Panics.

(** Running a callee on [&mut out[a..b]]: the callee sees the subslice and
    what it leaves there is part of [out] afterwards. *)
Definition on_slice {E A} (a b : Z) (m : M bytes E A) : M bytes E A :=
  fun s =>
    let! sub := slice a b s in
    let! (r, sub') := m sub in
    Returns (r, ztake a s ++ sub' ++ zdrop b s).

(** [out[a..b].copy_from_slice(src)]: panics when the lengths differ. *)
Definition copy_from_slice {E} (src : bytes) : M bytes E unit :=
  fun s => if zlen s =? zlen src then Returns (Ok tt, src) else Panics.

(** [out[i] = v]. *)
Definition store {E} (i : Z) (v : byte) : M bytes E unit :=
  fun s => if (0 <=? i) && (i <? zlen s)
           then Returns (Ok tt, ztake i s ++ [v] ++ zdrop (i + 1) s)
           else Panics.

(** * Text *)

(** [{}] of an unsigned integer and [{:02x}] of a byte. *)
Definition fmt_dec (z : Z) : string := pretty z.
Definition hex_digit (n : Z) : Ascii.ascii :=
  Ascii.ascii_of_N (Z.to_N (if n <? 10 then 48 + n else 87 + n)).
Definition fmt_02x (b : byte) : string :=
  String (hex_digit (Z_of_u8 b / 16)) (String (hex_digit (Z_of_u8 b mod 16)) "").

(** * Lemmas *)

Create HintDb rust discriminated.
Create Rewrite HintDb rust.

(** ** Integers and bytes *)

Lemma wrap64_small z : 0 <= z < 2 ^ 64 -> wrap64 z = z.
Proof. apply Z.mod_small. Qed.

Lemma wrap64_range z : 0 <= wrap64 z < 2 ^ 64.
Proof. apply Z.mod_pos_bound; lia. Qed.

Lemma Z_of_u8_range b : 0 <= Z_of_u8 b < 256.
Proof. unfold Z_of_u8. pose proof (Byte.to_N_bounded b). lia. Qed.

Lemma Z_of_u8_of_Z z : Z_of_u8 (u8_of_Z z) = z mod 256.
Proof.
  unfold u8_of_Z, Z_of_u8. pose proof (Z.mod_pos_bound z 256 ltac:(lia)) as Hr.
  destruct (Byte.of_N (Z.to_N (z mod 256))) as [b|] eqn:E.
  - apply Byte.to_of_N in E. rewrite E. lia.
  - apply Byte.of_N_None_iff in E. lia.
Qed.

Lemma u8_of_Z_of_u8 b : u8_of_Z (Z_of_u8 b) = b.
Proof.
  unfold u8_of_Z, Z_of_u8. rewrite Z.mod_small.
  - by rewrite N2Z.id, Byte.of_to_N.
  - pose proof (Byte.to_N_bounded b). lia.
Qed.

Lemma Z_of_u8_inj a b : Z_of_u8 a = Z_of_u8 b -> a = b.
Proof. intros H. by rewrite <-(u8_of_Z_of_u8 a), H, u8_of_Z_of_u8. Qed.

(** ** Lengths *)

Lemma zlen_nonneg {A} (l : list A) : 0 <= zlen l.
Proof. unfold zlen. lia. Qed.

Lemma zlen_app {A} (l k : list A) : zlen (l ++ k) = zlen l + zlen k.
Proof. unfold zlen. rewrite length_app. lia. Qed.

Lemma zlen_cons {A} (x : A) l : zlen (x :: l) = 1 + zlen l.
Proof. unfold zlen. simpl. lia. Qed.

Lemma zlen_nil {A} : zlen (@nil A) = 0.
Proof. done. Qed.

Lemma zlen_ztake {A} n (l : list A) : 0 <= n <= zlen l -> zlen (ztake n l) = n.
Proof. unfold zlen, ztake. rewrite length_take. lia. Qed.

Lemma zlen_zdrop {A} n (l : list A) : 0 <= n <= zlen l -> zlen (zdrop n l) = zlen l - n.
Proof. unfold zlen, zdrop. rewrite length_drop. lia. Qed.

Lemma zlen_zeros n : 0 <= n -> zlen (zeros n) = n.
Proof. unfold zlen, zeros. rewrite length_replicate. lia. Qed.

Lemma ztake_zdrop {A} n (l : list A) : ztake n l ++ zdrop n l = l.
Proof. apply take_drop. Qed.

Lemma ztake_app {A} (l k : list A) n : n = zlen l -> ztake n (l ++ k) = l.
Proof. intros ->. unfold ztake, zlen. rewrite Nat2Z.id. apply take_app_length. Qed.

Lemma zdrop_app {A} (l k : list A) n : n = zlen l -> zdrop n (l ++ k) = k.
Proof. intros ->. unfold zdrop, zlen. rewrite Nat2Z.id. apply drop_app_length. Qed.

Lemma zdrop_app_add {A} (l k : list A) m n :
  0 <= m -> n = zlen l + m -> zdrop n (l ++ k) = zdrop m k.
Proof.
  intros Hm ->. unfold zdrop, zlen. rewrite Z2Nat.inj_add, Nat2Z.id by lia.
  apply drop_app_add.
Qed.

Lemma ztake_all {A} (l : list A) n : n = zlen l -> ztake n l = l.
Proof. intros ->. unfold ztake, zlen. rewrite Nat2Z.id. apply firstn_all. Qed.

Lemma zdrop_all {A} (l : list A) n : n = zlen l -> zdrop n l = [].
Proof. intros ->. unfold zdrop, zlen. rewrite Nat2Z.id. apply drop_all. Qed.

Lemma ztake_0 {A} (l : list A) : ztake 0 l = [].
Proof. done. Qed.

Lemma zdrop_0 {A} (l : list A) : zdrop 0 l = l.
Proof. done. Qed.

Lemma zdrop_zdrop {A} m n (l : list A) :
  0 <= m -> 0 <= n -> zdrop m (zdrop n l) = zdrop (n + m) l.
Proof. intros. unfold zdrop. rewrite drop_drop. f_equal. lia. Qed.

#[export] Hint Rewrite @zlen_app @zlen_cons @zlen_nil : rust.

(** [zlen_solve] closes the side conditions on lengths and offsets. *)
Ltac zlen_pose :=
  repeat match goal with
  | |- context [zlen ?l] =>
      lazymatch goal with H : 0 <= zlen l |- _ => fail | _ => pose proof (zlen_nonneg l) end
  | H : context [zlen ?l] |- _ =>
      lazymatch goal with H' : 0 <= zlen l |- _ => fail | _ => pose proof (zlen_nonneg l) end
  end.
Ltac zlen_solve :=
  unfold fits, isize_max in *; autorewrite with rust in *; zlen_pose; lia.

(** Splitting a list at an offset: how the proofs name the parts of a
    buffer. *)
Lemma zsplit {A} n (l : list A) :
  0 <= n <= zlen l -> exists a b, l = a ++ b /\ zlen a = n.
Proof.
  intros H. exists (ztake n l), (zdrop n l).
  split; [by rewrite ztake_zdrop | by apply zlen_ztake].
Qed.

Lemma app_inj_zlen {A} (a b c d : list A) :
  zlen a = zlen c -> a ++ b = c ++ d -> a = c /\ b = d.
Proof. unfold zlen. intros Hl H. apply app_inj_1 in H; [done | lia]. Qed.

(** ** Slices *)

Lemma slice_app {A} (p m q : list A) a b :
  a = zlen p -> b = zlen p + zlen m -> slice a b (p ++ m ++ q) = Returns m.
Proof.
  intros -> ->. unfold slice. autorewrite with rust. zlen_pose.
  repeat (rewrite (proj2 (Z.leb_le _ _)) by lia). simpl.
  rewrite (zdrop_app p) by done. rewrite ztake_app; [done | lia].
Qed.

Lemma slice_to_app {A} (m q : list A) b :
  b = zlen m -> slice_to b (m ++ q) = Returns m.
Proof. intros ->. apply (slice_app [] m q); done. Qed.

Lemma slice_from_app {A} (p m : list A) a :
  a = zlen p -> slice_from a (p ++ m) = Returns m.
Proof.
  intros ->. unfold slice_from.
  rewrite <-(app_nil_r m) at 2. apply slice_app; [done|].
  by rewrite zlen_app.
Qed.

Lemma slice_in_range {A} a b (s : list A) :
  0 <= a <= b -> b <= zlen s -> exists m, slice a b s = Returns m /\ zlen m = b - a.
Proof.
  intros Ha Hb. unfold slice. repeat (rewrite (proj2 (Z.leb_le _ _)) by lia). simpl.
  eexists; split; [done|].
  pose proof (zlen_nonneg s).
  rewrite zlen_ztake; [done|]. rewrite zlen_zdrop by lia. lia.
Qed.

Lemma index_app (p q : bytes) (x : byte) i :
  i = zlen p -> index i (p ++ x :: q) = Returns x.
Proof.
  intros ->. unfold index. pose proof (zlen_nonneg p).
  rewrite (proj2 (Z.leb_le _ _)) by lia.
  unfold zlen. rewrite Nat2Z.id.
  by rewrite list_lookup_middle by done.
Qed.

Lemma copy_from_slice_ok {E} (src s : bytes) :
  zlen s = zlen src -> @copy_from_slice E src s = Returns (Ok tt, src).
Proof. intros H. unfold copy_from_slice. by rewrite (proj2 (Z.eqb_eq _ _)). Qed.

(** The callee's result on the part [m] of the buffer is put back between the
    parts before and after it. *)
Lemma on_slice_app {E A} (f : M bytes E A) (p m q : bytes) a b :
  a = zlen p -> b = zlen p + zlen m ->
  on_slice a b f (p ++ m ++ q) =
  (let! (r, m') := f m in Returns (r, p ++ m' ++ q)).
Proof.
  intros Ha Hb. unfold on_slice. rewrite (slice_app p m q) by done. simpl.
  destruct (f m) as [[r m']|]; simpl; [|done].
  rewrite (ztake_app p) by done. rewrite (app_assoc p m q), (zdrop_app (p ++ m)); [done|].
  rewrite zlen_app. lia.
Qed.

Lemma on_slice_to_app {E A} (f : M bytes E A) (m q : bytes) b :
  b = zlen m ->
  on_slice 0 b f (m ++ q) = (let! (r, m') := f m in Returns (r, m' ++ q)).
Proof. intros ->. apply (on_slice_app f [] m q); done. Qed.

Lemma store_app {E} (p q : bytes) x v i :
  i = zlen p -> @store E i v (p ++ x :: q) = Returns (Ok tt, p ++ v :: q).
Proof.
  intros ->. unfold store. autorewrite with rust. zlen_pose.
  rewrite (proj2 (Z.leb_le _ _)), (proj2 (Z.ltb_lt _ _)) by lia. simpl.
  rewrite ztake_app by done.
  change (x :: q) with ([x] ++ q). rewrite (app_assoc p), zdrop_app; [done|].
  by rewrite zlen_app.
Qed.

(** ** Running computations *)

Lemma mseq_run {S E A B} (m : M S E A) (f : A -> M S E B) s r s' :
  m s = Returns (r, s') ->
  mseq m f s = match r with
               | Ok a => f a s'
               | Err e => Returns (Err e, s')
               end.
Proof. intros H. unfold mseq. rewrite H. by destruct r. Qed.

Lemma mmap_err_run {S E F A} (g : E -> F) (m : M S E A) s r s' :
  m s = Returns (r, s') -> mmap_err g m s = Returns (map_err g r, s').
Proof. intros H. unfold mmap_err. by rewrite H. Qed.

Lemma mguard_seq {S E A} b (e : E) (k : M S E A) s :
  mseq (mguard b e) (fun _ => k) s = if b then Returns (Err e, s) else k s.
Proof. by destruct b. Qed.

Lemma mget_seq {S E A} (k : S -> M S E A) s : mseq mget k s = k s s.
Proof. done. Qed.

(** ** No panics, and buffers keep their length *)

(** On a buffer of [n] bytes, [m] does not panic and leaves [n] bytes, and a
    value it returns satisfies [Q]. *)
Definition safe_at {E A} (n : Z) (m : M bytes E A) (Q : A -> Prop) : Prop :=
  forall s, zlen s = n ->
  exists r s', m s = Returns (r, s') /\ zlen s' = n /\ (forall a, r = Ok a -> Q a).

Section Safe.
Context {E : Type}.

Lemma safe_mret {A} n (a : A) (Q : A -> Prop) : Q a -> safe_at n (@mret _ E _ a) Q.
Proof. intros HQ s Hs. eexists _, _. split; [done|]. split; [done|]. congruence. Qed.

Lemma safe_mthrow {A} n (e : E) (Q : A -> Prop) : safe_at n (mthrow e) Q.
Proof. intros s Hs. eexists _, _. split; [done|]. split; [done|]. congruence. Qed.

Lemma safe_mlift {A} n (r : result A E) (Q : A -> Prop) :
  (forall a, r = Ok a -> Q a) -> safe_at n (mlift r) Q.
Proof. intros HQ s Hs. by eexists _, _. Qed.

Lemma safe_mpure {A} n (o : outcome A) (a : A) (Q : A -> Prop) :
  o = Returns a -> Q a -> safe_at n (@mpure _ E _ o) Q.
Proof. intros -> HQ s Hs. eexists _, _. split; [done|]. split; [done|]. congruence. Qed.

Lemma safe_mseq {A B} n (m : M bytes E A) (f : A -> M bytes E B) Q R :
  safe_at n m Q -> (forall a, Q a -> safe_at n (f a) R) -> safe_at n (mseq m f) R.
Proof.
  intros Hm Hf s Hs. destruct (Hm s Hs) as (r & s' & Hr & Hs' & HQ).
  erewrite mseq_run by done. destruct r as [a|e].
  - by apply Hf; [apply HQ|].
  - eexists _, _. split; [done|]. split; [done|]. congruence.
Qed.

Lemma safe_guard {A} n b (e : E) (k : M bytes E A) R :
  (b = false -> safe_at n k R) -> safe_at n (do? mguard b e ;; k) R.
Proof.
  intros Hk. destruct b; [|by apply Hk].
  intros s Hs. eexists _, _. split; [done|]. split; [done|]. congruence.
Qed.

Lemma safe_get {A} n (k : bytes -> M bytes E A) R :
  (forall s, zlen s = n -> safe_at n (k s) R) -> safe_at n (let? s := mget in k s) R.
Proof. intros Hk s Hs. by apply (Hk s Hs s Hs). Qed.

Lemma safe_on_slice {A} n a b (m : M bytes E A) Q :
  0 <= a <= b -> b <= n -> safe_at (b - a) m Q -> safe_at n (on_slice a b m) Q.
Proof.
  intros Hab Hb Hm s Hs. subst n.
  destruct (zsplit a s) as (p & q0 & -> & Hp); [lia|]. rewrite zlen_app in Hb.
  destruct (zsplit (b - a) q0) as (mid & q & -> & Hmid); [lia|].
  rewrite on_slice_app by lia.
  destruct (Hm mid Hmid) as (r & mid' & -> & Hmid' & HQ). simpl.
  eexists _, _. split; [done|]. split; [|done]. rewrite !zlen_app. lia.
Qed.

Lemma safe_copy n (src : bytes) : zlen src = n -> safe_at n (@copy_from_slice E src) (fun _ => True).
Proof.
  intros <- s Hs. rewrite copy_from_slice_ok by done. by eexists _, _.
Qed.

Lemma safe_map_err {A F} n (g : E -> F) (m : M bytes E A) Q :
  safe_at n m Q -> safe_at n (mmap_err g m) Q.
Proof.
  intros Hm s Hs. destruct (Hm s Hs) as (r & s' & Hr & Hs' & HQ).
  erewrite mmap_err_run by done. eexists _, _. split; [done|]. split; [done|].
  destruct r; simpl; intros ? [=]; subst. by apply HQ.
Qed.

Lemma safe_weaken {A} n (m : M bytes E A) (Q R : A -> Prop) :
  safe_at n m Q -> (forall a, Q a -> R a) -> safe_at n m R.
Proof.
  intros Hm HQR s Hs. destruct (Hm s Hs) as (r & s' & Hr & Hs' & HQ).
  eexists _, _. split; [done|]. split; [done|]. eauto.
Qed.
End Safe.

#[export] Hint Resolve safe_mret safe_mthrow safe_mlift safe_copy safe_map_err : rust.

Lemma usize_add_small a b : 0 <= a + b < 2 ^ 64 -> usize_add a b = a + b.
Proof. apply wrap64_small. Qed.

Lemma usize_sub_small a b : 0 <= a - b < 2 ^ 64 -> usize_sub a b = a - b.
Proof. apply wrap64_small. Qed.

(** [usizes] replaces wrap-around sums by plain ones where the operands are
    lengths. *)
Ltac usizes :=
  repeat match goal with
  | |- context [usize_add ?a ?b] => rewrite (usize_add_small a b) by zlen_solve
  | |- context [usize_sub ?a ?b] => rewrite (usize_sub_small a b) by zlen_solve
  | H : context [usize_add ?a ?b] |- _ => rewrite (usize_add_small a b) in H by zlen_solve
  | H : context [usize_sub ?a ?b] |- _ => rewrite (usize_sub_small a b) in H by zlen_solve
  end.

(** [mrun tac] runs the first operation of a sequence, whose result [tac]
    rewrites to. *)
Tactic Notation "mrun" tactic(tac) :=
  erewrite mseq_run by (tac; reflexivity); cbv beta iota.

(** Bounds between closed terms. *)
Ltac le_closed := vm_compute; discriminate.
