(* ===== verification/Crypto.v ===== *)
(** The crate acm-crypto (src/cryptod/crates/acm-crypto/src/lib.rs): algorithm
    identifiers, crypto errors, key handles and the [CryptoProvider] trait.
    A trait object is a record of its methods; a method with an
    [out: &mut [u8]] parameter is a computation on that buffer. *)

From S2P Require Import Prelude.

(** * Algorithm identifiers *)

Inductive AlgoId : Type :=
| Aes128Gcm
| Aes256Gcm
| OzDst1105.

#[export] Instance AlgoId_eq_dec : EqDecision AlgoId.
Proof. solve_decision. Defined.

(** [algo as u8] (the enum is [repr(u8)]). *)
Definition algo_as_u8 (a : AlgoId) : byte :=
  match a with
  | Aes128Gcm => x01
  | Aes256Gcm => x02
  | OzDst1105 => x10
  end.

Definition from_u8 (v : byte) : option AlgoId :=
  match v with
  | x01 => Some Aes128Gcm
  | x02 => Some Aes256Gcm
  | x10 => Some OzDst1105
  | _ => None
  end.

Definition key_len (a : AlgoId) : Z :=
  match a with
  | Aes128Gcm => 16
  | Aes256Gcm => 32
  | OzDst1105 => 32
  end.

Definition nonce_len (a : AlgoId) : Z :=
  match a with
  | Aes128Gcm | Aes256Gcm => 12
  | OzDst1105 => 12
  end.

Definition tag_len (a : AlgoId) : Z :=
  match a with
  | Aes128Gcm | Aes256Gcm => 16
  | OzDst1105 => 16
  end.

(** The derived [Debug] of the enum. *)
Definition AlgoId_debug (a : AlgoId) : string :=
  match a with
  | Aes128Gcm => "Aes128Gcm"
  | Aes256Gcm => "Aes256Gcm"
  | OzDst1105 => "OzDst1105"
  end.

(** * Errors *)

(** [Io] carries a [std::io::Error], kept here as its message. *)
Inductive CryptoError : Type :=
| InvalidKey (expected got : Z)
| InvalidNonce (expected got : Z)
| BufferTooSmall (need have : Z)
| AuthFailed
| AlgorithmMismatch (provider key : AlgoId)
| ProviderUnavailable (what : string)
| Io (e : string).

#[export] Instance CryptoError_eq_dec : EqDecision CryptoError.
Proof. solve_decision. Defined.

Definition CryptoError_display (e : CryptoError) : string :=
  match e with
  | InvalidKey expected got =>
      "invalid key length (expected " +:+ fmt_dec expected +:+ ", got " +:+ fmt_dec got +:+ ")"
  | InvalidNonce expected got =>
      "invalid nonce length (expected " +:+ fmt_dec expected +:+ ", got " +:+ fmt_dec got +:+ ")"
  | BufferTooSmall need have =>
      "output buffer too small (need at least " +:+ fmt_dec need +:+ " bytes, have "
      +:+ fmt_dec have +:+ ")"
  | AuthFailed => "authentication failed"
  | AlgorithmMismatch provider key =>
      "algorithm mismatch (provider is " +:+ AlgoId_debug provider +:+ ", key is "
      +:+ AlgoId_debug key +:+ ")"
  | ProviderUnavailable what => "provider unavailable: " +:+ what
  | Io e => "io: " +:+ e
  end.

(** * Key handles *)

Record KeyHandle : Type := mkKeyHandle {
  id : Z;             (* u32 *)
  algo : AlgoId;
  material : bytes;
}.

#[export] Instance KeyHandle_eq_dec : EqDecision KeyHandle.
Proof. solve_decision. Defined.

Definition KeyHandle_new (i : Z) (a : AlgoId) (m : bytes) : result KeyHandle CryptoError :=
  if negb (zlen m =? key_len a)
  then Err (InvalidKey (key_len a) (zlen m))
  else Ok (mkKeyHandle i a m).

(** [wipe] calls [Vec::zeroize] of the zeroize crate. *)
Definition wipe (vec_zeroize : bytes -> bytes) (k : KeyHandle) : KeyHandle :=
  mkKeyHandle (id k) (algo k) (vec_zeroize (material k)).

(** What [KeyHandle_new] establishes. *)
Definition key_wf (k : KeyHandle) : Prop := zlen (material k) = key_len (algo k).

(** * The provider trait *)

Record CryptoProvider : Type := mkProvider {
  algorithm : AlgoId;
  (** key, nonce, aad, plaintext; the state is [out]. *)
  p_seal : KeyHandle -> bytes -> bytes -> bytes -> M bytes CryptoError Z;
  (** key, nonce, aad, ciphertext with its tag; the state is [out]. *)
  p_open : KeyHandle -> bytes -> bytes -> bytes -> M bytes CryptoError Z;
}.

(** * Lemmas *)

Lemma from_u8_as_u8 a : from_u8 (algo_as_u8 a) = Some a.
Proof. by destruct a. Qed.

Lemma from_u8_Some v a : from_u8 v = Some a <-> v = algo_as_u8 a.
Proof.
  split; [|intros ->; apply from_u8_as_u8].
  destruct v; simpl; intros H; simplify_eq; done.
Qed.

Lemma KeyHandle_new_Ok i a m k :
  KeyHandle_new i a m = Ok k <-> k = mkKeyHandle i a m /\ key_wf k.
Proof.
  unfold KeyHandle_new, key_wf. destruct (Z.eqb_spec (zlen m) (key_len a)); simpl.
  - split; [intros [= <-]; done | intros [-> _]; done].
  - split; [done | intros [-> H]; done].
Qed.

Lemma KeyHandle_new_wf i a m :
  zlen m = key_len a -> KeyHandle_new i a m = Ok (mkKeyHandle i a m).
Proof. intros H. by apply KeyHandle_new_Ok. Qed.

Lemma nonce_len_12 a : nonce_len a = 12.
Proof. by destruct a. Qed.

Lemma tag_len_16 a : tag_len a = 16.
Proof. by destruct a. Qed.

Lemma key_len_range a : 16 <= key_len a <= 32.
Proof. destruct a; simpl; lia. Qed.
