(* ===== verification/Aead.v ===== *)
(** AES-GCM as the crate acm-crypto uses it: the abstract AEAD scheme, the
    interfaces of the two third-party implementations it calls (RustCrypto
    [aes-gcm] and [ring]) with what their documentation promises, and the
    contract every [CryptoProvider] built on them offers its clients. *)

From S2P Require Import Prelude Crypto.

(** * The scheme *)

(** NIST SP 800-38D authenticated encryption, by key, nonce, additional data
    and plaintext (or ciphertext and tag). *)
Record Aead : Type := mkAead {
  ae_seal : bytes -> bytes -> bytes -> bytes -> bytes * bytes;
  ae_open : bytes -> bytes -> bytes -> bytes -> bytes -> option bytes;
}.

(** The longest input both libraries accept: 2^39 - 256 bits. *)
Definition gcm_limit : Z := 2 ^ 36 - 32.

Definition gcm_key (k : bytes) : Prop := zlen k = 16 \/ zlen k = 32.

(** Encryption is deterministic and keeps the length; decryption recomputes
    the tag, so it accepts exactly what encryption produces. *)
Class AeadLaws (ae : Aead) : Prop := {
  ae_seal_lengths k n a p c t :
    gcm_key k -> zlen n = 12 -> ae_seal ae k n a p = (c, t) ->
    zlen c = zlen p /\ zlen t = 16;
  ae_open_iff k n a c t p :
    gcm_key k -> zlen n = 12 -> zlen t = 16 ->
    ae_open ae k n a c t = Some p <-> ae_seal ae k n a p = (c, t);
  (** Counter mode: under one key and nonce, the ciphertext determines the
      plaintext. *)
  ae_seal_inj k n a p p' c t t' :
    gcm_key k -> zlen n = 12 ->
    ae_seal ae k n a p = (c, t) -> ae_seal ae k n a p' = (c, t') -> p = p';
}.

(** * The crate aes-gcm *)

(** What the sources call.  A buffer argument is returned as it is after the
    call; [None] and [false] are the crate's [Err]. *)
Record AesGcmCrate : Type := mkAesGcmCrate {
  sw_cipher : Type;
  Aes128Gcm_new_from_slice : bytes -> option sw_cipher;
  Aes256Gcm_new_from_slice : bytes -> option sw_cipher;
  (** [GenericArray::from_slice] for arrays of the given length. *)
  from_slice : Z -> bytes -> outcome bytes;
  encrypt_in_place_detached : sw_cipher -> bytes -> bytes -> bytes -> bytes * option bytes;
  decrypt_in_place_detached : sw_cipher -> bytes -> bytes -> bytes -> bytes -> bytes * bool;
}.

Definition sw_keyed (lib : AesGcmCrate) (c : sw_cipher lib) (k : bytes) : Prop :=
  Aes128Gcm_new_from_slice lib k = Some c \/ Aes256Gcm_new_from_slice lib k = Some c.

Class AesGcmCrateLaws (lib : AesGcmCrate) (ae : Aead) : Prop := {
  Aes128Gcm_new_iff k : is_Some (Aes128Gcm_new_from_slice lib k) <-> zlen k = 16;
  Aes256Gcm_new_iff k : is_Some (Aes256Gcm_new_from_slice lib k) <-> zlen k = 32;
  from_slice_ok n b : zlen b = n -> from_slice lib n b = Returns b;
  (** A slice keeps its length. *)
  encrypt_length c n a p : zlen (fst (encrypt_in_place_detached lib c n a p)) = zlen p;
  decrypt_length c n a b t : zlen (fst (decrypt_in_place_detached lib c n a b t)) = zlen b;
  (** A returned tag is a 16-byte array. *)
  encrypt_tag_length c n a p t :
    snd (encrypt_in_place_detached lib c n a p) = Some t -> zlen t = 16;
  encrypt_spec c k n a p :
    sw_keyed lib c k -> zlen n = 12 -> zlen a <= gcm_limit -> zlen p <= gcm_limit ->
    encrypt_in_place_detached lib c n a p =
      (fst (ae_seal ae k n a p), Some (snd (ae_seal ae k n a p)));
  (** On failure the buffer's contents are not specified. *)
  decrypt_spec c k n a b t :
    sw_keyed lib c k -> zlen n = 12 -> zlen t = 16 ->
    zlen a <= gcm_limit -> zlen b <= gcm_limit ->
    match ae_open ae k n a b t with
    | Some p => decrypt_in_place_detached lib c n a b t = (p, true)
    | None => snd (decrypt_in_place_detached lib c n a b t) = false
    end;
}.

(** * The crate ring *)

(** [ring::aead::AES_128_GCM] and [AES_256_GCM]. *)
Inductive RingAlgorithm : Type := AES_128_GCM | AES_256_GCM.

Definition ring_key_len (r : RingAlgorithm) : Z :=
  match r with AES_128_GCM => 16 | AES_256_GCM => 32 end.

Record RingCrate : Type := mkRingCrate {
  UnboundKey : Type;
  LessSafeKey : Type;
  UnboundKey_new : RingAlgorithm -> bytes -> option UnboundKey;
  LessSafeKey_new : UnboundKey -> LessSafeKey;
  seal_in_place_separate_tag : LessSafeKey -> bytes -> bytes -> bytes -> bytes * option bytes;
  (** The plaintext slice at the front of the buffer. *)
  open_in_place : LessSafeKey -> bytes -> bytes -> bytes -> option bytes;
}.

Definition ring_keyed (lib : RingCrate) (c : LessSafeKey lib) (k : bytes) : Prop :=
  exists r u, UnboundKey_new lib r k = Some u /\ c = LessSafeKey_new lib u.

Class RingCrateLaws (lib : RingCrate) (ae : Aead) : Prop := {
  UnboundKey_new_iff r k : is_Some (UnboundKey_new lib r k) <-> zlen k = ring_key_len r;
  seal_in_place_length c n a p :
    zlen (fst (seal_in_place_separate_tag lib c n a p)) = zlen p;
  seal_in_place_tag_length c n a p t :
    snd (seal_in_place_separate_tag lib c n a p) = Some t -> zlen t = 16;
  seal_in_place_spec c k n a p :
    ring_keyed lib c k -> zlen n = 12 -> zlen a <= gcm_limit -> zlen p <= gcm_limit ->
    seal_in_place_separate_tag lib c n a p =
      (fst (ae_seal ae k n a p), Some (snd (ae_seal ae k n a p)));
  (** The plaintext is the buffer without the 16 tag bytes. *)
  open_in_place_length c n a b p :
    open_in_place lib c n a b = Some p -> zlen p + 16 = zlen b;
  open_in_place_spec c k n a ct t :
    ring_keyed lib c k -> zlen n = 12 -> zlen t = 16 ->
    zlen a <= gcm_limit -> zlen ct <= gcm_limit ->
    open_in_place lib c n a (ct ++ t) = ae_open ae k n a ct t;
}.

(** * The contract of a provider *)

(** What [CryptoProvider::seal] does for a well-formed key: the answer, and
    the buffer it leaves. *)
Definition seal_spec (ae : Aead) (alg : AlgoId) (key : KeyHandle) (nonce aad pt out : bytes)
    : result Z CryptoError * bytes :=
  if decide (algo key <> alg) then (Err (AlgorithmMismatch alg (algo key)), out)
  else if decide (zlen nonce <> nonce_len alg) then
    (Err (InvalidNonce (nonce_len alg) (zlen nonce)), out)
  else if decide (zlen out < zlen pt + tag_len alg) then
    (Err (BufferTooSmall (zlen pt + tag_len alg) (zlen out)), out)
  else
    let '(c, t) := ae_seal ae (material key) nonce aad pt in
    (Ok (zlen pt + tag_len alg), c ++ t ++ zdrop (zlen pt + tag_len alg) out).

(** What [CryptoProvider::open] recovers from [ct], a ciphertext followed by
    its tag, given room for [have] bytes. *)
Definition open_spec (ae : Aead) (alg : AlgoId) (key : KeyHandle) (nonce aad ct : bytes) (have : Z)
    : result bytes CryptoError :=
  let n := zlen ct - tag_len alg in
  if decide (n < 0) then Err AuthFailed
  else if decide (algo key <> alg) then Err (AlgorithmMismatch alg (algo key))
  else if decide (zlen nonce <> nonce_len alg) then
    Err (InvalidNonce (nonce_len alg) (zlen nonce))
  else if decide (have < n) then Err (BufferTooSmall n have)
  else ok_or (ae_open ae (material key) nonce aad (ztake n ct) (zdrop n ct)) AuthFailed.

(** The buffer after [open]: the plaintext at its front, or nothing written;
    after a failed authentication only its length is promised. *)
Definition open_leaves (r : result bytes CryptoError) (out out' : bytes) : Prop :=
  match r with
  | Ok p => out' = p ++ zdrop (zlen p) out
  | Err AuthFailed => zlen out' = zlen out
  | Err _ => out' = out
  end.

Definition map_ok {A B E} (f : A -> B) (r : result A E) : result B E :=
  match r with
  | Ok a => Ok (f a)
  | Err e => Err e
  end.

(** What clients of [dyn CryptoProvider] (acm-wire, acm-cryptod) rely on. *)
Class ProviderContract (ae : Aead) (p : CryptoProvider) : Prop := {
  pc_algorithm : algorithm p = Aes128Gcm \/ algorithm p = Aes256Gcm;
  pc_seal key nonce aad pt out :
    key_wf key -> fits pt -> zlen aad <= gcm_limit -> zlen pt <= gcm_limit ->
    p_seal p key nonce aad pt out = Returns (seal_spec ae (algorithm p) key nonce aad pt out);
  pc_open key nonce aad ct out :
    key_wf key -> fits ct -> zlen aad <= gcm_limit -> zlen ct <= gcm_limit ->
    let r := open_spec ae (algorithm p) key nonce aad ct (zlen out) in
    exists out', p_open p key nonce aad ct out = Returns (map_ok zlen r, out') /\
      open_leaves r out out';
  (** Neither method panics or resizes its buffer, whatever the key, and the
      length reported is the one written. *)
  pc_seal_safe key nonce aad pt :
    fits pt -> forall n, safe_at n (p_seal p key nonce aad pt) (fun w => w = zlen pt + 16 /\ w <= n);
  pc_open_safe key nonce aad ct :
    fits ct -> forall n, safe_at n (p_open p key nonce aad ct) (fun w => w + 16 = zlen ct /\ 0 <= w <= n);
}.

(** * Lemmas *)

Section Scheme.
Context (ae : Aead) `{!AeadLaws ae}.

Lemma ae_open_seal k n a p c t :
  gcm_key k -> zlen n = 12 -> ae_seal ae k n a p = (c, t) -> ae_open ae k n a c t = Some p.
Proof.
  intros Hk Hn Hs. destruct (ae_seal_lengths _ _ _ _ _ _ Hk Hn Hs).
  by apply ae_open_iff.
Qed.

Lemma ae_open_length k n a p c t :
  gcm_key k -> zlen n = 12 -> zlen t = 16 -> ae_open ae k n a c t = Some p ->
  zlen p = zlen c.
Proof.
  intros Hk Hn Ht Ho. apply ae_open_iff in Ho; [|done..].
  by destruct (ae_seal_lengths _ _ _ _ _ _ Hk Hn Ho).
Qed.

(** One ciphertext has one tag. *)
Lemma ae_open_tag_unique k n a c t t' p p' :
  gcm_key k -> zlen n = 12 -> zlen t = 16 ->
  ae_open ae k n a c t = Some p -> ae_seal ae k n a p' = (c, t') -> t = t'.
Proof.
  intros Hk Hn Ht Ho Hs. apply ae_open_iff in Ho; [|done..].
  assert (p = p') as -> by (by eapply ae_seal_inj). congruence.
Qed.
End Scheme.

Lemma key_wf_gcm k alg :
  key_wf k -> algo k = alg -> alg = Aes128Gcm \/ alg = Aes256Gcm -> gcm_key (material k).
Proof. unfold key_wf, gcm_key. intros -> -> [-> | ->]; simpl; auto. Qed.

(** * What the contract gives a client *)

Section Client.
Context (ae : Aead) `{!AeadLaws ae}.

(** Sealing with room to spare, by any provider. *)
Lemma contract_seal p key nonce aad pt out :
  ProviderContract ae p -> key_wf key -> algo key = algorithm p -> zlen nonce = 12 ->
  zlen aad <= gcm_limit -> zlen pt <= gcm_limit -> zlen pt + 16 <= zlen out ->
  exists c t, ae_seal ae (material key) nonce aad pt = (c, t) /\
    zlen c = zlen pt /\ zlen t = 16 /\
    p_seal p key nonce aad pt out =
      Returns (Ok (zlen pt + 16), c ++ t ++ zdrop (zlen pt + 16) out).
Proof.
  intros Hp Hwf Ha Hn Haad Hpt Ho.
  destruct (ae_seal ae (material key) nonce aad pt) as [c t] eqn:Es. exists c, t.
  destruct (ae_seal_lengths (material key) nonce aad pt c t) as [Hc Ht];
    [eauto using key_wf_gcm, pc_algorithm|done..|].
  split_and!; [done..|].
  rewrite pc_seal by (done || unfold fits, isize_max, gcm_limit in *; lia).
  unfold seal_spec. rewrite nonce_len_12, tag_len_16.
  rewrite !decide_False by (congruence || lia). by rewrite Es.
Qed.

(** Opening a ciphertext and its tag, by any provider. *)
Lemma contract_open p key nonce aad c t out :
  ProviderContract ae p -> key_wf key -> algo key = algorithm p -> zlen nonce = 12 ->
  zlen t = 16 -> zlen aad <= gcm_limit -> zlen c + 16 <= gcm_limit -> zlen c <= zlen out ->
  let r := ok_or (ae_open ae (material key) nonce aad c t) AuthFailed in
  exists out', p_open p key nonce aad (c ++ t) out = Returns (map_ok zlen r, out') /\
    open_leaves r out out'.
Proof.
  intros Hp Hwf Ha Hn Ht Haad Hc Ho r.
  destruct (pc_open key nonce aad (c ++ t) out) as (out' & Hr & Hl);
    [done|unfold gcm_limit in *; zlen_solve|done|zlen_solve|].
  exists out'. revert Hr Hl. unfold open_spec. rewrite nonce_len_12, tag_len_16.
  rewrite !decide_False by (congruence || zlen_solve).
  by rewrite ztake_app, zdrop_app by zlen_solve.
Qed.
End Client.
