(* ===== verification/AesGcmSw.v ===== *)
(** The RustCrypto provider
    (src/cryptod/crates/acm-crypto/src/aes_gcm_sw.rs), over the interface of
    the crate aes-gcm, and its proof of the provider contract. *)

From S2P Require Import Prelude Crypto Aead.

Record AesGcmSwProvider : Type := mkSw { sw_algo : AlgoId }.

Definition AesGcmSwProvider_new (a : AlgoId) : result AesGcmSwProvider CryptoError :=
  match a with
  | Aes128Gcm | Aes256Gcm => Ok (mkSw a)
  | other =>
      Err (ProviderUnavailable ("AesGcmSwProvider doesn't support " +:+ AlgoId_debug other))
  end.

Definition check_inputs (self : AesGcmSwProvider) (key : KeyHandle) (nonce : bytes)
    (body_len : Z) (is_seal : bool) : M bytes CryptoError unit :=
  do? mguard (negb (bool_decide (algo key = sw_algo self)))
        (AlgorithmMismatch (sw_algo self) (algo key)) ;;
  do? mguard (negb (zlen (material key) =? key_len (sw_algo self)))
        (InvalidKey (key_len (sw_algo self)) (zlen (material key))) ;;
  do? mguard (negb (zlen nonce =? nonce_len (sw_algo self)))
        (InvalidNonce (nonce_len (sw_algo self)) (zlen nonce)) ;;
  let need :=
    if is_seal then usize_add body_len (tag_len (sw_algo self))
    else usize_saturating_sub body_len (tag_len (sw_algo self)) in
  let? out := mget in
  do? mguard (zlen out <? need) (BufferTooSmall need (zlen out)) ;;
  mret tt.

Section Provider.
Context (lib : AesGcmCrate).

(** [cipher.encrypt_in_place_detached(nonce.into(), aad, buf).map_err(..)]. *)
Definition sw_encrypt (c : sw_cipher lib) (nonce aad : bytes) (e : CryptoError)
    : M bytes CryptoError bytes :=
  fun buf =>
    let! n := from_slice lib 12 nonce in
    let (buf', tag) := encrypt_in_place_detached lib c n aad buf in
    Returns (ok_or tag e, buf').

Definition sw_decrypt (c : sw_cipher lib) (nonce aad tag : bytes)
    : M bytes CryptoError unit :=
  fun buf =>
    let! n := from_slice lib 12 nonce in
    let (buf', ok) := decrypt_in_place_detached lib c n aad buf tag in
    Returns (if (ok : bool) then Ok tt else Err AuthFailed, buf').

Definition sw_seal (self : AesGcmSwProvider) (key : KeyHandle)
    (nonce aad plaintext : bytes) : M bytes CryptoError Z :=
  do? check_inputs self key nonce (zlen plaintext) true ;;
  let pt_len := zlen plaintext in
  let tag_l := tag_len (sw_algo self) in
  do? on_slice 0 pt_len (copy_from_slice plaintext) ;;
  let? tag :=
    match sw_algo self with
    | Aes128Gcm =>
        let? cipher := mlift (ok_or (Aes128Gcm_new_from_slice lib (material key))
                                (InvalidKey 16 (zlen (material key)))) in
        on_slice 0 pt_len
          (sw_encrypt cipher nonce aad (ProviderUnavailable "AES-128-GCM seal"))
    | Aes256Gcm =>
        let? cipher := mlift (ok_or (Aes256Gcm_new_from_slice lib (material key))
                                (InvalidKey 32 (zlen (material key)))) in
        on_slice 0 pt_len
          (sw_encrypt cipher nonce aad (ProviderUnavailable "AES-256-GCM seal"))
    | OzDst1105 => mpanic
    end in
  do? on_slice pt_len (usize_add pt_len tag_l) (copy_from_slice tag) ;;
  mret (usize_add pt_len tag_l).

Definition sw_open (self : AesGcmSwProvider) (key : KeyHandle)
    (nonce aad ciphertext : bytes) : M bytes CryptoError Z :=
  let tag_l := tag_len (sw_algo self) in
  do? mguard (zlen ciphertext <? tag_l) AuthFailed ;;
  let pt_len := usize_sub (zlen ciphertext) tag_l in
  do? check_inputs self key nonce (zlen ciphertext) false ;;
  let? ct := mpure (slice_to pt_len ciphertext) in
  do? on_slice 0 pt_len (copy_from_slice ct) ;;
  let? tag_bytes := mpure (slice_from pt_len ciphertext) in
  let? tag := mpure (from_slice lib 16 tag_bytes) in
  do? match sw_algo self with
      | Aes128Gcm =>
          let? cipher := mlift (ok_or (Aes128Gcm_new_from_slice lib (material key))
                                  (InvalidKey 16 (zlen (material key)))) in
          on_slice 0 pt_len (sw_decrypt cipher nonce aad tag)
      | Aes256Gcm =>
          let? cipher := mlift (ok_or (Aes256Gcm_new_from_slice lib (material key))
                                  (InvalidKey 32 (zlen (material key)))) in
          on_slice 0 pt_len (sw_decrypt cipher nonce aad tag)
      | OzDst1105 => mpanic
      end ;;
  mret pt_len.

(** [Box<dyn CryptoProvider>] of the provider. *)
Definition sw_provider (self : AesGcmSwProvider) : CryptoProvider :=
  mkProvider (sw_algo self) (sw_seal self) (sw_open self).
End Provider.

(** * The provider keeps the contract *)

Section Contract.
Context (lib : AesGcmCrate) (ae : Aead) `{!AesGcmCrateLaws lib ae, !AeadLaws ae}.

(** What [AesGcmSwProvider_new] establishes; the field is private, so no
    other provider exists. *)
Definition sw_ok (self : AesGcmSwProvider) : Prop :=
  sw_algo self = Aes128Gcm \/ sw_algo self = Aes256Gcm.

Lemma sw_new_ok a self : AesGcmSwProvider_new a = Ok self -> sw_ok self /\ sw_algo self = a.
Proof. destruct a; simpl; intros [= <-]; split; unfold sw_ok; simpl; auto. Qed.

Definition need_of (self : AesGcmSwProvider) (body_len : Z) (is_seal : bool) : Z :=
  if is_seal then usize_add body_len (tag_len (sw_algo self))
  else usize_saturating_sub body_len (tag_len (sw_algo self)).

(** The checks, in their order; the buffer is only measured. *)
Lemma check_inputs_run self key nonce body_len is_seal out :
  check_inputs self key nonce body_len is_seal out =
  Returns
    (if decide (algo key <> sw_algo self) then
       Err (AlgorithmMismatch (sw_algo self) (algo key))
     else if decide (zlen (material key) <> key_len (sw_algo self)) then
       Err (InvalidKey (key_len (sw_algo self)) (zlen (material key)))
     else if decide (zlen nonce <> nonce_len (sw_algo self)) then
       Err (InvalidNonce (nonce_len (sw_algo self)) (zlen nonce))
     else if decide (zlen out < need_of self body_len is_seal) then
       Err (BufferTooSmall (need_of self body_len is_seal) (zlen out))
     else Ok tt, out).
Proof.
  unfold check_inputs, need_of. rewrite mguard_seq.
  case_bool_decide; case_decide; try congruence; simpl; [|done].
  rewrite mguard_seq. destruct (Z.eqb_spec (zlen (material key)) (key_len (sw_algo self)));
    case_decide; try congruence; simpl; [|done].
  rewrite mguard_seq. destruct (Z.eqb_spec (zlen nonce) (nonce_len (sw_algo self)));
    case_decide; try congruence; simpl; [|done].
  rewrite mget_seq, mguard_seq. destruct (Z.ltb_spec (zlen out)
    (if is_seal then usize_add body_len (tag_len (sw_algo self))
     else usize_saturating_sub body_len (tag_len (sw_algo self))));
    case_decide; try lia; done.
Qed.

(** Both arms of the dispatch on the key size. *)
Lemma sw_cipher_of (self : AesGcmSwProvider) (m : bytes) :
  sw_ok self -> zlen m = key_len (sw_algo self) ->
  exists c, sw_keyed lib c m /\
    match sw_algo self with
    | Aes128Gcm => Aes128Gcm_new_from_slice lib m = Some c
    | Aes256Gcm => Aes256Gcm_new_from_slice lib m = Some c
    | OzDst1105 => False
    end.
Proof.
  intros [E|E] Hm; rewrite E in *; simpl in *.
  - destruct (proj2 (Aes128Gcm_new_iff m) Hm) as [c Hc]. exists c. by split; [left|].
  - destruct (proj2 (Aes256Gcm_new_iff m) Hm) as [c Hc]. exists c. by split; [right|].
Qed.

Lemma sw_encrypt_run c k nonce aad e p m :
  sw_keyed lib c k -> zlen nonce = 12 -> zlen aad <= gcm_limit -> zlen p <= gcm_limit ->
  m = p ->
  sw_encrypt lib c nonce aad e m =
  Returns (Ok (snd (ae_seal ae k nonce aad p)), fst (ae_seal ae k nonce aad p)).
Proof.
  intros Hc Hn Ha Hp ->. unfold sw_encrypt. rewrite from_slice_ok by done. simpl.
  by rewrite (encrypt_spec c k) by done.
Qed.

Lemma sw_seal_body self key nonce aad pt out :
  sw_ok self -> key_wf key -> algo key = sw_algo self -> zlen nonce = 12 -> fits pt ->
  zlen aad <= gcm_limit -> zlen pt <= gcm_limit -> zlen pt + 16 <= zlen out ->
  sw_seal lib self key nonce aad pt out =
  Returns (Ok (zlen pt + 16),
           fst (ae_seal ae (material key) nonce aad pt) ++
           snd (ae_seal ae (material key) nonce aad pt) ++ zdrop (zlen pt + 16) out).
Proof.
  intros Hs Hwf Halg Hn Hfit Ha Hp Hout. unfold sw_seal.
  pose proof Hwf as Hm. unfold key_wf in Hm. rewrite Halg in Hm.
  mrun (rewrite check_inputs_run).
  unfold need_of. rewrite nonce_len_12, tag_len_16. usizes.
  repeat (rewrite decide_False by lia || congruence).
  destruct (sw_cipher_of self (material key) Hs Hm) as (c & Hc & Hnew).
  destruct (ae_seal_lengths (material key) nonce aad pt _ _
              (key_wf_gcm _ _ Hwf Halg Hs) Hn (surjective_pairing _)) as [Hct Htag].
  destruct (zsplit (zlen pt) out) as (o1 & o2 & -> & Ho1); [zlen_solve|].
  autorewrite with rust in Hout.
  destruct (zsplit 16 o2) as (o3 & o4 & -> & Ho3); [zlen_solve|].
  mrun (rewrite on_slice_to_app, copy_from_slice_ok by done).
  rewrite (zdrop_app_add o1 _ 16), (zdrop_app o3) by lia.
  destruct (sw_algo self); try done;
    (erewrite mseq_run;
     [|unfold mseq, mlift; rewrite Hnew; simpl; rewrite on_slice_to_app by done;
       erewrite sw_encrypt_run by done; reflexivity]); cbv beta iota;
    (erewrite mseq_run;
     [|rewrite on_slice_app by lia; rewrite copy_from_slice_ok by lia; reflexivity]);
    done.
Qed.

Lemma sw_decrypt_run c k nonce aad tag b :
  sw_keyed lib c k -> zlen nonce = 12 -> zlen tag = 16 ->
  zlen aad <= gcm_limit -> zlen b <= gcm_limit ->
  exists b', zlen b' = zlen b /\
    sw_decrypt lib c nonce aad tag b =
      Returns (match ae_open ae k nonce aad b tag with
               | Some _ => Ok tt
               | None => Err AuthFailed
               end, b') /\
    forall p, ae_open ae k nonce aad b tag = Some p -> b' = p.
Proof.
  intros Hc Hn Ht Ha Hb. unfold sw_decrypt. rewrite from_slice_ok by done. simpl.
  pose proof (decrypt_spec c k nonce aad b tag Hc Hn Ht Ha Hb) as H.
  pose proof (decrypt_length (lib := lib) c nonce aad b tag) as Hl.
  destruct (ae_open ae k nonce aad b tag) as [p|].
  - rewrite H in *. exists p. split_and!; [done..|]. by intros ? [= <-].
  - destruct (decrypt_in_place_detached lib c nonce aad b tag) as [b' ok].
    simpl in *. subst ok. by exists b'.
Qed.

Lemma sw_open_body self key nonce aad ct tag out :
  sw_ok self -> key_wf key -> algo key = sw_algo self -> zlen nonce = 12 ->
  fits (ct ++ tag) -> zlen tag = 16 ->
  zlen aad <= gcm_limit -> zlen ct <= gcm_limit -> zlen ct <= zlen out ->
  let r := ok_or (ae_open ae (material key) nonce aad ct tag) AuthFailed in
  exists out', sw_open lib self key nonce aad (ct ++ tag) out =
    Returns (map_ok zlen r, out') /\ open_leaves r out out'.
Proof.
  intros Hs Hwf Halg Hn Hfit Htag Ha Hp Hout r. unfold sw_open.
  pose proof Hwf as Hm. unfold key_wf in Hm. rewrite Halg in Hm.
  rewrite mguard_seq, tag_len_16, (proj2 (Z.ltb_ge _ _)) by zlen_solve.
  mrun (rewrite check_inputs_run).
  unfold need_of, usize_saturating_sub. rewrite nonce_len_12, tag_len_16. usizes.
  assert (zlen (ct ++ tag) - 16 = zlen ct) as -> by zlen_solve.
  pose proof (zlen_nonneg ct).
  repeat (rewrite decide_False by lia || congruence).
  destruct (sw_cipher_of self (material key) Hs Hm) as (c & Hc & Hnew).
  destruct (zsplit (zlen ct) out) as (o1 & o2 & -> & Ho1); [lia|].
  mrun (unfold mpure; rewrite slice_to_app by done).
  mrun (rewrite on_slice_to_app, copy_from_slice_ok by done).
  mrun (unfold mpure; rewrite slice_from_app by done).
  mrun (unfold mpure; rewrite from_slice_ok by done).
  destruct (sw_decrypt_run c (material key) nonce aad tag ct) as (b' & Hb' & Hrun & Hpt);
    [done..|].
  assert (Hpl : forall p, ae_open ae (material key) nonce aad ct tag = Some p -> zlen p = zlen ct)
    by (intros; eapply (ae_open_length ae); eauto using key_wf_gcm).
  exists (b' ++ o2). subst r. split.
  - destruct (sw_algo self); try done; unfold mseq, mlift; rewrite Hnew; simpl;
      rewrite on_slice_to_app, Hrun by done;
      destruct (ae_open ae (material key) nonce aad ct tag) eqn:Eo; simpl;
      by rewrite ?(Hpl _ eq_refl).
  - destruct (ae_open ae (material key) nonce aad ct tag) as [p|] eqn:Eo; simpl.
    + rewrite (Hpt p), (Hpl p) by done. by rewrite (zdrop_app o1) by lia.
    + rewrite !zlen_app. lia.
Qed.

(** ** No panics *)

Lemma check_inputs_safe self key nonce body_len is_seal n :
  safe_at n (check_inputs self key nonce body_len is_seal)
    (fun _ => zlen (material key) = key_len (sw_algo self) /\ zlen nonce = 12 /\
              need_of self body_len is_seal <= n).
Proof.
  intros s Hs. rewrite check_inputs_run, nonce_len_12, Hs.
  eexists _, _. split; [done|]. split; [done|]. intros [].
  repeat case_decide; try done. intros _. lia.
Qed.

Lemma sw_encrypt_safe c nonce aad e n :
  zlen nonce = 12 -> safe_at n (sw_encrypt lib c nonce aad e) (fun t => zlen t = 16).
Proof.
  intros Hn s Hs. unfold sw_encrypt. rewrite from_slice_ok by done. simpl.
  pose proof (encrypt_length (lib := lib) c nonce aad s) as Hl.
  pose proof (encrypt_tag_length (lib := lib) c nonce aad s) as Ht.
  destruct (encrypt_in_place_detached lib c nonce aad s) as [s' [t|]]; simpl in *;
    eexists _, _; (split; [done|]; split; [lia|]); intros ? [= <-]; auto.
Qed.

Lemma sw_decrypt_safe c nonce aad tag n :
  zlen nonce = 12 -> safe_at n (sw_decrypt lib c nonce aad tag) (fun _ => True).
Proof.
  intros Hn s Hs. unfold sw_decrypt. rewrite from_slice_ok by done. simpl.
  pose proof (decrypt_length (lib := lib) c nonce aad s tag) as Hl.
  destruct (decrypt_in_place_detached lib c nonce aad s tag) as [s' ok]; simpl in *.
  eexists _, _. split; [done|]. split; [lia|done].
Qed.

Lemma sw_seal_safe self key nonce aad pt n :
  sw_ok self -> fits pt ->
  safe_at n (sw_seal lib self key nonce aad pt) (fun w => w = zlen pt + 16 /\ w <= n).
Proof.
  intros Hs Hfit. unfold sw_seal.
  eapply safe_mseq; [apply check_inputs_safe|]. intros _ (Hm & Hn & Hneed).
  unfold need_of in Hneed. rewrite tag_len_16 in *. usizes. pose proof (zlen_nonneg pt).
  eapply safe_mseq; [apply safe_on_slice; [lia|lia|apply safe_copy; lia]|]. intros _ _.
  eapply (safe_mseq _ _ _ (fun t => zlen t = 16)).
  - destruct Hs as [E|E]; rewrite E;
      (eapply safe_mseq; [by apply (safe_mlift _ _ (fun _ => True))|]; intros c _);
      apply safe_on_slice; eauto using sw_encrypt_safe; lia.
  - intros t Ht. eapply safe_mseq; [apply safe_on_slice; [lia|lia|apply safe_copy; lia]|].
    intros _ _. apply safe_mret. lia.
Qed.

Lemma sw_open_safe self key nonce aad ct n :
  sw_ok self -> fits ct ->
  safe_at n (sw_open lib self key nonce aad ct) (fun w => w + 16 = zlen ct /\ 0 <= w <= n).
Proof.
  intros Hs Hfit. unfold sw_open. rewrite tag_len_16.
  apply safe_guard. intros Hlen%Z.ltb_ge.
  eapply safe_mseq; [apply check_inputs_safe|]. intros _ (Hm & Hn & Hneed).
  unfold need_of, usize_saturating_sub in Hneed. rewrite tag_len_16 in *. usizes.
  destruct (zsplit (zlen ct - 16) ct) as (c1 & tag & -> & Hc1); [lia|].
  autorewrite with rust in *. rewrite <-Hc1.
  pose proof (zlen_nonneg c1).
  eapply safe_mseq; [by eapply (safe_mpure _ _ c1 (eq c1)); [apply slice_to_app|]|].
  intros ? <-.
  eapply safe_mseq; [apply safe_on_slice; [lia|lia|apply safe_copy; lia]|]. intros _ _.
  eapply safe_mseq; [by eapply (safe_mpure _ _ tag (eq tag)); [apply slice_from_app|]|].
  intros ? <-.
  eapply safe_mseq;
    [by eapply (safe_mpure _ _ tag (eq tag)); [apply from_slice_ok; lia|]|].
  intros ? <-.
  eapply (safe_mseq _ _ _ (fun _ => True)).
  - destruct Hs as [E|E]; rewrite E;
      (eapply safe_mseq; [by apply (safe_mlift _ _ (fun _ => True))|]; intros c _);
      apply safe_on_slice; eauto using sw_decrypt_safe; lia.
  - intros _ _. apply safe_mret. lia.
Qed.

(** ** Every branch, for a well-formed key *)

Lemma sw_seal_run self key nonce aad pt out :
  sw_ok self -> key_wf key -> fits pt -> zlen aad <= gcm_limit -> zlen pt <= gcm_limit ->
  sw_seal lib self key nonce aad pt out =
  Returns (seal_spec ae (sw_algo self) key nonce aad pt out).
Proof.
  intros Hs Hwf Hfit Ha Hp. unfold seal_spec.
  destruct (decide (algo key <> sw_algo self)) as [Halg|Halg%dec_stable];
    [|destruct (decide (zlen nonce <> nonce_len (sw_algo self))) as [Hn|Hn%dec_stable];
      [|destruct (decide (zlen out < zlen pt + tag_len (sw_algo self))) as [Ho|Ho]]].
  4: { rewrite nonce_len_12, tag_len_16 in *.
       rewrite sw_seal_body by (done || lia). by destruct (ae_seal _ _ _ _ _). }
  all: unfold sw_seal; mrun (rewrite check_inputs_run); unfold need_of; rewrite ?tag_len_16 in *; usizes.
  1: by rewrite decide_True by done.
  all: unfold key_wf in Hwf; rewrite Halg in Hwf.
  all: repeat (rewrite decide_False by lia || congruence);
    rewrite ?tag_len_16 in *; by rewrite decide_True by (done || lia).
Qed.

Lemma sw_open_run self key nonce aad ct out :
  sw_ok self -> key_wf key -> fits ct -> zlen aad <= gcm_limit -> zlen ct <= gcm_limit ->
  let r := open_spec ae (sw_algo self) key nonce aad ct (zlen out) in
  exists out', sw_open lib self key nonce aad ct out = Returns (map_ok zlen r, out') /\
    open_leaves r out out'.
Proof.
  intros Hs Hwf Hfit Ha Hp. unfold open_spec.
  destruct (decide (zlen ct - tag_len (sw_algo self) < 0)) as [Hl|Hl].
  { exists out. split; [|done]. unfold sw_open.
    rewrite mguard_seq. by rewrite (proj2 (Z.ltb_lt _ _)) by lia. }
  destruct (decide (algo key <> sw_algo self)) as [Halg|Halg%dec_stable];
    [|destruct (decide (zlen nonce <> nonce_len (sw_algo self))) as [Hn|Hn%dec_stable];
      [|destruct (decide (zlen out < zlen ct - tag_len (sw_algo self))) as [Ho|Ho]]].
  4: { rewrite nonce_len_12, tag_len_16 in *.
       destruct (zsplit (zlen ct - 16) ct) as (c & tag & -> & Hc); [zlen_solve|].
       rewrite <-Hc, (ztake_app c tag), (zdrop_app c tag) by done.
       autorewrite with rust in *. zlen_pose.
       apply sw_open_body; auto; zlen_solve. }
  all: exists out; split; [|done]; unfold sw_open; rewrite mguard_seq;
    rewrite (proj2 (Z.ltb_ge _ _)) by lia; mrun (rewrite check_inputs_run);
    unfold need_of, usize_saturating_sub.
  1: by rewrite decide_True by done.
  all: unfold key_wf in Hwf; rewrite Halg in Hwf.
  all: repeat (rewrite decide_False by lia || congruence); rewrite decide_True by (done || lia).
  1: done.
  by rewrite Z.max_r by lia.
Qed.

Lemma sw_contract self : sw_ok self -> ProviderContract ae (sw_provider lib self).
Proof.
  intros Hs. split; simpl.
  - done.
  - intros. by apply sw_seal_run.
  - intros. by apply sw_open_run.
  - intros. by apply sw_seal_safe.
  - intros. by apply sw_open_safe.
Qed.
End Contract.
