(* ===== verification/AesGcmRing.v ===== *)
(** The ring provider
    (src/cryptod/crates/acm-crypto/src/aes_gcm_ring.rs), over the interface of
    the crate ring, and its proof of the provider contract. *)

From S2P Require Import Prelude Crypto Aead.

Record AesGcmRingProvider : Type := mkRing { ring_algo_id : AlgoId }.

Definition AesGcmRingProvider_new (a : AlgoId) : result AesGcmRingProvider CryptoError :=
  match a with
  | Aes128Gcm | Aes256Gcm => Ok (mkRing a)
  | other =>
      Err (ProviderUnavailable ("AesGcmRingProvider doesn't support " +:+ AlgoId_debug other))
  end.

Definition ring_algo (self : AesGcmRingProvider) : outcome RingAlgorithm :=
  match ring_algo_id self with
  | Aes128Gcm => Returns AES_128_GCM
  | Aes256Gcm => Returns AES_256_GCM
  | OzDst1105 => Panics
  end.

(** [nonce.try_into()] to a [[u8; 12]]. *)
Definition nonce_try_into (nonce : bytes) : result bytes CryptoError :=
  if zlen nonce =? 12 then Ok nonce else Err (InvalidNonce 12 (zlen nonce)).

Section Provider.
Context (lib : RingCrate).

Definition bound_key (self : AesGcmRingProvider) (material : bytes)
    : outcome (result (LessSafeKey lib) CryptoError) :=
  let! r := ring_algo self in
  Returns
    match UnboundKey_new lib r material with
    | Some unbound => Ok (LessSafeKey_new lib unbound)
    | None => Err (InvalidKey (key_len (ring_algo_id self)) (zlen material))
    end.

(** [safe_key.seal_in_place_separate_tag(nonce, aad, buf).map_err(..)]. *)
Definition ring_encrypt (k : LessSafeKey lib) (nonce aad : bytes)
    : M bytes CryptoError bytes :=
  fun buf =>
    let (buf', tag) := seal_in_place_separate_tag lib k nonce aad buf in
    Returns (ok_or tag (ProviderUnavailable "ring seal"), buf').

Definition ring_seal (self : AesGcmRingProvider) (key : KeyHandle)
    (nonce aad plaintext : bytes) : M bytes CryptoError Z :=
  do? mguard (negb (bool_decide (algo key = ring_algo_id self)))
        (AlgorithmMismatch (ring_algo_id self) (algo key)) ;;
  do? mguard (negb (zlen nonce =? nonce_len (ring_algo_id self)))
        (InvalidNonce (nonce_len (ring_algo_id self)) (zlen nonce)) ;;
  let need := usize_add (zlen plaintext) (tag_len (ring_algo_id self)) in
  let? out := mget in
  do? mguard (zlen out <? need) (BufferTooSmall need (zlen out)) ;;
  let? bound := mpure (bound_key self (material key)) in
  let? safe_key := mlift bound in
  let? nonce_arr := mlift (nonce_try_into nonce) in
  do? on_slice 0 (zlen plaintext) (copy_from_slice plaintext) ;;
  let? tag := on_slice 0 (zlen plaintext) (ring_encrypt safe_key nonce_arr aad) in
  do? on_slice (zlen plaintext) need (copy_from_slice tag) ;;
  mret need.

Definition ring_open (self : AesGcmRingProvider) (key : KeyHandle)
    (nonce aad ciphertext : bytes) : M bytes CryptoError Z :=
  let tag_l := tag_len (ring_algo_id self) in
  do? mguard (zlen ciphertext <? tag_l) AuthFailed ;;
  do? mguard (negb (bool_decide (algo key = ring_algo_id self)))
        (AlgorithmMismatch (ring_algo_id self) (algo key)) ;;
  do? mguard (negb (zlen nonce =? nonce_len (ring_algo_id self)))
        (InvalidNonce (nonce_len (ring_algo_id self)) (zlen nonce)) ;;
  let pt_len := usize_sub (zlen ciphertext) tag_l in
  let? out := mget in
  do? mguard (zlen out <? pt_len) (BufferTooSmall pt_len (zlen out)) ;;
  let? bound := mpure (bound_key self (material key)) in
  let? safe_key := mlift bound in
  let? nonce_arr := mlift (nonce_try_into nonce) in
  let work_buf := ciphertext in
  let? pt_slice :=
    mlift (ok_or (open_in_place lib safe_key nonce_arr aad work_buf) AuthFailed) in
  do? on_slice 0 (zlen pt_slice) (copy_from_slice pt_slice) ;;
  mret (zlen pt_slice).

(** [Box<dyn CryptoProvider>] of the provider. *)
Definition ring_provider (self : AesGcmRingProvider) : CryptoProvider :=
  mkProvider (ring_algo_id self) (ring_seal self) (ring_open self).
End Provider.

(** * The provider keeps the contract *)

Section Contract.
Context (lib : RingCrate) (ae : Aead) `{!RingCrateLaws lib ae, !AeadLaws ae}.

Definition ring_ok (self : AesGcmRingProvider) : Prop :=
  ring_algo_id self = Aes128Gcm \/ ring_algo_id self = Aes256Gcm.

Lemma ring_new_ok a self :
  AesGcmRingProvider_new a = Ok self -> ring_ok self /\ ring_algo_id self = a.
Proof. destruct a; simpl; intros [= <-]; split; unfold ring_ok; simpl; auto. Qed.

Lemma bound_key_run self m :
  ring_ok self ->
  (exists c, bound_key lib self m = Returns (Ok c) /\
     ring_keyed lib c m /\ zlen m = key_len (ring_algo_id self)) \/
  (bound_key lib self m =
     Returns (Err (InvalidKey (key_len (ring_algo_id self)) (zlen m))) /\
   zlen m <> key_len (ring_algo_id self)).
Proof.
  intros Hs. unfold bound_key.
  assert (exists r, ring_algo self = Returns r /\ ring_key_len r = key_len (ring_algo_id self))
    as (r & -> & Hr) by (unfold ring_algo; destruct Hs as [-> | ->]; eauto).
  simpl. rewrite <-Hr. pose proof (UnboundKey_new_iff (lib := lib) r m) as Hiff.
  destruct (UnboundKey_new lib r m) as [u|] eqn:Eu.
  - left. exists (LessSafeKey_new lib u). split; [done|]. split; [by exists r, u|].
    apply Hiff. eauto.
  - right. split; [done|]. intros Hm. apply Hiff in Hm as [? ?]. done.
Qed.

Lemma nonce_try_into_ok nonce : zlen nonce = 12 -> nonce_try_into nonce = Ok nonce.
Proof. intros H. unfold nonce_try_into. by rewrite (proj2 (Z.eqb_eq _ _)). Qed.

Lemma ring_encrypt_run c k nonce aad p :
  ring_keyed lib c k -> zlen nonce = 12 -> zlen aad <= gcm_limit -> zlen p <= gcm_limit ->
  ring_encrypt lib c nonce aad p =
  Returns (Ok (snd (ae_seal ae k nonce aad p)), fst (ae_seal ae k nonce aad p)).
Proof.
  intros Hc Hn Ha Hp. unfold ring_encrypt. by rewrite (seal_in_place_spec c k) by done.
Qed.

(** ** Every branch, for a well-formed key *)

Lemma ring_seal_run self key nonce aad pt out :
  ring_ok self -> key_wf key -> fits pt -> zlen aad <= gcm_limit -> zlen pt <= gcm_limit ->
  ring_seal lib self key nonce aad pt out =
  Returns (seal_spec ae (ring_algo_id self) key nonce aad pt out).
Proof.
  intros Hs Hwf Hfit Ha Hp. unfold seal_spec, ring_seal. rewrite mguard_seq.
  case_bool_decide as Halg; [rewrite decide_False by tauto | by rewrite decide_True by done].
  rewrite nonce_len_12, tag_len_16. simpl negb. cbv iota. rewrite mguard_seq.
  destruct (Z.eqb_spec (zlen nonce) 12) as [Hn|Hn];
    [rewrite decide_False by lia | by rewrite decide_True by done].
  simpl negb. cbv iota. usizes. rewrite mget_seq, mguard_seq.
  destruct (Z.ltb_spec (zlen out) (zlen pt + 16)) as [Ho|Ho];
    [by rewrite decide_True by lia | rewrite decide_False by lia].
  destruct (bound_key_run self (material key) Hs) as [(c & Hb & Hc & _)|[_ Hbad]];
    [|unfold key_wf in Hwf; congruence].
  mrun (unfold mpure; rewrite Hb). mrun (idtac).
  mrun (rewrite nonce_try_into_ok by done).
  pose proof (zlen_nonneg pt).
  destruct (zsplit (zlen pt) out) as (o1 & o2 & -> & Ho1); [lia|].
  autorewrite with rust in Ho.
  destruct (zsplit 16 o2) as (o3 & o4 & -> & Ho3); [lia|].
  mrun (rewrite on_slice_to_app, copy_from_slice_ok by done).
  mrun (rewrite on_slice_to_app by done; erewrite ring_encrypt_run by done).
  destruct (ae_seal_lengths (material key) nonce aad pt _ _
              (key_wf_gcm _ _ Hwf Halg Hs) Hn (surjective_pairing _)) as [Hct Htag].
  mrun (rewrite on_slice_app by lia; rewrite copy_from_slice_ok by lia).
  rewrite (zdrop_app_add o1 _ 16), (zdrop_app o3) by lia.
  by destruct (ae_seal ae (material key) nonce aad pt).
Qed.

Lemma ring_open_run self key nonce aad ct out :
  ring_ok self -> key_wf key -> fits ct -> zlen aad <= gcm_limit -> zlen ct <= gcm_limit ->
  let r := open_spec ae (ring_algo_id self) key nonce aad ct (zlen out) in
  exists out', ring_open lib self key nonce aad ct out = Returns (map_ok zlen r, out') /\
    open_leaves r out out' /\ (is_ok r = false -> out' = out).
Proof.
  intros Hs Hwf Hfit Ha Hp. unfold open_spec, ring_open. rewrite mguard_seq, tag_len_16.
  destruct (Z.ltb_spec (zlen ct) 16) as [Hl|Hl];
    [rewrite decide_True by lia; by exists out | rewrite decide_False by lia].
  rewrite mguard_seq.
  case_bool_decide as Halg;
    [rewrite decide_False by tauto | rewrite decide_True by done; by exists out].
  rewrite nonce_len_12. simpl negb. cbv iota. rewrite mguard_seq.
  destruct (Z.eqb_spec (zlen nonce) 12) as [Hn|Hn];
    [rewrite decide_False by lia | rewrite decide_True by done; by exists out].
  simpl negb. cbv iota. usizes. rewrite mget_seq, mguard_seq.
  destruct (Z.ltb_spec (zlen out) (zlen ct - 16)) as [Ho|Ho];
    [rewrite decide_True by lia; by exists out | rewrite decide_False by lia].
  destruct (bound_key_run self (material key) Hs) as [(c & Hb & Hc & _)|[_ Hbad]];
    [|unfold key_wf in Hwf; congruence].
  mrun (unfold mpure; rewrite Hb). mrun (idtac).
  mrun (rewrite nonce_try_into_ok by done).
  destruct (zsplit (zlen ct - 16) ct) as (c1 & tag & -> & Hc1); [lia|].
  autorewrite with rust in *. zlen_pose.
  assert (zlen c1 + zlen tag - 16 = zlen c1) as E by lia. rewrite E in *.
  rewrite (ztake_app c1 tag), (zdrop_app c1 tag) by done.
  assert (Htag : zlen tag = 16) by lia.
  assert (Hop : open_in_place lib c nonce aad (c1 ++ tag) =
                ae_open ae (material key) nonce aad c1 tag)
    by (apply open_in_place_spec; auto; lia).
  destruct (ae_open ae (material key) nonce aad c1 tag) as [p|] eqn:Eo.
  - mrun (rewrite Hop; simpl ok_or).
    assert (zlen p = zlen c1) as Hpl
      by (eapply (ae_open_length ae); eauto using key_wf_gcm).
    destruct (zsplit (zlen p) out) as (o1 & o2 & -> & Ho1); [lia|].
    mrun (rewrite on_slice_to_app, copy_from_slice_ok by done).
    exists (p ++ o2). split; [done|]. split; [|done].
    simpl. by rewrite (zdrop_app o1) by done.
  - exists out. split; [|done]. unfold mlift, mseq. by rewrite Hop.
Qed.

(** ** No panics *)

Lemma ring_encrypt_safe c nonce aad n :
  safe_at n (ring_encrypt lib c nonce aad) (fun t => zlen t = 16).
Proof.
  intros s Hs. unfold ring_encrypt.
  pose proof (seal_in_place_length (lib := lib) c nonce aad s) as Hl.
  pose proof (seal_in_place_tag_length (lib := lib) c nonce aad s) as Ht.
  destruct (seal_in_place_separate_tag lib c nonce aad s) as [s' [t|]]; simpl in *;
    eexists _, _; (split; [done|]; split; [lia|]); intros ? [= <-]; auto.
Qed.

Lemma safe_bound_key {A} self m n (f : LessSafeKey lib -> M bytes CryptoError A) R :
  ring_ok self ->
  (forall c, zlen m = key_len (ring_algo_id self) -> safe_at n (f c) R) ->
  safe_at n (let? bound := mpure (bound_key lib self m) in let? k := mlift bound in f k) R.
Proof.
  intros Hs Hf s Hn. destruct (bound_key_run self m Hs) as [(c & Hb & _ & Hm)|[Hb _]].
  - mrun (unfold mpure; rewrite Hb). mrun (idtac). by apply Hf.
  - mrun (unfold mpure; rewrite Hb). mrun (idtac).
    eexists _, _. split; [done|]. split; [done|]. congruence.
Qed.

Lemma ring_seal_safe self key nonce aad pt n :
  ring_ok self -> fits pt ->
  safe_at n (ring_seal lib self key nonce aad pt) (fun w => w = zlen pt + 16 /\ w <= n).
Proof.
  intros Hs Hfit. unfold ring_seal. rewrite nonce_len_12, tag_len_16. usizes.
  pose proof (zlen_nonneg pt).
  apply safe_guard. intros _. apply safe_guard. intros Hn%negb_false_iff%Z.eqb_eq.
  apply safe_get. intros out <-. apply safe_guard. intros Ho%Z.ltb_ge.
  apply safe_bound_key; [done|]. intros c _.
  eapply (safe_mseq _ _ _ (fun _ => True)); [by apply safe_mlift|]. intros n' _.
  eapply safe_mseq; [apply safe_on_slice; [lia|lia|apply safe_copy; lia]|]. intros _ _.
  eapply safe_mseq; [apply safe_on_slice; [lia|lia|apply ring_encrypt_safe]|]. intros t Ht.
  simpl in Ht.
  eapply safe_mseq; [apply safe_on_slice; [lia|lia|apply safe_copy; lia]|]. intros _ _.
  apply safe_mret. lia.
Qed.

Lemma ring_open_safe self key nonce aad ct n :
  ring_ok self -> fits ct ->
  safe_at n (ring_open lib self key nonce aad ct) (fun w => w + 16 = zlen ct /\ 0 <= w <= n).
Proof.
  intros Hs Hfit. unfold ring_open. rewrite nonce_len_12, tag_len_16.
  apply safe_guard. intros Hl%Z.ltb_ge. usizes.
  apply safe_guard. intros _. apply safe_guard. intros _.
  apply safe_get. intros out <-. apply safe_guard. intros Ho%Z.ltb_ge.
  apply safe_bound_key; [done|]. intros c _.
  eapply (safe_mseq _ _ _ (fun _ => True)); [by apply safe_mlift|]. intros n' _.
  eapply (safe_mseq _ _ _ (fun p => zlen p + 16 = zlen ct)).
  { apply safe_mlift. intros p Hp. unfold ok_or in Hp.
    destruct (open_in_place lib c n' aad ct) eqn:E; [|done].
    injection Hp as <-. by eapply open_in_place_length. }
  intros p Hp. pose proof (zlen_nonneg p).
  eapply safe_mseq; [apply safe_on_slice; [lia|lia|apply safe_copy; lia]|]. intros _ _.
  apply safe_mret. lia.
Qed.

Lemma ring_contract self : ring_ok self -> ProviderContract ae (ring_provider lib self).
Proof.
  intros Hs. split; simpl.
  - done.
  - intros. by apply ring_seal_run.
  - intros key nonce aad ct out Hwf Hfit Ha Hp.
    destruct (ring_open_run self key nonce aad ct out Hs Hwf Hfit Ha Hp)
      as (out' & ? & ? & _). eauto.
  - intros. by apply ring_seal_safe.
  - intros. by apply ring_open_safe.
Qed.
End Contract.
