(* ===== verification/AesGcmRef.v ===== *)
(** A reference AES-GCM (FIPS 197, NIST SP 800-38D), and the two third-party
    crates built on it.  It models no code of the repository: it shows that
    the interfaces of [Aead] have an implementation, and lets the witnesses
    and the repository's test vectors run. *)

From Stdlib Require Import Strings.Byte.
From S2P Require Import Prelude Crypto Aead.

(** * Bytes *)

Definition byte_of_N (n : N) : byte :=
  match Byte.of_N (N.modulo n 256) with Some b => b | None => x00 end.
Definition bxor (a b : byte) : byte := byte_of_N (N.lxor (Byte.to_N a) (Byte.to_N b)).
Definition bxors (l k : bytes) : bytes := zip_with bxor l k.

(** Exactly [n] bytes, cut or filled up with zeros. *)
Definition pad_to (n : nat) (l : bytes) : bytes := take n (l ++ replicate n x00).

(** * AES *)

Definition sbox (b : byte) : byte :=
  match b with
  | x00 => x63 | x01 => x7c | x02 => x77 | x03 => x7b | x04 => xf2 | x05 => x6b | x06 => x6f | x07 => xc5
  | x08 => x30 | x09 => x01 | x0a => x67 | x0b => x2b | x0c => xfe | x0d => xd7 | x0e => xab | x0f => x76
  | x10 => xca | x11 => x82 | x12 => xc9 | x13 => x7d | x14 => xfa | x15 => x59 | x16 => x47 | x17 => xf0
  | x18 => xad | x19 => xd4 | x1a => xa2 | x1b => xaf | x1c => x9c | x1d => xa4 | x1e => x72 | x1f => xc0
  | x20 => xb7 | x21 => xfd | x22 => x93 | x23 => x26 | x24 => x36 | x25 => x3f | x26 => xf7 | x27 => xcc
  | x28 => x34 | x29 => xa5 | x2a => xe5 | x2b => xf1 | x2c => x71 | x2d => xd8 | x2e => x31 | x2f => x15
  | x30 => x04 | x31 => xc7 | x32 => x23 | x33 => xc3 | x34 => x18 | x35 => x96 | x36 => x05 | x37 => x9a
  | x38 => x07 | x39 => x12 | x3a => x80 | x3b => xe2 | x3c => xeb | x3d => x27 | x3e => xb2 | x3f => x75
  | x40 => x09 | x41 => x83 | x42 => x2c | x43 => x1a | x44 => x1b | x45 => x6e | x46 => x5a | x47 => xa0
  | x48 => x52 | x49 => x3b | x4a => xd6 | x4b => xb3 | x4c => x29 | x4d => xe3 | x4e => x2f | x4f => x84
  | x50 => x53 | x51 => xd1 | x52 => x00 | x53 => xed | x54 => x20 | x55 => xfc | x56 => xb1 | x57 => x5b
  | x58 => x6a | x59 => xcb | x5a => xbe | x5b => x39 | x5c => x4a | x5d => x4c | x5e => x58 | x5f => xcf
  | x60 => xd0 | x61 => xef | x62 => xaa | x63 => xfb | x64 => x43 | x65 => x4d | x66 => x33 | x67 => x85
  | x68 => x45 | x69 => xf9 | x6a => x02 | x6b => x7f | x6c => x50 | x6d => x3c | x6e => x9f | x6f => xa8
  | x70 => x51 | x71 => xa3 | x72 => x40 | x73 => x8f | x74 => x92 | x75 => x9d | x76 => x38 | x77 => xf5
  | x78 => xbc | x79 => xb6 | x7a => xda | x7b => x21 | x7c => x10 | x7d => xff | x7e => xf3 | x7f => xd2
  | x80 => xcd | x81 => x0c | x82 => x13 | x83 => xec | x84 => x5f | x85 => x97 | x86 => x44 | x87 => x17
  | x88 => xc4 | x89 => xa7 | x8a => x7e | x8b => x3d | x8c => x64 | x8d => x5d | x8e => x19 | x8f => x73
  | x90 => x60 | x91 => x81 | x92 => x4f | x93 => xdc | x94 => x22 | x95 => x2a | x96 => x90 | x97 => x88
  | x98 => x46 | x99 => xee | x9a => xb8 | x9b => x14 | x9c => xde | x9d => x5e | x9e => x0b | x9f => xdb
  | xa0 => xe0 | xa1 => x32 | xa2 => x3a | xa3 => x0a | xa4 => x49 | xa5 => x06 | xa6 => x24 | xa7 => x5c
  | xa8 => xc2 | xa9 => xd3 | xaa => xac | xab => x62 | xac => x91 | xad => x95 | xae => xe4 | xaf => x79
  | xb0 => xe7 | xb1 => xc8 | xb2 => x37 | xb3 => x6d | xb4 => x8d | xb5 => xd5 | xb6 => x4e | xb7 => xa9
  | xb8 => x6c | xb9 => x56 | xba => xf4 | xbb => xea | xbc => x65 | xbd => x7a | xbe => xae | xbf => x08
  | xc0 => xba | xc1 => x78 | xc2 => x25 | xc3 => x2e | xc4 => x1c | xc5 => xa6 | xc6 => xb4 | xc7 => xc6
  | xc8 => xe8 | xc9 => xdd | xca => x74 | xcb => x1f | xcc => x4b | xcd => xbd | xce => x8b | xcf => x8a
  | xd0 => x70 | xd1 => x3e | xd2 => xb5 | xd3 => x66 | xd4 => x48 | xd5 => x03 | xd6 => xf6 | xd7 => x0e
  | xd8 => x61 | xd9 => x35 | xda => x57 | xdb => xb9 | xdc => x86 | xdd => xc1 | xde => x1d | xdf => x9e
  | xe0 => xe1 | xe1 => xf8 | xe2 => x98 | xe3 => x11 | xe4 => x69 | xe5 => xd9 | xe6 => x8e | xe7 => x94
  | xe8 => x9b | xe9 => x1e | xea => x87 | xeb => xe9 | xec => xce | xed => x55 | xee => x28 | xef => xdf
  | xf0 => x8c | xf1 => xa1 | xf2 => x89 | xf3 => x0d | xf4 => xbf | xf5 => xe6 | xf6 => x42 | xf7 => x68
  | xf8 => x41 | xf9 => x99 | xfa => x2d | xfb => x0f | xfc => xb0 | xfd => x54 | xfe => xbb | xff => x16
  end.

Definition xtime (b : byte) : byte :=
  let n := N.double (Byte.to_N b) in
  byte_of_N (if N.ltb n 256 then n else N.lxor n 283).

Definition mix_column (c : bytes) : bytes :=
  match c with
  | [a0; a1; a2; a3] =>
      let t := bxor (bxor a0 a1) (bxor a2 a3) in
      [bxor (bxor a0 t) (xtime (bxor a0 a1)); bxor (bxor a1 t) (xtime (bxor a1 a2));
       bxor (bxor a2 t) (xtime (bxor a2 a3)); bxor (bxor a3 t) (xtime (bxor a3 a0))]
  | _ => c
  end.

(** A block is its four columns, one after the other. *)
Definition shift_rows (s : bytes) : bytes :=
  match s with
  | [a0; a1; a2; a3; b0; b1; b2; b3; c0; c1; c2; c3; d0; d1; d2; d3] =>
      [a0; b1; c2; d3; b0; c1; d2; a3; c0; d1; a2; b3; d0; a1; b2; c3]
  | _ => s
  end.

Definition mix_columns (s : bytes) : bytes :=
  mix_column (take 4 s) ++ mix_column (take 4 (drop 4 s)) ++
  mix_column (take 4 (drop 8 s)) ++ mix_column (drop 12 s).

(** Key expansion: [ws] are the words so far, the last one first. *)
Fixpoint expand (nk : nat) (fuel i : nat) (rcon : byte) (ws : list bytes) : list bytes :=
  match fuel with
  | O => ws
  | S fuel' =>
      let prev := hd [] ws in
      let old := nth (nk - 1) ws [] in
      let '(t, rcon') :=
        if Nat.eqb (Nat.modulo i nk) 0 then
          (bxors (map sbox (drop 1 prev ++ take 1 prev)) [rcon; x00; x00; x00], xtime rcon)
        else if Nat.ltb 6 nk && Nat.eqb (Nat.modulo i nk) 4 then (map sbox prev, rcon)
        else (prev, rcon) in
      expand nk fuel' (S i) rcon' (bxors old t :: ws)
  end.

Fixpoint chunks (n fuel : nat) (l : bytes) : list bytes :=
  match fuel, l with
  | S fuel', _ :: _ => take n l :: chunks n fuel' (drop n l)
  | _, _ => []
  end.

Definition round_keys (key : bytes) : list bytes :=
  let ws := chunks 4 8 key in
  let nk := length ws in
  chunks 16 15 (concat (rev (expand nk (4 * (nk + 7) - nk) nk x01 (rev ws)))).

Fixpoint rounds (s : bytes) (rks : list bytes) : bytes :=
  match rks with
  | [] => s
  | [rk] => bxors (shift_rows (map sbox s)) rk
  | rk :: rks' => rounds (bxors (mix_columns (shift_rows (map sbox s))) rk) rks'
  end.

Definition aes_with (rks : list bytes) (b : bytes) : bytes :=
  match rks with
  | [] => b
  | rk :: rks' => rounds (bxors b rk) rks'
  end.

(** * GCM *)

Fixpoint N_of_bytes (acc : N) (l : bytes) : N :=
  match l with
  | [] => acc
  | b :: l' => N_of_bytes (acc * 256 + Byte.to_N b) l'
  end.

Fixpoint bytes_of_N (len : nat) (n : N) (acc : bytes) : bytes :=
  match len with
  | O => acc
  | S len' => bytes_of_N len' (N.shiftr n 8) (byte_of_N n :: acc)
  end.

Definition gcm_R : N := N.shiftl 225 120.

Fixpoint gf_mul (fuel : nat) (x v z : N) : N :=
  match fuel with
  | O => z
  | S f =>
      let z' := if N.testbit x (N.of_nat f) then N.lxor z v else z in
      let v' := if N.odd v then N.lxor (N.shiftr v 1) gcm_R else N.shiftr v 1 in
      gf_mul f x v' z'
  end.

Definition ghash_step (h y : N) (b : bytes) : N :=
  gf_mul 128 (N.lxor y (N_of_bytes 0 (pad_to 16 b))) h 0.

Definition ghash (h : N) (blocks : list bytes) : N := fold_left (ghash_step h) blocks 0%N.

Definition gcm_blocks (l : bytes) : list bytes := chunks 16 (length l) l.

Definition keystream (rks : list bytes) (nonce : bytes) (n : nat) : bytes :=
  pad_to n
    (concat (map (fun i => aes_with rks (nonce ++ bytes_of_N 4 (N.of_nat i) []))
                 (seq 2 ((n + 15) / 16)))).

Definition gcm_tag (rks : list bytes) (nonce aad ct : bytes) : bytes :=
  let h := N_of_bytes 0 (aes_with rks (replicate 16 x00)) in
  let lens :=
    bytes_of_N 8 (8 * N.of_nat (length aad)) [] ++ bytes_of_N 8 (8 * N.of_nat (length ct)) [] in
  let s := ghash h (gcm_blocks aad ++ gcm_blocks ct ++ [lens]) in
  pad_to 16 (bxors (aes_with rks (nonce ++ [x00; x00; x00; x01])) (bytes_of_N 16 s [])).

Definition gcm_seal (key nonce aad pt : bytes) : bytes * bytes :=
  let rks := round_keys key in
  let ct := bxors pt (keystream rks nonce (length pt)) in
  (ct, gcm_tag rks nonce aad ct).

Definition gcm_open (key nonce aad ct tag : bytes) : option bytes :=
  let rks := round_keys key in
  if bool_decide (gcm_tag rks nonce aad ct = tag)
  then Some (bxors ct (keystream rks nonce (length ct)))
  else None.

#[global] Arguments gcm_seal : simpl never.
#[global] Arguments gcm_open : simpl never.

Definition gcm : Aead := mkAead gcm_seal gcm_open.

(** * The crates *)

(** A cipher object is its key. *)
Definition key_of_len (n : Z) (k : bytes) : option bytes :=
  if zlen k =? n then Some k else None.

Definition ref_aes_gcm : AesGcmCrate := {|
  sw_cipher := bytes;
  Aes128Gcm_new_from_slice := key_of_len 16;
  Aes256Gcm_new_from_slice := key_of_len 32;
  from_slice n b := if zlen b =? n then Returns b else Panics;
  encrypt_in_place_detached k n a p :=
    let '(c, t) := gcm_seal k n a p in (c, Some t);
  decrypt_in_place_detached k n a c t :=
    match gcm_open k n a c t with
    | Some p => (p, true)
    | None => (c, false)
    end;
|}.

Definition ref_ring : RingCrate := {|
  UnboundKey := bytes;
  LessSafeKey := bytes;
  UnboundKey_new r := key_of_len (ring_key_len r);
  LessSafeKey_new k := k;
  seal_in_place_separate_tag k n a p :=
    let '(c, t) := gcm_seal k n a p in (c, Some t);
  open_in_place k n a b :=
    if zlen b <? 16 then None
    else gcm_open k n a (ztake (zlen b - 16) b) (zdrop (zlen b - 16) b);
|}.

(** * Their laws *)

Lemma length_pad_to n l : length (pad_to n l) = n.
Proof. unfold pad_to. rewrite length_take, length_app, length_replicate. lia. Qed.

Lemma bxor_cancel a b : bxor (bxor a b) b = a.
Proof.
  unfold bxor. assert (H : forall x y, Byte.to_N (byte_of_N (N.lxor (Byte.to_N x) (Byte.to_N y)))
                      = N.lxor (Byte.to_N x) (Byte.to_N y)).
  { intros x y. unfold byte_of_N.
    assert (N.lxor (Byte.to_N x) (Byte.to_N y) < 256)%N as Hlt.
    { pose proof (Byte.to_N_bounded x). pose proof (Byte.to_N_bounded y).
      destruct (N.eq_dec (N.lxor (Byte.to_N x) (Byte.to_N y)) 0%N) as [->|Hnz]; [lia|].
      change 256%N with (2 ^ 8)%N. apply N.log2_lt_pow2; [lia|].
      eapply N.le_lt_trans; [apply N.log2_lxor|].
      assert (forall z, z <= 255 -> N.log2 z < 8)%N as Hz.
      { intros z Hz. destruct (N.eq_dec z 0%N) as [->|]; [done|].
        apply N.log2_lt_pow2; lia. }
      apply N.max_lub_lt; by apply Hz. }
    rewrite N.mod_small by done.
    destruct (Byte.of_N _) eqn:E; [by apply Byte.to_of_N|].
    apply Byte.of_N_None_iff in E. lia. }
  rewrite H, N.lxor_assoc, N.lxor_nilpotent, N.lxor_0_r.
  unfold byte_of_N. pose proof (Byte.to_N_bounded a).
  by rewrite N.mod_small, Byte.of_to_N by lia.
Qed.

Lemma length_bxors l k : length l = length k -> length (bxors l k) = length l.
Proof. intros. unfold bxors. rewrite length_zip_with. lia. Qed.

Lemma bxors_cancel l k : length l = length k -> bxors (bxors l k) k = l.
Proof.
  revert k. induction l as [|x l IH]; intros [|y k]; simpl; try done.
  intros [= Hl]. unfold bxors in *. simpl. by rewrite bxor_cancel, IH.
Qed.

Lemma length_keystream rks n len : length (keystream rks n len) = len.
Proof. apply length_pad_to. Qed.

Lemma gcm_seal_lengths k n a p c t :
  gcm_seal k n a p = (c, t) -> zlen c = zlen p /\ zlen t = 16.
Proof.
  unfold gcm_seal, gcm_tag, zlen. intros [= <- <-].
  rewrite length_bxors, length_pad_to by (by rewrite length_keystream). done.
Qed.

Lemma gcm_open_iff k n a c t p : gcm_open k n a c t = Some p <-> gcm_seal k n a p = (c, t).
Proof.
  unfold gcm_open, gcm_seal. split.
  - case_bool_decide as Ht; [intros [= <-]|done].
    assert (length (bxors c (keystream (round_keys k) n (length c))) = length c) as Hl
      by (apply length_bxors; by rewrite length_keystream).
    rewrite Hl, bxors_cancel by (by rewrite length_keystream). by rewrite Ht.
  - intros [= <- <-].
    assert (length (bxors p (keystream (round_keys k) n (length p))) = length p) as Hl
      by (apply length_bxors; by rewrite length_keystream).
    rewrite bool_decide_true by done. f_equal.
    by rewrite Hl, bxors_cancel by (by rewrite length_keystream).
Qed.

Lemma gcm_open_length k n a c t p : gcm_open k n a c t = Some p -> zlen p = zlen c.
Proof. intros H%gcm_open_iff%gcm_seal_lengths. lia. Qed.

#[export] Instance gcm_laws : AeadLaws gcm.
Proof.
  split.
  - intros. by eapply gcm_seal_lengths.
  - intros. apply gcm_open_iff.
  - intros k n a p p' c t t' _ _ H1%gcm_open_iff H2%gcm_open_iff.
    unfold gcm_open in *. repeat case_bool_decide; congruence.
Qed.

Lemma key_of_len_iff n k : is_Some (key_of_len n k) <-> zlen k = n.
Proof.
  unfold key_of_len. destruct (Z.eqb_spec (zlen k) n) as [E|E].
  - split; [done|eauto].
  - split; [by intros [? ?] | done].
Qed.

Lemma key_of_len_Some n k c : key_of_len n k = Some c -> c = k.
Proof. unfold key_of_len. case_match; congruence. Qed.

#[export] Instance ref_aes_gcm_laws : AesGcmCrateLaws ref_aes_gcm gcm.
Proof.
  assert (Hk : forall c k, sw_keyed ref_aes_gcm c k -> c = k)
    by (intros c k [H|H]; exact (key_of_len_Some _ _ _ H)).
  split.
  - apply key_of_len_iff.
  - apply key_of_len_iff.
  - intros n b Hb. simpl. by rewrite (proj2 (Z.eqb_eq _ _)).
  - intros c n a p. cbn -[gcm_seal gcm_open]. destruct (gcm_seal c n a p) eqn:E.
    apply gcm_seal_lengths in E as [? _]. done.
  - intros c n a b t. cbn -[gcm_seal gcm_open]. destruct (gcm_open c n a b t) eqn:E; [|done].
    by apply gcm_open_length in E.
  - intros c n a p t. cbn -[gcm_seal gcm_open]. destruct (gcm_seal c n a p) eqn:E. simpl. intros [= <-].
    by apply gcm_seal_lengths in E as [_ ?].
  - intros c k n a p ->%Hk _ _ _. cbn -[gcm_seal gcm_open]. by destruct (gcm_seal k n a p).
  - intros c k n a b t ->%Hk _ _ _ _. cbn -[gcm_seal gcm_open]. by destruct (gcm_open k n a b t).
Qed.

#[export] Instance ref_ring_laws : RingCrateLaws ref_ring gcm.
Proof.
  assert (Hk : forall c k, ring_keyed ref_ring c k -> c = k)
    by (intros c k (r & u & H & ->); exact (key_of_len_Some _ _ _ H)).
  split.
  - intros. apply key_of_len_iff.
  - intros c n a p. cbn -[gcm_seal gcm_open]. destruct (gcm_seal c n a p) eqn:E.
    apply gcm_seal_lengths in E as [? _]. done.
  - intros c n a p t. cbn -[gcm_seal gcm_open]. destruct (gcm_seal c n a p) eqn:E. simpl. intros [= <-].
    by apply gcm_seal_lengths in E as [_ ?].
  - intros c k n a p ->%Hk _ _ _. cbn -[gcm_seal gcm_open]. by destruct (gcm_seal k n a p).
  - intros c n a b p. cbn -[gcm_seal gcm_open zlen]. destruct (Z.ltb_spec (zlen b) 16) as [|Hb]; [done|].
    intros H%gcm_open_length. rewrite H, zlen_ztake by lia. lia.
  - intros c k n a ct t ->%Hk Hn Ht _ _. cbn -[gcm_seal gcm_open zlen]. autorewrite with rust. zlen_pose.
    rewrite (proj2 (Z.ltb_ge _ _)) by lia.
    by rewrite ztake_app, zdrop_app by lia.
Qed.
