(* ===== verification/Wire.v ===== *)
(** The crate acm-wire (src/cryptod/crates/acm-wire/src/lib.rs): the ACM frame
    header, and sealing and opening whole frames through any provider that
    keeps the contract of [Aead.ProviderContract]. *)

From S2P Require Import Prelude Crypto Aead.

Definition MAGIC : bytes := [x41; x43].   (* 'A' 'C' *)
Definition VERSION : byte := x01.
Definition HEADER_LEN : Z := 12.

Inductive WireError : Type :=
| Truncated (len : Z)
| BadMagic
| BadVersion (v : byte)
| UnknownAlgo (v : byte)
| NonceLenMismatch (header : byte) (algo : Z)
| BodyTooShort
| OutputTooSmall
| Crypto (e : CryptoError).

#[export] Instance WireError_eq_dec : EqDecision WireError.
Proof. solve_decision. Defined.

Definition WireError_display (e : WireError) : string :=
  match e with
  | Truncated n =>
      "frame too short (" +:+ fmt_dec n +:+ " bytes, need at least "
      +:+ fmt_dec HEADER_LEN +:+ " for header)"
  | BadMagic => "bad magic bytes"
  | BadVersion v => "unsupported version: " +:+ fmt_dec (Z_of_u8 v)
  | UnknownAlgo v => "unknown algorithm id: 0x" +:+ fmt_02x v
  | NonceLenMismatch header algo =>
      "nonce length in header (" +:+ fmt_dec (Z_of_u8 header)
      +:+ ") does not match algo expected (" +:+ fmt_dec algo +:+ ")"
  | BodyTooShort => "frame is missing nonce or ciphertext bytes"
  | OutputTooSmall => "output buffer too small"
  | Crypto e => "crypto: " +:+ CryptoError_display e
  end.

(** * The frame header *)

Record FrameHeader : Type := mkFrameHeader {
  h_version : byte;
  h_flags : byte;
  h_key_id : Z;          (* u32 *)
  h_algo : AlgoId;
  h_nonce_len : byte;
}.

#[export] Instance FrameHeader_eq_dec : EqDecision FrameHeader.
Proof. solve_decision. Defined.

(** [u32::to_be_bytes] and [u32::from_be_bytes]. *)
Definition u32_to_be_bytes (k : Z) : bytes :=
  [u8_of_Z (Z.shiftr k 24); u8_of_Z (Z.shiftr k 16); u8_of_Z (Z.shiftr k 8); u8_of_Z k].
Definition u32_from_be_bytes (a b c d : byte) : Z :=
  Z_of_u8 a * 2 ^ 24 + Z_of_u8 b * 2 ^ 16 + Z_of_u8 c * 2 ^ 8 + Z_of_u8 d.

Definition encode (self : FrameHeader) : M bytes WireError unit :=
  let? out := mget in
  do? mguard (zlen out <? HEADER_LEN) (Truncated (zlen out)) ;;
  do? on_slice 0 2 (copy_from_slice MAGIC) ;;
  do? store 2 (h_version self) ;;
  do? store 3 (h_flags self) ;;
  do? on_slice 4 8 (copy_from_slice (u32_to_be_bytes (h_key_id self))) ;;
  do? store 8 (algo_as_u8 (h_algo self)) ;;
  do? store 9 (h_nonce_len self) ;;
  do? store 10 x00 ;;
  do? store 11 x00 ;;
  mret tt.

Definition decode (src : bytes) : outcome (result FrameHeader WireError) :=
  if zlen src <? HEADER_LEN then Returns (Err (Truncated (zlen src))) else
  let! m := slice 0 2 src in
  if negb (bool_decide (m = MAGIC)) then Returns (Err BadMagic) else
  let! v := index 2 src in
  if negb (bool_decide (v = VERSION)) then Returns (Err (BadVersion v)) else
  let! a := index 8 src in
  match from_u8 a with
  | None => Returns (Err (UnknownAlgo a))
  | Some algo =>
      let! flags := index 3 src in
      let! k0 := index 4 src in
      let! k1 := index 5 src in
      let! k2 := index 6 src in
      let! k3 := index 7 src in
      let! nl := index 9 src in
      Returns (Ok (mkFrameHeader v flags (u32_from_be_bytes k0 k1 k2 k3) algo nl))
  end.

Definition frame_len (plaintext_len nonce_l tag_l : Z) : Z :=
  usize_add (usize_add (usize_add HEADER_LEN nonce_l) plaintext_len) tag_l.

(** * Frames *)

Definition seal (provider : CryptoProvider) (key : KeyHandle) (key_id : Z)
    (nonce : bytes) (flags : byte) (plaintext : bytes) : M bytes WireError Z :=
  let algo := algorithm provider in
  do? mguard (negb (zlen nonce =? nonce_len algo))
        (NonceLenMismatch (u8_of_Z (zlen nonce)) (nonce_len algo)) ;;
  let need := frame_len (zlen plaintext) (zlen nonce) (tag_len algo) in
  let? out := mget in
  do? mguard (zlen out <? need) OutputTooSmall ;;
  let header := mkFrameHeader VERSION flags key_id algo (u8_of_Z (zlen nonce)) in
  do? on_slice 0 HEADER_LEN (encode header) ;;
  do? on_slice HEADER_LEN (usize_add HEADER_LEN (zlen nonce)) (copy_from_slice nonce) ;;
  let body_off := usize_add HEADER_LEN (zlen nonce) in
  let? out1 := mget in
  let? hdr_buf := mpure (slice_to HEADER_LEN out1) in
  let? written :=
    on_slice body_off (usize_add (usize_add body_off (zlen plaintext)) (tag_len algo))
      (mmap_err Crypto (p_seal provider key nonce hdr_buf plaintext)) in
  mret (usize_add body_off written).

Definition open (provider : CryptoProvider) (key : KeyHandle) (frame : bytes)
    : M bytes WireError Z :=
  let? decoded := mpure (decode frame) in
  let? header := mlift decoded in
  let algo := h_algo header in
  do? mguard (negb (bool_decide (h_algo header = algorithm provider)))
        (Crypto (AlgorithmMismatch (algorithm provider) (h_algo header))) ;;
  do? mguard (negb (Z_of_u8 (h_nonce_len header) =? nonce_len algo))
        (NonceLenMismatch (h_nonce_len header) (nonce_len algo)) ;;
  let body_off := usize_add HEADER_LEN (Z_of_u8 (h_nonce_len header)) in
  do? mguard (zlen frame <? usize_add body_off (tag_len algo)) BodyTooShort ;;
  let? nonce := mpure (slice HEADER_LEN body_off frame) in
  let? body := mpure (slice_from body_off frame) in
  let pt_len := usize_sub (zlen body) (tag_len algo) in
  let? out := mget in
  do? mguard (zlen out <? pt_len) OutputTooSmall ;;
  let? hdr_buf := mpure (slice_to HEADER_LEN frame) in
  let? n := mmap_err Crypto (p_open provider key nonce hdr_buf body) in
  mret n.

(** * Header lemmas *)

(** The twelve bytes of a header. *)
Definition header_bytes (h : FrameHeader) : bytes :=
  MAGIC ++ [h_version h; h_flags h] ++ u32_to_be_bytes (h_key_id h) ++
  [algo_as_u8 (h_algo h); h_nonce_len h; x00; x00].

Definition u32_ok (k : Z) : Prop := 0 <= k <= u32_max.

Lemma u32_be_roundtrip k :
  u32_ok k ->
  u32_from_be_bytes (u8_of_Z (Z.shiftr k 24)) (u8_of_Z (Z.shiftr k 16))
    (u8_of_Z (Z.shiftr k 8)) (u8_of_Z k) = k.
Proof.
  unfold u32_ok, u32_max, u32_from_be_bytes. intros Hk. rewrite !Z_of_u8_of_Z.
  rewrite !Z.shiftr_div_pow2 by lia.
  change (2 ^ 32) with 4294967296 in Hk.
  change (2 ^ 24) with 16777216. change (2 ^ 16) with 65536. change (2 ^ 8) with 256.
  pose proof (Z.div_mod k 256 ltac:(lia)).
  assert (k / 65536 = k / 256 / 256) as -> by (by rewrite Z.div_div).
  assert (k / 16777216 = k / 256 / 256 / 256) as -> by (by rewrite !Z.div_div).
  pose proof (Z.div_mod (k / 256) 256 ltac:(lia)).
  pose proof (Z.div_mod (k / 256 / 256) 256 ltac:(lia)).
  rewrite (Z.mod_small (k / 256 / 256 / 256)).
  { generalize dependent (k / 256 / 256 / 256). generalize dependent (k / 256 / 256 mod 256).
    generalize dependent (k / 256 / 256). generalize dependent (k / 256 mod 256).
    generalize dependent (k / 256). generalize dependent (k mod 256). intros. lia. }
  clear -Hk. rewrite !Z.div_div by lia.
  split; [apply Z.div_pos | apply Z.div_lt_upper_bound]; lia.
Qed.

Lemma u32_from_be_ok a b c d : u32_ok (u32_from_be_bytes a b c d).
Proof.
  unfold u32_ok, u32_from_be_bytes, u32_max.
  pose proof (Z_of_u8_range a). pose proof (Z_of_u8_range b).
  pose proof (Z_of_u8_range c). pose proof (Z_of_u8_range d). lia.
Qed.

Lemma u32_be_bytes_inv a b c d :
  u32_to_be_bytes (u32_from_be_bytes a b c d) = [a; b; c; d].
Proof.
  unfold u32_to_be_bytes, u32_from_be_bytes.
  pose proof (Z_of_u8_range a) as Ha. pose proof (Z_of_u8_range b) as Hb.
  pose proof (Z_of_u8_range c) as Hc. pose proof (Z_of_u8_range d) as Hd.
  rewrite !Z.shiftr_div_pow2 by lia.
  change (2 ^ 24) with 16777216. change (2 ^ 16) with 65536. change (2 ^ 8) with 256.
  set (A := Z_of_u8 a) in *. set (B := Z_of_u8 b) in *.
  set (C := Z_of_u8 c) in *. set (D := Z_of_u8 d) in *.
  set (k := A * 16777216 + B * 65536 + C * 256 + D).
  assert (k / 16777216 = A) as ->
    by (symmetry; apply (Z.div_unique_pos _ _ _ (B * 65536 + C * 256 + D)); lia).
  assert (k / 65536 = A * 256 + B) as ->
    by (symmetry; apply (Z.div_unique_pos _ _ _ (C * 256 + D)); lia).
  assert (k / 256 = A * 65536 + B * 256 + C) as ->
    by (symmetry; apply (Z.div_unique_pos _ _ _ D); lia).
  repeat f_equal; apply Z_of_u8_inj; rewrite Z_of_u8_of_Z; symmetry.
  - apply (Z.mod_unique_pos _ _ 0); subst A; lia.
  - apply (Z.mod_unique_pos _ _ A); subst B; lia.
  - apply (Z.mod_unique_pos _ _ (A * 256 + B)); subst C; lia.
  - apply (Z.mod_unique_pos _ _ (A * 65536 + B * 256 + C)); subst k D; lia.
Qed.

Lemma header_bytes_length h : zlen (header_bytes h) = HEADER_LEN.
Proof. done. Qed.

(** A list of twelve elements or more, taken apart. *)
Lemma zlen_12 {A} (l : list A) :
  zlen l = 12 -> exists a0 a1 a2 a3 a4 a5 a6 a7 a8 a9 a10 a11,
    l = [a0; a1; a2; a3; a4; a5; a6; a7; a8; a9; a10; a11].
Proof.
  unfold zlen. intros H.
  do 12 (destruct l as [|? l]; [simpl in H; lia|]).
  destruct l; [|simpl in H; lia]. repeat eexists.
Qed.

Lemma encode_run h out :
  zlen out = HEADER_LEN -> encode h out = Returns (Ok tt, header_bytes h).
Proof.
  intros H. apply zlen_12 in H as (? & ? & ? & ? & ? & ? & ? & ? & ? & ? & ? & ? & ->).
  reflexivity.
Qed.

(** Decoding looks at the first twelve bytes only. *)
Definition decode_spec (src : bytes) : result FrameHeader WireError :=
  match src with
  | m0 :: m1 :: v :: fl :: k0 :: k1 :: k2 :: k3 :: a :: nl :: _ :: _ :: _ =>
      if decide ([m0; m1] <> MAGIC) then Err BadMagic
      else if decide (v <> VERSION) then Err (BadVersion v)
      else match from_u8 a with
           | None => Err (UnknownAlgo a)
           | Some al => Ok (mkFrameHeader v fl (u32_from_be_bytes k0 k1 k2 k3) al nl)
           end
  | _ => Err (Truncated (zlen src))
  end.

Lemma decode_run src : decode src = Returns (decode_spec src).
Proof.
  unfold decode. destruct (Z.ltb_spec (zlen src) HEADER_LEN) as [H|H].
  - do 12 (destruct src as [|? src]; [done|]). unfold HEADER_LEN, zlen in H. simpl in H. lia.
  - destruct (zsplit 12 src) as (h & rest & -> & Hh); [unfold HEADER_LEN in *; lia|].
    apply zlen_12 in Hh as (m0 & m1 & v & fl & k0 & k1 & k2 & k3 & a & nl & r0 & r1 & ->).
    change ([m0; m1; v; fl; k0; k1; k2; k3; a; nl; r0; r1] ++ rest) with
      ([m0; m1] ++ v :: fl :: k0 :: k1 :: k2 :: k3 :: a :: nl :: r0 :: r1 :: rest).
    rewrite (slice_to_app [m0; m1] _ 2 eq_refl : slice 0 2 _ = _). simpl.
    destruct (decide ([m0; m1] = MAGIC)) as [E|E].
    + rewrite bool_decide_true, decide_False by (done || tauto). simpl.
      destruct (decide (v = VERSION)) as [Ev|Ev].
      * rewrite bool_decide_true, decide_False by (done || tauto). simpl.
        by destruct (from_u8 a).
      * rewrite bool_decide_false, decide_True by done. done.
    + rewrite bool_decide_false, decide_True by done. done.
Qed.

(** * What sealing and opening compute *)

Section Frames.
Context (ae : Aead).

Definition frame_header (alg : AlgoId) (key_id : Z) (flags : byte) : bytes :=
  header_bytes (mkFrameHeader VERSION flags key_id alg (u8_of_Z 12)).

(** [HEADER | NONCE | CIPHERTEXT | TAG]. *)
Definition frame_bytes (alg : AlgoId) (key : KeyHandle) (key_id : Z) (nonce : bytes)
    (flags : byte) (pt : bytes) : bytes :=
  let hdr := frame_header alg key_id flags in
  let '(c, t) := ae_seal ae (material key) nonce hdr pt in
  hdr ++ nonce ++ c ++ t.

Definition wire_seal_spec (alg : AlgoId) (key : KeyHandle) (key_id : Z) (nonce : bytes)
    (flags : byte) (pt out : bytes) : result Z WireError * bytes :=
  if decide (zlen nonce <> 12) then (Err (NonceLenMismatch (u8_of_Z (zlen nonce)) 12), out)
  else if decide (zlen out < zlen pt + 40) then (Err OutputTooSmall, out)
  else if decide (algo key <> alg) then
    (Err (Crypto (AlgorithmMismatch alg (algo key))),
     frame_header alg key_id flags ++ nonce ++ zdrop 24 out)
  else (Ok (zlen pt + 40),
        frame_bytes alg key key_id nonce flags pt ++ zdrop (zlen pt + 40) out).

(** The parts of a frame of 40 bytes or more. *)
Definition f_header (f : bytes) : bytes := ztake 12 f.
Definition f_nonce (f : bytes) : bytes := ztake 12 (zdrop 12 f).
Definition f_body (f : bytes) : bytes := zdrop 24 f.
Definition f_ct (f : bytes) : bytes := ztake (zlen f - 40) (f_body f).
Definition f_tag (f : bytes) : bytes := zdrop (zlen f - 40) (f_body f).

Definition wire_open_spec (alg : AlgoId) (key : KeyHandle) (f : bytes) (have : Z)
    : result bytes WireError :=
  match decode_spec f with
  | Err e => Err e
  | Ok h =>
      if decide (h_algo h <> alg) then Err (Crypto (AlgorithmMismatch alg (h_algo h)))
      else if decide (Z_of_u8 (h_nonce_len h) <> 12) then
        Err (NonceLenMismatch (h_nonce_len h) 12)
      else if decide (zlen f < 40) then Err BodyTooShort
      else if decide (have < zlen f - 40) then Err OutputTooSmall
      else if decide (algo key <> alg) then Err (Crypto (AlgorithmMismatch alg (algo key)))
      else ok_or (ae_open ae (material key) (f_nonce f) (f_header f) (f_ct f) (f_tag f))
             (Crypto AuthFailed)
  end.

Definition wire_open_leaves (r : result bytes WireError) (out out' : bytes) : Prop :=
  match r with
  | Ok p => out' = p ++ zdrop (zlen p) out
  | Err (Crypto AuthFailed) => zlen out' = zlen out
  | Err _ => out' = out
  end.

(** A frame taken apart. *)
Lemma frame_parts f :
  40 <= zlen f ->
  f = f_header f ++ f_nonce f ++ f_ct f ++ f_tag f /\
  zlen (f_header f) = 12 /\ zlen (f_nonce f) = 12 /\
  zlen (f_ct f) = zlen f - 40 /\ zlen (f_tag f) = 16.
Proof.
  intros Hf.
  destruct (zsplit 12 f) as (h & r1 & -> & Hh); [lia|]. autorewrite with rust in *.
  destruct (zsplit 12 r1) as (n & r2 & -> & Hn); [lia|]. autorewrite with rust in *.
  destruct (zsplit (zlen r2 - 16) r2) as (c & t & -> & Hc); [lia|].
  autorewrite with rust in *.
  unfold f_tag, f_ct, f_nonce, f_header, f_body.
  rewrite (ztake_app h), (zdrop_app h), (ztake_app n) by done.
  rewrite (zdrop_app_add h _ 12), (zdrop_app n) by lia.
  rewrite (ztake_app c), (zdrop_app c) by zlen_solve. split_and!; zlen_solve || done.
Qed.
End Frames.

Section Protocol.
Context (ae : Aead) `{!AeadLaws ae}.
Context (provider : CryptoProvider) `{!ProviderContract ae provider}.

Lemma frame_len_small (pt : bytes) : fits pt -> frame_len (zlen pt) 12 16 = zlen pt + 40.
Proof. intros. unfold frame_len, HEADER_LEN. usizes. lia. Qed.

Lemma seal_run key key_id nonce flags pt out :
  key_wf key -> fits pt -> zlen pt <= gcm_limit ->
  seal provider key key_id nonce flags pt out =
  Returns (wire_seal_spec ae (algorithm provider) key key_id nonce flags pt out).
Proof.
  intros Hwf Hfit Hp. unfold seal, wire_seal_spec. rewrite mguard_seq, nonce_len_12, tag_len_16.
  destruct (Z.eqb_spec (zlen nonce) 12) as [Hn|Hn];
    [rewrite decide_False by lia | by rewrite decide_True by done].
  simpl negb. cbv iota. rewrite mget_seq, mguard_seq, Hn, frame_len_small by done.
  destruct (Z.ltb_spec (zlen out) (zlen pt + 40)) as [Ho|Ho];
    [by rewrite decide_True by lia | rewrite decide_False by lia].
  unfold HEADER_LEN. usizes. change (12 + 12) with 24.
  pose proof (zlen_nonneg pt).
  destruct (zsplit 12 out) as (o1 & r1 & -> & Ho1); [lia|]. autorewrite with rust in Ho.
  destruct (zsplit 12 r1) as (o2 & r2 & -> & Ho2); [lia|]. autorewrite with rust in Ho.
  destruct (zsplit (zlen pt + 16) r2) as (o3 & o4 & -> & Ho3); [lia|].
  mrun (rewrite on_slice_to_app by done; rewrite encode_run by done).
  fold (frame_header (algorithm provider) key_id flags).
  set (hdr := frame_header (algorithm provider) key_id flags).
  assert (Hhdr : zlen hdr = 12) by done.
  mrun (rewrite on_slice_app by lia; rewrite copy_from_slice_ok by lia).
  rewrite mget_seq. mrun (unfold mpure; rewrite slice_to_app by done).
  rewrite (app_assoc hdr nonce).
  rewrite (zdrop_app_add o1 _ 12), (zdrop_app o2) by lia.
  rewrite (zdrop_app_add o1 _ (zlen pt + 28)), (zdrop_app_add o2 _ (zlen pt + 16)) by lia.
  rewrite (zdrop_app o3) by done.
  assert (Hs : p_seal provider key nonce hdr pt o3 =
               Returns (seal_spec ae (algorithm provider) key nonce hdr pt o3))
    by (apply pc_seal; try done; unfold gcm_limit in *; lia).
  unfold seal_spec in Hs. rewrite nonce_len_12, tag_len_16 in Hs.
  destruct (decide (algo key <> algorithm provider)) as [Ha|Ha%dec_stable].
  - mrun (rewrite on_slice_app by zlen_solve;
          rewrite (mmap_err_run _ _ _ _ _ Hs)). by rewrite <-app_assoc.
  - rewrite !decide_False in Hs by lia. unfold frame_bytes. fold hdr.
    destruct (ae_seal ae (material key) nonce hdr pt) as [c t].
    mrun (rewrite on_slice_app by zlen_solve; rewrite (mmap_err_run _ _ _ _ _ Hs)).
    rewrite (zdrop_all o3) by lia. unfold mret.
    rewrite app_nil_r, <-!app_assoc. repeat f_equal. usizes. lia.
Qed.

Lemma decode_spec_not_crypto f e :
  decode_spec f = Err e -> match e with Crypto _ => False | _ => True end.
Proof.
  unfold decode_spec. do 12 (destruct f as [|? f]; [by intros [= <-]|]).
  repeat case_decide; [by intros [= <-]..|]. case_match; by intros [= <-].
Qed.

Lemma open_run key f out :
  key_wf key -> fits f -> zlen f <= gcm_limit ->
  let r := wire_open_spec ae (algorithm provider) key f (zlen out) in
  exists out', open provider key f out = Returns (map_ok zlen r, out') /\
    wire_open_leaves r out out'.
Proof.
  intros Hwf Hfit Hf. unfold open, wire_open_spec.
  mrun (unfold mpure; rewrite decode_run).
  destruct (decode_spec f) as [h|e] eqn:Hd.
  2: { exists out. split; [done|]. apply decode_spec_not_crypto in Hd.
       by destruct e as [| | | | | | |[]]. }
  mrun (idtac). rewrite mguard_seq.
  case_bool_decide as Ha;
    [rewrite decide_False by tauto | rewrite decide_True by done; by exists out].
  simpl negb. cbv iota. rewrite mguard_seq, nonce_len_12, tag_len_16.
  destruct (Z.eqb_spec (Z_of_u8 (h_nonce_len h)) 12) as [Hn|Hn];
    [rewrite decide_False by lia | rewrite decide_True by done; by exists out].
  simpl negb. cbv iota. rewrite mguard_seq, Hn. unfold HEADER_LEN. usizes.
  change (12 + 12 + 16) with 40. change (12 + 12) with 24.
  destruct (Z.ltb_spec (zlen f) 40) as [Hl|Hl];
    [rewrite decide_True by lia; by exists out | rewrite decide_False by lia].
  destruct (frame_parts f Hl) as (Ef & Hh & Hno & Hc & Ht).
  set (hd := f_header f) in *. set (no := f_nonce f) in *.
  set (c := f_ct f) in *. set (t := f_tag f) in *. clearbody hd no c t.
  assert (zlen (c ++ t) - 16 = zlen f - 40) as Eb by zlen_solve.
  mrun (unfold mpure; rewrite Ef, slice_app by lia).
  mrun (unfold mpure; rewrite Ef, (app_assoc hd), slice_from_app by zlen_solve).
  rewrite mget_seq. usizes. rewrite Eb, mguard_seq.
  destruct (Z.ltb_spec (zlen out) (zlen f - 40)) as [Ho|Ho];
    [rewrite decide_True by lia; by exists out | rewrite decide_False by lia].
  mrun (unfold mpure; rewrite Ef, slice_to_app by lia).
  destruct (pc_open key no hd (c ++ t) out) as (out' & Hrun & Hleft);
    [done|zlen_solve|unfold gcm_limit in *; lia|zlen_solve|].
  exists out'. unfold mseq. rewrite (mmap_err_run _ _ _ _ _ Hrun).
  revert Hleft. clear Hrun. unfold open_spec.
  rewrite tag_len_16, nonce_len_12, Eb, (decide_False (P := zlen f - 40 < 0)) by lia.
  destruct (decide (algo key <> algorithm provider)); [intros ->; done|].
  rewrite !decide_False by lia.
  rewrite ztake_app, zdrop_app by lia.
  by destruct (ae_open ae (material key) no hd c t).
Qed.

(** ** No panics *)

Lemma encode_safe h : safe_at 12 (encode h) (fun _ => True).
Proof. intros s Hs. rewrite encode_run by done. by eexists _, _. Qed.

Lemma seal_safe key key_id nonce flags pt n :
  fits pt ->
  safe_at n (seal provider key key_id nonce flags pt) (fun w => w = zlen pt + 40 /\ w <= n).
Proof.
  intros Hfit. unfold seal. rewrite nonce_len_12, tag_len_16.
  apply safe_guard. intros Hn%negb_false_iff%Z.eqb_eq. rewrite Hn.
  apply safe_get. intros out <-. rewrite frame_len_small by done.
  apply safe_guard. intros Ho%Z.ltb_ge. unfold HEADER_LEN. usizes.
  pose proof (zlen_nonneg pt).
  eapply safe_mseq; [apply safe_on_slice; [lia|lia|apply encode_safe]|]. intros _ _.
  eapply safe_mseq; [apply safe_on_slice; [lia|lia|apply safe_copy; lia]|]. intros _ _.
  apply safe_get. intros out1 Ho1.
  destruct (slice_in_range 0 12 out1) as (hd & Hhd & _); [lia..|].
  eapply safe_mseq; [by apply (safe_mpure _ _ hd (fun _ => True))|]. intros hdr _.
  eapply safe_mseq.
  - apply safe_on_slice; [lia|lia|]. apply safe_map_err. by apply pc_seal_safe.
  - intros w [-> Hw]. apply safe_mret. usizes. lia.
Qed.

(** Every well-framed prefix: the length [open] reports fits its buffer. *)
Lemma open_safe key f n :
  fits f -> safe_at n (open provider key f) (fun w => w + 40 = zlen f /\ 0 <= w <= n).
Proof.
  intros Hfit. unfold open.
  eapply (safe_mseq _ _ _ (eq (decode_spec f)));
    [eapply safe_mpure; [apply decode_run|done]|]. intros r <-.
  eapply (safe_mseq _ _ _ (fun _ => True)); [by apply safe_mlift|]. intros h _.
  rewrite nonce_len_12, tag_len_16.
  apply safe_guard. intros _. apply safe_guard. intros Hn%negb_false_iff%Z.eqb_eq.
  rewrite Hn. unfold HEADER_LEN. usizes. apply safe_guard. intros Hl%Z.ltb_ge.
  destruct (slice_in_range 12 (12 + 12) f) as (no & Hno & Hnl); [lia..|].
  eapply safe_mseq; [by eapply (safe_mpure _ _ no (eq no))|]. intros ? <-.
  destruct (slice_in_range (12 + 12) (zlen f) f) as (b & Hb & Hbl); [lia..|].
  eapply safe_mseq; [by eapply (safe_mpure _ _ b (eq b))|]. intros ? <-.
  apply safe_get. intros out <-. apply safe_guard. intros _.
  destruct (slice_in_range 0 12 f) as (hd & Hhd & _); [lia..|].
  eapply safe_mseq; [by apply (safe_mpure _ _ hd (fun _ => True))|]. intros hdr _.
  eapply safe_mseq; [apply safe_map_err; apply pc_open_safe; zlen_solve|].
  intros w Hw. apply safe_mret. simpl in Hw. lia.
Qed.

(** ** What an accepted frame is *)

(** The conditions on a frame's header that [open] checks. *)
Definition header_fits (f : bytes) : Prop :=
  exists h, decode_spec f = Ok h /\ h_algo h = algorithm provider /\
    Z_of_u8 (h_nonce_len h) = 12.

Definition sealed_with (key : KeyHandle) (f pt : bytes) : Prop :=
  ae_seal ae (material key) (f_nonce f) (f_header f) pt = (f_ct f, f_tag f).

(** Opening succeeds exactly on the frames whose body is the encryption of
    the recovered plaintext under the frame's own nonce and header. *)
Lemma open_spec_Ok_iff key f have pt :
  key_wf key ->
  wire_open_spec ae (algorithm provider) key f have = Ok pt <->
  header_fits f /\ 40 <= zlen f <= have + 40 /\ algo key = algorithm provider /\
  sealed_with key f pt.
Proof.
  intros Hwf. unfold wire_open_spec, header_fits, sealed_with.
  destruct (decode_spec f) as [h|e]; [|split; [done|by intros [(? & ? & _) _]]].
  destruct (decide (h_algo h <> algorithm provider)) as [|Ha%dec_stable];
    [split; [done|by intros [(? & [= <-] & ? & _) _]]|].
  destruct (decide (Z_of_u8 (h_nonce_len h) <> 12)) as [|Hn%dec_stable];
    [split; [done|by intros [(? & [= <-] & _ & ?) _]]|].
  destruct (decide (zlen f < 40)); [split; [done|intros (_ & ? & _); lia]|].
  destruct (decide (have < zlen f - 40)); [split; [done|intros (_ & ? & _); lia]|].
  destruct (decide (algo key <> algorithm provider)) as [|Hk%dec_stable];
    [split; [done|by intros (_ & _ & ? & _)]|].
  destruct (frame_parts f) as (_ & _ & Hno & _ & Ht); [lia|].
  rewrite <-(ae_open_iff (material key) (f_nonce f) (f_header f)) by
    eauto using key_wf_gcm, pc_algorithm.
  unfold ok_or. split.
  - destruct (ae_open _ _ _ _ _ _); [intros [= <-]|done]. split_and!; eauto; lia.
  - by intros (_ & _ & _ & ->).
Qed.
End Protocol.

(** The parts of a frame that was put together from parts. *)
Lemma frame_parts_app h n c t :
  zlen h = 12 -> zlen n = 12 -> zlen t = 16 ->
  let f := h ++ n ++ c ++ t in
  f_header f = h /\ f_nonce f = n /\ f_ct f = c /\ f_tag f = t /\ zlen f = zlen c + 40.
Proof.
  intros Hh Hn Ht f. assert (Hf : zlen f = zlen c + 40) by (subst f; zlen_solve).
  unfold f_tag, f_ct, f_nonce, f_header, f_body. rewrite Hf. subst f.
  rewrite (ztake_app h), (zdrop_app h), (ztake_app n) by done.
  rewrite (zdrop_app_add h _ 12), (zdrop_app n) by lia.
  by rewrite (ztake_app c), (zdrop_app c) by lia.
Qed.

Lemma decode_header_bytes h rest :
  h_version h = VERSION -> u32_ok (h_key_id h) ->
  decode_spec (header_bytes h ++ rest) = Ok h.
Proof.
  intros Hv Hk. unfold header_bytes, u32_to_be_bytes. simpl.
  rewrite (decide_False (P := h_version h <> VERSION)) by tauto.
  rewrite from_u8_as_u8, u32_be_roundtrip by done. by destruct h.
Qed.

Section Client.
Context (ae : Aead) `{!AeadLaws ae}.
Context (p : CryptoProvider) `{!ProviderContract ae p}.

(** A frame sealed under the provider's algorithm, opened in a buffer with
    room for it. *)
Lemma open_sealed_frame key key_id nonce flags pt back :
  key_wf key -> algo key = algorithm p -> u32_ok key_id -> zlen nonce = 12 ->
  zlen pt + 40 <= gcm_limit -> zlen pt <= zlen back ->
  open p key (frame_bytes ae (algorithm p) key key_id nonce flags pt) back =
  Returns (Ok (zlen pt), pt ++ zdrop (zlen pt) back).
Proof.
  intros Hwf Ha Hid Hn Hp Hb. unfold frame_bytes.
  set (hdr := frame_header (algorithm p) key_id flags).
  destruct (ae_seal ae (material key) nonce hdr pt) as [c t] eqn:Es.
  assert (Hgk : gcm_key (material key)) by eauto using key_wf_gcm, pc_algorithm.
  destruct (ae_seal_lengths _ _ _ _ _ _ Hgk Hn Es) as [Hc Ht].
  destruct (frame_parts_app hdr nonce c t eq_refl Hn Ht) as (Eh & En & Ec & Et & El).
  set (f := hdr ++ nonce ++ c ++ t) in *.
  destruct (open_run ae p key f back) as (out' & -> & Hl);
    [done|unfold fits, isize_max, gcm_limit in *; lia|lia|].
  assert (Hspec : wire_open_spec ae (algorithm p) key f (zlen back) = Ok pt).
  { pose proof (zlen_nonneg c).
    apply open_spec_Ok_iff; [done..|]. unfold sealed_with. rewrite En, Eh, Ec, Et.
    split_and!; try done; try lia.
    eexists. split; [by apply decode_header_bytes|done]. }
  rewrite Hspec in *. simpl in Hl. by rewrite Hl.
Qed.
End Client.
