(* ===== verification/Ipc.v ===== *)
(** The crate acm-ipc (src/cryptod/crates/acm-ipc/src/lib.rs): the messages of
    the control plane and the line-framed server loop.  serde_json, base64 and
    the tokio socket are parameters; the standard library's strings are lists
    of UTF-8 bytes. *)

From Stdlib Require Import Strings.String.
From S2P Require Import Prelude.

Definition DEFAULT_SOCKET_PATH : string := "/run/acm/cryptod.sock".

(** * Messages *)

Record PolicyBlob : Type := mkPolicyBlob { policy_bytes : bytes }.

Record RotateKeyParams : Type := mkRotateKeyParams {
  rk_key_id : Z;      (* u32 *)
  rk_algo : byte;
  rk_material : bytes;
}.

Record EncryptParams : Type := mkEncryptParams {
  ep_nonce : bytes;
  ep_aad : bytes;
  ep_plaintext : bytes;
}.

Record DecryptParams : Type := mkDecryptParams { dp_frame : bytes }.

Inductive Request : Type :=
| GetStatus
| SetPolicy (p : PolicyBlob)
| RotateKey (p : RotateKeyParams)
| Encrypt (p : EncryptParams)
| Decrypt (p : DecryptParams).

(** The wire wrapper [Bytes] and its [From<Vec<u8>>]. *)
Record Bytes : Type := mkBytes { b_bytes : bytes }.
Definition Bytes_from (v : bytes) : Bytes := mkBytes v.

Record StatusReport : Type := mkStatusReport {
  version : string;
  running : bool;
  uptime_s : Z;              (* u64 *)
  active_provider : string;
  active_key_id : option Z;  (* Option<u32> *)
  packets_sealed : Z;        (* u64 *)
  packets_opened : Z;        (* u64 *)
  crypto_errors : Z;         (* u64 *)
}.

Inductive Response : Type :=
| Status (s : StatusReport)
| ROk
| Ciphertext (b : Bytes)
| Plaintext (b : Bytes)
| Error (code : Z) (message : string).

#[export] Instance StatusReport_eq_dec : EqDecision StatusReport.
Proof. solve_decision. Defined.
#[export] Instance Bytes_eq_dec : EqDecision Bytes.
Proof. solve_decision. Defined.
#[export] Instance Response_eq_dec : EqDecision Response.
Proof. solve_decision. Defined.

(** * Base64 on the wire *)

Section WireB64.
(** [base64::engine::general_purpose::STANDARD]; a decoding error is kept as
    its message. *)
Context (b64_encode : bytes -> string) (b64_decode : bytes -> result bytes string).

Definition wire_b64_serialize {SOk SErr} (serialize_str : string -> result SOk SErr)
    (bs : bytes) : result SOk SErr :=
  serialize_str (b64_encode bs).

Definition wire_b64_deserialize {D DErr} (string_deserialize : D -> result string DErr)
    (custom : string -> DErr) (d : D) : result bytes DErr :=
  match string_deserialize d with
  | Err e => Err e
  | Ok s => map_err custom (b64_decode (list_byte_of_string s))
  end.
End WireB64.

(** * UTF-8 and [str::trim] *)

Definition in_range (lo hi b : byte) : bool :=
  (Z_of_u8 lo <=? Z_of_u8 b) && (Z_of_u8 b <=? Z_of_u8 hi).
Definition cont (b : byte) : bool := in_range x80 xbf b.

(** Code points with their encodings, or [None] for bytes that are not
    UTF-8 (Unicode table 3-7). *)
Fixpoint utf8_chars (l : bytes) : option (list (Z * bytes)) :=
  match l with
  | [] => Some []
  | b0 :: l1 =>
      if in_range x00 x7f b0 then cons (Z_of_u8 b0, [b0]) <$> utf8_chars l1 else
      match l1 with
      | [] => None
      | b1 :: l2 =>
          if in_range xc2 xdf b0 && cont b1 then
            cons ((Z_of_u8 b0 - 192) * 64 + (Z_of_u8 b1 - 128), [b0; b1]) <$> utf8_chars l2
          else
          match l2 with
          | [] => None
          | b2 :: l3 =>
              if (bool_decide (b0 = xe0) && in_range xa0 xbf b1 ||
                  in_range xe1 xec b0 && cont b1 ||
                  bool_decide (b0 = xed) && in_range x80 x9f b1 ||
                  in_range xee xef b0 && cont b1) && cont b2 then
                cons ((Z_of_u8 b0 - 224) * 4096 + (Z_of_u8 b1 - 128) * 64 + (Z_of_u8 b2 - 128),
                      [b0; b1; b2]) <$> utf8_chars l3
              else
              match l3 with
              | [] => None
              | b3 :: l4 =>
                  if (bool_decide (b0 = xf0) && in_range x90 xbf b1 ||
                      in_range xf1 xf3 b0 && cont b1 ||
                      bool_decide (b0 = xf4) && in_range x80 x8f b1) && cont b2 && cont b3 then
                    cons ((Z_of_u8 b0 - 240) * 262144 + (Z_of_u8 b1 - 128) * 4096 +
                          (Z_of_u8 b2 - 128) * 64 + (Z_of_u8 b3 - 128),
                          [b0; b1; b2; b3]) <$> utf8_chars l4
                  else None
              end
          end
      end
  end.

(** [char::is_whitespace]: the Unicode property White_Space. *)
Definition is_whitespace (c : Z) : bool :=
  ((9 <=? c) && (c <=? 13)) || (c =? 32) || (c =? 133) || (c =? 160) || (c =? 5760) ||
  ((8192 <=? c) && (c <=? 8202)) || (c =? 8232) || (c =? 8233) || (c =? 8239) ||
  (c =? 8287) || (c =? 12288).

Fixpoint drop_ws (cs : list (Z * bytes)) : list (Z * bytes) :=
  match cs with
  | c :: cs' => if is_whitespace (fst c) then drop_ws cs' else cs
  | [] => []
  end.

Definition trim (cs : list (Z * bytes)) : bytes :=
  concat (map snd (rev (drop_ws (rev (drop_ws cs))))).

(** * The connection loop *)

Definition newline : byte := x0a.

(** What the client sends: its bytes, and how the stream ends. *)
Inductive stream_end : Type := Eof | ReadFails (e : string).

(** The bytes up to and including the first newline, and the rest. *)
Fixpoint split_line (l : bytes) : option (bytes * bytes) :=
  match l with
  | [] => None
  | b :: l' =>
      if bool_decide (b = newline) then Some ([b], l')
      else '(line, rest) ← split_line l'; Some (b :: line, rest)
  end.

(** [reader.read_line(&mut line)] on an empty line buffer: the bytes appended
    as a string (their number is what the call returns), and the rest. *)
Definition read_line (inp : bytes) (fin : stream_end)
    : result (list (Z * bytes) * bytes) string :=
  let utf8 line rest :=
    match utf8_chars line with
    | Some cs => Ok (cs, rest)
    | None => Err "stream did not contain valid UTF-8"%string
    end in
  match split_line inp with
  | Some (line, rest) => utf8 line rest
  | None =>
      match fin with
      | Eof => utf8 inp []
      | ReadFails e => Err e
      end
  end.

(** How a run of the loop ends: [serve_connection] returns, panics, or has not
    ended within the fuel. *)
Inductive conn_end (H W : Type) : Type :=
| ConnReturns (r : result unit string) (h : H) (w : W)
| ConnPanics
| ConnOutOfFuel.
Arguments ConnReturns {H W} _ _ _.
Arguments ConnPanics {H W}.
Arguments ConnOutOfFuel {H W}.

Section Server.
(** The handler's state and [Handler::handle]. *)
Context {H : Type} (handle : H -> Request -> outcome (Response * H)).
(** serde_json; an error is kept as its message. *)
Context (from_str : bytes -> result Request string)
        (to_string : Response -> result bytes string).
(** The socket's write half; an I/O error is kept as its message. *)
Context {W : Type} (write_all : bytes -> W -> result unit string * W)
        (flush : W -> result unit string * W).

Definition write_response (wr : W) (resp : Response) : outcome (result unit string * W) :=
  match to_string resp with
  | Err _ => Panics      (* expect("Response serializable") *)
  | Ok s =>
      match write_all (s ++ [newline]) wr with
      | (Err e, wr') => Returns (Err e, wr')
      | (Ok _, wr') => Returns (flush wr')
      end
  end.

Definition bad_request (e : string) : Response :=
  Error 400 ("bad request json: " +:+ e).

Fixpoint serve_connection (fuel : nat) (inp : bytes) (fin : stream_end) (h : H) (wr : W)
    : conn_end H W :=
  match fuel with
  | O => ConnOutOfFuel
  | S fuel' =>
      match read_line inp fin with
      | Err e => ConnReturns (Err e) h wr
      | Ok ([], _) => ConnReturns (Ok tt) h wr
      | Ok (line, rest) =>
          match from_str (trim line) with
          | Err e =>
              match write_response wr (bad_request e) with
              | Panics => ConnPanics
              | Returns (Err e', wr') => ConnReturns (Err e') h wr'
              | Returns (Ok _, wr') => serve_connection fuel' rest fin h wr'
              end
          | Ok req =>
              match handle h req with
              | Panics => ConnPanics
              | Returns (resp, h') =>
                  match write_response wr resp with
                  | Panics => ConnPanics
                  | Returns (Err e', wr') => ConnReturns (Err e') h' wr'
                  | Returns (Ok _, wr') => serve_connection fuel' rest fin h' wr'
                  end
              end
          end
      end
  end.
End Server.

(** * What a connection does *)

(** A write half that accepts everything and keeps what was written. *)
Definition rec_write (b : bytes) (w : bytes) : result unit string * bytes := (Ok tt, w ++ b).
Definition rec_flush (w : bytes) : result unit string * bytes := (Ok tt, w).

(** The lines of a stream, each with its newline; the last may lack one. *)
Fixpoint lines (l : bytes) : list bytes :=
  match l with
  | [] => []
  | b :: l' =>
      if bool_decide (b = newline) then [b] :: lines l'
      else match lines l' with
           | [] => [[b]]
           | x :: xs => (b :: x) :: xs
           end
  end.

Lemma split_line_Some l line rest :
  split_line l = Some (line, rest) ->
  l = line ++ rest /\ lines l = line :: lines rest /\ line <> [] /\ (length rest < length l)%nat.
Proof.
  revert line rest. induction l as [|b l IH]; intros line rest; simpl; [done|].
  case_bool_decide as Hb; [by intros [= <- <-]; simpl; auto with lia|].
  destruct (split_line l) as [[line' rest']|]; simpl; [|done]. intros [= <- <-].
  destruct (IH _ _ eq_refl) as (-> & -> & _ & Hlt). split_and!; [done..|lia].
Qed.

Lemma split_line_None l : split_line l = None -> lines l = match l with [] => [] | _ => [l] end.
Proof.
  induction l as [|b l IH]; simpl; [done|]. case_bool_decide; [done|].
  destruct (split_line l) as [[??]|]; simpl; [done|]. intros _. rewrite IH by done.
  by destruct l.
Qed.

Lemma lines_app_newline s l : newline ∉ s -> lines (s ++ [newline] ++ l) = (s ++ [newline]) :: lines l.
Proof.
  induction s as [|b s IH]; simpl; intros Hs; [done|].
  rewrite bool_decide_false by set_solver. simpl in IH. rewrite IH by set_solver. done.
Qed.

Lemma utf8_chars_nil l : utf8_chars l = Some [] -> l = [].
Proof.
  destruct l as [|b0 l1]; [done|]. simpl. intros H. exfalso. revert H.
  repeat first
    [ done
    | match goal with
      | |- context [if ?b then _ else _] => destruct b
      | |- context [_ <$> ?o] => destruct o; simpl
      | |- context [match ?l with [] => _ | _ => _ end] => destruct l
      end ].
Qed.

Section Session.
Context {H : Type} (handle : H -> Request -> outcome (Response * H)).
Context (from_str : bytes -> result Request string)
        (to_string : Response -> result bytes string).

(** The answer to one line. *)
Definition respond (h : H) (line : list (Z * bytes)) : outcome (Response * H) :=
  match from_str (trim line) with
  | Err e => Returns (bad_request e, h)
  | Ok req => handle h req
  end.

(** The specification of a connection: each line answered in order. *)
Fixpoint session (h : H) (ls : list bytes) (w : bytes) : conn_end H bytes :=
  match ls with
  | [] => ConnReturns (Ok tt) h w
  | l :: ls' =>
      match utf8_chars l with
      | None => ConnReturns (Err "stream did not contain valid UTF-8"%string) h w
      | Some cs =>
          let next := respond h cs in
          match next with
          | Panics => ConnPanics
          | Returns (resp, h') =>
              match to_string resp with
              | Err _ => ConnPanics
              | Ok s => session h' ls' (w ++ s ++ [newline])
              end
          end
      end
  end.

Abbreviation serve := (serve_connection handle from_str to_string rec_write rec_flush).

Lemma serve_step fuel inp rest cs h w :
  read_line inp Eof = Ok (cs, rest) -> cs <> [] ->
  serve (S fuel) inp Eof h w =
  match respond h cs with
  | Panics => ConnPanics
  | Returns (resp, h') =>
      match to_string resp with
      | Err _ => ConnPanics
      | Ok s => serve fuel rest Eof h' (w ++ s ++ [newline])
      end
  end.
Proof.
  intros Hr Hcs. unfold respond. simpl. rewrite Hr. destruct cs as [|c cs]; [done|].
  unfold write_response, rec_write, rec_flush.
  destruct (from_str (trim (c :: cs))) as [req|e].
  - destruct (handle h req) as [[resp h']|]; [|done]. by destruct (to_string resp).
  - by destruct (to_string (bad_request e)).
Qed.

Lemma serve_session fuel inp h w :
  (length inp < fuel)%nat -> serve fuel inp Eof h w = session h (lines inp) w.
Proof.
  revert inp h w. induction fuel as [|fuel IH]; intros inp h w Hf; [lia|].
  destruct (split_line inp) as [[line rest]|] eqn:Hs.
  - destruct (split_line_Some _ _ _ Hs) as (-> & -> & Hne & Hlt). cbn [session].
    destruct (utf8_chars line) as [cs|] eqn:Hu.
    + rewrite (serve_step fuel _ rest cs); [|by unfold read_line; rewrite Hs; cbv zeta; rewrite Hu|].
      * repeat case_match; try done. apply IH. lia.
      * intros ->. by apply utf8_chars_nil in Hu.
    + simpl. unfold read_line. rewrite Hs. cbv zeta. by rewrite Hu.
  - rewrite (split_line_None _ Hs). destruct inp as [|b inp]; [done|]. cbn [session].
    destruct (utf8_chars (b :: inp)) as [cs|] eqn:Hu.
    + rewrite (serve_step fuel _ [] cs); [|by unfold read_line; rewrite Hs; cbv zeta; rewrite Hu|].
      * repeat case_match; try done. rewrite IH by (simpl in *; lia). done.
      * intros ->. by apply utf8_chars_nil in Hu.
    + simpl serve_connection. unfold read_line. rewrite Hs. cbv zeta. by rewrite Hu.
Qed.

(** ** Handlers that always answer *)

Context (P : H -> Prop)
  (Hhandle : forall h line req, P h -> from_str line = Ok req ->
               exists r h', handle h req = Returns (r, h') /\ P h')
  (Hjson : forall r, exists s, to_string r = Ok s /\ newline ∉ s).

Lemma session_answers ls h w :
  P h -> Forall (fun l => is_Some (utf8_chars l)) ls ->
  exists h' resps out,
    session h ls w = ConnReturns (Ok tt) h' (w ++ out) /\ P h' /\
    length resps = length ls /\
    Forall2 (fun r l => exists s, to_string r = Ok s /\ l = s ++ [newline]) resps (lines out).
Proof.
  intros Hh Hls. revert h w Hh. induction Hls as [|l ls [cs Hcs] _ IH]; intros h w Hh.
  { exists h, [], []. by rewrite app_nil_r. }
  simpl. rewrite Hcs.
  assert (exists r h1, respond h cs = Returns (r, h1) /\ P h1) as (r & h1 & -> & Hh1).
  { unfold respond. destruct (from_str (trim cs)) eqn:E; [|eauto]. eauto. }
  destruct (Hjson r) as (s & Hr & Hs). rewrite Hr.
  destruct (IH h1 (w ++ s ++ [newline]) Hh1) as (h' & resps & out & -> & HP & Hl & Hf).
  exists h', (r :: resps), (s ++ [newline] ++ out).
  rewrite <-!app_assoc. split_and!; [done|done|simpl; lia|].
  rewrite lines_app_newline by done. constructor; eauto.
Qed.
End Session.
