(* ===== verification/Cryptod.v ===== *)
(** The daemon acm-cryptod (src/cryptod/crates/acm-cryptod/src/main.rs): its
    state, the request handlers run one at a time, and the self-test.  The
    ring crate and the clock are parameters. *)

From Stdlib Require Import Strings.String.
From S2P Require Import Prelude Crypto Aead AesGcmRing Wire Ipc.

(** [env!("CARGO_PKG_VERSION")], the workspace's version. *)
Definition CARGO_PKG_VERSION : string := "0.1.0".

(** Instants are nanoseconds of the monotonic clock. *)
Definition elapsed_secs (started now : Z) : Z := Z.max 0 (now - started) / 10 ^ 9.

(** The mutexes' contents and the atomics' values. *)
Record CryptodState : Type := mkCryptodState {
  started_at : Z;
  provider : CryptoProvider;
  active_algo : AlgoId;
  active_key : option KeyHandle;
  st_packets_sealed : Z;      (* AtomicU64 *)
  st_packets_opened : Z;      (* AtomicU64 *)
  st_crypto_errors : Z;       (* AtomicU64 *)
}.

(** [fetch_add(1)] on an [AtomicU64] wraps around. *)
Definition fetch_add1 (c : Z) : Z := wrap64 (c + 1).

Definition count_sealed (s : CryptodState) : CryptodState :=
  mkCryptodState (started_at s) (provider s) (active_algo s) (active_key s)
    (fetch_add1 (st_packets_sealed s)) (st_packets_opened s) (st_crypto_errors s).
Definition count_opened (s : CryptodState) : CryptodState :=
  mkCryptodState (started_at s) (provider s) (active_algo s) (active_key s)
    (st_packets_sealed s) (fetch_add1 (st_packets_opened s)) (st_crypto_errors s).
Definition count_error (s : CryptodState) : CryptodState :=
  mkCryptodState (started_at s) (provider s) (active_algo s) (active_key s)
    (st_packets_sealed s) (st_packets_opened s) (fetch_add1 (st_crypto_errors s)).

(** The three assignments that commit a rotation. *)
Definition set_provider (p : CryptoProvider) (s : CryptodState) : CryptodState :=
  mkCryptodState (started_at s) p (active_algo s) (active_key s)
    (st_packets_sealed s) (st_packets_opened s) (st_crypto_errors s).
Definition set_active_algo (a : AlgoId) (s : CryptodState) : CryptodState :=
  mkCryptodState (started_at s) (provider s) a (active_key s)
    (st_packets_sealed s) (st_packets_opened s) (st_crypto_errors s).
Definition set_active_key (k : KeyHandle) (s : CryptodState) : CryptodState :=
  mkCryptodState (started_at s) (provider s) (active_algo s) (Some k)
    (st_packets_sealed s) (st_packets_opened s) (st_crypto_errors s).

Definition provider_name (a : AlgoId) : string :=
  "ring/" +:+
  match a with
  | Aes128Gcm => "aes-128-gcm"
  | Aes256Gcm => "aes-256-gcm"
  | OzDst1105 => "ozdst1105"
  end.

(** [b"acm-uz-self-test"]. *)
Definition self_test_pt : bytes := list_byte_of_string "acm-uz-self-test".

(** An [anyhow::Error] is kept as its message. *)
Definition self_test (p : CryptoProvider) (key : KeyHandle) : outcome (result unit string) :=
  let a := algorithm p in
  let nonce := zeros (nonce_len a) in
  let pt := self_test_pt in
  let sealed := zeros (usize_add (zlen pt) (tag_len a)) in
  let! (r, sealed') := p_seal p key nonce [] pt sealed in
  match r with
  | Err e => Returns (Err (CryptoError_display e))
  | Ok n =>
      let back := zeros (zlen pt) in
      let! ct := slice_to n sealed' in
      let! (r', back') := p_open p key nonce [] ct back in
      match r' with
      | Err e => Returns (Err (CryptoError_display e))
      | Ok _ =>
          if negb (bool_decide (back' = pt))
          then Returns (Err "self-test roundtrip mismatch"%string)
          else Returns (Ok tt)
      end
  end.

Section Daemon.
Context (lib : RingCrate).

(** [CryptodState::new], at the instant [now]. *)
Definition CryptodState_new (now : Z) : result CryptodState CryptoError :=
  let default_algo := Aes256Gcm in
  match AesGcmRingProvider_new default_algo with
  | Err e => Err e
  | Ok p =>
      Ok (mkCryptodState now (ring_provider lib p) default_algo None 0 0 0)
  end.

(** The outcome of the checks of [Request::RotateKey], up to the commit. *)
Definition prepare_rotation (p : RotateKeyParams)
    : outcome (result (CryptoProvider * AlgoId * KeyHandle) Response) :=
  match from_u8 (rk_algo p) with
  | None => Returns (Err (Error 422 ("unknown algo: 0x" +:+ fmt_02x (rk_algo p))))
  | Some new_algo =>
      let new_provider :=
        match new_algo with
        | Aes128Gcm | Aes256Gcm =>
            match AesGcmRingProvider_new new_algo with
            | Ok q => Ok (ring_provider lib q)
            | Err e => Err (Error 500 (CryptoError_display e))
            end
        | OzDst1105 => Err (Error 501 "O'z DSt 1105 provider not yet implemented")
        end in
      match new_provider with
      | Err resp => Returns (Err resp)
      | Ok np =>
          match KeyHandle_new (rk_key_id p) new_algo (rk_material p) with
          | Err e => Returns (Err (Error 422 (CryptoError_display e)))
          | Ok new_key =>
              let! t := self_test np new_key in
              match t with
              | Err e =>
                  Returns (Err (Error 500 ("new key/provider failed self-test: " +:+ e)))
              | Ok _ => Returns (Ok (np, new_algo, new_key))
              end
          end
      end
  end.

Definition handle_rotate (p : RotateKeyParams) (s : CryptodState)
    : outcome (Response * CryptodState) :=
  let! r := prepare_rotation p in
  match r with
  | Err resp => Returns (resp, s)
  | Ok (np, new_algo, new_key) =>
      let s := set_provider np s in
      let s := set_active_algo new_algo s in
      let s := set_active_key new_key s in
      Returns (ROk, s)
  end.

(** The status read while the key is locked. *)
Definition status_of (a : AlgoId) (key : option KeyHandle) (now : Z) (s : CryptodState)
    : StatusReport :=
  mkStatusReport CARGO_PKG_VERSION true (elapsed_secs (started_at s) now) (provider_name a)
    (id <$> key) (st_packets_sealed s) (st_packets_opened s) (st_crypto_errors s).

(** [handle_encrypt] after the key was cloned, while the provider is
    locked. *)
Definition encrypt_with (key : KeyHandle) (p : EncryptParams) (s : CryptodState)
    : outcome (Response * CryptodState) :=
  let a := algorithm (provider s) in
  if negb (zlen (ep_nonce p) =? nonce_len a) then
    Returns (Error 422 ("nonce length mismatch: got " +:+ fmt_dec (zlen (ep_nonce p)) +:+
               ", want " +:+ fmt_dec (nonce_len a) +:+ " for " +:+ AlgoId_debug a), s)
  else
    let need := frame_len (zlen (ep_plaintext p)) (zlen (ep_nonce p)) (tag_len a) in
    let out := zeros need in
    let! (r, out') :=
      seal (provider s) key (id key) (ep_nonce p) x00 (ep_plaintext p) out in
    match r with
    | Ok _ => Returns (Ciphertext (Bytes_from out'), count_sealed s)
    | Err e => Returns (Error 500 ("seal failed: " +:+ WireError_display e), count_error s)
    end.

Definition handle_encrypt (p : EncryptParams) (s : CryptodState)
    : outcome (Response * CryptodState) :=
  match active_key s with
  | None => Returns (Error 409 "no active key — call rotate_key first", s)
  | Some key => encrypt_with key p s
  end.

Definition decrypt_with (key : KeyHandle) (p : DecryptParams) (s : CryptodState)
    : outcome (Response * CryptodState) :=
  let out := zeros (zlen (dp_frame p)) in
  let! (r, out') := open (provider s) key (dp_frame p) out in
  match r with
  | Ok n => Returns (Plaintext (Bytes_from (ztake n out')), count_opened s)
  | Err e =>
      let code := match e with Crypto AuthFailed => 401 | _ => 422 end in
      Returns (Error code ("open failed: " +:+ WireError_display e), count_error s)
  end.

Definition handle_decrypt (p : DecryptParams) (s : CryptodState)
    : outcome (Response * CryptodState) :=
  match active_key s with
  | None => Returns (Error 409 "no active key", s)
  | Some key => decrypt_with key p s
  end.

(** [Handler::handle], at the instant [now]. *)
Definition handle (now : Z) (s : CryptodState) (req : Request)
    : outcome (Response * CryptodState) :=
  match req with
  | GetStatus => Returns (Status (status_of (active_algo s) (active_key s) now s), s)
  | RotateKey p => handle_rotate p s
  | SetPolicy _ => Returns (ROk, s)
  | Encrypt p => handle_encrypt p s
  | Decrypt p => handle_decrypt p s
  end.
End Daemon.

(** * Lemmas *)

(** ** Requests and states *)

(** Lengths every request that arrived over the socket has. *)
Definition request_ok (req : Request) : Prop :=
  match req with
  | GetStatus => True
  | SetPolicy p => fits (policy_bytes p)
  | RotateKey p => fits (rk_material p) /\ u32_ok (rk_key_id p)
  | Encrypt p => fits (ep_nonce p) /\ zlen (ep_plaintext p) + 40 <= isize_max
  | Decrypt p => fits (dp_frame p)
  end.

(** Inputs AES-GCM itself accepts. *)
Definition request_sized (req : Request) : Prop :=
  match req with
  | Encrypt p => zlen (ep_plaintext p) + 40 <= gcm_limit
  | Decrypt p => zlen (dp_frame p) <= gcm_limit
  | _ => True
  end.

(** ** What the counters count *)

Definition is_ciphertext (r : Response) : bool :=
  match r with Ciphertext _ => true | _ => false end.
Definition is_plaintext (r : Response) : bool :=
  match r with Plaintext _ => true | _ => false end.

(** The crypto failures [crypto_errors] counts: 500 of a seal, 401 and 422 of
    an open. *)
Definition is_crypto_failure (req : Request) (r : Response) : bool :=
  match req, r with
  | Encrypt _, Error c _ => c =? 500
  | Decrypt _, Error c _ => negb (c =? 409)
  | _, _ => false
  end.

Definition count {A} (f : A -> bool) (l : list A) : Z := zlen (List.filter f l).

Lemma count_cons {A} (f : A -> bool) x l : count f (x :: l) = (if f x then 1 else 0) + count f l.
Proof. unfold count. simpl. destruct (f x); [by rewrite zlen_cons|done]. Qed.

Definition u64_ok (z : Z) : Prop := 0 <= z < 2 ^ 64.

Lemma fetch_add1_ok c : u64_ok (fetch_add1 c).
Proof. apply wrap64_range. Qed.

(** Holds at every moment, in any interleaving of handlers. *)
Record state_safe (ae : Aead) (s : CryptodState) : Prop := {
  safe_provider : ProviderContract ae (provider s);
  safe_key k : active_key s = Some k -> key_wf k /\ u32_ok (id k);
  safe_sealed : u64_ok (st_packets_sealed s);
  safe_opened : u64_ok (st_packets_opened s);
  safe_errors : u64_ok (st_crypto_errors s);
}.

(** Holds between requests: provider, algorithm and key agree. *)
Record state_inv (ae : Aead) (s : CryptodState) : Prop := {
  inv_safe : state_safe ae s;
  inv_algo : algorithm (provider s) = active_algo s;
  inv_key k : active_key s = Some k -> algo k = active_algo s;
}.

Section Sequential.
Context (lib : RingCrate) (ae : Aead) `{!RingCrateLaws lib ae, !AeadLaws ae}.

Lemma self_test_ok p key :
  ProviderContract ae p -> key_wf key -> algo key = algorithm p ->
  self_test p key = Returns (Ok tt).
Proof.
  intros Hp Hwf Ha. unfold self_test. rewrite nonce_len_12, tag_len_16.
  assert (Hpt : zlen self_test_pt = 16) by done.
  assert (Hnil : zlen (@nil byte) = 0) by done.
  set (pt := self_test_pt) in *. clearbody pt. rewrite Hpt.
  change (usize_add 16 16) with 32.
  assert (Hn : zlen (zeros 12) = 12) by done. set (n := zeros 12) in *. clearbody n.
  rewrite pc_seal by (done || unfold fits, isize_max, gcm_limit; lia).
  unfold seal_spec. rewrite nonce_len_12, tag_len_16.
  rewrite !decide_False by (rewrite ?zlen_zeros by lia; congruence || lia).
  destruct (ae_seal ae (material key) n [] pt) as [c t] eqn:Es.
  assert (Hgk : gcm_key (material key)) by eauto using key_wf_gcm, pc_algorithm.
  destruct (ae_seal_lengths _ _ _ _ _ _ Hgk Hn Es) as [Hc Ht].
  rewrite zdrop_all by (rewrite zlen_zeros; lia). rewrite app_nil_r. simpl obind. cbv iota.
  rewrite <-(app_nil_r (c ++ t)), slice_to_app by zlen_solve.
  simpl obind. cbv iota.
  destruct (pc_open key n [] (c ++ t) (zeros 16)) as (out' & Ho & Hl);
    [done|zlen_solve|unfold gcm_limit; lia|unfold gcm_limit; zlen_solve|].
  rewrite Ho. revert Hl. unfold open_spec. rewrite nonce_len_12, tag_len_16.
  rewrite !decide_False by (rewrite ?zlen_zeros by lia; congruence || zlen_solve).
  rewrite ztake_app, zdrop_app by zlen_solve.
  rewrite (ae_open_seal ae _ _ _ _ _ _ Hgk Hn Es). simpl. intros ->.
  rewrite zdrop_all, app_nil_r by (rewrite zlen_zeros; lia).
  by rewrite bool_decide_true.
Qed.

(** What a rotation is answered, when the self-test cannot fail. *)
Definition rotation_spec (p : RotateKeyParams) : result (AlgoId * KeyHandle) Response :=
  match from_u8 (rk_algo p) with
  | None => Err (Error 422 ("unknown algo: 0x" +:+ fmt_02x (rk_algo p)))
  | Some OzDst1105 => Err (Error 501 "O'z DSt 1105 provider not yet implemented")
  | Some a =>
      if decide (zlen (rk_material p) = key_len a)
      then Ok (a, mkKeyHandle (rk_key_id p) a (rk_material p))
      else Err (Error 422 (CryptoError_display (InvalidKey (key_len a) (zlen (rk_material p)))))
  end.

Lemma rotation_spec_Ok p a k :
  rotation_spec p = Ok (a, k) ->
  (a = Aes128Gcm \/ a = Aes256Gcm) /\ algo k = a /\ key_wf k /\ id k = rk_key_id p /\
  from_u8 (rk_algo p) = Some a /\ material k = rk_material p.
Proof.
  unfold rotation_spec. destruct (from_u8 (rk_algo p)) as [[]|]; try done;
    case_decide; intros [= <- <-]; split_and!; auto.
Qed.

Lemma prepare_rotation_run p :
  prepare_rotation lib p =
  Returns (map_ok (fun '(a, k) => (ring_provider lib (mkRing a), a, k)) (rotation_spec p)).
Proof.
  unfold prepare_rotation, rotation_spec.
  destruct (from_u8 (rk_algo p)) as [a|]; [|done].
  assert (Hst : forall k, a = Aes128Gcm \/ a = Aes256Gcm -> key_wf k -> algo k = a ->
            self_test (ring_provider lib (mkRing a)) k = Returns (Ok tt)).
  { intros k Ha Hwf Hk. apply self_test_ok; auto. by apply ring_contract. }
  unfold KeyHandle_new, key_wf in *.
  destruct a; simpl AesGcmRingProvider_new; cbv iota;
    try (destruct (Z.eqb_spec (zlen (rk_material p)) (key_len Aes128Gcm)));
    try (destruct (Z.eqb_spec (zlen (rk_material p)) (key_len Aes256Gcm)));
    simpl negb; cbv iota;
    rewrite ?Hst by auto; simpl obind; cbv iota; try (by rewrite decide_True by done);
    try (by rewrite decide_False by done); done.
Qed.

Lemma handle_rotate_run p s :
  handle_rotate lib p s =
  Returns
    match rotation_spec p with
    | Ok (a, k) =>
        (ROk, set_active_key k (set_active_algo a (set_provider (ring_provider lib (mkRing a)) s)))
    | Err resp => (resp, s)
    end.
Proof.
  unfold handle_rotate. rewrite prepare_rotation_run. simpl.
  by destruct (rotation_spec p) as [[a k]|].
Qed.

Definition nonce_error (a : AlgoId) (n : Z) : Response :=
  Error 422 ("nonce length mismatch: got " +:+ fmt_dec n +:+ ", want " +:+
             fmt_dec (nonce_len a) +:+ " for " +:+ AlgoId_debug a).

(** Encryption with any key, as in any interleaving. *)
Lemma encrypt_with_run key p s :
  ProviderContract ae (provider s) -> key_wf key ->
  zlen (ep_plaintext p) + 40 <= gcm_limit ->
  encrypt_with key p s =
  Returns
    (if decide (zlen (ep_nonce p) <> 12) then
       (nonce_error (algorithm (provider s)) (zlen (ep_nonce p)), s)
     else if decide (algo key <> algorithm (provider s)) then
       (Error 500 ("seal failed: " +:+
          WireError_display (Crypto (AlgorithmMismatch (algorithm (provider s)) (algo key)))),
        count_error s)
     else
       (Ciphertext (mkBytes (frame_bytes ae (algorithm (provider s)) key (id key)
                               (ep_nonce p) x00 (ep_plaintext p))),
        count_sealed s)).
Proof.
  intros Hc Hwf Hp. unfold encrypt_with, nonce_error. rewrite nonce_len_12, tag_len_16.
  destruct (Z.eqb_spec (zlen (ep_nonce p)) 12) as [Hn|Hn];
    [rewrite decide_False by lia | by rewrite decide_True by done].
  assert (Hfit : fits (ep_plaintext p)) by (unfold fits, isize_max, gcm_limit in *; lia).
  simpl negb. cbv iota. rewrite Hn, frame_len_small by done.
  pose proof (zlen_nonneg (ep_plaintext p)).
  rewrite (seal_run ae) by (done || unfold gcm_limit in *; lia). unfold wire_seal_spec.
  rewrite !(decide_False (P := zlen (ep_nonce p) <> 12)) by lia.
  rewrite zlen_zeros by lia. rewrite decide_False by lia.
  destruct (decide (algo key <> algorithm (provider s))); [done|]. simpl.
  by rewrite zdrop_all, app_nil_r by (rewrite zlen_zeros; lia).
Qed.

Definition open_code (e : WireError) : Z :=
  match e with Crypto AuthFailed => 401 | _ => 422 end.

Lemma decrypt_with_run key p s :
  ProviderContract ae (provider s) -> key_wf key -> zlen (dp_frame p) <= gcm_limit ->
  decrypt_with key p s =
  Returns
    match wire_open_spec ae (algorithm (provider s)) key (dp_frame p) (zlen (dp_frame p)) with
    | Ok pt => (Plaintext (mkBytes pt), count_opened s)
    | Err e => (Error (open_code e) ("open failed: " +:+ WireError_display e), count_error s)
    end.
Proof.
  intros Hc Hwf Hf. unfold decrypt_with.
  assert (Hfit : fits (dp_frame p)) by (unfold fits, isize_max, gcm_limit in *; lia).
  pose proof (zlen_nonneg (dp_frame p)).
  destruct (open_run ae (provider s) key (dp_frame p) (zeros (zlen (dp_frame p))))
    as (out' & -> & Hl); [done..|].
  rewrite zlen_zeros in * by done. revert Hl.
  destruct (wire_open_spec _ _ _ _ _) as [pt|e]; simpl; [|done].
  intros ->. by rewrite ztake_app.
Qed.

(** ** No panics, on any state and request *)

Lemma encrypt_with_returns key p s :
  ProviderContract ae (provider s) -> zlen (ep_plaintext p) + 40 <= isize_max ->
  exists r s', encrypt_with key p s = Returns (r, s') /\
    (s' = s \/ s' = count_sealed s \/ s' = count_error s).
Proof.
  intros Hc Hp. unfold encrypt_with. rewrite nonce_len_12, tag_len_16.
  destruct (Z.eqb_spec (zlen (ep_nonce p)) 12) as [Hn|Hn]; [|simpl; eauto].
  simpl negb. cbv iota. rewrite Hn.
  assert (Hfit : fits (ep_plaintext p)) by (unfold fits, isize_max in *; lia).
  rewrite frame_len_small by done. pose proof (zlen_nonneg (ep_plaintext p)).
  destruct (seal_safe ae (provider s) key (id key) (ep_nonce p) x00 (ep_plaintext p)
              (zlen (ep_plaintext p) + 40) Hfit (zeros (zlen (ep_plaintext p) + 40)))
    as (r & out' & -> & _); [rewrite zlen_zeros; lia|].
  destruct r; simpl; eauto 6.
Qed.

Lemma decrypt_with_returns key p s :
  ProviderContract ae (provider s) -> fits (dp_frame p) ->
  exists r s', decrypt_with key p s = Returns (r, s') /\
    (s' = count_opened s \/ s' = count_error s).
Proof.
  intros Hc Hp. unfold decrypt_with. pose proof (zlen_nonneg (dp_frame p)).
  destruct (open_safe ae (provider s) key (dp_frame p) (zlen (dp_frame p)) Hp
              (zeros (zlen (dp_frame p)))) as (r & out' & -> & _); [rewrite zlen_zeros; lia|].
  destruct r; simpl; eauto 6.
Qed.

Lemma handle_returns now s req :
  state_safe ae s -> request_ok req -> exists r s', handle lib now s req = Returns (r, s').
Proof.
  intros Hs Hr. pose proof (safe_provider _ _ Hs). destruct req as [|p|p|p|p]; simpl in *.
  - eauto.
  - eauto.
  - rewrite handle_rotate_run. case_match; [case_match|]; eauto.
  - unfold handle_encrypt. destruct (active_key s) as [k|]; [|eauto].
    edestruct (encrypt_with_returns k p s) as (? & ? & ? & _); [done|lia|eauto].
  - unfold handle_decrypt. destruct (active_key s) as [k|]; [|eauto].
    edestruct (decrypt_with_returns k p s) as (? & ? & ? & _); [done|done|eauto].
Qed.

(** ** The invariants are kept *)

Lemma count_safe s :
  state_safe ae s ->
  state_safe ae (count_sealed s) /\ state_safe ae (count_opened s) /\
  state_safe ae (count_error s).
Proof. intros []. split_and!; split; simpl; auto using fetch_add1_ok. Qed.

Lemma count_inv s :
  state_inv ae s ->
  state_inv ae (count_sealed s) /\ state_inv ae (count_opened s) /\
  state_inv ae (count_error s).
Proof.
  intros [Hs ? ?]. destruct (count_safe s Hs) as (? & ? & ?). split_and!; split; auto.
Qed.

Lemma CryptodState_new_inv now s : CryptodState_new lib now = Ok s -> state_inv ae s.
Proof.
  unfold CryptodState_new. simpl. intros [= <-].
  split; [split|..]; simpl; try done; try (unfold u64_ok; lia).
  apply (ring_contract lib ae (mkRing Aes256Gcm)). by right.
Qed.

Lemma rotate_inv p s a k :
  state_inv ae s -> u32_ok (rk_key_id p) -> rotation_spec p = Ok (a, k) ->
  state_inv ae (set_active_key k (set_active_algo a (set_provider (ring_provider lib (mkRing a)) s))).
Proof.
  intros [[? ? ? ? ?] ? ?] Hid (Ha & Hk & Hwf & Hi & _)%rotation_spec_Ok.
  split; [split|..]; simpl; auto.
  - by apply (ring_contract lib ae (mkRing a)).
  - intros ? [= <-]. split; [done|]. by rewrite Hi.
  - by intros ? [= <-].
Qed.

Lemma handle_inv now s req r s' :
  state_inv ae s -> request_ok req -> handle lib now s req = Returns (r, s') ->
  state_inv ae s'.
Proof.
  intros Hs Hr. destruct (count_inv s Hs) as (Hcs & Hco & Hce).
  pose proof (safe_provider _ _ (inv_safe _ _ Hs)) as Hp.
  destruct req as [|p|p|p|p]; simpl in *.
  - by intros [= <- <-].
  - by intros [= <- <-].
  - rewrite handle_rotate_run. destruct (rotation_spec p) as [[a k]|] eqn:E.
    + intros [= <- <-]. eapply rotate_inv; eauto. apply Hr.
    + by intros [= <- <-].
  - unfold handle_encrypt. destruct (active_key s) as [k|]; [|by intros [= <- <-]].
    destruct (encrypt_with_returns k p s) as (? & ? & -> & Hs'); [done|lia|].
    intros [= <- <-]. by destruct Hs' as [-> | [-> | ->]].
  - unfold handle_decrypt. destruct (active_key s) as [k|]; [|by intros [= <- <-]].
    destruct (decrypt_with_returns k p s) as (? & ? & -> & Hs'); [done|done|].
    intros [= <- <-]. by destruct Hs' as [-> | ->].
Qed.
End Sequential.
