(* ===== verification/Bench.v ===== *)
(** The benchmark of acm-cryptod (src/cryptod/crates/acm-cryptod/src/main.rs,
    [run_bench] and [bench_one]).  The clock is a sequence of instants in
    nanoseconds, one for each reading; [f64] is IEEE 754 binary64; the readings
    of the clock, the calls of a provider and what is printed are kept, in
    their order, as a trace. *)

From Stdlib Require Import Strings.String Strings.Ascii Floats.SpecFloat.
From S2P Require Import Prelude Crypto Aead AesGcmSw AesGcmRing Ipc Cryptod.

(** * f64 *)

Definition f64 : Type := spec_float.
(** [x as f64] of an integer, rounded to nearest even. *)
Definition f64_of (x : Z) : f64 := binary_normalize 53 1024 x 0 false.
Definition f64_add : f64 -> f64 -> f64 := SFadd 53 1024.
Definition f64_mul : f64 -> f64 -> f64 := SFmul 53 1024.
Definition f64_div : f64 -> f64 -> f64 := SFdiv 53 1024.

(** [Duration::as_secs_f64] of a duration in nanoseconds. *)
Definition as_secs_f64 (d : Z) : f64 :=
  f64_add (f64_of (d / 10 ^ 9)) (f64_div (f64_of (d mod 10 ^ 9)) (f64_of (10 ^ 9))).

(** * Text *)

(** [{:>w}] of a string. *)
Definition pad_left (w : nat) (s : string) : string :=
  string_of_list_ascii (replicate (w - String.length s) " "%char) +:+ s.

(** [str::trim]. *)
Definition str_trim (s : string) : string :=
  match utf8_chars (list_byte_of_string s) with
  | Some cs => string_of_list_byte (trim cs)
  | None => s      (* a str is UTF-8 *)
  end.

(** A line of text, or the row of one block size: the size, then [seal] and
    [open] calls per second and megabits per second. *)
Inductive printed_line : Type :=
| Line (s : string)
| Row (size : Z) (seal_ops_per_sec seal_mbps open_ops_per_sec open_mbps : f64).

(** * The benchmark's computations *)

(** The calls that are measured: [seal] of a plaintext, and [open] of
    [&sealed[..n_ct]]. *)
Inductive bench_op : Type :=
| SealOp (p : CryptoProvider) (key : KeyHandle) (nonce aad plaintext : bytes)
| OpenOp (p : CryptoProvider) (key : KeyHandle) (nonce aad sealed : bytes) (n_ct : Z).

Definition run_op (op : bench_op) : M bytes CryptoError Z :=
  match op with
  | SealOp p key nonce aad plaintext => p_seal p key nonce aad plaintext
  | OpenOp p key nonce aad sealed n_ct =>
      fun buf => let! ct := slice_to n_ct sealed in p_open p key nonce aad ct buf
  end.

Inductive bench_event : Type :=
| Clock (t : Z)
| Called (op : bench_op)
| Printed (l : printed_line).

Record bench_state : Type := mkBench {
  reads : nat;                    (* of the clock *)
  trace : list bench_event;
}.

(** An [anyhow::Error] is kept as its message. *)
Inductive bench_end (A : Type) : Type :=
| BReturns (r : result A string) (st : bench_state)
| BPanics
| BOutOfFuel.
Arguments BReturns {A} _ _.
Arguments BPanics {A}.
Arguments BOutOfFuel {A}.

Definition B (A : Type) : Type := bench_state -> bench_end A.

Definition bret {A} (a : A) : B A := fun st => BReturns (Ok a) st.
Definition bfuel {A} : B A := fun _ => BOutOfFuel.
Definition bbind {A C} (m : B A) (f : A -> B C) : B C :=
  fun st =>
    match m st with
    | BReturns (Ok a) st' => f a st'
    | BReturns (Err e) st' => BReturns (Err e) st'
    | BPanics => BPanics
    | BOutOfFuel => BOutOfFuel
    end.

Notation "'let&' x ':=' m 'in' k" := (bbind m (fun x => k))
  (at level 10, x pattern, k at level 200) : rust_scope.

Definition println (s : string) : B unit :=
  fun st => BReturns (Ok tt) (mkBench (reads st) (trace st ++ [Printed (Line s)])).
Definition print_row (size : Z) (a b c d : f64) : B unit :=
  fun st => BReturns (Ok tt) (mkBench (reads st) (trace st ++ [Printed (Row size a b c d)])).

(** [m?] for a result of acm-crypto. *)
Definition try_crypto {A} (r : result A CryptoError) : B A :=
  fun st => BReturns (map_err CryptoError_display r) st.

(** [op?] on a buffer. *)
Definition call (op : bench_op) (buf : bytes) : B (Z * bytes) :=
  fun st =>
    let st' := mkBench (reads st) (trace st ++ [Called op]) in
    match run_op op buf with
    | Returns (Ok n, buf') => BReturns (Ok (n, buf')) st'
    | Returns (Err e, _) => BReturns (Err (CryptoError_display e)) st'
    | Panics => BPanics
    end.

Section Bench.
(** The [n]-th reading of the monotonic clock. *)
Context (clock : nat -> Z).
(** [std::env::consts::ARCH]. *)
Context (ARCH : string).

Definition Instant_now : B Z :=
  fun st => BReturns (Ok (clock (reads st)))
              (mkBench (S (reads st)) (trace st ++ [Clock (clock (reads st))])).
Definition elapsed (start : Z) : B Z :=
  let& t := Instant_now in bret (Z.max 0 (t - start)).

(** [while Instant::now() < warm_end { op?; }]. *)
Fixpoint warm_up (fuel : nat) (warm_end : Z) (op : bench_op) (buf : bytes)
    : B bytes :=
  match fuel with
  | O => bfuel
  | S fuel' =>
      let& t := Instant_now in
      if t <? warm_end then
        let& (_, buf') := call op buf in
        warm_up fuel' warm_end op buf'
      else bret buf
  end.

(** [for _ in 0..n { op?; }]. *)
Fixpoint repeat_call (n : nat) (op : bench_op) (buf : bytes) : B bytes :=
  match n with
  | O => bret buf
  | S n' =>
      let& (_, buf') := call op buf in
      repeat_call n' op buf'
  end.

(** [while start.elapsed() < duration { for _ in 0..256 { op?; } ops += 256; }]. *)
Fixpoint timed (fuel : nat) (start duration : Z) (op : bench_op) (ops : Z)
    (buf : bytes) : B (Z * bytes) :=
  match fuel with
  | O => bfuel
  | S fuel' =>
      let& e := elapsed start in
      if e <? duration then
        let& buf' := repeat_call 256 op buf in
        timed fuel' start duration op (wrap64 (ops + 256)) buf'
      else bret (ops, buf)
  end.

Definition mbps (ops_per_sec : f64) (size : Z) : f64 :=
  f64_div (f64_mul (f64_mul ops_per_sec (f64_of size)) (f64_of 8)) (f64_of 1000000).

(** The body of the loop over the block sizes. *)
Definition bench_size (fuel : nat) (algo : AlgoId) (duration : Z)
    (provider : CryptoProvider) (key_handle : KeyHandle) (nonce : bytes) (size : Z) : B unit :=
  let aad := [] in
  let plaintext := zeros size in
  let sealed := zeros (usize_add size (tag_len algo)) in
  let opened := zeros size in
  let seal_op := SealOp provider key_handle nonce aad plaintext in
  let& t := Instant_now in
  let& sealed := warm_up fuel (t + 50 * 10 ^ 6) seal_op sealed in
  let& start := Instant_now in
  let& (seal_ops, sealed) := timed fuel start duration seal_op 0 sealed in
  let& seal_elapsed := elapsed start in
  let seal_ops_per_sec := f64_div (f64_of seal_ops) (as_secs_f64 seal_elapsed) in
  let seal_mbps := mbps seal_ops_per_sec size in
  let& (n_ct, sealed) := call seal_op sealed in
  let open_op := OpenOp provider key_handle nonce aad sealed n_ct in
  let& t := Instant_now in
  let& opened := warm_up fuel (t + 50 * 10 ^ 6) open_op opened in
  let& start := Instant_now in
  let& (open_ops, opened) := timed fuel start duration open_op 0 opened in
  let& open_elapsed := elapsed start in
  let open_ops_per_sec := f64_div (f64_of open_ops) (as_secs_f64 open_elapsed) in
  let open_mbps := mbps open_ops_per_sec size in
  print_row size seal_ops_per_sec seal_mbps open_ops_per_sec open_mbps.

(** [for &size in sizes]. *)
Fixpoint bench_sizes (fuel : nat) (algo : AlgoId) (duration : Z)
    (provider : CryptoProvider) (key_handle : KeyHandle) (nonce : bytes) (sizes : list Z) : B unit :=
  match sizes with
  | [] => bret tt
  | size :: sizes' =>
      let& _ := bench_size fuel algo duration provider key_handle nonce size in
      bench_sizes fuel algo duration provider key_handle nonce sizes'
  end.

Definition bench_one (fuel : nat) (label : string) (algo : AlgoId) (duration : Z)
    (sizes : list Z) (provider : CryptoProvider) : B unit :=
  let key := zeros (key_len algo) in
  let nonce := zeros (nonce_len algo) in
  let& key_handle := try_crypto (KeyHandle_new 0 algo key) in
  let& _ := println ("=== " +:+ AlgoId_debug algo +:+ "  [" +:+ str_trim label +:+ "] ===") in
  let& _ := println (pad_left 7 "block" +:+ "  " +:+ pad_left 14 "seal ops/s" +:+ "  " +:+
                     pad_left 14 "seal Mbps" +:+ "  " +:+ pad_left 14 "open ops/s" +:+ "  " +:+
                     pad_left 14 "open Mbps") in
  let& _ := bench_sizes fuel algo duration provider key_handle nonce sizes in
  println "".

Definition bench_block_sizes : list Z := [16; 64; 256; 1024; 8192; 16384].

Context (swl : AesGcmCrate) (rl : RingCrate).

(** Both providers under one algorithm. *)
Definition bench_algo (fuel : nat) (duration : Z) (algo : AlgoId) : B unit :=
  let& sw := try_crypto (AesGcmSwProvider_new algo) in
  let& _ := bench_one fuel "rustcrypto" algo duration bench_block_sizes (sw_provider swl sw) in
  let& ring := try_crypto (AesGcmRingProvider_new algo) in
  bench_one fuel "ring      " algo duration bench_block_sizes (ring_provider rl ring).

Definition run_bench (fuel : nat) (duration_s : Z) : B unit :=
  let duration := duration_s * 10 ^ 9 in
  let& _ := println ("acm-cryptod bench  version=" +:+ CARGO_PKG_VERSION +:+ "  target=" +:+
                     ARCH +:+ "  duration_per_size=" +:+ fmt_dec duration_s +:+ "s") in
  let& _ := println "Compare two software AES-GCM providers on the same hardware:" in
  let& _ := println "  rustcrypto = `aes-gcm 0.10` (KAT reference; AArch64 stable Rust" in
  let& _ := println "               falls back to bitsliced software AES - expect ~120 Mbps)." in
  let& _ := println "  ring       = `ring 0.17` (BoringSSL ASM; uses ARMv8 Crypto Extensions" in
  let& _ := println "               on AArch64 stable - expect line-rate AES-GCM)." in
  let& _ := println "" in
  let& _ := bench_algo fuel duration Aes128Gcm in
  bench_algo fuel duration Aes256Gcm.
End Bench.
