(* ===== verification/Serve.v ===== *)
(** Start-up: the accept loop of acm-ipc (src/cryptod/crates/acm-ipc/src/lib.rs,
    [server::serve]) and the command line of acm-cryptod
    (src/cryptod/crates/acm-cryptod/src/main.rs).  The operating system and
    clap are parameters. *)

From Stdlib Require Import Strings.String Strings.Ascii.
From S2P Require Import Prelude Ipc.

(** * [Path::parent] *)

(** The components of a path after its root, each with the offset of its end:
    empty ones and [.] are skipped, except a [.] the path begins with. *)
Fixpoint components (s : string) (pos : nat) (cur : string) : list (string * nat) :=
  let here :=
    if bool_decide (cur = EmptyString) then []
    else if bool_decide (cur = "."%string) && negb (pos =? 1)%nat then []
    else [(cur, pos)] in
  match s with
  | EmptyString => here
  | String c s' =>
      if Ascii.eqb c "/" then here ++ components s' (S pos) EmptyString
      else components s' (S pos) (cur +:+ String c EmptyString)
  end.

Definition has_root (s : string) : bool :=
  match s with String c _ => Ascii.eqb c "/" | EmptyString => false end.

Definition Path_parent (s : string) : option string :=
  match rev (components s 0 EmptyString) with
  | [] => None
  | [_] => Some (if has_root s then "/"%string else EmptyString)
  | _ :: (_, e) :: _ => Some (String.substring 0 e s)
  end.

(** * The server *)

(** The system calls of [serve]; an I/O error is kept as its message.  [bind]
    leaves the listener in the state. *)
Record Os (W Stream : Type) : Type := mkOs {
  remove_file : string -> W -> result unit string * W;
  create_dir_all : string -> W -> result unit string * W;
  bind : string -> W -> result unit string * W;
  accept : W -> result Stream string * W;
}.
Arguments remove_file {W Stream} _ _ _.
Arguments create_dir_all {W Stream} _ _ _.
Arguments bind {W Stream} _ _ _.
Arguments accept {W Stream} _ _.

(** How a run of [serve] ends, with the streams it spawned a task for. *)
Inductive serve_end (W Stream : Type) : Type :=
| ServeReturns (r : result unit string) (w : W) (spawned : list Stream)
| ServeOutOfFuel (w : W) (spawned : list Stream).
Arguments ServeReturns {W Stream} _ _ _.
Arguments ServeOutOfFuel {W Stream} _ _.

Section Serve.
Context {W Stream : Type} (os : Os W Stream).

Fixpoint accept_loop (fuel : nat) (w : W) (spawned : list Stream) : serve_end W Stream :=
  match fuel with
  | O => ServeOutOfFuel w spawned
  | S fuel' =>
      match accept os w with
      | (Ok stream, w') => accept_loop fuel' w' (spawned ++ [stream])
      | (Err e, w') => ServeReturns (Err e) w' spawned
      end
  end.

(** What [serve] does up to its loop. *)
Definition listen (path : string) (w : W) : result unit string * W :=
  let '(_, w) := remove_file os path w in
  let '(made, w) :=
    match Path_parent path with
    | Some parent => create_dir_all os parent w
    | None => (Ok tt, w)
    end in
  match made with
  | Err e => (Err e, w)
  | Ok _ => bind os path w
  end.

Definition serve (fuel : nat) (path : string) (w : W) : serve_end W Stream :=
  let '(listening, w) := listen path w in
  match listening with
  | Err e => ServeReturns (Err e) w []
  | Ok _ => accept_loop fuel w []
  end.
End Serve.

(** * The command line *)

Record Cli : Type := mkCli {
  config : string;
  selftest : bool;
  bench : bool;
  bench_seconds : Z;      (* u64 *)
  ipc_socket : string;
}.

(** The command line without arguments. *)
Definition Cli_default : Cli :=
  mkCli "/etc/acm/cryptod.toml" false false 3 DEFAULT_SOCKET_PATH.

(** * Lemmas *)

(** ** Absolute paths *)

Fixpoint no_slash (s : string) : bool :=
  match s with EmptyString => true | String c s' => negb (Ascii.eqb c "/") && no_slash s' end.

(** A name in a path: not empty, not [.], without a slash. *)
Definition plain (n : string) : Prop :=
  n <> EmptyString /\ n <> "."%string /\ no_slash n = true.

Fixpoint abs_path (names : list string) : string :=
  match names with
  | [] => EmptyString
  | n :: ns => String "/" (n +:+ abs_path ns)
  end.

(** The components of an absolute path, from offset [pos]. *)
Fixpoint ends_of (names : list string) (pos : nat) : list (string * nat) :=
  match names with
  | [] => []
  | n :: ns => let e := (S pos + String.length n)%nat in (n, e) :: ends_of ns e
  end.

Lemma append_cons c s t : String c s +:+ t = String c (s +:+ t).
Proof. reflexivity. Qed.

Lemma append_nil s : EmptyString +:+ s = s.
Proof. reflexivity. Qed.

Lemma append_empty_r s : s +:+ EmptyString = s.
Proof. induction s as [|c s IH]; [done|]. by rewrite append_cons, IH. Qed.

Lemma append_assoc s t u : (s +:+ t) +:+ u = s +:+ (t +:+ u).
Proof. induction s as [|c s IH]; [done|]. by rewrite !append_cons, IH. Qed.

Lemma length_append s t : String.length (s +:+ t) = (String.length s + String.length t)%nat.
Proof. induction s as [|c s IH]; [done|]. rewrite append_cons. simpl. by rewrite IH. Qed.

Lemma substring_append s t : String.substring 0 (String.length s) (s +:+ t) = s.
Proof. induction s as [|c s IH]; [by destruct t|]. rewrite append_cons. simpl. by rewrite IH. Qed.

Lemma components_name n s pos cur :
  no_slash n = true ->
  components (n +:+ s) pos cur = components s (pos + String.length n) (cur +:+ n).
Proof.
  revert pos cur. induction n as [|c n IH]; intros pos cur.
  - simpl. by rewrite Nat.add_0_r, append_empty_r.
  - rewrite append_cons. simpl. intros [Hc Hn]%andb_true_iff. apply negb_true_iff in Hc. rewrite Hc, IH by done.
    by rewrite append_assoc, append_cons, Nat.add_succ_r.
Qed.

Lemma components_abs names pos cur :
  Forall plain names -> plain cur ->
  components (abs_path names) pos cur = (cur, pos) :: ends_of names pos.
Proof.
  intros Hn. revert pos cur. induction Hn as [|n ns (Hn0 & Hn1 & Hns) Hp IH];
    intros pos cur (Hc0 & Hc1 & Hcs); simpl; rewrite (bool_decide_false (cur = "")), (bool_decide_false (cur = ".")) by done;
    [done|].
  rewrite components_name, append_nil by done. by rewrite IH.
Qed.

Lemma ends_of_app l l' pos :
  ends_of (l ++ l') pos = ends_of l pos ++ ends_of l' (pos + String.length (abs_path l)).
Proof.
  revert pos. induction l as [|n l IH]; intros pos; simpl; [by rewrite Nat.add_0_r|].
  rewrite IH, length_append. do 3 f_equal. lia.
Qed.

Lemma components_root names :
  Forall plain names -> components (abs_path names) 0 EmptyString = ends_of names 0.
Proof.
  intros Hn. destruct Hn as [|n ns (Hn0 & Hn1 & Hns) Hp]; [done|]. simpl.
  rewrite components_name, append_nil by done. by apply components_abs.
Qed.

Lemma abs_path_app l l' : abs_path (l ++ l') = abs_path l +:+ abs_path l'.
Proof. induction l as [|n l IH]; simpl; [done|]. by rewrite IH, append_cons, append_assoc. Qed.

(** The parent of an absolute path is the path without its last name, and the
    root at the end. *)
Lemma Path_parent_abs names n :
  Forall plain names -> plain n ->
  Path_parent (abs_path (names ++ [n])) =
  Some (if names is [] then "/"%string else abs_path names).
Proof.
  intros Hns Hn. unfold Path_parent.
  rewrite components_root by (apply Forall_app; split; [done|by apply Forall_singleton]).
  destruct names as [|m l _] using rev_ind; [done|].
  rewrite ends_of_app, ends_of_app, !rev_app_distr. simpl.
  rewrite abs_path_app.
  replace (S (String.length (abs_path l) + String.length m)) with
    (String.length (abs_path (l ++ [m]))) by (rewrite abs_path_app, length_append; simpl; rewrite append_empty_r; lia).
  rewrite substring_append. by destruct l.
Qed.
