(* ===== verification/Concurrent.v ===== *)
(** The daemon under load (src/cryptod/crates/acm-cryptod/src/main.rs and the
    task per connection of src/cryptod/crates/acm-ipc/src/lib.rs): the request
    handlers as programs over the mutexes and atomics of [CryptodState], and
    the interleavings of the connections' tasks. *)

From Stdlib Require Import Strings.String.
From S2P Require Import Prelude Crypto Aead AesGcmRing Wire Ipc Cryptod.

(** * Programs over the shared state *)

(** The three [tokio::sync::Mutex]es. *)
Inductive lock : Type := LProvider | LAlgo | LKey.
(** The three [AtomicU64]s. *)
Inductive counter : Type := CSealed | COpened | CErrors.

#[export] Instance lock_eq_dec : EqDecision lock.
Proof. solve_decision. Defined.
#[export] Instance counter_eq_dec : EqDecision counter.
Proof. solve_decision. Defined.

(** What is left of a handler: each constructor but the first two is one
    access to the shared state.  [Lock] is [lock().await], [Unlock] the drop
    of the guard. *)
Inductive proc : Type :=
| Done (r : Response)
| Crash                                  (* a panic *)
| Lock (l : lock) (k : proc)
| Unlock (l : lock) (k : proc)
| GetProvider (k : CryptoProvider -> proc)
| GetAlgo (k : AlgoId -> proc)
| GetKey (k : option KeyHandle -> proc)
| SetProvider (q : CryptoProvider) (k : proc)
| SetAlgo (a : AlgoId) (k : proc)
| SetKey (key : KeyHandle) (k : proc)
| FetchAdd (c : counter) (k : proc)
| Load (c : counter) (k : Z -> proc)
| Uptime (k : Z -> proc).

Definition read_counter (c : counter) (s : CryptodState) : Z :=
  match c with
  | CSealed => st_packets_sealed s
  | COpened => st_packets_opened s
  | CErrors => st_crypto_errors s
  end.

Definition bump (c : counter) (s : CryptodState) : CryptodState :=
  match c with
  | CSealed => count_sealed s
  | COpened => count_opened s
  | CErrors => count_error s
  end.

Section Handlers.
Context (lib : RingCrate).

Definition status_proc : proc :=
  Lock LAlgo (GetAlgo (fun a => Unlock LAlgo
  (Lock LKey (GetKey (fun key =>
   Uptime (fun up =>
   Load CSealed (fun n_s =>
   Load COpened (fun n_o =>
   Load CErrors (fun n_e =>
   Unlock LKey
     (Done (Status (mkStatusReport CARGO_PKG_VERSION true up (provider_name a)
                      (id <$> key) n_s n_o n_e)))))))))))).

Definition rotate_proc (p : RotateKeyParams) : proc :=
  match prepare_rotation lib p with
  | Panics => Crash
  | Returns (Err resp) => Done resp
  | Returns (Ok (np, new_algo, new_key)) =>
      Lock LProvider (SetProvider np (Unlock LProvider
      (Lock LAlgo (SetAlgo new_algo (Unlock LAlgo
      (Lock LKey (SetKey new_key (Unlock LKey
      (Done ROk)))))))))
  end.

Definition encrypt_proc (p : EncryptParams) : proc :=
  Lock LKey (GetKey (fun key =>
  match key with
  | None => Unlock LKey (Done (Error 409 "no active key — call rotate_key first"))
  | Some key =>
      Unlock LKey
      (Lock LProvider (GetProvider (fun provider =>
       let a := algorithm provider in
       if negb (zlen (ep_nonce p) =? nonce_len a) then
         Unlock LProvider
           (Done (Error 422 ("nonce length mismatch: got " +:+ fmt_dec (zlen (ep_nonce p)) +:+
              ", want " +:+ fmt_dec (nonce_len a) +:+ " for " +:+ AlgoId_debug a)))
       else
         let need := frame_len (zlen (ep_plaintext p)) (zlen (ep_nonce p)) (tag_len a) in
         match seal provider key (id key) (ep_nonce p) x00 (ep_plaintext p) (zeros need) with
         | Panics => Crash
         | Returns (Ok _, out) =>
             FetchAdd CSealed (Unlock LProvider (Done (Ciphertext (Bytes_from out))))
         | Returns (Err e, _) =>
             FetchAdd CErrors (Unlock LProvider
               (Done (Error 500 ("seal failed: " +:+ WireError_display e))))
         end)))
  end)).

Definition decrypt_proc (p : DecryptParams) : proc :=
  Lock LKey (GetKey (fun key =>
  match key with
  | None => Unlock LKey (Done (Error 409 "no active key"))
  | Some key =>
      Unlock LKey
      (Lock LProvider (GetProvider (fun provider =>
       match open provider key (dp_frame p) (zeros (zlen (dp_frame p))) with
       | Panics => Crash
       | Returns (Ok n, out) =>
           FetchAdd COpened (Unlock LProvider (Done (Plaintext (Bytes_from (ztake n out)))))
       | Returns (Err e, _) =>
           let code := match e with Crypto AuthFailed => 401 | _ => 422 end in
           FetchAdd CErrors (Unlock LProvider
             (Done (Error code ("open failed: " +:+ WireError_display e))))
       end)))
  end)).

(** [Handler::handle], lock by lock. *)
Definition handle_proc (req : Request) : proc :=
  match req with
  | GetStatus => status_proc
  | RotateKey p => rotate_proc p
  | SetPolicy _ => Done ROk
  | Encrypt p => encrypt_proc p
  | Decrypt p => decrypt_proc p
  end.
End Handlers.

(** * Interleavings *)

(** A connection's task: the requests it has still to read, the one being
    handled, and the answers given. *)
Record task : Type := mkTask {
  todo : list Request;
  current : option (Request * proc);
  answers : list (Request * Response);
}.

Record config : Type := mkConfig {
  shared : CryptodState;
  owner : lock -> option nat;
  tasks : list task;
  aborted : bool;             (* panic = "abort" ends the process *)
}.

(** The owner table after [l] changed hands. *)
Definition set_owner (l : lock) (o : option nat) (f : lock -> option nat) : lock -> option nat :=
  fun l' => if decide (l' = l) then o else f l'.

(** One access by task [i] at the instant [now]: the state, the owners and
    what is left; [None] when the task has to wait or is finished. *)
Definition step_proc (i : nat) (now : Z) (s : CryptodState) (own : lock -> option nat) (p : proc)
    : option (CryptodState * (lock -> option nat) * proc) :=
  match p with
  | Done _ | Crash => None
  | Lock l k =>
      match own l with
      | None => Some (s, set_owner l (Some i) own, k)
      | Some _ => None
      end
  | Unlock l k => Some (s, set_owner l None own, k)
  | GetProvider k => Some (s, own, k (provider s))
  | GetAlgo k => Some (s, own, k (active_algo s))
  | GetKey k => Some (s, own, k (active_key s))
  | SetProvider q k => Some (set_provider q s, own, k)
  | SetAlgo a k => Some (set_active_algo a s, own, k)
  | SetKey key k => Some (set_active_key key s, own, k)
  | FetchAdd c k => Some (bump c s, own, k)
  | Load c k => Some (s, own, k (read_counter c s))
  | Uptime k => Some (s, own, k (elapsed_secs (started_at s) now))
  end.

(** One step of task [i]: read the next request, answer the finished one, or
    one access of the handler. *)
Definition step (lib : RingCrate) (i : nat) (now : Z) (c : config) : option config :=
  if aborted c then None else
  t ← tasks c !! i;
  match current t with
  | None =>
      match todo t with
      | [] => None
      | req :: rest =>
          Some (mkConfig (shared c) (owner c)
                  (<[i := mkTask rest (Some (req, handle_proc lib req)) (answers t)]> (tasks c))
                  false)
      end
  | Some (req, Done r) =>
      Some (mkConfig (shared c) (owner c)
              (<[i := mkTask (todo t) None (answers t ++ [(req, r)])]> (tasks c)) false)
  | Some (_, Crash) => Some (mkConfig (shared c) (owner c) (tasks c) true)
  | Some (req, p) =>
      '(s', own', p') ← step_proc i now (shared c) (owner c) p;
      Some (mkConfig s' own' (<[i := mkTask (todo t) (Some (req, p')) (answers t)]> (tasks c)) false)
  end.

(** A schedule names, step by step, the task that moves and the instant. *)
Fixpoint run_schedule (lib : RingCrate) (sched : list (nat * Z)) (c : config) : option config :=
  match sched with
  | [] => Some c
  | (i, now) :: sched' => c' ← step lib i now c; run_schedule lib sched' c'
  end.

(** Connections that are about to send their requests. *)
Definition start (s : CryptodState) (conns : list (list Request)) : config :=
  mkConfig s (fun _ => None) ((fun reqs => mkTask reqs None []) <$> conns) false.

Definition idle (t : task) : Prop := todo t = [] /\ current t = None.

(** No task can move, at any instant. *)
Definition stuck (lib : RingCrate) (c : config) : Prop := forall i now, step lib i now c = None.

(** A handler run by itself, the mutexes free. *)
Fixpoint run_alone (now : Z) (s : CryptodState) (p : proc) : outcome (Response * CryptodState) :=
  match p with
  | Done r => Returns (r, s)
  | Crash => Panics
  | Lock _ k | Unlock _ k => run_alone now s k
  | GetProvider k => run_alone now s (k (provider s))
  | GetAlgo k => run_alone now s (k (active_algo s))
  | GetKey k => run_alone now s (k (active_key s))
  | SetProvider q k => run_alone now (set_provider q s) k
  | SetAlgo a k => run_alone now (set_active_algo a s) k
  | SetKey key k => run_alone now (set_active_key key s) k
  | FetchAdd c k => run_alone now (bump c s) k
  | Load c k => run_alone now s (k (read_counter c s))
  | Uptime k => run_alone now s (k (elapsed_secs (started_at s) now))
  end.

Lemma run_alone_handle lib now req s : run_alone now s (handle_proc lib req) = handle lib now s req.
Proof.
  destruct req as [|p|p|p|p]; simpl; try done.
  - unfold rotate_proc, handle_rotate. by destruct (prepare_rotation lib p) as [[[[??]?]|]|].
  - unfold handle_encrypt, encrypt_with. destruct (active_key s); [simpl|done].
    case_match; [done|]. by destruct (seal _ _ _ _ _ _ _) as [[[]?]|].
  - unfold handle_decrypt, decrypt_with. destruct (active_key s); [simpl|done].
    by destruct (open _ _ _ _) as [[[]?]|].
Qed.

Lemma run_app lib l l' c : run_schedule lib (l ++ l') c = (c1 ← run_schedule lib l c; run_schedule lib l' c1).
Proof.
  revert c. induction l as [|[i now] l IH]; intros c; simpl; [done|].
  destruct (step lib i now c); simpl; [apply IH|done].
Qed.

Lemma run_cons lib i now l c c1 c' :
  step lib i now c = Some c1 -> run_schedule lib l c1 = Some c' ->
  run_schedule lib ((i, now) :: l) c = Some c'.
Proof. simpl. by intros ->. Qed.
