(* ===== verification/Daemon.v ===== *)
(** The daemon from [main] to its exit (src/cryptod/crates/acm-cryptod/src/main.rs):
    the accept loop of [server::serve] and the tasks of the connections it
    spawned, interleaved, until accepting fails; [main] then returns and the
    tokio runtime is dropped, which cancels the tasks. *)

From Stdlib Require Import Strings.String.
From S2P Require Import Prelude Crypto Aead AesGcmSw AesGcmRing Wire Ipc Cryptod Bench Serve Concurrent.

(** What happens next: the accept loop gets a connection or its error; a
    connection's task makes a step; the runtime has been dropped. *)
Inductive event : Type :=
| Accept
| Move (i : nat) (now : Z)
| Drop.

(** The daemon while it serves. *)
Record server (W : Type) : Type := mkServer {
  sv_os : W;
  conf : Concurrent.config;
  failed : option string;     (* [serve] has returned this error *)
}.
Arguments mkServer {W} _ _ _.
Arguments sv_os {W} _.
Arguments conf {W} _.
Arguments failed {W} _.

(** How far the daemon got: it still runs; its process ended with the error
    that [main] returned, the tasks left where they were; or the events
    named cannot happen. *)
Inductive run_end (W : Type) : Type :=
| Running (sv : server W)
| Exited (e : string) (w : W) (c : Concurrent.config)
| Impossible.
Arguments Running {W} _.
Arguments Exited {W} _ _ _.
Arguments Impossible {W}.

(** What [main] did: the benchmark; a start that failed; or the server. *)
Inductive main_end (W : Type) : Type :=
| Benched (b : bench_end unit)
| StartFailed (e : string) (w : W)
| Ran (r : run_end W).
Arguments Benched {W} _.
Arguments StartFailed {W} _ _.
Arguments Ran {W} _.

(** [tokio::spawn] of a connection's task. *)
Definition spawn (reqs : list Request) (c : Concurrent.config) : Concurrent.config :=
  mkConfig (shared c) (owner c) (tasks c ++ [mkTask reqs None []]) (aborted c).

Section Server.
Context (lib : RingCrate).
Context {W Stream : Type} (os : Os W Stream).
(** The requests that arrive on a connection. *)
Context (requests : Stream -> list Request).

(** Once [serve] has failed, the tasks run on until they next wait, and then
    the runtime is gone. *)
Fixpoint run_server (events : list event) (sv : server W) : run_end W :=
  match events with
  | [] => Running sv
  | ev :: events' =>
      if aborted (conf sv) then Impossible else
      match ev, failed sv with
      | Accept, None =>
          match accept os (sv_os sv) with
          | (Ok stream, w) =>
              run_server events' (mkServer w (spawn (requests stream) (conf sv)) None)
          | (Err e, w) => run_server events' (mkServer w (conf sv) (Some e))
          end
      | Move i now, f =>
          match step lib i now (conf sv) with
          | Some c => run_server events' (mkServer (sv_os sv) c f)
          | None => Impossible
          end
      | Drop, Some e =>
          match events' with
          | [] => Exited e (sv_os sv) (conf sv)
          | _ => Impossible
          end
      | _, _ => Impossible
      end
  end.

Context (swl : AesGcmCrate) (clock : nat -> Z) (ARCH : string).

(** [main], after the command line was parsed and logging set up; [runtime] is
    the result of building the tokio runtime. *)
Definition main (fuel : nat) (runtime : result unit string) (cli : Cli) (events : list event)
    (w : W) : main_end W :=
  if bench cli then
    Benched (run_bench clock ARCH swl lib fuel (bench_seconds cli) (mkBench 0 []))
  else
    match runtime with
    | Err e => StartFailed e w
    | Ok _ =>
        match CryptodState_new lib (clock 0) with
        | Err e => StartFailed (CryptoError_display e) w
        | Ok state =>
            match listen os (ipc_socket cli) w with
            | (Err e, w) => StartFailed e w
            | (Ok _, w) => Ran (run_server events (mkServer w (start state []) None))
            end
        end
    end.

Lemma run_server_app events events' sv sv' :
  run_server events sv = Running sv' ->
  run_server (events ++ events') sv = run_server events' sv'.
Proof.
  revert sv. induction events as [|ev events IH]; intros sv; simpl; [by intros [= <-]|].
  destruct (aborted (conf sv)); [done|].
  destruct ev as [|i now|], (failed sv) as [e|]; try done.
  - destruct (accept os (sv_os sv)) as [[stream|e] w]; apply IH.
  - destruct (step lib i now (conf sv)); [apply IH|done].
  - destruct (step lib i now (conf sv)); [apply IH|done].
  - by destruct events.
Qed.

(** The tasks move by a schedule. *)
Lemma run_server_moves sched w c f c' :
  run_schedule lib sched c = Some c' ->
  run_server ((fun m => Move m.1 m.2) <$> sched) (mkServer w c f) = Running (mkServer w c' f).
Proof.
  revert c. induction sched as [|[i now] sched IH]; intros c; simpl; [by intros [= <-]|].
  destruct (step lib i now c) as [c1|] eqn:Es; simpl; [|done]. intros Hr.
  assert (aborted c = false) as ->.
  { unfold step in Es. by destruct (aborted c). }
  by apply IH.
Qed.
End Server.
