(* ===== verification/ConcLogic.v ===== *)
(** An invariant logic for the interleavings of Concurrent.v: a handler's
    program is checked once, against what the other tasks may leave in the
    shared state, and every interleaving of checked programs keeps the
    invariant. *)

From S2P Require Import Prelude Crypto Aead AesGcmRing Wire Ipc Cryptod Concurrent.

(** What an answered request adds to each counter. *)
Definition adds (req : Request) (r : Response) (c : counter) : Z :=
  match c with
  | CSealed => if is_ciphertext r then 1 else 0
  | COpened => if is_plaintext r then 1 else 0
  | CErrors => if is_crypto_failure req r then 1 else 0
  end.

Definition answered (c : counter) (l : list (Request * Response)) : Z :=
  foldr (fun q n => adds (fst q) (snd q) c + n) 0 l.

Lemma answered_app c l l' : answered c (l ++ l') = answered c l + answered c l'.
Proof. induction l; simpl; lia. Qed.

Lemma answered_count c (f : Request * Response -> bool) l :
  (forall q, adds (fst q) (snd q) c = if f q then 1 else 0) -> answered c l = count f l.
Proof. intros H. induction l as [|q l IH]; [done|]. rewrite count_cons, <-IH. simpl. by rewrite H. Qed.

(** The mutex whose contents the next access of a program is to. *)
Definition touches (p : proc) : option lock :=
  match p with
  | GetProvider _ | SetProvider _ _ => Some LProvider
  | GetAlgo _ | SetAlgo _ _ => Some LAlgo
  | GetKey _ | SetKey _ _ => Some LKey
  | _ => None
  end.

Definition tick (c : counter) (t : counter -> Z) : counter -> Z :=
  fun c' => t c' + if decide (c' = c) then 1 else 0.

(** Steps a request takes at most: read it, ten accesses, answer it. *)
Definition handler_steps : nat := 10.
Definition request_steps : nat := 2 + handler_steps.

Section Sums.
Context {A : Type} (f : A -> Z).

Definition total (l : list A) : Z := foldr (fun x n => f x + n) 0 l.

Lemma total_insert l i x y :
  l !! i = Some x -> total (<[i := y]> l) = total l - f x + f y.
Proof.
  revert i. induction l as [|z l IH]; intros [|i]; simpl; [done..|intros [= ->]; lia|].
  intros H. rewrite (IH i H). lia.
Qed.

Lemma total_nonneg l : (forall x, 0 <= f x) -> 0 <= total l.
Proof. intros H. induction l as [|x l IH]; simpl; [done|]. pose proof (H x). lia. Qed.
End Sums.

Section Logic.
(** What holds of the provider, the algorithm and the key whenever they are
    unlocked; which requests come in; which answers are right. *)
Context (Pp : CryptoProvider -> Prop) (Pa : AlgoId -> Prop) (Pk : option KeyHandle -> Prop).
Context (R : Request -> Prop) (Q : Request -> Response -> Prop).

(** [checked req p h n t]: [p], what is left of the handler of [req], holds
    the mutex [h], takes at most [n] more accesses, and has added [t] to
    the counters so far. *)
Fixpoint checked (req : Request) (p : proc) (h : option lock) (n : nat) (t : counter -> Z)
    : Prop :=
  match p with
  | Done r => h = None /\ Q req r /\ forall c, t c = adds req r c
  | Crash => False
  | Lock l k => h = None /\ (0 < n)%nat /\ checked req k (Some l) (pred n) t
  | Unlock l k => h = Some l /\ (0 < n)%nat /\ checked req k None (pred n) t
  | GetProvider k =>
      h = Some LProvider /\ (0 < n)%nat /\ forall q, Pp q -> checked req (k q) h (pred n) t
  | GetAlgo k =>
      h = Some LAlgo /\ (0 < n)%nat /\ forall a, Pa a -> checked req (k a) h (pred n) t
  | GetKey k =>
      h = Some LKey /\ (0 < n)%nat /\
      forall o, Pk o -> checked req (k o) h (pred n) t
  | SetProvider q k =>
      h = Some LProvider /\ (0 < n)%nat /\ Pp q /\ checked req k h (pred n) t
  | SetAlgo a k => h = Some LAlgo /\ (0 < n)%nat /\ Pa a /\ checked req k h (pred n) t
  | SetKey key k => h = Some LKey /\ (0 < n)%nat /\ Pk (Some key) /\ checked req k h (pred n) t
  | FetchAdd c k => (0 < n)%nat /\ checked req k h (pred n) (tick c t)
  | Load c k => (0 < n)%nat /\ forall v, u64_ok v -> checked req (k v) h (pred n) t
  | Uptime k => (0 < n)%nat /\ forall v, 0 <= v -> checked req (k v) h (pred n) t
  end.

Lemma checked_touches req p h n t l : checked req p h n t -> touches p = Some l -> h = Some l.
Proof. destruct p; simpl; try done; intros [-> _] [= <-]; done. Qed.

(** What a task carries besides its program. *)
Record ghost : Type := mkGhost {
  g_held : option lock;
  g_left : nat;
  g_adds : counter -> Z;
}.

Definition g_none : ghost := mkGhost None 0 (fun _ => 0).

Definition task_ok (gt : ghost * task) : Prop :=
  let '(g, t) := gt in
  Forall R (todo t) /\ Forall (fun q => Q (fst q) (snd q)) (answers t) /\
  match current t with
  | None => g_held g = None /\ forall c, g_adds g c = 0
  | Some (req, p) => checked req p (g_held g) (g_left g) (g_adds g)
  end.

(** Steps a task can still make, at most. *)
Definition task_left (gt : ghost * task) : Z :=
  Z.of_nat request_steps * zlen (todo (snd gt)) +
  match current (snd gt) with None => 0 | Some _ => Z.of_nat (g_left (fst gt)) + 1 end.

Definition task_adds (c : counter) (gt : ghost * task) : Z :=
  g_adds (fst gt) c + answered c (answers (snd gt)).

Record good (s : CryptodState) : Prop := {
  good_provider : Pp (provider s);
  good_algo : Pa (active_algo s);
  good_key : Pk (active_key s);
}.

Record Inv (base : counter -> Z) (gts : list (ghost * task)) (c : config) : Prop := {
  inv_alive : aborted c = false;
  inv_good : good (shared c);
  inv_tasks : tasks c = snd <$> gts;
  inv_task_ok i gt : gts !! i = Some gt -> task_ok gt;
  inv_owner l i :
    owner c l = Some i <-> exists gt, gts !! i = Some gt /\ g_held (fst gt) = Some l;
  inv_counters cn : read_counter cn (shared c) = wrap64 (base cn + total (task_adds cn) gts);
}.

Lemma inv_u64 base gts c cn : Inv base gts c -> u64_ok (read_counter cn (shared c)).
Proof. intros H. rewrite (inv_counters _ _ _ H). apply wrap64_range. Qed.

Lemma read_bump cn c s :
  read_counter cn (bump c s) =
  if decide (cn = c) then fetch_add1 (read_counter cn s) else read_counter cn s.
Proof. by destruct cn, c. Qed.

(** ** One access *)

Lemma counter_same cn s : u64_ok (read_counter cn s) ->
  read_counter cn s = wrap64 (read_counter cn s + 0).
Proof. unfold u64_ok. intros. by rewrite Z.add_0_r, wrap64_small. Qed.

Lemma owner_take (own : lock -> option nat) i l0 :
  (forall l, own l <> Some i) -> own l0 = None ->
  forall l j, set_owner l0 (Some i) own l = Some j <->
    (if decide (j = i) then Some l0 = Some l else own l = Some j).
Proof.
  intros Hi Hf l j. unfold set_owner. specialize (Hi l).
  destruct (decide (l = l0)) as [->|], (decide (j = i)) as [->|]; split; congruence.
Qed.

Lemma owner_drop (own : lock -> option nat) i l0 :
  (forall l, own l = Some i <-> Some l0 = Some l) ->
  forall l j, set_owner l0 None own l = Some j <->
    (if decide (j = i) then @None lock = Some l else own l = Some j).
Proof.
  intros Hi l j. unfold set_owner. pose proof (proj2 (Hi l0) eq_refl). specialize (Hi l).
  destruct (decide (l = l0)) as [->|], (decide (j = i)) as [->|]; split; try congruence.
  intros ?%Hi. congruence.
Qed.

Lemma owner_keep (own : lock -> option nat) i h :
  (forall l, own l = Some i <-> h = Some l) ->
  forall l j, own l = Some j <-> (if decide (j = i) then h = Some l else own l = Some j).
Proof. intros Hi l j. by destruct (decide (j = i)) as [->|]. Qed.

Lemma elapsed_secs_nonneg a b : 0 <= elapsed_secs a b.
Proof. unfold elapsed_secs. apply Z.div_pos; lia. Qed.

(** Accesses that read, or write one field, leave the counters alone. *)
Ltac read_access Hc :=
  let Hn := fresh in
  destruct Hc as (-> & Hn & Hc); intros [= <- <- <-];
  eexists _, _, _; split_and!; [by apply Hc|lia|done|done|done].
Ltac write_access Hc :=
  let Hn := fresh in let Hw := fresh in let cn := fresh in
  destruct Hc as (-> & Hn & Hw & Hc); intros [= <- <- <-];
  eexists _, _, _; split_and!;
    [exact Hc|lia| |done|intros cn; match goal with H : forall c, _ = wrap64 _ |- _ =>
       specialize (H cn) end; by destruct cn].

Lemma step_proc_ok req p h n t s own i now s' own' p' :
  checked req p h n t -> good s -> (forall cn, u64_ok (read_counter cn s)) ->
  (forall l, own l = Some i <-> h = Some l) ->
  step_proc i now s own p = Some (s', own', p') ->
  exists h' n' t', checked req p' h' n' t' /\ (n' < n)%nat /\ good s' /\
    (forall l j, own' l = Some j <-> (if decide (j = i) then h' = Some l else own l = Some j)) /\
    (forall cn, read_counter cn s' = wrap64 (read_counter cn s + (t' cn - t cn))).
Proof.
  intros Hc Hg Hu Ho. destruct Hg as [Gp Ga Gk].
  assert (Hsame : forall cn, read_counter cn s = wrap64 (read_counter cn s + (t cn - t cn))).
  { intros cn. rewrite Z.sub_diag. by apply counter_same. }
  pose proof (owner_keep own i h Ho) as Hkeep.
  destruct p as [r| |l k|l k|k|k|k|q k|a k|key k|c k|c k|k]; simpl in *; try done.
  - destruct Hc as (-> & Hn & Hc). destruct (own l) eqn:E; [done|]. intros [= <- <- <-].
    exists (Some l), (pred n), t. split_and!; [done|lia|done| |done].
    apply owner_take; [|done]. intros l' ?%Ho. done.
  - destruct Hc as (-> & Hn & Hc). intros [= <- <- <-].
    exists None, (pred n), t. split_and!; [done|lia|done| |done]. by apply owner_drop.
  - read_access Hc.
  - read_access Hc.
  - read_access Hc.
  - write_access Hc. done.
  - write_access Hc. done.
  - write_access Hc. done.
  - destruct Hc as (Hn & Hc). intros [= <- <- <-].
    eexists _, (pred n), _. split_and!; [done|lia| |done|].
    + by destruct c.
    + intros cn. rewrite read_bump. unfold tick, fetch_add1.
      destruct (decide (cn = c)); [f_equal; lia|]. etrans; [apply Hsame|f_equal; lia].
  - destruct Hc as (Hn & Hc). intros [= <- <- <-].
    eexists _, (pred n), _. split_and!; [by apply Hc|lia|done|done|done].
  - destruct Hc as (Hn & Hc). intros [= <- <- <-].
    eexists _, (pred n), _.
    split_and!; [apply Hc, elapsed_secs_nonneg|lia|done|done|done].
Qed.

(** ** One step of a task *)

Lemma inv_update base gts c i g t g' t' s' own' :
  Inv base gts c -> gts !! i = Some (g, t) -> task_ok (g', t') -> good s' ->
  (forall l j, own' l = Some j <->
     (if decide (j = i) then g_held g' = Some l else owner c l = Some j)) ->
  (forall cn, read_counter cn s' =
     wrap64 (read_counter cn (shared c) + (task_adds cn (g', t') - task_adds cn (g, t)))) ->
  Inv base (<[i := (g', t')]> gts) (mkConfig s' own' (<[i := t']> (tasks c)) false).
Proof.
  intros [Ha Hg Ht Hok Hown Hcnt] Hi Hok' Hg' Hown' Hcnt'. split; simpl.
  - done.
  - done.
  - by rewrite Ht, list_fmap_insert.
  - intros j gt. destruct (decide (i = j)) as [<-|Hne].
    + rewrite list_lookup_insert_eq by (by eapply lookup_lt_Some). by intros [= <-].
    + rewrite list_lookup_insert_ne by done. apply Hok.
  - intros l j. rewrite Hown'. destruct (decide (j = i)) as [->|Hne].
    + rewrite list_lookup_insert_eq by (by eapply lookup_lt_Some).
      split; [intros ?; by eexists|]. by intros (? & [= <-] & ?).
    + by rewrite Hown, list_lookup_insert_ne by done.
  - intros cn. rewrite Hcnt', Hcnt, (total_insert _ _ _ _ _ Hi). unfold wrap64.
    rewrite Zplus_mod_idemp_l. f_equal. lia.
Qed.

Context (lib : RingCrate).
Context (Hhandler : forall req, R req ->
           checked req (handle_proc lib req) None handler_steps (fun _ => 0)).

Lemma inv_lookup base gts c i t :
  Inv base gts c -> tasks c !! i = Some t -> exists g, gts !! i = Some (g, t).
Proof.
  intros H. rewrite (inv_tasks _ _ _ H), list_lookup_fmap.
  destruct (gts !! i) as [[g t']|] eqn:E; [|done]. intros [= <-]. by exists g.
Qed.

Lemma inv_held base gts c i g t l :
  Inv base gts c -> gts !! i = Some (g, t) -> owner c l = Some i <-> g_held g = Some l.
Proof.
  intros H Hi. rewrite (inv_owner _ _ _ H). split; [|by exists (g, t)].
  intros (gt & E & ?). rewrite Hi in E. by injection E as <-.
Qed.

Lemma inv_same base gts c cn z :
  Inv base gts c -> z = 0 ->
  read_counter cn (shared c) = wrap64 (read_counter cn (shared c) + z).
Proof. intros HI ->. by eapply counter_same, inv_u64. Qed.

Lemma inv_keep base gts c i g t :
  Inv base gts c -> gts !! i = Some (g, t) ->
  forall l j, owner c l = Some j <->
    (if decide (j = i) then g_held g = Some l else owner c l = Some j).
Proof. intros HI Hi. apply owner_keep. intros l. by eapply inv_held. Qed.

(** The task reads its next request. *)
Lemma inv_read base gts c i g t req rest :
  Inv base gts c -> gts !! i = Some (g, t) -> current t = None -> todo t = req :: rest ->
  let t' := mkTask rest (Some (req, handle_proc lib req)) (answers t) in
  let g' := mkGhost None handler_steps (fun _ => 0) in
  Inv base (<[i := (g', t')]> gts) (mkConfig (shared c) (owner c) (<[i := t']> (tasks c)) false) /\
  1 + total task_left (<[i := (g', t')]> gts) <= total task_left gts.
Proof.
  intros HI Hi Ec Et t' g'. pose proof (inv_keep _ _ _ _ _ _ HI Hi) as Hkeep.
  destruct (inv_task_ok _ _ _ HI _ _ Hi) as (Htodo & Hans & Hcur).
  rewrite Ec in Hcur. rewrite Et in Htodo. destruct Hcur as [Hh Ha0].
  apply Forall_cons in Htodo as [Hreq Htodo]. split.
  - eapply inv_update; try done.
    + split_and!; simpl; try done. by apply Hhandler.
    + apply (inv_good _ _ _ HI).
    + by rewrite Hh in Hkeep.
    + intros cn. eapply inv_same; [done|]. unfold task_adds. simpl. rewrite Ha0. lia.
  - rewrite (total_insert _ _ _ _ _ Hi). unfold task_left. simpl.
    rewrite Ec, Et, zlen_cons. unfold request_steps, handler_steps. lia.
Qed.

(** The task answers the request it has handled. *)
Lemma inv_answer base gts c i g t req r :
  Inv base gts c -> gts !! i = Some (g, t) -> current t = Some (req, Done r) ->
  let t' := mkTask (todo t) None (answers t ++ [(req, r)]) in
  Inv base (<[i := (g_none, t')]> gts) (mkConfig (shared c) (owner c) (<[i := t']> (tasks c)) false) /\
  1 + total task_left (<[i := (g_none, t')]> gts) <= total task_left gts.
Proof.
  intros HI Hi Ec t'. pose proof (inv_keep _ _ _ _ _ _ HI Hi) as Hkeep.
  destruct (inv_task_ok _ _ _ HI _ _ Hi) as (Htodo & Hans & Hcur).
  rewrite Ec in Hcur. destruct Hcur as (Hh & Hq & Ha). split.
  - eapply inv_update; try done.
    + split_and!; simpl; try done. apply Forall_app. by repeat constructor.
    + apply (inv_good _ _ _ HI).
    + by rewrite Hh in Hkeep.
    + intros cn. eapply inv_same; [done|]. unfold task_adds. simpl.
      rewrite answered_app, Ha. simpl. lia.
  - rewrite (total_insert _ _ _ _ _ Hi). unfold task_left. simpl. rewrite Ec. lia.
Qed.

(** The task's handler makes one access. *)
Lemma inv_access base gts c i g t now req p s' own' p' :
  Inv base gts c -> gts !! i = Some (g, t) -> current t = Some (req, p) ->
  step_proc i now (shared c) (owner c) p = Some (s', own', p') ->
  exists gts',
    Inv base gts'
      (mkConfig s' own' (<[i := mkTask (todo t) (Some (req, p')) (answers t)]> (tasks c)) false) /\
    1 + total task_left gts' <= total task_left gts.
Proof.
  intros HI Hi Ec Hs.
  destruct (inv_task_ok _ _ _ HI _ _ Hi) as (Htodo & Hans & Hcur). rewrite Ec in Hcur.
  destruct (step_proc_ok _ _ _ _ _ _ _ _ _ _ _ _ Hcur (inv_good _ _ _ HI)
              (fun cn => inv_u64 _ _ _ cn HI) (fun l => inv_held _ _ _ _ _ _ l HI Hi) Hs)
    as (h' & n' & t' & Hc' & Hlt & Hg' & Ho' & Hn').
  exists (<[i := (mkGhost h' n' t', mkTask (todo t) (Some (req, p')) (answers t))]> gts). split.
  - eapply inv_update; try done. intros cn. rewrite Hn'. unfold task_adds. simpl.
    f_equal. lia.
  - rewrite (total_insert _ _ _ _ _ Hi). unfold task_left. simpl. rewrite Ec. lia.
Qed.

Lemma inv_step base gts c i now c' :
  Inv base gts c -> step lib i now c = Some c' ->
  exists gts', Inv base gts' c' /\ 1 + total task_left gts' <= total task_left gts.
Proof.
  intros HI. unfold step. rewrite (inv_alive _ _ _ HI).
  destruct (tasks c !! i) as [t|] eqn:Ht; [simpl|done].
  destruct (inv_lookup _ _ _ _ _ HI Ht) as [g Hi].
  destruct (current t) as [[req p]|] eqn:Ec.
  - destruct p; try (intros [= <-]; eexists; by eapply inv_answer);
      try (destruct (inv_task_ok _ _ _ HI _ _ Hi) as (_ & _ & Hcur); by rewrite Ec in Hcur);
      (destruct (step_proc _ _ _ _ _) as [[[s' own'] p']|] eqn:Es; simpl; [|done]);
      intros [= <-]; by eapply inv_access.
  - destruct (todo t) as [|req rest] eqn:Et; [done|]. intros [= <-].
    eexists. by eapply inv_read.
Qed.

(** ** Schedules *)

Lemma inv_run base gts c sched c' :
  Inv base gts c -> run_schedule lib sched c = Some c' ->
  exists gts', Inv base gts' c' /\ zlen sched + total task_left gts' <= total task_left gts.
Proof.
  revert gts c. induction sched as [|[i now] sched IH]; intros gts c HI; simpl.
  - intros [= <-]. exists gts. split; [done|]. by rewrite zlen_nil.
  - destruct (step lib i now c) as [c1|] eqn:Es; simpl; [|done]. intros Hr.
    destruct (inv_step _ _ _ _ _ _ HI Es) as (gts1 & HI1 & Hl1).
    destruct (IH _ _ HI1 Hr) as (gts2 & HI2 & Hl2).
    exists gts2. split; [done|]. rewrite zlen_cons. lia.
Qed.

Definition start_ghost (conns : list (list Request)) : list (ghost * task) :=
  (fun reqs => (g_none, mkTask reqs None [])) <$> conns.

Lemma inv_start s conns :
  good s -> (forall cn, u64_ok (read_counter cn s)) -> Forall (Forall R) conns ->
  Inv (fun cn => read_counter cn s) (start_ghost conns) (start s conns).
Proof.
  intros Hg Hu HR. split; simpl; try done.
  - unfold start_ghost. by rewrite <-list_fmap_compose.
  - intros i gt. unfold start_ghost. rewrite list_lookup_fmap.
    destruct (conns !! i) as [reqs|] eqn:E; [|done]. intros [= <-].
    split_and!; simpl; try done. eapply Forall_lookup_1 in HR; eauto.
  - intros l i. split; [done|]. intros (gt & E & Hh). revert E.
    unfold start_ghost. rewrite list_lookup_fmap. destruct (conns !! i); [|done].
    intros [= <-]. done.
  - intros cn. assert (total (task_adds cn) (start_ghost conns) = 0) as ->.
    { induction conns as [|reqs conns IH]; simpl; [done|].
      apply Forall_cons in HR as [_ HR]. rewrite IH by done. done. }
    by apply counter_same.
Qed.

Lemma start_left conns :
  total task_left (start_ghost conns) = Z.of_nat request_steps * zlen (concat conns).
Proof.
  induction conns as [|reqs conns IH]; simpl; [done|]. fold (start_ghost conns).
  rewrite IH, zlen_app. unfold task_left. simpl. unfold request_steps. lia.
Qed.

Lemma left_nonneg gts : 0 <= total task_left gts.
Proof.
  apply total_nonneg. intros [g t]. unfold task_left, request_steps. simpl.
  pose proof (zlen_nonneg (todo t)). destruct (current t); lia.
Qed.

(** A connection that arrives later. *)
Lemma inv_arrive base gts c reqs :
  Inv base gts c -> Forall R reqs ->
  Inv base (gts ++ [(g_none, mkTask reqs None [])])
    (mkConfig (shared c) (owner c) (tasks c ++ [mkTask reqs None []]) (aborted c)).
Proof.
  intros [Ha Hg Ht Hok Hown Hcnt] HR. split; simpl; try done.
  - by rewrite Ht, fmap_app.
  - intros i gt [Hi|[_ Hi]]%lookup_app_Some; [by apply (Hok i)|].
    apply list_lookup_singleton_Some in Hi as [_ <-]. by split_and!.
  - intros l i. rewrite Hown. split; intros (gt & Hi & Hh); exists gt; split; try done.
    + by apply lookup_app_l_Some.
    + apply lookup_app_Some in Hi as [Hi|[_ Hi]]; [done|].
      apply list_lookup_singleton_Some in Hi as [_ <-]. done.
  - intros cn. rewrite Hcnt. do 2 f_equal. clear. induction gts as [|gt gts IH]; [done|].
    simpl. by rewrite IH.
Qed.

(** ** A handler that runs without interference *)

Lemma step_proc_alone req p h n t s own i now :
  checked req p h n t -> (forall l, own l = if decide (h = Some l) then Some i else None) ->
  (exists r, p = Done r) \/
  exists s1 own1 p1, step_proc i now s own p = Some (s1, own1, p1) /\
    run_alone now s p = run_alone now s1 p1.
Proof.
  intros Hc Ho. destruct p; simpl in *; eauto 7; try done.
  destruct Hc as (-> & _). rewrite Ho. simpl. eauto 7.
Qed.

Lemma owner_alone (own own' : lock -> option nat) i h h' :
  (forall l, own l = if decide (h = Some l) then Some i else None) ->
  (forall l j, own' l = Some j <-> (if decide (j = i) then h' = Some l else own l = Some j)) ->
  forall l, own' l = if decide (h' = Some l) then Some i else None.
Proof.
  intros Ho Ho' l. destruct (decide (h' = Some l)) as [E|E].
  - apply Ho'. by rewrite decide_True.
  - destruct (own' l) as [j|] eqn:El; [|done]. apply Ho' in El.
    destruct (decide (j = i)); [done|]. rewrite Ho in El. by case_decide; simplify_eq.
Qed.

Lemma solo_proc req now n : forall p h t s own ts i rest ans r s',
  checked req p h n t -> good s -> (forall cn, u64_ok (read_counter cn s)) ->
  (forall l, own l = if decide (h = Some l) then Some i else None) ->
  ts !! i = Some (mkTask rest (Some (req, p)) ans) -> run_alone now s p = Returns (r, s') ->
  exists m own',
    run_schedule lib (replicate m (i, now)) (mkConfig s own ts false) =
      Some (mkConfig s' own' (<[i := mkTask rest (Some (req, Done r)) ans]> ts) false) /\
    forall l, own' l = None.
Proof.
  induction n as [n IH] using lt_wf_ind.
  intros p h t s own ts i rest ans r s' Hc Hg Hu Ho Ht Hrun.
  destruct (step_proc_alone _ _ _ _ _ s own i now Hc Ho)
    as [[r0 ->]|(s1 & own1 & p1 & Hs & Hrun1)].
  - injection Hrun as -> ->. destruct Hc as [-> _]. exists 0%nat, own. simpl.
    rewrite list_insert_id by done. split; [done|]. intros l. by rewrite Ho.
  - assert (Ho' : forall l, own l = Some i <-> h = Some l).
    { intros l. rewrite Ho. by case_decide. }
    destruct (step_proc_ok _ _ _ _ _ _ _ _ _ _ _ _ Hc Hg Hu Ho' Hs)
      as (h1 & n1 & t1 & Hc1 & Hlt & Hg1 & Hown1 & Hn1).
    destruct (IH n1 Hlt p1 h1 t1 s1 own1
                (<[i := mkTask rest (Some (req, p1)) ans]> ts) i rest ans r s')
      as (m & own' & Hm & Hfree); try done.
    + intros cn. rewrite Hn1. apply wrap64_range.
    + by eapply owner_alone.
    + rewrite list_lookup_insert_eq; [done|]. by eapply lookup_lt_Some.
    + congruence.
    + exists (S m), own'. split; [|done]. rewrite list_insert_insert_eq in Hm. simpl.
      unfold step. simpl. rewrite Ht. simpl. destruct p; try done; by rewrite Hs.
Qed.

(** ** Progress *)

Lemma task_moves base gts c i g t :
  Inv base gts c -> gts !! i = Some (g, t) -> ~ idle t ->
  (g_held g = None -> forall l, owner c l = None) -> step lib i 0 c <> None.
Proof.
  intros HI Hi Hidle Hfree. unfold step. rewrite (inv_alive _ _ _ HI), (inv_tasks _ _ _ HI).
  rewrite list_lookup_fmap, Hi. simpl.
  destruct (inv_task_ok _ _ _ HI _ _ Hi) as (_ & _ & Hcur). unfold idle in Hidle.
  destruct (current t) as [[req p]|] eqn:Ec.
  - destruct p as [r| |l k|l k|k|k|k|q k|a k|key k|cn k|cn k|k]; simpl; try done.
    simpl in Hcur. destruct Hcur as (Hh & _). by rewrite (Hfree Hh).
  - destruct (todo t); [|done]. tauto.
Qed.

Lemma stuck_idle base gts c : Inv base gts c -> stuck lib c -> Forall idle (tasks c).
Proof.
  intros HI Hst.
  assert (Hfree : forall l, owner c l = None).
  { intros l. destruct (owner c l) as [i|] eqn:E; [|done].
    destruct (proj1 (inv_owner _ _ _ HI l i) E) as ([g t] & Hi & Hh). simpl in Hh.
    destruct (task_moves _ _ _ _ _ _ HI Hi); [| |apply Hst]; [|congruence].
    intros [_ Hn]. destruct (inv_task_ok _ _ _ HI _ _ Hi) as (_ & _ & Hcur).
    rewrite Hn in Hcur. destruct Hcur. congruence. }
  rewrite Forall_lookup. intros i t Ht.
  destruct (inv_lookup _ _ _ _ _ HI Ht) as [g Hi].
  destruct (todo t) eqn:Et, (current t) eqn:Ec; try done;
    (destruct (task_moves _ _ _ _ _ _ HI Hi); [intros [??]; congruence|done|apply Hst]).
Qed.

(** A step is possible or no task can move. *)
Lemma stuck_or_step c : stuck lib c \/ exists i, step lib i 0 c <> None.
Proof.
  destruct (decide (Exists (fun i => step lib i 0 c <> None) (seq 0 (length (tasks c)))))
    as [He|Hn].
  - apply Exists_exists in He as (i & _ & Hi). by right; exists i.
  - left. intros i now. destruct (step lib i now c) as [c'|] eqn:Es; [|done]. exfalso.
    apply Hn, Exists_exists. exists i. split.
    + apply elem_of_seq. split; [lia|]. revert Es. unfold step.
      destruct (aborted c); [done|]. destruct (tasks c !! i) eqn:E; [|done].
      intros _. apply lookup_lt_Some in E. lia.
    + revert Es. unfold step. destruct (aborted c); [done|].
      destruct (tasks c !! i) as [t|]; simpl; [|done].
      destruct (current t) as [[req p]|]; [|by destruct (todo t)].
      destruct p; simpl; try done. by destruct (owner c l).
Qed.

(** Every configuration the checked tasks reach can be run to the end. *)
Lemma run_to_idle base gts c :
  Inv base gts c -> exists sched c', run_schedule lib sched c = Some c' /\ Forall idle (tasks c').
Proof.
  remember (Z.to_nat (total task_left gts)) as n eqn:En.
  revert gts c En. induction n as [n IH] using lt_wf_ind. intros gts c -> HI.
  destruct (stuck_or_step c) as [Hst|[i Hi]].
  - exists [], c. split; [done|]. by eapply stuck_idle.
  - destruct (step lib i 0 c) as [c1|] eqn:Es; [|done].
    destruct (inv_step _ _ _ _ _ _ HI Es) as (gts1 & HI1 & Hl1).
    pose proof (left_nonneg gts1).
    destruct (IH (Z.to_nat (total task_left gts1)) ltac:(lia) gts1 c1 eq_refl HI1)
      as (sched & c' & Hr & Hidle).
    exists ((i, 0) :: sched), c'. simpl. by rewrite Es.
Qed.
End Logic.

(** * What a connection asked stays what it is answered *)

Definition script (t : task) : list Request :=
  (fst <$> answers t) ++ (if current t is Some (req, _) then [req] else []) ++ todo t.

Lemma step_script lib i now c c' :
  step lib i now c = Some c' -> script <$> tasks c' = script <$> tasks c.
Proof.
  unfold step. destruct (aborted c); [done|].
  destruct (tasks c !! i) as [t|] eqn:Ht; simpl; [|done].
  assert (Hsame : forall t', script t' = script t ->
            script <$> <[i := t']> (tasks c) = script <$> tasks c).
  { intros t' Hs. rewrite list_fmap_insert, Hs. apply list_insert_id.
    by rewrite list_lookup_fmap, Ht. }
  unfold script in Hsame at 1 2.
  destruct (current t) as [[req p]|] eqn:Ec.
  - destruct p; try (intros [= <-]); try done; simpl;
      try (destruct (step_proc _ _ _ _ _) as [[[??]?]|]; simpl; [intros [= <-]|done]; simpl);
      try (apply Hsame; simpl; by rewrite ?fmap_app, <-?app_assoc).
    destruct (owner c l); simpl; [done|]. intros [= <-]. by apply Hsame.
  - destruct (todo t) as [|req rest]; [done|]. intros [= <-]. by apply Hsame.
Qed.

Lemma run_script lib sched c c' :
  run_schedule lib sched c = Some c' -> script <$> tasks c' = script <$> tasks c.
Proof.
  revert c. induction sched as [|[i now] sched IH]; intros c; simpl; [by intros [= <-]|].
  destruct (step lib i now c) as [c1|] eqn:Es; simpl; [|done].
  intros Hr. rewrite (IH _ Hr). by eapply step_script.
Qed.

(** * Logs *)

(** What happened, each entry with the task it is of; the entries of task
    [i]. *)
Definition log_of {A} (i : nat) (log : list (nat * A)) : list A :=
  snd <$> filter (fun e => e.1 = i) log.

Lemma log_of_app {A} i (log log' : list (nat * A)) :
  log_of i (log ++ log') = log_of i log ++ log_of i log'.
Proof. unfold log_of. by rewrite filter_app, fmap_app. Qed.

Lemma log_of_own {A} i (l : list A) : log_of i (pair i <$> l) = l.
Proof.
  induction l as [|x l IH]; [done|]. unfold log_of. rewrite fmap_cons, filter_cons_True by done.
  rewrite fmap_cons. by f_equal.
Qed.

Lemma log_of_other {A} i j (l : list A) : i <> j -> log_of j (pair i <$> l) = [].
Proof.
  intros Hne. induction l as [|x l IH]; [done|]. unfold log_of.
  by rewrite fmap_cons, filter_cons_False.
Qed.

Lemma log_of_ne {A} i j (q : A) log : i <> j -> log_of j (log ++ [(i, q)]) = log_of j log.
Proof.
  intros Hne. change [(i, q)] with (pair i <$> [q]).
  rewrite log_of_app, log_of_other by done. apply app_nil_r.
Qed.

Lemma log_of_eq {A} i (q : A) log : log_of i (log ++ [(i, q)]) = log_of i log ++ [q].
Proof. change [(i, q)] with (pair i <$> [q]). by rewrite log_of_app, log_of_own. Qed.
