(* ===== verification/ConcDaemon.v ===== *)
(** The handlers of Concurrent.v checked in the logic of ConcLogic.v: what
    each request is answered when other tasks run in between. *)

From Stdlib Require Import Strings.String.
From S2P Require Import Prelude Crypto Aead AesGcmRing Wire Ipc Cryptod Concurrent ConcLogic.

(** * Answers under interleaving *)

Section Answers.
Context (ae : Aead).

(** What [Encrypt] is answered by a provider of the algorithm [a] and the
    key [k]: they were read one after the other and may not match. *)
Definition encrypt_result (a : AlgoId) (k : KeyHandle) (p : EncryptParams) : Response :=
  if decide (zlen (ep_nonce p) <> 12) then nonce_error a (zlen (ep_nonce p))
  else if decide (algo k <> a) then
    Error 500 ("seal failed: " +:+ WireError_display (Crypto (AlgorithmMismatch a (algo k))))
  else Ciphertext (mkBytes (frame_bytes ae a k (id k) (ep_nonce p) x00 (ep_plaintext p))).

Definition decrypt_result (a : AlgoId) (k : KeyHandle) (p : DecryptParams) : Response :=
  match wire_open_spec ae a k (dp_frame p) (zlen (dp_frame p)) with
  | Ok pt => Plaintext (mkBytes pt)
  | Err e => Error (open_code e) ("open failed: " +:+ WireError_display e)
  end.

(** The algorithms in play, the keys ever installed, and whether the key
    may be missing. *)
Context (A : AlgoId -> Prop) (K : KeyHandle -> Prop) (N : Prop).

Definition any_provider (q : CryptoProvider) : Prop := ProviderContract ae q /\ A (algorithm q).
Definition any_key (k : KeyHandle) : Prop := key_wf k /\ u32_ok (id k) /\ A (algo k) /\ K k.
Definition any_active (o : option KeyHandle) : Prop := if o is Some k then any_key k else N.

Definition allowed (req : Request) : Prop :=
  request_ok req /\
  match req with
  | RotateKey p => forall a k, rotation_spec p = Ok (a, k) -> A a /\ K k
  | _ => True
  end.

Definition answer_ok (req : Request) (r : Response) : Prop :=
  request_sized req ->
  match req with
  | GetStatus =>
      exists st, r = Status st /\ version st = CARGO_PKG_VERSION /\ running st = true /\
        0 <= uptime_s st /\ (exists a, A a /\ active_provider st = provider_name a) /\
        (forall i, active_key_id st = Some i -> exists k, K k /\ id k = i) /\
        u64_ok (packets_sealed st) /\ u64_ok (packets_opened st) /\ u64_ok (crypto_errors st)
  | SetPolicy _ => r = ROk
  | RotateKey p => r = match rotation_spec p with Ok _ => ROk | Err resp => resp end
  | Encrypt p =>
      N /\ r = Error 409 "no active key — call rotate_key first" \/
      exists a k, A a /\ any_key k /\ r = encrypt_result a k p
  | Decrypt p =>
      N /\ r = Error 409 "no active key" \/
      exists a k, A a /\ any_key k /\ r = decrypt_result a k p
  end.
End Answers.

(** * The handlers, checked *)

Section Handlers.
Context (lib : RingCrate) (ae : Aead) `{!RingCrateLaws lib ae, !AeadLaws ae}.
Context (A : AlgoId -> Prop) (K : KeyHandle -> Prop) (N : Prop).

Abbreviation checks := (checked (any_provider ae A) A (any_active A K N) (answer_ok ae A K N)).

(** The sequential handlers' lemmas need a whole state; any will do. *)
Definition state_with (q : CryptoProvider) : CryptodState :=
  mkCryptodState 0 q Aes256Gcm None 0 0 0.

Lemma encrypt_answer q k p r s' :
  request_sized (Encrypt p) -> ProviderContract ae q -> key_wf k ->
  encrypt_with k p (state_with q) = Returns (r, s') -> r = encrypt_result ae (algorithm q) k p.
Proof.
  intros Hsz Hq Hwf Hret. rewrite (encrypt_with_run ae) in Hret by done.
  unfold encrypt_result. repeat case_decide; by injection Hret as <- <-.
Qed.

Lemma decrypt_answer q k p r s' :
  request_sized (Decrypt p) -> ProviderContract ae q -> key_wf k ->
  decrypt_with k p (state_with q) = Returns (r, s') -> r = decrypt_result ae (algorithm q) k p.
Proof.
  intros Hsz Hq Hwf Hret. rewrite (decrypt_with_run ae) in Hret by done.
  unfold decrypt_result. simpl in Hret.
  by destruct (wire_open_spec _ _ _ _ _); injection Hret as <- <-.
Qed.

Lemma status_checked : checks GetStatus status_proc None handler_steps (fun _ => 0).
Proof.
  unfold status_proc, handler_steps. simpl. split_and!; try done; try lia.
  intros a Ha. split_and!; try done; try lia.
  intros o Ho. split_and!; try done; try lia. intros up Hup. split; [lia|].
  intros n_s Hs. split; [lia|]. intros n_o Hn. split; [lia|]. intros n_e He.
  split_and!; try done; try lia; [|by intros []].
  intros _. eexists. split; [done|]. simpl. split_and!; try done; [by exists a|].
  intros i. destruct o as [k|]; [|done]. intros [= <-]. exists k. split; [|done]. apply Ho.
Qed.

Lemma rotate_checked p :
  allowed A K (RotateKey p) ->
  checks (RotateKey p) (rotate_proc lib p) None handler_steps (fun _ => 0).
Proof.
  intros [[_ Hid] Hrot]. unfold rotate_proc, handler_steps.
  rewrite (prepare_rotation_run lib ae p).
  destruct (rotation_spec p) as [[a k]|resp] eqn:E; simpl.
  - destruct (rotation_spec_Ok _ _ _ E) as (Ha & Hk & Hwf & Hi & _).
    destruct (Hrot a k eq_refl) as [HA HK].
    split_and!; try done; try lia; try (by intros []).
    + split; [by apply (ring_contract lib ae (mkRing a))|done].
    + split_and!; [done|by rewrite Hi|by rewrite Hk|done].
    + intros _. simpl. by rewrite E.
  - split_and!; [done| |].
    + intros _. simpl. by rewrite E.
    + unfold rotation_spec in E. intros c. unfold adds.
      destruct (from_u8 (rk_algo p)) as [[]|]; repeat case_decide; simplify_eq; by destruct c.
Qed.

Lemma encrypt_checked p :
  request_ok (Encrypt p) ->
  checks (Encrypt p) (encrypt_proc p) None handler_steps (fun _ => 0).
Proof.
  intros Hreq. unfold encrypt_proc, handler_steps. simpl. split_and!; try done; try lia.
  intros [k|] Ho; simpl.
  2: { split_and!; try done; try lia; [by left|by intros []]. }
  rename Ho into Hk. simpl in Hk. split_and!; try done; try lia.
  intros q [Hq HA].
  destruct (encrypt_with_returns ae k p (state_with q) Hq) as (r & s' & Hret & _); [apply Hreq|].
  assert (Hans : request_sized (Encrypt p) -> r = encrypt_result ae (algorithm q) k p).
  { intros Hsz. by apply (encrypt_answer _ _ _ _ _ Hsz Hq (proj1 Hk) Hret). }
  unfold encrypt_with in Hret. simpl provider in Hret.
  destruct (negb _); [|destruct (seal _ _ _ _ _ _ _) as [[[n|e] out]|]; [| |done]];
    injection Hret as <- _; simpl; split_and!; try done; try lia; try (by intros []);
    intros Hsz; right; exists (algorithm q), k; auto.
Qed.

Lemma decrypt_checked p :
  request_ok (Decrypt p) ->
  checks (Decrypt p) (decrypt_proc p) None handler_steps (fun _ => 0).
Proof.
  intros Hreq. unfold decrypt_proc, handler_steps. simpl. split_and!; try done; try lia.
  intros [k|] Ho; simpl.
  2: { split_and!; try done; try lia; [by left|by intros []]. }
  rename Ho into Hk. simpl in Hk. split_and!; try done; try lia.
  intros q [Hq HA].
  destruct (decrypt_with_returns ae k p (state_with q) Hq Hreq) as (r & s' & Hret & _).
  assert (Hans : request_sized (Decrypt p) -> r = decrypt_result ae (algorithm q) k p).
  { intros Hsz. by apply (decrypt_answer _ _ _ _ _ Hsz Hq (proj1 Hk) Hret). }
  unfold decrypt_with in Hret. simpl provider in Hret.
  destruct (open _ _ _ _) as [[[n|e] out]|]; [| |done];
    injection Hret as <- _; simpl; split_and!; try done; try lia;
    try (intros Hsz; right; exists (algorithm q), k; by auto).
  - by intros [].
  - intros []; try done. by destruct e as [| | | | | | |[]].
Qed.

Lemma handle_checked req :
  allowed A K req -> checks req (handle_proc lib req) None handler_steps (fun _ => 0).
Proof.
  intros Hreq. destruct req as [|p|p|p|p]; simpl.
  - apply status_checked.
  - split_and!; [done|done|by intros []].
  - by apply rotate_checked.
  - apply encrypt_checked, Hreq.
  - apply decrypt_checked, Hreq.
Qed.

(** ** The configurations of a started daemon *)

Abbreviation invariant := (Inv (any_provider ae A) A (any_active A K N) (allowed A K)
                             (answer_ok ae A K N)).

Lemma good_state s :
  state_safe ae s -> A (algorithm (provider s)) -> A (active_algo s) ->
  (active_key s = None -> N) -> (forall k, active_key s = Some k -> A (algo k) /\ K k) ->
  good (any_provider ae A) A (any_active A K N) s.
Proof.
  intros Hs ? ? HN Hk. split; [split; [apply Hs|done]|done|].
  destruct (active_key s) as [k|] eqn:E; [|by apply HN]. simpl.
  destruct (safe_key _ _ Hs k E), (Hk k eq_refl). by split_and!.
Qed.

Lemma started s conns sched c :
  state_safe ae s -> good (any_provider ae A) A (any_active A K N) s ->
  Forall (Forall (allowed A K)) conns ->
  run_schedule lib sched (start s conns) = Some c ->
  exists gts, invariant (fun cn => read_counter cn s) gts c /\
    zlen sched + total task_left gts <= Z.of_nat request_steps * zlen (concat conns).
Proof.
  intros Hs Hg HR Hrun.
  assert (HI : invariant (fun cn => read_counter cn s) (start_ghost conns) (start s conns)).
  { apply inv_start; [done| |done]. intros []; apply Hs. }
  destruct (inv_run _ _ _ _ _ lib handle_checked _ _ _ _ _ HI Hrun) as (gts & HI' & Hl).
  exists gts. split; [done|]. by rewrite <-start_left.
Qed.

Lemma invariant_safe base gts c : invariant base gts c -> state_safe ae (shared c).
Proof.
  intros HI. destruct (inv_good _ _ _ _ _ _ _ _ HI) as [[Hq _] _ Hk]. split; [done|..].
  - intros k E. rewrite E in Hk. by destruct Hk as (? & ? & _).
  - apply (inv_u64 _ _ _ _ _ _ _ _ CSealed HI).
  - apply (inv_u64 _ _ _ _ _ _ _ _ COpened HI).
  - apply (inv_u64 _ _ _ _ _ _ _ _ CErrors HI).
Qed.

(** Every access is made under its mutex. *)
Lemma invariant_exclusive base gts c i t req p l :
  invariant base gts c -> tasks c !! i = Some t -> current t = Some (req, p) ->
  touches p = Some l -> owner c l = Some i.
Proof.
  intros HI Ht Hcur Hl. destruct (inv_lookup _ _ _ _ _ _ _ _ _ _ HI Ht) as [g Hi].
  apply (inv_held _ _ _ _ _ _ _ _ _ _ _ _ HI Hi).
  destruct (inv_task_ok _ _ _ _ _ _ _ _ HI _ _ Hi) as (_ & _ & Hc). rewrite Hcur in Hc.
  by eapply checked_touches.
Qed.

Lemma invariant_answers base gts c i t :
  invariant base gts c -> tasks c !! i = Some t ->
  Forall (fun q => answer_ok ae A K N (fst q) (snd q)) (answers t).
Proof.
  intros HI Ht. destruct (inv_lookup _ _ _ _ _ _ _ _ _ _ HI Ht) as [g Hi].
  apply (inv_task_ok _ _ _ _ _ _ _ _ HI _ _ Hi).
Qed.

(** Once all is answered, the counters are the number of answers. *)
Lemma invariant_counters base gts c cn :
  invariant base gts c -> Forall idle (tasks c) ->
  read_counter cn (shared c) = wrap64 (base cn + answered cn (concat (answers <$> tasks c))).
Proof.
  intros HI Hidle. rewrite (inv_counters _ _ _ _ _ _ _ _ HI). do 2 f_equal.
  pose proof (inv_task_ok _ _ _ _ _ _ _ _ HI) as Hok.
  rewrite (inv_tasks _ _ _ _ _ _ _ _ HI) in *. clear HI.
  induction gts as [|[g t] gts IH]; [done|]. rewrite !fmap_cons in *.
  apply Forall_cons in Hidle as [[_ Ht] Hidle]. cbn [concat total foldr].
  rewrite answered_app.
  rewrite <-IH by (done || (intros i gt E; by apply (Hok (S i)))).
  destruct (Hok 0%nat (g, t) eq_refl) as (_ & _ & Hcur). simpl in Ht. rewrite Ht in Hcur.
  unfold task_adds at 1. simpl in *. destruct Hcur as [_ ->].
  unfold total. lia.
Qed.
End Handlers.
