(* ===== verification/ConcCells.v ===== *)
(** The three mutexes as registers: every interleaving of the handlers of
    Concurrent.v is accounted for by a log of the reads and writes of the
    provider, the algorithm and the key, in which every read gives what was
    written last, and every answer is a function of what its request read. *)

From Stdlib Require Import Strings.String.
From S2P Require Import Prelude Crypto Aead AesGcmRing Wire Ipc Cryptod Concurrent ConcLogic ConcDaemon.

(** One access under a mutex; of a provider only the algorithm counts. *)
Inductive access : Type :=
| ReadProvider (a : AlgoId)
| ReadAlgo (a : AlgoId)
| ReadKey (o : option KeyHandle)
| WriteProvider (a : AlgoId)
| WriteAlgo (a : AlgoId)
| WriteKey (k : KeyHandle).

Record cells : Type := mkCells {
  c_provider : AlgoId;
  c_algo : AlgoId;
  c_key : option KeyHandle;
}.

Definition cells_of (s : CryptodState) : cells :=
  mkCells (algorithm (provider s)) (active_algo s) (active_key s).

(** The registers after an access; [None] when it read something else than
    they hold. *)
Definition access_cells (e : access) (m : cells) : option cells :=
  match e with
  | ReadProvider a => if decide (c_provider m = a) then Some m else None
  | ReadAlgo a => if decide (c_algo m = a) then Some m else None
  | ReadKey o => if decide (c_key m = o) then Some m else None
  | WriteProvider a => Some (mkCells a (c_algo m) (c_key m))
  | WriteAlgo a => Some (mkCells (c_provider m) a (c_key m))
  | WriteKey k => Some (mkCells (c_provider m) (c_algo m) (Some k))
  end.

Fixpoint replay (m : cells) (l : list access) : option cells :=
  match l with
  | [] => Some m
  | e :: l' => m' ← access_cells e m; replay m' l'
  end.

Lemma replay_app m l l' : replay m (l ++ l') = (m' ← replay m l; replay m' l').
Proof.
  revert m. induction l as [|e l IH]; intros m; simpl; [done|].
  destruct (access_cells e m); simpl; [apply IH|done].
Qed.

Section Cells.
Context (ae : Aead).

(** How a request may be served: its accesses, in their order, and its
    answer. *)
Definition served (req : Request) (acc : list access) (r : Response) : Prop :=
  match req with
  | GetStatus =>
      exists a o st, acc = [ReadAlgo a; ReadKey o] /\ r = Status st /\
        version st = CARGO_PKG_VERSION /\ running st = true /\ 0 <= uptime_s st /\
        active_provider st = provider_name a /\ active_key_id st = id <$> o /\
        u64_ok (packets_sealed st) /\ u64_ok (packets_opened st) /\ u64_ok (crypto_errors st)
  | SetPolicy _ => acc = [] /\ r = ROk
  | RotateKey p =>
      match rotation_spec p with
      | Ok (a, k) => acc = [WriteProvider a; WriteAlgo a; WriteKey k] /\ r = ROk
      | Err resp => acc = [] /\ r = resp
      end
  | Encrypt p =>
      acc = [ReadKey None] /\ r = Error 409 "no active key — call rotate_key first" \/
      exists k a, acc = [ReadKey (Some k); ReadProvider a] /\
        (request_sized req -> r = encrypt_result ae a k p)
  | Decrypt p =>
      acc = [ReadKey None] /\ r = Error 409 "no active key" \/
      exists k a, acc = [ReadKey (Some k); ReadProvider a] /\
        (request_sized req -> r = decrypt_result ae a k p)
  end.

(** What is left of the handler of [req], which has made the accesses [acc],
    will serve it. *)
Fixpoint acts (req : Request) (p : proc) (acc : list access) : Prop :=
  match p with
  | Done r => served req acc r
  | Crash => False
  | Lock _ k | Unlock _ k => acts req k acc
  | GetProvider k =>
      forall q, ProviderContract ae q -> acts req (k q) (acc ++ [ReadProvider (algorithm q)])
  | GetAlgo k => forall a, acts req (k a) (acc ++ [ReadAlgo a])
  | GetKey k =>
      forall o, (forall key, o = Some key -> key_wf key) -> acts req (k o) (acc ++ [ReadKey o])
  | SetProvider q k =>
      ProviderContract ae q /\ acts req k (acc ++ [WriteProvider (algorithm q)])
  | SetAlgo a k => acts req k (acc ++ [WriteAlgo a])
  | SetKey key k => (key_wf key /\ u32_ok (id key)) /\ acts req k (acc ++ [WriteKey key])
  | FetchAdd _ k => acts req k acc
  | Load _ k => forall v, u64_ok v -> acts req (k v) acc
  | Uptime k => forall v, 0 <= v -> acts req (k v) acc
  end.
End Cells.

Section Handlers.
Context (lib : RingCrate) (ae : Aead) `{!RingCrateLaws lib ae, !AeadLaws ae}.

(** ** The handlers serve their requests *)

Lemma status_acts : acts ae GetStatus status_proc [].
Proof.
  simpl. intros a o Ho up Hup n_s Hs n_o Hn n_e He. eexists a, o, _. split_and!; try done.
Qed.

Lemma rotate_acts p :
  request_ok (RotateKey p) -> acts ae (RotateKey p) (rotate_proc lib p) [].
Proof.
  intros [_ Hid]. unfold rotate_proc. rewrite (prepare_rotation_run lib ae p).
  destruct (rotation_spec p) as [[a k]|resp] eqn:E; simpl; rewrite ?E; [|done].
  destruct (rotation_spec_Ok _ _ _ E) as (Ha & _ & Hwf & Hi & _).
  split; [by apply (ring_contract lib ae (mkRing a))|]. split; [|done].
  split; [done|]. by rewrite Hi.
Qed.

Lemma encrypt_acts p :
  request_ok (Encrypt p) -> acts ae (Encrypt p) (encrypt_proc p) [].
Proof.
  intros Hreq [k|] Hk; simpl; [|by left]. specialize (Hk k eq_refl). intros q Hq.
  destruct (encrypt_with_returns ae k p (state_with q) Hq) as (r & s' & Hret & _); [apply Hreq|].
  assert (Hans : request_sized (Encrypt p) -> r = encrypt_result ae (algorithm q) k p).
  { intros Hsz. by apply (encrypt_answer ae _ _ _ _ _ Hsz Hq Hk Hret). }
  unfold encrypt_with in Hret. simpl provider in Hret.
  destruct (negb _); [|destruct (seal _ _ _ _ _ _ _) as [[[n|e] out]|]; [| |done]];
    injection Hret as <- _; right; by exists k, (algorithm q).
Qed.

Lemma decrypt_acts p :
  request_ok (Decrypt p) -> acts ae (Decrypt p) (decrypt_proc p) [].
Proof.
  intros Hreq [k|] Hk; simpl; [|by left]. specialize (Hk k eq_refl). intros q Hq.
  destruct (decrypt_with_returns ae k p (state_with q) Hq Hreq) as (r & s' & Hret & _).
  assert (Hans : request_sized (Decrypt p) -> r = decrypt_result ae (algorithm q) k p).
  { intros Hsz. by apply (decrypt_answer ae _ _ _ _ _ Hsz Hq Hk Hret). }
  unfold decrypt_with in Hret. simpl provider in Hret.
  destruct (open _ _ _ _) as [[[n|e] out]|]; [| |done];
    injection Hret as <- _; right; by exists k, (algorithm q).
Qed.

Lemma handle_acts req : request_ok req -> acts ae req (handle_proc lib req) [].
Proof.
  intros Hreq. destruct req as [|p|p|p|p].
  - apply status_acts.
  - done.
  - by apply rotate_acts.
  - by apply encrypt_acts.
  - by apply decrypt_acts.
Qed.

(** ** One access *)

Lemma safe_u64 s cn : state_safe ae s -> u64_ok (read_counter cn s).
Proof. intros []. by destruct cn. Qed.

(** The log grows by the access, if it is one to a register. *)
Lemma acts_step req p acc i now s own s' own' p' :
  acts ae req p acc -> state_safe ae s -> step_proc i now s own p = Some (s', own', p') ->
  exists ext, acts ae req p' (acc ++ ext) /\ state_safe ae s' /\
    replay (cells_of s) ext = Some (cells_of s').
Proof.
  intros Hp Hs.
  assert (Hsame : forall q s1, acts ae req q acc -> state_safe ae s1 -> cells_of s1 = cells_of s ->
            exists ext, acts ae req q (acc ++ ext) /\ state_safe ae s1 /\
              replay (cells_of s) ext = Some (cells_of s1)).
  { intros q s1 Hq ? E. exists []. by rewrite app_nil_r, E. }
  destruct p as [r| |l k|l k|k|k|k|q k|a k|key k|c k|c k|k]; simpl in *; try done;
    try (intros [= <- <- <-]).
  - destruct (own l); [done|]. intros [= <- <- <-]. by apply Hsame.
  - by apply Hsame.
  - exists [ReadProvider (algorithm (provider s))]. split_and!; [|done|].
    + apply Hp, Hs.
    + simpl. by rewrite decide_True.
  - exists [ReadAlgo (active_algo s)]. split_and!; [apply Hp|done|].
    simpl. by rewrite decide_True.
  - exists [ReadKey (active_key s)]. split_and!; [|done|].
    + apply Hp. intros key E. by destruct (safe_key _ _ Hs key E).
    + simpl. by rewrite decide_True.
  - destruct Hp as [Hq Hp]. exists [WriteProvider (algorithm q)]. split_and!; [done| |done].
    by destruct Hs; split.
  - exists [WriteAlgo a]. split_and!; [done| |done]. by destruct Hs; split.
  - destruct Hp as [Hk Hp]. exists [WriteKey key]. split_and!; [done| |done].
    destruct Hs; split; try done. by intros k' [= <-].
  - apply Hsame; [done| |by destruct c].
    destruct (count_safe ae s Hs) as (? & ? & ?). by destruct c.
  - apply Hsame; [|done|done]. by apply Hp, safe_u64.
  - apply Hsame; [|done|done]. apply Hp, elapsed_secs_nonneg.
Qed.

(** ** Every configuration is accounted for by its log *)

(** A task and its accesses [l]: those of the requests it was answered, and
    those of the request it is at. *)
Definition task_acts (l : list access) (t : task) : Prop :=
  Forall request_ok (todo t) /\
  exists accs acc, Forall2 (fun q acc => served ae q.1 acc q.2) (answers t) accs /\
    l = concat accs ++ acc /\
    match current t with
    | None => acc = []
    | Some (req, p) => acts ae req p acc
    end.

Record CellInv (s : CryptodState) (log : list (nat * access)) (c : config) : Prop := {
  ci_alive : aborted c = false;
  ci_safe : state_safe ae (shared c);
  ci_replay : replay (cells_of s) log.*2 = Some (cells_of (shared c));
  ci_task i t : tasks c !! i = Some t -> task_acts (log_of i log) t;
  ci_range : Forall (fun e => e.1 < length (tasks c))%nat log;
}.

(** Task [i] moved and made the accesses [ext]. *)
Lemma cells_update s log c i t t' s' own' ext :
  CellInv s log c -> tasks c !! i = Some t -> state_safe ae s' ->
  replay (cells_of (shared c)) ext = Some (cells_of s') ->
  task_acts (log_of i log ++ ext) t' ->
  CellInv s (log ++ (pair i <$> ext)) (mkConfig s' own' (<[i := t']> (tasks c)) false).
Proof.
  intros [Ha Hst Hre Htl Hrg] Hi Hst' Hext Ht'.
  assert (E2 : (pair i <$> ext).*2 = ext) by (rewrite <-list_fmap_compose; apply list_fmap_id).
  split; simpl; try done.
  - rewrite fmap_app, replay_app, Hre, E2. exact Hext.
  - intros j tj [(<- & <- & _)|[Hne Hj]]%list_lookup_insert_Some.
    + by rewrite log_of_app, log_of_own.
    + rewrite log_of_app, log_of_other, app_nil_r by done. by apply Htl.
  - rewrite length_insert. apply Forall_app. split; [done|]. apply Forall_fmap, Forall_forall.
    intros e _. by eapply lookup_lt_Some.
Qed.

Lemma cells_silent s log c i t t' :
  CellInv s log c -> tasks c !! i = Some t -> task_acts (log_of i log) t' ->
  CellInv s log (mkConfig (shared c) (owner c) (<[i := t']> (tasks c)) false).
Proof.
  intros HI Hi Ht'. rewrite <-(app_nil_r log).
  eapply (cells_update _ _ _ _ _ _ _ _ []); [done|done|apply HI|done|by rewrite app_nil_r].
Qed.

Lemma cells_step s log c i now c' :
  CellInv s log c -> step lib i now c = Some c' -> exists ext, CellInv s (log ++ ext) c'.
Proof.
  intros HI. unfold step. rewrite (ci_alive _ _ _ HI).
  destruct (tasks c !! i) as [t|] eqn:Hi; [simpl|done].
  destruct (ci_task _ _ _ HI _ _ Hi) as (Htodo & accs & acc & Hans & Hlog & Hcur).
  destruct (current t) as [[req p]|] eqn:Ec.
  - assert (Hmove : forall s' own' p',
              step_proc i now (shared c) (owner c) p = Some (s', own', p') ->
              exists ext, CellInv s (log ++ ext) (mkConfig s' own'
                (<[i := mkTask (todo t) (Some (req, p')) (answers t)]> (tasks c)) false)).
    { intros s' own' p' Hs.
      destruct (acts_step _ _ _ _ _ _ _ _ _ _ Hcur (ci_safe _ _ _ HI) Hs) as (ext & Hp & Hs' & Hr).
      eexists. eapply cells_update; try done. split; [done|]. exists accs, (acc ++ ext).
      split_and!; [done| |done]. by rewrite Hlog, app_assoc. }
    destruct p; simpl in Hcur; try done;
      try ((destruct (step_proc _ _ _ _ _) as [[[s' own'] p']|] eqn:Es; simpl; [|done]);
           intros [= <-]; by apply Hmove).
    intros [= <-]. exists []. rewrite app_nil_r. eapply cells_silent; [done|done|].
    split; [done|]. exists (accs ++ [acc]), []. simpl. split_and!; [| |done].
    + apply Forall2_app; [done|]. by repeat constructor.
    + rewrite concat_app, Hlog. simpl. by rewrite !app_nil_r.
  - destruct (todo t) as [|req rest] eqn:Et; [done|]. intros [= <-]. subst acc.
    apply Forall_cons in Htodo as [Hreq Htodo].
    exists []. rewrite app_nil_r. eapply cells_silent; [done|done|].
    split; [done|]. exists accs, []. split_and!; [done|done|]. by apply handle_acts.
Qed.

Lemma cells_run s log c sched c' :
  CellInv s log c -> run_schedule lib sched c = Some c' -> exists ext, CellInv s (log ++ ext) c'.
Proof.
  revert log c. induction sched as [|[i now] sched IH]; intros log c HI; simpl.
  - intros [= <-]. exists []. by rewrite app_nil_r.
  - destruct (step lib i now c) as [c1|] eqn:Es; simpl; [|done]. intros Hr.
    destruct (cells_step _ _ _ _ _ _ HI Es) as [ext1 HI1].
    destruct (IH _ _ HI1 Hr) as [ext2 HI2]. exists (ext1 ++ ext2). by rewrite app_assoc.
Qed.

Lemma cells_start s conns :
  state_safe ae s -> Forall (Forall request_ok) conns -> CellInv s [] (start s conns).
Proof.
  intros Hs Hreq. split; simpl; try done.
  intros i t. rewrite list_lookup_fmap. destruct (conns !! i) as [reqs|] eqn:E; [|done].
  intros [= <-]. split; [by eapply Forall_lookup_1|]. by exists [], [].
Qed.
End Handlers.

(** What a log of accesses says of a configuration: the registers, from the
    state [s] on, hold what the log leaves; each task's accesses are, request
    by request, those that served it with the answer it gave, and those of
    the request it is at. *)
Definition accounts (ae : Aead) (s : CryptodState) (log : list (nat * access)) (c : config) : Prop :=
  replay (cells_of s) log.*2 = Some (cells_of (shared c)) /\
  Forall (fun e => e.1 < length (tasks c))%nat log /\
  forall i t, tasks c !! i = Some t ->
    exists accs acc, Forall2 (fun q acc => served ae q.1 acc q.2) (answers t) accs /\
      log_of i log = concat accs ++ acc /\ (current t = None -> acc = []).

Lemma CellInv_accounts ae s log c : CellInv ae s log c -> accounts ae s log c.
Proof.
  intros [_ _ Hre Htl Hrg]. split_and!; [done|done|]. intros i t Hi.
  destruct (Htl i t Hi) as (_ & accs & acc & Hans & Hlog & Hcur). exists accs, acc.
  split_and!; [done|done|]. intros E. by rewrite E in Hcur.
Qed.
