(* ===== verification/ConcLin.v ===== *)
(** Linearizability of the handlers of Concurrent.v: when rotations keep the
    algorithm, every interleaving is explained by a log, the order in which
    the requests took effect, which the sequential daemon of Cryptod.v
    answers alike.  A request takes effect when it reads or writes the key,
    or, when it does neither, when it is answered. *)

From Stdlib Require Import Strings.String.
From S2P Require Import Prelude Crypto Aead AesGcmRing Wire Ipc Cryptod Concurrent ConcLogic ConcDaemon.

(** A status is read piece by piece: its time and counters are not those of
    one moment, and are left out of the comparison. *)
Definition norm (r : Response) : Response :=
  match r with
  | Status st =>
      Status (mkStatusReport (version st) (running st) 0 (active_provider st) (active_key_id st)
                0 0 0)
  | _ => r
  end.

(** A sequence of requests handled one after the other. *)
Fixpoint run_requests (lib : RingCrate) (s : CryptodState) (reqs : list Request)
    : outcome (list Response * CryptodState) :=
  match reqs with
  | [] => Returns ([], s)
  | req :: reqs' =>
      let! (r, s1) := handle lib 0 s req in
      let! (rs, s2) := run_requests lib s1 reqs' in
      Returns (r :: rs, s2)
  end.

Lemma run_requests_snoc lib s reqs req rs t r t' :
  run_requests lib s reqs = Returns (rs, t) -> handle lib 0 t req = Returns (r, t') ->
  run_requests lib s (reqs ++ [req]) = Returns (rs ++ [r], t').
Proof.
  revert s rs. induction reqs as [|q reqs IH]; intros s rs; simpl.
  - intros [= <- <-] ->. done.
  - destruct (handle lib 0 s q) as [[r1 s1]|]; simpl; [|done].
    destruct (run_requests lib s1 reqs) as [[rs1 s2]|] eqn:E; simpl; [|done].
    intros [= <- <-] Hh. by rewrite (IH s1 rs1).
Qed.

(** An entry of the log: the task, its request, and the answer. *)
Abbreviation entry := (nat * (Request * Response))%type.

Definition normed (l : list (Request * Response)) : list (Request * Response) :=
  (fun q => (q.1, norm q.2)) <$> l.

Section Lin.
Context (lib : RingCrate) (ae : Aead) `{!RingCrateLaws lib ae, !AeadLaws ae}.
Context (a : AlgoId).

Definition good_key_of (o : option KeyHandle) : Prop :=
  forall k, o = Some k -> key_wf k /\ algo k = a.

(** Handled in any consistent state with the key [o], [req] is answered [r]
    and leaves the key [o']. *)
Definition effect (req : Request) (o o' : option KeyHandle) (r : Response) : Prop :=
  forall t, state_inv ae t -> active_algo t = a -> active_key t = o ->
    exists r0 t', handle lib 0 t req = Returns (r0, t') /\ norm r0 = r /\
      active_key t' = o' /\ active_algo t' = a.

(** What is left of the handler of [req], which took effect with the answer
    [eff], or has still to. *)
Fixpoint lin (req : Request) (p : proc) (eff : option Response) : Prop :=
  match p with
  | Done r =>
      match eff with
      | Some r' => norm r = r'
      | None => forall o, effect req o o (norm r)
      end
  | Crash => False
  | Lock _ k | Unlock _ k => lin req k eff
  | GetProvider k =>
      forall q, ProviderContract ae q -> algorithm q = a -> lin req (k q) eff
  | GetAlgo k => lin req (k a) eff
  | GetKey k =>
      eff = None /\
      forall o, good_key_of o -> exists r, effect req o o r /\ lin req (k o) (Some r)
  | SetProvider q k => ProviderContract ae q /\ algorithm q = a /\ lin req k eff
  | SetAlgo a' k => a' = a /\ lin req k eff
  | SetKey key k =>
      eff = None /\ exists r, (forall o, effect req o (Some key) r) /\ lin req k (Some r)
  | FetchAdd _ k => lin req k eff
  | Load _ k | Uptime k => forall v, lin req (k v) eff
  end.

Definition linable (req : Request) : Prop :=
  request_ok req /\ request_sized req /\
  match req with
  | RotateKey p => forall a' k, rotation_spec p = Ok (a', k) -> a' = a
  | _ => True
  end.

(** ** The handlers take effect once *)

Lemma status_lin : lin GetStatus status_proc None.
Proof.
  simpl. split; [done|]. intros o _. eexists. split; [|done].
  intros t _ Ha Hk. eexists _, t. split; [reflexivity|]. by rewrite Ha, Hk.
Qed.

Lemma rotate_lin p : linable (RotateKey p) -> lin (RotateKey p) (rotate_proc lib p) None.
Proof.
  intros (_ & _ & Hrot). unfold rotate_proc. rewrite (prepare_rotation_run lib ae p).
  destruct (rotation_spec p) as [[a' k]|resp] eqn:E; simpl.
  - destruct (rotation_spec_Ok _ _ _ E) as (Ha & _). rewrite (Hrot a' k eq_refl) in *.
    split; [by apply (ring_contract lib ae (mkRing a))|]. split; [done|]. split; [done|].
    split; [done|]. exists ROk. split; [|done]. intros o t _ _ _. simpl.
    rewrite (handle_rotate_run lib ae), E. by eexists _, _.
  - intros o t _ Ha Hk. simpl. rewrite (handle_rotate_run lib ae), E. by eexists _, _.
Qed.

Lemma encrypt_effect p o :
  linable (Encrypt p) -> good_key_of o ->
  effect (Encrypt p) o o
    (if o is Some k then norm (encrypt_result ae a k p)
     else Error 409 "no active key — call rotate_key first").
Proof.
  intros (_ & Hsz & _) Ho t Ht Ha Hk. simpl. unfold handle_encrypt. rewrite Hk.
  destruct o as [k|]; [|by eexists _, _]. destruct (Ho k eq_refl) as [Hwf Hka].
  rewrite (encrypt_with_run ae) by (done || apply (safe_provider _ _ (inv_safe _ _ Ht))). rewrite (inv_algo _ _ Ht), Ha.
  unfold encrypt_result. repeat case_decide; first [congruence|by eexists _, _].
Qed.

Lemma decrypt_effect p o :
  linable (Decrypt p) -> good_key_of o ->
  effect (Decrypt p) o o
    (if o is Some k then norm (decrypt_result ae a k p) else Error 409 "no active key").
Proof.
  intros (_ & Hsz & _) Ho t Ht Ha Hk. simpl. unfold handle_decrypt. rewrite Hk.
  destruct o as [k|]; [|by eexists _, _]. destruct (Ho k eq_refl) as [Hwf Hka].
  rewrite (decrypt_with_run ae) by (done || apply (safe_provider _ _ (inv_safe _ _ Ht))). rewrite (inv_algo _ _ Ht), Ha.
  unfold decrypt_result.
  destruct (wire_open_spec _ _ _ _ _); by eexists _, _.
Qed.

Lemma encrypt_lin p : linable (Encrypt p) -> lin (Encrypt p) (encrypt_proc p) None.
Proof.
  intros Hl. simpl. split; [done|]. intros o Ho. eexists.
  split; [by apply encrypt_effect|]. destruct o as [k|]; [|done]. simpl.
  destruct (Ho k eq_refl) as [Hwf Hka]. intros q Hq Hqa.
  destruct (encrypt_with_returns ae k p (state_with q) Hq) as (r & s' & Hret & _); [apply Hl|].
  pose proof (encrypt_answer ae _ _ _ _ _ (proj1 (proj2 Hl)) Hq Hwf Hret) as Hans. rewrite Hqa in Hans.
  rewrite <-Hans. clear Hans. unfold encrypt_with in Hret. simpl provider in Hret.
  destruct (negb _); [|destruct (seal _ _ _ _ _ _ _) as [[[n|e] out]|]; [| |done]];
    by injection Hret as <- _.
Qed.

Lemma decrypt_lin p : linable (Decrypt p) -> lin (Decrypt p) (decrypt_proc p) None.
Proof.
  intros Hl. simpl. split; [done|]. intros o Ho. eexists.
  split; [by apply decrypt_effect|]. destruct o as [k|]; [|done]. simpl.
  destruct (Ho k eq_refl) as [Hwf Hka]. intros q Hq Hqa.
  destruct (decrypt_with_returns ae k p (state_with q) Hq) as (r & s' & Hret & _); [apply Hl|].
  pose proof (decrypt_answer ae _ _ _ _ _ (proj1 (proj2 Hl)) Hq Hwf Hret) as Hans. rewrite Hqa in Hans.
  rewrite <-Hans. clear Hans. unfold decrypt_with in Hret. simpl provider in Hret.
  destruct (open _ _ _ _) as [[[n|e] out]|]; [| |done]; by injection Hret as <- _.
Qed.

Lemma handle_lin req : linable req -> lin req (handle_proc lib req) None.
Proof.
  intros Hl. destruct req as [|p|p|p|p].
  - apply status_lin.
  - simpl. intros o t _ Ha Hk. by eexists _, t.
  - by apply rotate_lin.
  - by apply encrypt_lin.
  - by apply decrypt_lin.
Qed.

(** ** Every configuration is explained by its log *)

Definition requests (log : list entry) : list Request := (fun e => e.2.1) <$> log.
Definition responses (log : list entry) : list Response := (fun e => e.2.2) <$> log.

(** The sequential daemon, started in [s], answers the log and is left with
    the key [o]. *)
Definition replays (s : CryptodState) (log : list entry) (o : option KeyHandle) : Prop :=
  exists rs t, run_requests lib s (requests log) = Returns (rs, t) /\
    norm <$> rs = responses log /\ state_inv ae t /\ active_algo t = a /\ active_key t = o.

Lemma replays_nil s : state_inv ae s -> active_algo s = a -> replays s [] (active_key s).
Proof. intros Hs Ha. by exists [], s. Qed.

Lemma replays_snoc s log i req r o o' :
  replays s log o -> linable req -> effect req o o' r -> replays s (log ++ [(i, (req, r))]) o'.
Proof.
  intros (rs & t & Hrun & Hrs & Ht & Ha & Ho) Hl He.
  destruct (He t Ht Ha Ho) as (r0 & t' & Hh & Hr & Ho' & Ha').
  exists (rs ++ [r0]), t'. unfold requests, responses in *. rewrite !fmap_app. split_and!.
  - by eapply run_requests_snoc.
  - rewrite Hrs. simpl. by rewrite Hr.
  - eapply (handle_inv lib ae); [exact Ht|apply Hl|done].
  - done.
  - done.
Qed.

Lemma replays_key s log o : replays s log o -> good_key_of o.
Proof.
  intros (_ & t & _ & _ & Ht & Ha & <-) k Hk. split.
  - by apply (safe_key _ _ (inv_safe _ _ Ht)).
  - rewrite <-Ha. by apply (inv_key _ _ Ht).
Qed.

(** What stays true of the rest of the shared state. *)
Definition steady (s : CryptodState) : Prop :=
  ProviderContract ae (provider s) /\ algorithm (provider s) = a /\ active_algo s = a.

(** An access is silent, or it is where the request takes effect. *)
Lemma lin_access req p eff i now s own s' own' p' :
  lin req p eff -> steady s -> good_key_of (active_key s) ->
  step_proc i now s own p = Some (s', own', p') ->
  exists eff', lin req p' eff' /\ steady s' /\
    (eff' = eff /\ active_key s' = active_key s \/
     eff = None /\ exists r, eff' = Some r /\ effect req (active_key s) (active_key s') r).
Proof.
  intros Hl (Hq & Hqa & Ha) Hk. unfold steady.
  destruct p as [r| |l k|l k|k|k|k|q k|a' k|key k|c k|c k|k]; simpl in *; try done;
    try (intros [= <- <- <-]).
  - destruct (own l); [done|]. intros [= <- <- <-]. exists eff. auto.
  - exists eff. auto.
  - exists eff. auto.
  - exists eff. rewrite Ha. auto.
  - destruct Hl as [-> Hl]. destruct (Hl _ Hk) as (r & He & Hl'). exists (Some r). eauto 9.
  - destruct Hl as (Hq' & Hqa' & Hl). exists eff. auto.
  - destruct Hl as (-> & Hl). exists eff. auto.
  - destruct Hl as (-> & r & He & Hl). exists (Some r). simpl. eauto 9.
  - exists eff. destruct c; auto.
  - exists eff. auto.
  - exists eff. auto.
Qed.

(** A task and its entries [l] of the log: its answers, and the effect of the
    request it is at, if that is past. *)
Definition task_lin (l : list (Request * Response)) (t : task) : Prop :=
  Forall linable (todo t) /\
  match current t with
  | None => l = normed (answers t)
  | Some (req, p) =>
      linable req /\ exists eff, lin req p eff /\
        l = normed (answers t) ++ (if eff is Some r then [(req, r)] else [])
  end.

Record LinInv (s : CryptodState) (log : list entry) (c : config) : Prop := {
  li_alive : aborted c = false;
  li_steady : steady (shared c);
  li_replays : replays s log (active_key (shared c));
  li_task i t : tasks c !! i = Some t -> task_lin (log_of i log) t;
  li_range : Forall (fun e => e.1 < length (tasks c))%nat log;
}.

(** Task [i] moved without taking effect, or with the entry [q]. *)
Lemma lin_silent s log c i t t' s' own' :
  LinInv s log c -> tasks c !! i = Some t -> steady s' ->
  active_key s' = active_key (shared c) -> task_lin (log_of i log) t' ->
  LinInv s log (mkConfig s' own' (<[i := t']> (tasks c)) false).
Proof.
  intros [Ha Hst Hre Htl Hrg] Hi Hst' Hk Ht'. split; simpl; try done.
  - by rewrite Hk.
  - intros j tj [(<- & <- & _)|[Hne Hj]]%list_lookup_insert_Some; [done|by apply Htl].
  - by rewrite length_insert.
Qed.

Lemma lin_effect s log c i t t' s' own' req r :
  LinInv s log c -> tasks c !! i = Some t -> steady s' -> linable req ->
  effect req (active_key (shared c)) (active_key s') r ->
  task_lin (log_of i log ++ [(req, r)]) t' ->
  LinInv s (log ++ [(i, (req, r))]) (mkConfig s' own' (<[i := t']> (tasks c)) false).
Proof.
  intros [Ha Hst Hre Htl Hrg] Hi Hst' Hl He Ht'. split; simpl; try done.
  - by eapply replays_snoc.
  - intros j tj [(<- & <- & _)|[Hne Hj]]%list_lookup_insert_Some.
    + by rewrite log_of_eq.
    + rewrite log_of_ne by done. by apply Htl.
  - rewrite length_insert. apply Forall_app. split; [done|]. constructor; [|done].
    by eapply lookup_lt_Some.
Qed.

Lemma normed_snoc l req r : normed (l ++ [(req, r)]) = normed l ++ [(req, norm r)].
Proof. unfold normed. by rewrite fmap_app. Qed.

(** The task's handler makes one access. *)
Lemma lin_move s log c i t now req p s' own' p' :
  LinInv s log c -> tasks c !! i = Some t -> current t = Some (req, p) ->
  step_proc i now (shared c) (owner c) p = Some (s', own', p') ->
  exists ext, LinInv s (log ++ ext)
    (mkConfig s' own' (<[i := mkTask (todo t) (Some (req, p')) (answers t)]> (tasks c)) false).
Proof.
  intros HI Hi Ec Hs. destruct (li_task _ _ _ HI _ _ Hi) as [Htodo Hcur].
  rewrite Ec in Hcur. destruct Hcur as (Hreq & eff & Hl & Hlog).
  pose proof (replays_key _ _ _ (li_replays _ _ _ HI)) as Hk.
  destruct (lin_access _ _ _ _ _ _ _ _ _ _ Hl (li_steady _ _ _ HI) Hk Hs)
    as (eff' & Hl' & Hst & [[-> Hkey]|(-> & r & -> & He)]).
  - exists []. rewrite app_nil_r. eapply lin_silent; try done. split; [done|]. simpl. eauto.
  - exists [(i, (req, r))]. eapply lin_effect; try done. split; [done|]. simpl.
    split; [done|]. exists (Some r). split; [done|]. by rewrite Hlog, app_nil_r.
Qed.

(** The task answers: here a request that touches no key takes effect. *)
Lemma lin_answer s log c i t req r :
  LinInv s log c -> tasks c !! i = Some t -> current t = Some (req, Done r) ->
  exists ext, LinInv s (log ++ ext)
    (mkConfig (shared c) (owner c)
       (<[i := mkTask (todo t) None (answers t ++ [(req, r)])]> (tasks c)) false).
Proof.
  intros HI Hi Ec. destruct (li_task _ _ _ HI _ _ Hi) as [Htodo Hcur].
  rewrite Ec in Hcur. destruct Hcur as (Hreq & eff & Hl & Hlog). simpl in Hl.
  pose proof (li_steady _ _ _ HI) as Hst. destruct eff as [r'|].
  - exists []. rewrite app_nil_r. eapply lin_silent; try done. split; [done|]. simpl.
    by rewrite normed_snoc, Hlog, Hl.
  - exists [(i, (req, norm r))]. eapply lin_effect; try done. split; [done|]. simpl.
    by rewrite normed_snoc, Hlog, app_nil_r.
Qed.

(** The task reads its next request. *)
Lemma lin_read s log c i t req rest :
  LinInv s log c -> tasks c !! i = Some t -> current t = None -> todo t = req :: rest ->
  LinInv s log (mkConfig (shared c) (owner c)
    (<[i := mkTask rest (Some (req, handle_proc lib req)) (answers t)]> (tasks c)) false).
Proof.
  intros HI Hi Ec Et. destruct (li_task _ _ _ HI _ _ Hi) as [Htodo Hcur].
  rewrite Ec in Hcur. rewrite Et in Htodo. apply Forall_cons in Htodo as [Hreq Htodo].
  eapply lin_silent; try done; [apply HI|]. split; [done|]. simpl. split; [done|].
  exists None. split; [by apply handle_lin|]. by rewrite app_nil_r.
Qed.

Lemma lin_step s log c i now c' :
  LinInv s log c -> step lib i now c = Some c' -> exists ext, LinInv s (log ++ ext) c'.
Proof.
  intros HI. unfold step. rewrite (li_alive _ _ _ HI).
  destruct (tasks c !! i) as [t|] eqn:Hi; [simpl|done].
  destruct (current t) as [[req p]|] eqn:Ec.
  - destruct p; try (intros [= <-]; by eapply lin_answer);
      try (destruct (li_task _ _ _ HI _ _ Hi) as [_ Hcur]; rewrite Ec in Hcur;
           by destruct Hcur as (_ & ? & ? & _));
      (destruct (step_proc _ _ _ _ _) as [[[s' own'] p']|] eqn:Es; simpl; [|done]);
      intros [= <-]; by eapply lin_move.
  - destruct (todo t) as [|req rest] eqn:Et; [done|]. intros [= <-].
    exists []. rewrite app_nil_r. by eapply lin_read.
Qed.

Lemma lin_run s log c sched c' :
  LinInv s log c -> run_schedule lib sched c = Some c' -> exists ext, LinInv s (log ++ ext) c'.
Proof.
  revert log c. induction sched as [|[i now] sched IH]; intros log c HI; simpl.
  - intros [= <-]. exists []. by rewrite app_nil_r.
  - destruct (step lib i now c) as [c1|] eqn:Es; simpl; [|done]. intros Hr.
    destruct (lin_step _ _ _ _ _ _ HI Es) as [ext1 HI1].
    destruct (IH _ _ HI1 Hr) as [ext2 HI2]. exists (ext1 ++ ext2). by rewrite app_assoc.
Qed.

Lemma lin_start s conns :
  state_inv ae s -> active_algo s = a -> Forall (Forall linable) conns ->
  LinInv s [] (start s conns).
Proof.
  intros Hs Ha Hl. split; simpl; [done| |by apply replays_nil| |done].
  - split; [apply Hs|]. split; [|done]. by rewrite (inv_algo _ _ Hs).
  - intros i t. rewrite list_lookup_fmap. destruct (conns !! i) as [reqs|] eqn:E; [|done].
    intros [= <-]. split; [|done]. simpl. by eapply Forall_lookup_1.
Qed.
End Lin.

(** What a log says of a configuration: the sequential daemon answers its
    requests, in its order, as the tasks were answered, and ends with the
    same key; every entry is of a task, and each task's entries are what it
    was answered, in order, and at most the request it is at. *)
Definition explains (lib : RingCrate) (s : CryptodState) (log : list entry) (c : config) : Prop :=
  exists rs t,
    run_requests lib s (requests log) = Returns (rs, t) /\
    norm <$> rs = responses log /\ active_key t = active_key (shared c) /\
    Forall (fun e => e.1 < length (tasks c))%nat log /\
    forall i tk, tasks c !! i = Some tk ->
      log_of i log = normed (answers tk) \/
      exists req p r, current tk = Some (req, p) /\ log_of i log = normed (answers tk) ++ [(req, r)].

Lemma LinInv_explains lib ae a s log c : LinInv lib ae a s log c -> explains lib s log c.
Proof.
  intros [_ _ (rs & t & Hrun & Hrs & _ & _ & Hk) Htl Hrg]. exists rs, t. split_and!; try done.
  intros i tk Hi. destruct (Htl i tk Hi) as [_ Hcur].
  destruct (current tk) as [[req p]|]; [|by left].
  destruct Hcur as (_ & [r|] & _ & Hl); [right; eauto|left]. by rewrite Hl, app_nil_r.
Qed.
