(* ===== verification/ProviderProps.v ===== *)
(** Properties of the crate acm-crypto: algorithm identifiers, the two AES-GCM
    providers against the contract of [Aead.ProviderContract], and what the
    contract gives every client. *)

From S2P Require Import Prelude Crypto Aead AesGcmSw AesGcmRing AesGcmRef.

(** Concrete inputs of the witnesses. *)
Definition wit_key : KeyHandle := mkKeyHandle 1 Aes128Gcm (zeros 16).
Definition wit_body : bytes :=
  Eval vm_compute in
  fst (gcm_seal (zeros 16) (zeros 12) [] [x68]) ++ snd (gcm_seal (zeros 16) (zeros 12) [] [x68]).

(** The providers that the constructors of the two crates' wrappers give for
    an algorithm. *)
Inductive built (swl : AesGcmCrate) (rl : RingCrate) (a : AlgoId) : CryptoProvider -> Prop :=
| built_sw self : AesGcmSwProvider_new a = Ok self -> built swl rl a (sw_provider swl self)
| built_ring self : AesGcmRingProvider_new a = Ok self -> built swl rl a (ring_provider rl self).

(** * Lemmas *)

Lemma built_contract swl rl ae `{!AesGcmCrateLaws swl ae, !RingCrateLaws rl ae, !AeadLaws ae} a p :
  built swl rl a p -> algorithm p = a /\ ProviderContract ae p.
Proof.
  intros [self [Hok <-]%sw_new_ok|self [Hok <-]%ring_new_ok].
  - split; [done|by apply sw_contract].
  - split; [done|by apply ring_contract].
Qed.

(** What opens is what the scheme seals. *)
Lemma opened_sealed ae `{!AeadLaws ae} p key nonce aad body out out' n :
  ProviderContract ae p -> key_wf key -> zlen aad <= gcm_limit -> zlen body <= gcm_limit ->
  p_open p key nonce aad body out = Returns (Ok n, out') ->
  exists pt, n = zlen pt /\ zlen body = n + 16 /\ out' = pt ++ zdrop n out /\
    algo key = algorithm p /\ zlen nonce = 12 /\
    ae_seal ae (material key) nonce aad pt = (ztake n body, zdrop n body).
Proof.
  intros Hp Hwf Haad Hb Ho.
  destruct (pc_open key nonce aad body out) as (o & Ho' & Hl);
    [done|unfold fits, isize_max, gcm_limit in *; lia|done..|].
  rewrite Ho in Ho'. injection Ho' as Hn <-. revert Hn Hl.
  unfold open_spec. rewrite nonce_len_12, tag_len_16.
  destruct (decide (zlen body - 16 < 0)); [done|].
  destruct (decide (algo key <> algorithm p)) as [|Ha%dec_stable]; [done|].
  destruct (decide (zlen nonce <> 12)) as [|Hn12%dec_stable]; [done|].
  destruct (decide (zlen out < zlen body - 16)); [done|].
  assert (Hgk : gcm_key (material key)) by eauto using key_wf_gcm, pc_algorithm.
  assert (Ht : zlen (zdrop (zlen body - 16) body) = 16) by (rewrite zlen_zdrop; lia).
  destruct (ae_open _ _ _ _ _ _) as [pt|] eqn:Eo; simpl; [|done].
  intros [= ->] ->. exists pt. pose proof (ae_open_length ae _ _ _ _ _ _ Hgk Hn12 Ht Eo) as Hlen.
  rewrite zlen_ztake in Hlen by lia. apply ae_open_iff in Eo; [|done..].
  split_and!; [done|lia|done..|by rewrite Hlen].
Qed.

(** * Properties *)

(** The byte that tags a frame identifies the algorithm: [from_u8] returns
    an algorithm exactly for the byte that algorithm is encoded as, so the
    encoding is injective and every other byte is refused. *)
Theorem algo_id_roundtrip v a : from_u8 v = Some a <-> algo_as_u8 a = v.
Proof. rewrite from_u8_Some. split; congruence. Qed.

(** C18: every provider that [AesGcmSwProvider::new] builds keeps the provider
    contract over an [aes-gcm] crate that implements the AEAD scheme: exact
    answers and buffers on every branch, no panic for any key, nonce,
    ciphertext or buffer. *)
Theorem sw_provider_refines (lib : AesGcmCrate) (ae : Aead)
    (Hlib : AesGcmCrateLaws lib ae) (Hae : AeadLaws ae) (a : AlgoId) (self : AesGcmSwProvider) :
  AesGcmSwProvider_new a = Ok self ->
  algorithm (sw_provider lib self) = a /\ ProviderContract ae (sw_provider lib self).
Proof. intros [Hok Ha]%sw_new_ok. split; [done | by apply sw_contract]. Qed.

Lemma sw_provider_refines_witness :
  algorithm (sw_provider ref_aes_gcm (mkSw Aes128Gcm)) = Aes128Gcm /\
  ProviderContract gcm (sw_provider ref_aes_gcm (mkSw Aes128Gcm)).
Proof.
  exact (sw_provider_refines ref_aes_gcm gcm _ _ Aes128Gcm (mkSw Aes128Gcm) eq_refl).
Defined.

(** C19: every provider that [AesGcmRingProvider::new] builds keeps the same
    contract over a ring crate that implements the scheme. *)
Theorem ring_provider_refines (lib : RingCrate) (ae : Aead)
    (Hlib : RingCrateLaws lib ae) (Hae : AeadLaws ae) (a : AlgoId) (self : AesGcmRingProvider) :
  AesGcmRingProvider_new a = Ok self ->
  algorithm (ring_provider lib self) = a /\ ProviderContract ae (ring_provider lib self).
Proof. intros [Hok Ha]%ring_new_ok. split; [done | by apply ring_contract]. Qed.

Lemma ring_provider_refines_witness :
  algorithm (ring_provider ref_ring (mkRing Aes256Gcm)) = Aes256Gcm /\
  ProviderContract gcm (ring_provider ref_ring (mkRing Aes256Gcm)).
Proof.
  exact (ring_provider_refines ref_ring gcm _ _ Aes256Gcm (mkRing Aes256Gcm) eq_refl).
Defined.

(** C20: the two providers agree: for a well-formed key handle and inputs within
    the AES-GCM limit, [seal] gives the same result and the same buffer, and
    [open] the same result, with the same buffer unless authentication
    failed. *)
Theorem providers_agree (swl : AesGcmCrate) (rl : RingCrate) (ae : Aead)
    (Hsw : AesGcmCrateLaws swl ae) (Hr : RingCrateLaws rl ae) (Hae : AeadLaws ae)
    (a : AlgoId) (sw : AesGcmSwProvider) (ring : AesGcmRingProvider)
    (key : KeyHandle) (nonce aad body out : bytes) :
  AesGcmSwProvider_new a = Ok sw -> AesGcmRingProvider_new a = Ok ring ->
  key_wf key -> zlen aad <= gcm_limit -> zlen body <= gcm_limit ->
  sw_seal swl sw key nonce aad body out = ring_seal rl ring key nonce aad body out /\
  exists r o1 o2,
    sw_open swl sw key nonce aad body out = Returns (r, o1) /\
    ring_open rl ring key nonce aad body out = Returns (r, o2) /\
    (r <> Err AuthFailed -> o1 = o2).
Proof.
  intros [Hs Ha]%sw_new_ok [Hri Hra]%ring_new_ok Hwf Haad Hb.
  assert (Hfit : fits body) by (unfold fits, isize_max, gcm_limit in *; lia). split.
  - rewrite (sw_seal_run swl ae), (ring_seal_run rl ae) by done. by rewrite Ha, Hra.
  - destruct (sw_open_run swl ae sw key nonce aad body out) as (o1 & -> & H1); [done..|].
    destruct (ring_open_run rl ae ring key nonce aad body out) as (o2 & -> & H2 & _); [done..|].
    rewrite Ha in *. rewrite Hra in *. eexists _, o1, o2. split; [done|]. split; [done|].
    destruct (open_spec ae a key nonce aad body (zlen out)) as [p|[]]; simpl in *;
      by subst.
Qed.

Lemma providers_agree_witness :
  let key := mkKeyHandle 1 Aes256Gcm (replicate 32 x42) in
  sw_seal ref_aes_gcm (mkSw Aes256Gcm) key (replicate 12 x88) [x61] [x01; x02] (zeros 20) =
  ring_seal ref_ring (mkRing Aes256Gcm) key (replicate 12 x88) [x61] [x01; x02] (zeros 20).
Proof.
  exact (proj1 (providers_agree ref_aes_gcm ref_ring gcm _ _ _ Aes256Gcm
    (mkSw Aes256Gcm) (mkRing Aes256Gcm) (mkKeyHandle 1 Aes256Gcm (replicate 32 x42))
    (replicate 12 x88) [x61] [x01; x02] (zeros 20) eq_refl eq_refl eq_refl
    ltac:(le_closed) ltac:(le_closed))).
Defined.

(** C29: what either provider seals either provider opens: whatever pair of
    [AesGcmSwProvider] and [AesGcmRingProvider] was built for an algorithm,
    the bytes the first seals, read back by the second with the same key,
    nonce and additional data, give the plaintext at the front of the output
    buffer; neither touches its buffer behind what it reports. *)
Theorem provider_seal_open (swl : AesGcmCrate) (rl : RingCrate) (ae : Aead)
    (Hsw : AesGcmCrateLaws swl ae) (Hr : RingCrateLaws rl ae) (Hae : AeadLaws ae)
    (a : AlgoId) (p q : CryptoProvider) (key : KeyHandle) (nonce aad pt out back : bytes) :
  built swl rl a p -> built swl rl a q ->
  key_wf key -> algo key = a -> zlen nonce = 12 ->
  zlen aad <= gcm_limit -> zlen pt + 16 <= gcm_limit ->
  zlen pt + 16 <= zlen out -> zlen pt <= zlen back ->
  exists n out', p_seal p key nonce aad pt out = Returns (Ok n, out') /\
    n = zlen pt + 16 /\ zdrop n out' = zdrop n out /\
    p_open q key nonce aad (ztake n out') back =
      Returns (Ok (zlen pt), pt ++ zdrop (zlen pt) back).
Proof.
  intros [Hpa Hp]%(built_contract swl rl ae) [Hqa Hq]%(built_contract swl rl ae)
    Hwf Ha Hn Haad Hpt Ho Hb.
  destruct (contract_seal ae p key nonce aad pt out) as (c & t & Es & Hc & Ht & ->);
    [try done; congruence || lia..|].
  eexists _, _. split; [done|]. split; [done|].
  rewrite app_assoc. rewrite (zdrop_app (c ++ t)), (ztake_app (c ++ t)) by zlen_solve.
  split; [done|].
  destruct (contract_open ae q key nonce aad c t back) as (back' & Hop & Hl);
    [try done; congruence || lia..|].
  rewrite Hop. revert Hl. rewrite (ae_open_seal ae _ _ _ pt); [by simpl; intros ->| |done|done].
  eapply key_wf_gcm; [done|done|]. rewrite <-Hpa. apply Hp.
Qed.

Lemma provider_seal_open_witness :
  let key := mkKeyHandle 1 Aes128Gcm (replicate 16 x42) in
  exists n out',
    p_seal (sw_provider ref_aes_gcm (mkSw Aes128Gcm)) key (zeros 12) [] [x68; x69] (zeros 18) =
      Returns (Ok n, out') /\ n = 18 /\ zdrop n out' = zdrop n (zeros 18) /\
    p_open (ring_provider ref_ring (mkRing Aes128Gcm)) key (zeros 12) [] (ztake n out') (zeros 2) =
      Returns (Ok 2, [x68; x69]).
Proof.
  exact (provider_seal_open ref_aes_gcm ref_ring gcm _ _ _ Aes128Gcm
    (sw_provider ref_aes_gcm (mkSw Aes128Gcm)) (ring_provider ref_ring (mkRing Aes128Gcm))
    (mkKeyHandle 1 Aes128Gcm (replicate 16 x42)) (zeros 12) [] [x68; x69] (zeros 18) (zeros 2)
    (built_sw _ _ Aes128Gcm (mkSw Aes128Gcm) eq_refl) (built_ring _ _ Aes128Gcm (mkRing Aes128Gcm) eq_refl)
    eq_refl eq_refl eq_refl ltac:(le_closed)
    ltac:(le_closed) ltac:(le_closed)
    ltac:(le_closed)).
Defined.

(** C30: [open] of either provider accepts nothing but what [seal] makes: when
    it opens a body, it wrote a plaintext of 16 bytes less and nothing behind
    it, and [seal] of either provider, given that plaintext with the same
    key, nonce and additional data, writes exactly the body. *)
Theorem provider_open_authentic (swl : AesGcmCrate) (rl : RingCrate) (ae : Aead)
    (Hsw : AesGcmCrateLaws swl ae) (Hr : RingCrateLaws rl ae) (Hae : AeadLaws ae)
    (a : AlgoId) (p : CryptoProvider) (key : KeyHandle) (nonce aad body out out' : bytes) (n : Z) :
  built swl rl a p -> key_wf key -> zlen aad <= gcm_limit -> zlen body <= gcm_limit ->
  p_open p key nonce aad body out = Returns (Ok n, out') ->
  exists pt, n = zlen pt /\ zlen body = n + 16 /\ out' = pt ++ zdrop n out /\
    forall q buf, built swl rl a q -> zlen buf = zlen body ->
      p_seal q key nonce aad pt buf = Returns (Ok (zlen body), body).
Proof.
  intros [Hpa Hp]%(built_contract swl rl ae) Hwf Haad Hb Ho.
  destruct (opened_sealed ae p key nonce aad body out out' n Hp Hwf Haad Hb Ho)
    as (pt & Hn & Hl & Hout & Ha & Hn12 & Es).
  exists pt. split_and!; [done..|]. intros q buf [Hqa Hq]%(built_contract swl rl ae) Hbuf.
  pose proof (zlen_nonneg pt).
  destruct (contract_seal ae q key nonce aad pt buf) as (c & t & Es' & _ & _ & ->);
    [try done; congruence || lia..|].
  rewrite Es in Es'. injection Es' as <- <-.
  rewrite app_assoc, ztake_zdrop, zdrop_all, app_nil_r by lia. do 3 f_equal. lia.
Qed.

Lemma provider_open_authentic_witness :
  let p := ring_provider ref_ring (mkRing Aes128Gcm) in
  p_open p wit_key (zeros 12) [] wit_body (zeros 1) = Returns (Ok 1, [x68]) /\
  exists pt, 1 = zlen pt /\ zlen wit_body = 1 + 16 /\ [x68] = pt ++ zdrop 1 (zeros 1) /\
    forall q buf, built ref_aes_gcm ref_ring Aes128Gcm q -> zlen buf = zlen wit_body ->
      p_seal q wit_key (zeros 12) [] pt buf = Returns (Ok (zlen wit_body), wit_body).
Proof.
  intros p.
  assert (H : p_open p wit_key (zeros 12) [] wit_body (zeros 1) = Returns (Ok 1, [x68]))
    by (vm_compute; reflexivity).
  split; [exact H|].
  exact (provider_open_authentic ref_aes_gcm ref_ring gcm _ _ _ Aes128Gcm p
    wit_key (zeros 12) [] wit_body (zeros 1) [x68] 1 (built_ring _ _ Aes128Gcm (mkRing Aes128Gcm) eq_refl) eq_refl
    ltac:(le_closed) ltac:(le_closed) H).
Defined.

(** C38: a wiped key seals and opens nothing: once [zeroize] has emptied the
    material, both providers refuse every call and leave the buffer alone. *)
Theorem wiped_key_refused (swl : AesGcmCrate) (rl : RingCrate) (ae : Aead)
    (Hsw : AesGcmCrateLaws swl ae) (Hr : RingCrateLaws rl ae)
    (vec_zeroize : bytes -> bytes) (a : AlgoId) (sw : AesGcmSwProvider)
    (ring : AesGcmRingProvider) (key : KeyHandle) (nonce aad body out : bytes) :
  (forall v, vec_zeroize v = []) ->
  AesGcmSwProvider_new a = Ok sw -> AesGcmRingProvider_new a = Ok ring -> fits body ->
  let k := wipe vec_zeroize key in
  (exists e, sw_seal swl sw k nonce aad body out = Returns (Err e, out)) /\
  (exists e, sw_open swl sw k nonce aad body out = Returns (Err e, out)) /\
  (exists e, ring_seal rl ring k nonce aad body out = Returns (Err e, out)) /\
  (exists e, ring_open rl ring k nonce aad body out = Returns (Err e, out)).
Proof.
  intros Hz [Hs Ha]%sw_new_ok [Hri Hra]%ring_new_ok Hfit k.
  assert (Hk : zlen (material k) = 0) by (subst k; simpl; by rewrite Hz).
  assert (Hbad : forall b, zlen (material k) <> key_len b)
    by (intros b; rewrite Hk; pose proof (key_len_range b); lia).
  assert (Hck : forall n s, exists e, check_inputs sw k nonce n s out = Returns (Err e, out)).
  { intros n s. rewrite check_inputs_run. rewrite (decide_True (P := zlen _ <> _)) by apply Hbad.
    case_decide; eauto. }
  assert (Hbk : bound_key rl ring (material k) =
                Returns (Err (InvalidKey (key_len (ring_algo_id ring)) (zlen (material k))))).
  { destruct (bound_key_run rl ae ring (material k) Hri) as [(? & _ & _ & E)|[? _]]; [|done].
    by apply Hbad in E. }
  split_and!.
  - destruct (Hck (zlen body) true) as [e He]. exists e. unfold sw_seal. by mrun (rewrite He).
  - destruct (Hck (zlen body) false) as [e He]. unfold sw_open. rewrite mguard_seq.
    case_match; [eauto|]. exists e. by mrun (rewrite He).
  - unfold ring_seal. rewrite mguard_seq. case_match; [eauto|].
    rewrite mguard_seq. case_match; [eauto|]. rewrite mget_seq, mguard_seq.
    case_match; [eauto|]. mrun (unfold mpure; rewrite Hbk). eexists; reflexivity.
  - unfold ring_open. rewrite mguard_seq. case_match; [eauto|].
    rewrite mguard_seq. case_match; [eauto|]. rewrite mguard_seq. case_match; [eauto|].
    rewrite mget_seq, mguard_seq. case_match; [eauto|].
    mrun (unfold mpure; rewrite Hbk). eexists; reflexivity.
Qed.

Lemma wiped_key_refused_witness :
  let k := wipe (fun _ => []) (mkKeyHandle 1 Aes128Gcm (replicate 16 xab)) in
  exists e, sw_seal ref_aes_gcm (mkSw Aes128Gcm) k (zeros 12) [] [] (zeros 16) =
            Returns (Err e, zeros 16).
Proof.
  exact (proj1 (wiped_key_refused ref_aes_gcm ref_ring gcm _ _ (fun _ => []) Aes128Gcm
    (mkSw Aes128Gcm) (mkRing Aes128Gcm) (mkKeyHandle 1 Aes128Gcm (replicate 16 xab))
    (zeros 12) [] [] (zeros 16) (fun _ => eq_refl) eq_refl eq_refl
    ltac:(le_closed))).
Defined.

(** C39: the ring provider releases nothing unauthenticated: whenever its
    [open] fails, for whatever reason, the caller's buffer is untouched. *)
Theorem ring_open_failure_keeps_buffer (lib : RingCrate) (ae : Aead)
    (Hlib : RingCrateLaws lib ae) (Hae : AeadLaws ae) (a : AlgoId) (self : AesGcmRingProvider)
    (key : KeyHandle) (nonce aad ct out out' : bytes) (e : CryptoError) :
  AesGcmRingProvider_new a = Ok self -> key_wf key ->
  zlen aad <= gcm_limit -> zlen ct <= gcm_limit ->
  ring_open lib self key nonce aad ct out = Returns (Err e, out') -> out' = out.
Proof.
  intros [Hs _]%ring_new_ok Hwf Ha Hc Ho.
  destruct (ring_open_run lib ae self key nonce aad ct out) as (o & Ho' & _ & Hk);
    [first [done | unfold fits, isize_max, gcm_limit in *; lia]..|].
  rewrite Ho in Ho'. injection Ho' as Hr ->. apply Hk.
  by destruct (open_spec _ _ _ _ _ _ _).
Qed.

Lemma ring_open_failure_keeps_buffer_witness :
  let key := mkKeyHandle 1 Aes128Gcm (zeros 16) in
  ring_open ref_ring (mkRing Aes128Gcm) key (zeros 12) [] (zeros 18) [x07; x08] =
    Returns (Err AuthFailed, [x07; x08]) /\ [x07; x08] = [x07; x08].
Proof.
  assert (H : ring_open ref_ring (mkRing Aes128Gcm) (mkKeyHandle 1 Aes128Gcm (zeros 16))
                (zeros 12) [] (zeros 18) [x07; x08] = Returns (Err AuthFailed, [x07; x08]))
    by (vm_compute; reflexivity).
  split; [exact H|].
  exact (ring_open_failure_keeps_buffer ref_ring gcm _ _ Aes128Gcm (mkRing Aes128Gcm)
    (mkKeyHandle 1 Aes128Gcm (zeros 16)) (zeros 12) [] (zeros 18) _ _ _ eq_refl eq_refl
    ltac:(le_closed) ltac:(le_closed) H).
Defined.
