(* ===== verification/WireProps.v ===== *)
(** Properties of the crate acm-wire: the header codec, the layout of sealed
    frames, which frames [open] accepts, and the absence of panics. *)

From S2P Require Import Prelude Crypto Aead AesGcmSw AesGcmRing AesGcmRef Wire.

(** Concrete inputs of the witnesses. *)
Definition wit_header : FrameHeader := mkFrameHeader VERSION x80 3735928559 Aes256Gcm x0c.
Definition wit_key : KeyHandle := mkKeyHandle 11 Aes128Gcm (replicate 16 x33).
Definition wit_provider : CryptoProvider := ring_provider ref_ring (mkRing Aes128Gcm).
Definition wit_contract : ProviderContract gcm wit_provider :=
  ring_contract ref_ring gcm (mkRing Aes128Gcm) (or_introl eq_refl).
Definition wit_sw : CryptoProvider := sw_provider ref_aes_gcm (mkSw Aes128Gcm).
Definition wit_sw_contract : ProviderContract gcm wit_sw :=
  sw_contract ref_aes_gcm gcm (mkSw Aes128Gcm) (or_introl eq_refl).
Definition wit_frame : bytes :=
  Eval vm_compute in frame_bytes gcm Aes128Gcm wit_key 11 (replicate 12 xaa) x00 [x68; x69].
Definition wit_tampered : bytes :=
  Eval vm_compute in ztake 41 wit_frame ++ [x00].

(** * Lemmas *)

Lemma decode_spec_Ok src h :
  decode_spec src = Ok h <->
  h_version h = VERSION /\ u32_ok (h_key_id h) /\
  exists r0 r1 rest, src = ztake 10 (header_bytes h) ++ r0 :: r1 :: rest.
Proof.
  split.
  - unfold decode_spec.
    destruct src as [|m0 src]; [done|]. destruct src as [|m1 src]; [done|].
    destruct src as [|v src]; [done|]. destruct src as [|fl src]; [done|].
    destruct src as [|k0 src]; [done|]. destruct src as [|k1 src]; [done|].
    destruct src as [|k2 src]; [done|]. destruct src as [|k3 src]; [done|].
    destruct src as [|a src]; [done|]. destruct src as [|nl src]; [done|].
    destruct src as [|r0 src]; [done|]. destruct src as [|r1 rest]; [done|].
    destruct (decide ([m0; m1] <> MAGIC)) as [|Hm%dec_stable]; [done|].
    destruct (decide (v <> VERSION)) as [| ->%dec_stable]; [done|].
    destruct (from_u8 a) as [al|] eqn:Ea; [|done]. intros [= <-].
    split; [done|]. split; [apply u32_from_be_ok|]. exists r0, r1, rest.
    apply from_u8_Some in Ea as ->. injection Hm as -> ->.
    unfold header_bytes. cbn [h_key_id h_version h_flags h_algo h_nonce_len].
    rewrite u32_be_bytes_inv. reflexivity.
  - intros (Hv & Hk & r0 & r1 & rest & ->).
    rewrite <-(decode_header_bytes h rest Hv Hk).
    unfold header_bytes, u32_to_be_bytes. reflexivity.
Qed.

(** Decoding depends on the twelve header bytes alone. *)
Lemma decode_spec_header h r r' :
  zlen h = 12 -> is_ok (decode_spec (h ++ r)) = true -> decode_spec (h ++ r') = decode_spec (h ++ r).
Proof.
  intros (? & ? & ? & ? & ? & ? & ? & ? & ? & ? & ? & ? & ->)%zlen_12 _. reflexivity.
Qed.

(** Two frames that agree up to the tag have the same parts before it. *)
Lemma frames_agree f f' :
  40 <= zlen f -> zlen f' = zlen f -> ztake (zlen f - 16) f' = ztake (zlen f - 16) f ->
  f_header f' = f_header f /\ f_nonce f' = f_nonce f /\ f_ct f' = f_ct f.
Proof.
  intros Hl Hlen. destruct (frame_parts f Hl) as (Ef & Lh & Ln & Lc & _).
  destruct (frame_parts f') as (Ef' & Lh' & Ln' & Lc' & _); [lia|].
  assert (E : forall g a b c d : bytes, g = a ++ b ++ c ++ d -> zlen a = 12 -> zlen b = 12 ->
            zlen c = zlen f - 40 -> ztake (zlen f - 16) g = a ++ b ++ c).
  { intros g a b c d -> Ha Hb Hc.
    assert (a ++ b ++ c ++ d = (a ++ b ++ c) ++ d) as -> by (by rewrite <-!app_assoc).
    apply ztake_app. zlen_solve. }
  rewrite (E f' _ _ _ _ Ef') by lia. rewrite (E f _ _ _ _ Ef) by lia.
  intros [-> [-> ->]%app_inj_zlen]%app_inj_zlen; [done|lia|lia].
Qed.

(** * Properties *)

(** C28: [decode] accepts exactly the encodings of headers: a byte string
    decodes to [h] iff [h] has the supported version and a 32-bit key id and
    the string begins with the bytes [encode] writes for [h], up to the two
    reserved bytes. *)
Theorem header_codec src h :
  decode src = Returns (Ok h) <->
  h_version h = VERSION /\ u32_ok (h_key_id h) /\
  exists out r0 r1 rest, encode h (zeros 12) = Returns (Ok tt, out) /\
    src = ztake 10 out ++ r0 :: r1 :: rest.
Proof.
  rewrite decode_run, encode_run by done.
  assert (Returns (decode_spec src) = Returns (Ok h) <-> decode_spec src = Ok h) as ->
    by (split; congruence).
  rewrite decode_spec_Ok. split.
  - intros (? & ? & r0 & r1 & rest & ->). split_and!; [done..|]. eauto 6.
  - intros (? & ? & out & r0 & r1 & rest & [= <-] & ->). split_and!; [done..|]. eauto.
Qed.

(** A header survives its trip over the wire: encoded into any buffer of
    twelve bytes or more and decoded from it, it comes back unchanged, and the
    bytes after the header are untouched. *)
Theorem header_roundtrip h out rest :
  h_version h = VERSION -> u32_ok (h_key_id h) -> zlen out = HEADER_LEN ->
  exists b, on_slice 0 12 (encode h) (out ++ rest) = Returns (Ok tt, b ++ rest) /\
    decode (b ++ rest) = Returns (Ok h).
Proof.
  intros Hv Hk Ho. exists (header_bytes h). split.
  - by rewrite on_slice_to_app, encode_run by done.
  - by rewrite decode_run, decode_header_bytes.
Qed.

Lemma header_roundtrip_witness :
  exists b, on_slice 0 12 (encode wit_header) (zeros 12 ++ [xff]) = Returns (Ok tt, b ++ [xff]) /\
    decode (b ++ [xff]) = Returns (Ok wit_header).
Proof.
  apply (header_roundtrip wit_header (zeros 12) [xff]); [reflexivity| |reflexivity].
  split; le_closed.
Defined.

(** C16: [seal] on every branch: the checks in their order, each with its error
    and the buffer it leaves, and on success the frame
    [HEADER | NONCE | CIPHERTEXT | TAG] with the header as additional data,
    the rest of the buffer untouched. *)
Theorem seal_refines (ae : Aead) (Hae : AeadLaws ae) (p : CryptoProvider)
    (Hp : ProviderContract ae p) key key_id nonce flags pt out :
  key_wf key -> zlen pt <= gcm_limit ->
  seal p key key_id nonce flags pt out =
  Returns (wire_seal_spec ae (algorithm p) key key_id nonce flags pt out).
Proof.
  intros Hwf Hpt. apply seal_run; try done. unfold fits, isize_max, gcm_limit in *. lia.
Qed.

Lemma seal_refines_witness :
  seal wit_provider wit_key 11 (replicate 12 xaa) x00 [x68; x69] (zeros 42) =
  Returns (wire_seal_spec gcm Aes128Gcm wit_key 11 (replicate 12 xaa) x00 [x68; x69] (zeros 42)).
Proof.
  exact (seal_refines gcm _ wit_provider wit_contract wit_key 11 (replicate 12 xaa) x00
    [x68; x69] (zeros 42) eq_refl ltac:(le_closed)).
Defined.

(** C17: [open] on every branch: truncation, magic, version, algorithm,
    provider and nonce length, body length, output length, key algorithm and
    authentication, in this order, each with its error; on success the length
    and bytes of the plaintext; a refused frame writes nothing unless it was
    the authentication that failed. *)
Theorem open_refines (ae : Aead) (Hae : AeadLaws ae) (p : CryptoProvider)
    (Hp : ProviderContract ae p) key f out :
  key_wf key -> zlen f <= gcm_limit ->
  exists out',
    open p key f out =
      Returns (map_ok zlen (wire_open_spec ae (algorithm p) key f (zlen out)), out') /\
    wire_open_leaves (wire_open_spec ae (algorithm p) key f (zlen out)) out out'.
Proof.
  intros Hwf Hf. apply open_run; try done. unfold fits, isize_max, gcm_limit in *. lia.
Qed.

Lemma open_refines_witness :
  exists out',
    open wit_provider wit_key wit_frame (zeros 2) =
      Returns (map_ok zlen (wire_open_spec gcm Aes128Gcm wit_key wit_frame (zlen (zeros 2))), out') /\
    wire_open_leaves (wire_open_spec gcm Aes128Gcm wit_key wit_frame (zlen (zeros 2)))
      (zeros 2) out'.
Proof.
  exact (open_refines gcm _ wit_provider wit_contract wit_key wit_frame (zeros 2) eq_refl
    ltac:(le_closed)).
Defined.

(** C1: frames survive the wire between any two providers of one algorithm:
    what one side seals into a buffer of [frame_len] bytes or more, the other
    opens with the same key to the same plaintext, whatever the key id, flags
    and nonce. *)
Theorem seal_open_roundtrip (ae : Aead) (Hae : AeadLaws ae) (p q : CryptoProvider)
    (Hp : ProviderContract ae p) (Hq : ProviderContract ae q)
    key key_id nonce flags pt out back :
  algorithm p = algorithm q -> key_wf key -> algo key = algorithm p -> u32_ok key_id ->
  zlen nonce = 12 -> zlen pt + 40 <= gcm_limit ->
  frame_len (zlen pt) (zlen nonce) (tag_len (algorithm p)) <= zlen out -> zlen pt <= zlen back ->
  exists n out', seal p key key_id nonce flags pt out = Returns (Ok n, out') /\
    n = frame_len (zlen pt) (zlen nonce) (tag_len (algorithm p)) /\
    open q key (ztake n out') back = Returns (Ok (zlen pt), pt ++ zdrop (zlen pt) back).
Proof.
  intros Hpq Hwf Ha Hid Hn Hpt. rewrite Hn, tag_len_16.
  assert (Hfit : fits pt) by (unfold fits, isize_max, gcm_limit in *; lia).
  rewrite frame_len_small by done. intros Ho Hb.
  rewrite (seal_run ae) by (done || unfold gcm_limit in *; lia). unfold wire_seal_spec.
  rewrite !decide_False by (congruence || lia).
  eexists _, _. split; [done|]. split; [done|].
  assert (Hgk : gcm_key (material key)) by eauto using key_wf_gcm, pc_algorithm.
  rewrite ztake_app.
  - rewrite Hpq. apply open_sealed_frame; try done. by rewrite <-Hpq.
  - unfold frame_bytes.
    destruct (ae_seal ae (material key) nonce _ pt) as [c t] eqn:Es.
    destruct (ae_seal_lengths _ _ _ _ _ _ Hgk Hn Es) as [Hc Ht].
    rewrite !zlen_app. unfold frame_header. rewrite header_bytes_length.
    unfold HEADER_LEN. lia.
Qed.

Lemma seal_open_roundtrip_witness :
  exists n out',
    seal wit_sw wit_key 11 (replicate 12 xaa) x00 [x68; x69] (zeros 42) = Returns (Ok n, out') /\
    n = frame_len (zlen [x68; x69]) (zlen (replicate 12 xaa)) (tag_len (algorithm wit_sw)) /\
    open wit_provider wit_key (ztake n out') (zeros 2) =
      Returns (Ok (zlen [x68; x69]), [x68; x69] ++ zdrop (zlen [x68; x69]) (zeros 2)).
Proof.
  exact (seal_open_roundtrip gcm _ wit_sw wit_provider wit_sw_contract wit_contract
    wit_key 11 (replicate 12 xaa) x00 [x68; x69] (zeros 42) (zeros 2)
    eq_refl eq_refl eq_refl ltac:(split; le_closed) eq_refl ltac:(le_closed)
    ltac:(le_closed) ltac:(le_closed)).
Defined.

(** C2: [open] accepts exactly the authentic frames: it succeeds iff the
    header decodes with the provider's algorithm and a 12-byte nonce, the
    output has room, the key fits the provider, and the body is the AES-GCM
    encryption of some plaintext under the frame's own nonce with its first
    twelve bytes (reserved bytes included) as additional data. *)
Theorem open_accepts_iff (ae : Aead) (Hae : AeadLaws ae) (p : CryptoProvider)
    (Hp : ProviderContract ae p) key f out :
  key_wf key -> zlen f <= gcm_limit ->
  (exists n out', open p key f out = Returns (Ok n, out')) <->
  (exists h, decode f = Returns (Ok h) /\ h_algo h = algorithm p /\
     Z_of_u8 (h_nonce_len h) = 12) /\
  40 <= zlen f <= zlen out + 40 /\ algo key = algorithm p /\
  (exists pt, ae_seal ae (material key) (f_nonce f) (f_header f) pt = (f_ct f, f_tag f)).
Proof.
  intros Hwf Hf.
  destruct (open_run ae p key f out) as (out' & -> & _);
    [done|unfold fits, isize_max, gcm_limit in *; lia|done|].
  transitivity (exists pt, wire_open_spec ae (algorithm p) key f (zlen out) = Ok pt).
  { destruct (wire_open_spec _ _ _ _ _) as [pt|e]; simpl.
    - split; [by exists pt | by eexists _, _].
    - split; [by intros (? & ? & ?) | by intros [? ?]]. }
  setoid_rewrite (open_spec_Ok_iff ae p key f _ _ Hwf). unfold header_fits, sealed_with.
  split.
  - intros (pt & (h & Hd & ? & ?) & ? & ? & ?). split_and!; eauto; try lia.
    exists h. by rewrite decode_run, Hd.
  - intros ((h & Hd & ? & ?) & ? & ? & pt & ?). exists pt. split_and!; eauto; try lia.
    exists h. rewrite decode_run in Hd. by injection Hd.
Qed.

Lemma open_accepts_iff_witness :
  (exists n out', open wit_provider wit_key wit_frame (zeros 2) = Returns (Ok n, out')) <->
  (exists h, decode wit_frame = Returns (Ok h) /\ h_algo h = algorithm wit_provider /\
     Z_of_u8 (h_nonce_len h) = 12) /\
  40 <= zlen wit_frame <= zlen (zeros 2) + 40 /\ algo wit_key = algorithm wit_provider /\
  (exists pt, ae_seal gcm (material wit_key) (f_nonce wit_frame) (f_header wit_frame) pt =
     (f_ct wit_frame, f_tag wit_frame)).
Proof.
  exact (open_accepts_iff gcm _ wit_provider wit_contract wit_key wit_frame (zeros 2) eq_refl
    ltac:(le_closed)).
Defined.

(** C27: a forged tag is always caught: of all the frames that agree with an
    accepted frame up to its last sixteen bytes, every other one is refused
    with [AuthFailed]. *)
Theorem open_rejects_forged_tag (ae : Aead) (Hae : AeadLaws ae) (p : CryptoProvider)
    (Hp : ProviderContract ae p) key f f' out n out1 :
  key_wf key -> zlen f <= gcm_limit ->
  open p key f out = Returns (Ok n, out1) ->
  zlen f' = zlen f -> ztake (zlen f - 16) f' = ztake (zlen f - 16) f -> f' <> f ->
  exists out2, open p key f' out = Returns (Err (Crypto AuthFailed), out2) /\
    zlen out2 = zlen out.
Proof.
  intros Hwf Hf Ho Hlen Htake Hne.
  assert (Hfit : fits f) by (unfold fits, isize_max, gcm_limit in *; lia).
  destruct (open_run ae p key f out Hwf Hfit Hf) as (o1 & Ho1 & _).
  rewrite Ho in Ho1. injection Ho1 as Hr _.
  destruct (wire_open_spec ae (algorithm p) key f (zlen out)) as [pt|] eqn:Hsp; [|done].
  clear Ho Hr o1 out1. apply open_spec_Ok_iff in Hsp as (Hh & Hrange & Ha & Hs); [|done..].
  destruct (open_run ae p key f' out) as (out2 & -> & Hl);
    [done|unfold fits; rewrite Hlen; done|lia|].
  destruct (frame_parts f) as (Ef & Lh & Ln & Lc & Lt); [lia|].
  destruct (frame_parts f') as (Ef' & Lh' & _ & _ & Lt'); [lia|].
  destruct (frames_agree f f') as (Eh & En & Ec); [lia|done|done|].
  rewrite Eh, En, Ec in Ef'.
  assert (Hspec : wire_open_spec ae (algorithm p) key f' (zlen out) = Err (Crypto AuthFailed)).
  { destruct Hh as (h & Hd & Halg & Hnl).
    assert (Hd' : decode_spec f' = Ok h).
    { rewrite Ef'. rewrite Ef in Hd. rewrite <-Hd. apply decode_spec_header; [done|].
      by rewrite Hd. }
    unfold wire_open_spec. rewrite Hd'.
    rewrite !decide_False by (congruence || lia).
    rewrite Eh, En, Ec.
    destruct (ae_open ae _ _ _ _ (f_tag f')) as [pt'|] eqn:Eo; [|done].
    exfalso. apply Hne. transitivity (f_header f ++ f_nonce f ++ f_ct f ++ f_tag f); [|done].
    assert (f_tag f' = f_tag f) as <-; [|done].
    eapply (ae_open_tag_unique ae); [|exact Ln|exact Lt'|exact Eo|exact Hs].
    eauto using key_wf_gcm, pc_algorithm. }
  exists out2. rewrite Hspec in *. simpl in Hl. done.
Qed.

Lemma open_rejects_forged_tag_witness :
  exists out2,
    open wit_provider wit_key wit_tampered (zeros 2) = Returns (Err (Crypto AuthFailed), out2) /\
    zlen out2 = zlen (zeros 2).
Proof.
  refine (open_rejects_forged_tag gcm _ wit_provider wit_contract wit_key wit_frame wit_tampered
    (zeros 2) 2 [x68; x69] eq_refl ltac:(le_closed) _ eq_refl eq_refl _).
  - vm_compute. reflexivity.
  - intros E. apply (f_equal (zdrop 41)) in E. revert E. vm_compute. discriminate.
Defined.

(** C26: neither [seal] nor [open] ever panics, whatever the key, nonce, frame
    and buffer: each returns, leaves a buffer of the same length, and reports
    a length within it that matches the frame. *)
Theorem wire_never_panics (ae : Aead) (p : CryptoProvider) (Hp : ProviderContract ae p)
    key key_id nonce flags body out :
  fits body ->
  (exists r out', seal p key key_id nonce flags body out = Returns (r, out') /\
     zlen out' = zlen out /\ forall n, r = Ok n -> n = zlen body + 40 /\ n <= zlen out) /\
  (exists r out', open p key body out = Returns (r, out') /\
     zlen out' = zlen out /\ forall n, r = Ok n -> n + 40 = zlen body /\ 0 <= n <= zlen out).
Proof.
  intros Hfit. split.
  - by apply (seal_safe ae p).
  - by apply (open_safe ae p).
Qed.

Lemma wire_never_panics_witness :
  exists r out', open wit_provider (mkKeyHandle 0 OzDst1105 []) [x41; x43] (zeros 1) =
    Returns (r, out') /\ zlen out' = zlen (zeros 1) /\
    forall n, r = Ok n -> n + 40 = zlen [x41; x43] /\ 0 <= n <= zlen (zeros 1).
Proof.
  exact (proj2 (wire_never_panics gcm wit_provider wit_contract (mkKeyHandle 0 OzDst1105 [])
    0 [] x00 [x41; x43] (zeros 1) ltac:(le_closed))).
Defined.

(** C37: [frame_len] is the number of bytes [seal] writes: for every plaintext
    Rust can hold and a nonce of the algorithm's length it is the sum of the
    four lengths, without a wrap-around; [seal] refuses a smaller buffer and
    leaves it alone, never reports another length, and into any buffer that is
    large enough writes that many bytes and nothing behind them. *)
Theorem frame_len_exact (ae : Aead) (Hae : AeadLaws ae) (p : CryptoProvider)
    (Hp : ProviderContract ae p) (key : KeyHandle) (key_id : Z) (nonce : bytes) (flags : byte)
    (pt out : bytes) :
  fits pt -> zlen nonce = nonce_len (algorithm p) ->
  let n := frame_len (zlen pt) (zlen nonce) (tag_len (algorithm p)) in
  n = HEADER_LEN + zlen nonce + zlen pt + tag_len (algorithm p) /\ n < 2 ^ 64 /\
  (zlen out < n -> seal p key key_id nonce flags pt out = Returns (Err OutputTooSmall, out)) /\
  (forall w out', seal p key key_id nonce flags pt out = Returns (Ok w, out') ->
     w = n /\ n <= zlen out) /\
  (key_wf key -> algo key = algorithm p -> zlen pt <= gcm_limit -> n <= zlen out ->
     exists f, zlen f = n /\
       seal p key key_id nonce flags pt out = Returns (Ok n, f ++ zdrop n out)).
Proof.
  intros Hfit Hn n. assert (Hn12 : zlen nonce = 12) by (by rewrite Hn, nonce_len_12).
  assert (En : n = zlen pt + 40) by (unfold n; by rewrite Hn12, tag_len_16, frame_len_small).
  clearbody n. subst n. rewrite Hn12, tag_len_16. unfold HEADER_LEN. pose proof (zlen_nonneg pt).
  split_and!; [lia|unfold fits, isize_max in Hfit; lia|..].
  - intros Ho. unfold seal. rewrite mguard_seq, nonce_len_12, Hn12. simpl negb. cbv iota.
    rewrite mget_seq, mguard_seq, tag_len_16, frame_len_small by done.
    by rewrite (proj2 (Z.ltb_lt _ _)) by lia.
  - intros w out' Hs.
    destruct (seal_safe ae p key key_id nonce flags pt (zlen out) Hfit out eq_refl)
      as (r & o & Hs' & _ & Hr).
    rewrite Hs in Hs'. injection Hs' as <- <-. destruct (Hr w eq_refl). lia.
  - intros Hwf Ha Hpt Ho.
    exists (frame_bytes ae (algorithm p) key key_id nonce flags pt). split.
    + unfold frame_bytes. destruct (ae_seal ae (material key) nonce _ pt) as [c t] eqn:Es.
      destruct (ae_seal_lengths (AeadLaws := Hae) _ _ _ _ _ _
                  (key_wf_gcm _ _ Hwf Ha (pc_algorithm (ProviderContract := Hp))) Hn12 Es).
      assert (zlen (frame_header (algorithm p) key_id flags) = 12) by done. zlen_solve.
    + rewrite (seal_run ae) by done. unfold wire_seal_spec.
      by rewrite !decide_False by (congruence || lia).
Qed.

Lemma frame_len_exact_witness :
  exists f, zlen f = 41 /\
    seal wit_provider (mkKeyHandle 7 Aes128Gcm (zeros 16)) 7 (zeros 12) x00 [x00] (zeros 45) =
      Returns (Ok 41, f ++ zeros 4).
Proof.
  destruct (frame_len_exact gcm _ wit_provider wit_contract (mkKeyHandle 7 Aes128Gcm (zeros 16)) 7
              (zeros 12) x00 [x00] (zeros 45) ltac:(le_closed) eq_refl)
    as (_ & _ & _ & _ & H).
  exact (H eq_refl eq_refl ltac:(le_closed) ltac:(le_closed)).
Defined.
