(* ===== verification/CryptodProps.v ===== *)
(** Properties of acm-ipc's connection loop and of acm-cryptod's request
    handlers run one at a time. *)

From Stdlib Require Import Strings.String.
From S2P Require Import Prelude Crypto Aead AesGcmRing AesGcmRef Wire Ipc Cryptod.

(** * Runs of the daemon *)

(** The states a daemon passes through, one request after another. *)
Inductive reachable (lib : RingCrate) : CryptodState -> Prop :=
| reach_new now s : CryptodState_new lib now = Ok s -> reachable lib s
| reach_handle s now req r s' :
    reachable lib s -> request_ok req -> handle lib now s req = Returns (r, s') ->
    reachable lib s'.

(** A sequence of requests, each with the instant it is handled at. *)
Fixpoint run (lib : RingCrate) (s : CryptodState) (reqs : list (Z * Request))
    : outcome (list Response * CryptodState) :=
  match reqs with
  | [] => Returns ([], s)
  | (now, req) :: reqs' =>
      let! (r, s1) := handle lib now s req in
      let! (rs, s2) := run lib s1 reqs' in
      Returns (r :: rs, s2)
  end.

(** The daemon as the handler of a connection; [clock n] is the instant of
    the [n]-th request. *)
Definition daemon_handle (lib : RingCrate) (clock : nat -> Z) (h : nat * CryptodState)
    (req : Request) : outcome (Response * (nat * CryptodState)) :=
  let! (r, s') := handle lib (clock (fst h)) (snd h) req in
  Returns (r, (S (fst h), s')).

(** Concrete inputs of the witnesses. *)
Definition wit_state : CryptodState :=
  mkCryptodState 0 (ring_provider ref_ring (mkRing Aes256Gcm)) Aes256Gcm None 0 0 0.
Definition wit_rotate : RotateKeyParams := mkRotateKeyParams 7 x01 (replicate 16 x42).
Definition wit_key : KeyHandle := mkKeyHandle 7 Aes128Gcm (replicate 16 x42).
Definition wit_keyed : CryptodState :=
  mkCryptodState 0 (ring_provider ref_ring (mkRing Aes128Gcm)) Aes128Gcm (Some wit_key) 0 0 0.
Definition wit_encrypt : EncryptParams := mkEncryptParams (replicate 12 x01) [x61] [x68; x69].

(** * Lemmas *)

Lemma wit_state_inv : state_inv gcm wit_state.
Proof. by apply (CryptodState_new_inv ref_ring gcm 0). Qed.

Lemma wit_keyed_inv : state_inv gcm wit_keyed.
Proof.
  assert (H : rotation_spec wit_rotate = Ok (Aes128Gcm, wit_key)) by done.
  apply (rotate_inv ref_ring gcm wit_rotate wit_state Aes128Gcm wit_key wit_state_inv); [|done].
  split; le_closed.
Qed.

Section Runs.
Context (lib : RingCrate) (ae : Aead) `{!RingCrateLaws lib ae, !AeadLaws ae}.

Lemma reachable_inv_lemma s : reachable lib s -> state_inv ae s.
Proof.
  induction 1 as [now s Hn|s now req r s' _ IH Hr Hh].
  - by eapply CryptodState_new_inv.
  - by eapply handle_inv.
Qed.

(** What one request adds to the three counters. *)
Lemma handle_counters now s req r s' :
  state_safe ae s -> request_ok req -> handle lib now s req = Returns (r, s') ->
  st_packets_sealed s' = wrap64 (st_packets_sealed s + if is_ciphertext r then 1 else 0) /\
  st_packets_opened s' = wrap64 (st_packets_opened s + if is_plaintext r then 1 else 0) /\
  st_crypto_errors s' = wrap64 (st_crypto_errors s + if is_crypto_failure req r then 1 else 0).
Proof.
  intros Hs Hr. pose proof (safe_provider _ _ Hs) as Hp.
  destruct (safe_sealed _ _ Hs) as [? ?], (safe_opened _ _ Hs) as [? ?],
    (safe_errors _ _ Hs) as [? ?].
  assert (Hid : forall z, 0 <= z < 2 ^ 64 -> z = wrap64 (z + 0))
    by (intros z Hz; by rewrite Z.add_0_r, wrap64_small).
  destruct req as [|p|p|p|p]; simpl in *.
  - intros [= <- <-]. simpl. auto.
  - intros [= <- <-]. simpl. auto.
  - rewrite (handle_rotate_run lib ae). unfold rotation_spec.
    destruct (from_u8 (rk_algo p)) as [[]|]; repeat case_decide; intros [= <- <-]; simpl; auto.
  - unfold handle_encrypt. destruct (active_key s) as [k|]; [|intros [= <- <-]; simpl; auto].
    unfold encrypt_with. case_match; [intros [= <- <-]; simpl; auto|].
    destruct (seal _ _ _ _ _ _ _) as [[[n|e] out]|]; [| |done];
      intros [= <- <-]; simpl; unfold fetch_add1; auto.
  - unfold handle_decrypt. destruct (active_key s) as [k|]; [|intros [= <- <-]; simpl; auto].
    unfold decrypt_with.
    destruct (open _ _ _ _) as [[[n|e] out]|]; [| |done];
      intros [= <- <-]; simpl; unfold fetch_add1; auto.
    split_and!; auto. by destruct e as [| | | | | | |[]].
Qed.

Lemma run_returns reqs s :
  state_inv ae s -> Forall (fun q => request_ok (snd q)) reqs ->
  exists rs s', run lib s reqs = Returns (rs, s') /\ state_inv ae s' /\
    length rs = length reqs /\
    st_packets_sealed s' = wrap64 (st_packets_sealed s + count is_ciphertext rs) /\
    st_packets_opened s' = wrap64 (st_packets_opened s + count is_plaintext rs) /\
    st_crypto_errors s' = wrap64 (st_crypto_errors s +
      count (fun q => is_crypto_failure (snd (fst q)) (snd q)) (combine reqs rs)).
Proof.
  intros Hs Hreqs. revert s Hs. induction Hreqs as [|[now req] reqs Hreq _ IH]; intros s Hs.
  { exists [], s. destruct (inv_safe _ _ Hs) as [_ _ H1 H2 H3].
    split_and!; try done; unfold count, zlen; simpl; rewrite Z.add_0_r, wrap64_small; done. }
  destruct (handle_returns lib ae now s req (inv_safe _ _ Hs) Hreq) as (r & s1 & Hh).
  destruct (handle_counters now s req r s1 (inv_safe _ _ Hs) Hreq Hh) as (E1 & E2 & E3).
  destruct (IH s1) as (rs & s2 & Hr & Hs2 & Hl & F1 & F2 & F3);
    [by eapply handle_inv|]. simpl. rewrite Hh. simpl. rewrite Hr. simpl.
  exists (r :: rs), s2. rewrite E1 in F1. rewrite E2 in F2. rewrite E3 in F3.
  split_and!; [done|done|simpl; lia|..]; simpl; rewrite !count_cons; simpl;
    rewrite ?F1, ?F2, ?F3; unfold wrap64; rewrite Zplus_mod_idemp_l; f_equal; lia.
Qed.
End Runs.

(** The type of the protocol: the answers a request may get, the codes of its
    errors, the lengths of what is sealed and opened, and the widths of the
    numbers a status carries. *)
Definition reply_typed (req : Request) (r : Response) : Prop :=
  match req, r with
  | GetStatus, Status st =>
      u64_ok (uptime_s st) /\ (forall i, active_key_id st = Some i -> u32_ok i) /\
      u64_ok (packets_sealed st) /\ u64_ok (packets_opened st) /\ u64_ok (crypto_errors st)
  | SetPolicy _, ROk => True
  | RotateKey _, ROk => True
  | RotateKey _, Error code _ => code = 422 \/ code = 501
  | Encrypt p, Ciphertext b => zlen (b_bytes b) = zlen (ep_plaintext p) + 40
  | Encrypt _, Error code _ => code = 409 \/ code = 422 \/ code = 500
  | Decrypt p, Plaintext b => zlen (b_bytes b) + 40 = zlen (dp_frame p)
  | Decrypt _, Error code _ => code = 401 \/ code = 409 \/ code = 422
  | _, _ => False
  end.

Lemma encrypt_with_typed ae key p s r s' :
  ProviderContract ae (provider s) -> zlen (ep_plaintext p) + 40 <= isize_max ->
  encrypt_with key p s = Returns (r, s') -> reply_typed (Encrypt p) r.
Proof.
  intros Hc Hp. unfold encrypt_with. rewrite nonce_len_12, tag_len_16.
  destruct (Z.eqb_spec (zlen (ep_nonce p)) 12) as [Hn|Hn]; simpl negb; cbv iota.
  2: { intros [= <- _]. simpl. auto. }
  assert (Hfit : fits (ep_plaintext p)) by (unfold fits; lia).
  rewrite Hn, frame_len_small by done. pose proof (zlen_nonneg (ep_plaintext p)).
  destruct (seal_safe ae (provider s) key (id key) (ep_nonce p) x00 (ep_plaintext p)
              (zlen (ep_plaintext p) + 40) Hfit (zeros (zlen (ep_plaintext p) + 40)))
    as (q & out' & -> & Hl & _); [rewrite zlen_zeros; lia|].
  destruct q; intros [= <- _]; simpl; auto.
Qed.

Lemma decrypt_with_typed ae key p s r s' :
  ProviderContract ae (provider s) -> fits (dp_frame p) ->
  decrypt_with key p s = Returns (r, s') -> reply_typed (Decrypt p) r.
Proof.
  intros Hc Hp. unfold decrypt_with. pose proof (zlen_nonneg (dp_frame p)).
  destruct (open_safe ae (provider s) key (dp_frame p) (zlen (dp_frame p)) Hp
              (zeros (zlen (dp_frame p)))) as (q & out' & -> & Hl & Hq); [rewrite zlen_zeros; lia|].
  destruct q as [n|e]; intros [= <- _]; simpl.
  - destruct (Hq n eq_refl). rewrite zlen_ztake; lia.
  - destruct e as [| | | | | | |[]]; auto.
Qed.

(** * Properties of the connection loop *)

(** C23: [serve_connection] is the line protocol: with fuel for each byte of
    the stream it always ends, and what it does is answer the lines one by
    one, in order, each with one response line; a line that is not JSON is
    answered with error 400 and the session goes on; a line that is not UTF-8
    ends it. *)
Theorem serve_connection_refines {H} (handle : H -> Request -> outcome (Response * H))
    (from_str : bytes -> result Request string) (to_string : Response -> result bytes string)
    (inp : bytes) (h : H) (w : bytes) :
  serve_connection handle from_str to_string rec_write rec_flush (S (length inp)) inp Eof h w =
  session handle from_str to_string h (lines inp) w.
Proof. apply serve_session. lia. Qed.

(** C24: a control session cannot bring the daemon down: whatever the client
    sends as UTF-8 lines, the session runs to the end of the stream, no
    request panics, every request line gets exactly one response line, and
    the daemon's state stays consistent. *)
Theorem session_survives (lib : RingCrate) (ae : Aead)
    (Hlib : RingCrateLaws lib ae) (Hae : AeadLaws ae) (clock : nat -> Z)
    (from_str : bytes -> result Request string) (to_string : Response -> result bytes string)
    (Hreq : forall line req, from_str line = Ok req -> request_ok req)
    (Hjson : forall r, exists s, to_string r = Ok s /\ newline ∉ s)
    (inp : bytes) (n : nat) (s : CryptodState) :
  state_inv ae s -> Forall (fun l => is_Some (utf8_chars l)) (lines inp) ->
  exists n' s' resps out,
    serve_connection (daemon_handle lib clock) from_str to_string rec_write rec_flush
      (S (length inp)) inp Eof (n, s) [] = ConnReturns (Ok tt) (n', s') out /\
    state_inv ae s' /\ length resps = length (lines inp) /\
    Forall2 (fun r l => exists t, to_string r = Ok t /\ l = t ++ [newline]) resps (lines out).
Proof.
  intros Hs Hu. rewrite serve_session by lia.
  destruct (session_answers (daemon_handle lib clock) from_str to_string
              (fun h => state_inv ae (snd h))) with (ls := lines inp) (h := (n, s)) (w := @nil byte)
    as ([n' s'] & resps & out & Hr & HP & Hl & Hf); try done.
  - intros [m t] line req Ht Hj. unfold daemon_handle. simpl in *.
    destruct (handle_returns lib ae (clock m) t req (inv_safe _ _ Ht) (Hreq _ _ Hj))
      as (r & t' & Hh).
    rewrite Hh. simpl. eexists _, _. split; [done|]. simpl. eapply handle_inv; eauto.
  - exists n', s', resps, out. by rewrite Hr.
Qed.

Lemma session_survives_witness :
  let from_str (l : bytes) : result Request string :=
    if decide (l = [x67]) then Ok GetStatus else Err "expected value"%string in
  let to_string (_ : Response) : result bytes string := Ok [x72] in
  exists n' s' resps out,
    serve_connection (daemon_handle ref_ring (fun _ => 0)) from_str to_string rec_write rec_flush
      (S (length [x67; x0a; x7b])) [x67; x0a; x7b] Eof (0%nat, wit_state) [] =
      ConnReturns (Ok tt) (n', s') out /\
    state_inv gcm s' /\ length resps = length (lines [x67; x0a; x7b]) /\
    Forall2 (fun r l => exists t, to_string r = Ok t /\ l = t ++ [newline]) resps (lines out).
Proof.
  intros from_str to_string.
  apply (session_survives ref_ring gcm _ _ (fun _ => 0) from_str to_string).
  - intros line req. unfold from_str. case_decide; [by intros [= <-]|done].
  - intros r. exists [x72]. split; [done|]. set_solver.
  - exact wit_state_inv.
  - vm_compute. repeat constructor; eexists; reflexivity.
Defined.

(** * Properties of the request handlers *)

(** C3: from start-up on, over any sequence of requests, the provider, the
    recorded algorithm and the key agree, the key is well formed, the
    counters fit 64 bits, and the next request is answered without a
    panic. *)
Theorem reachable_consistent (lib : RingCrate) (ae : Aead)
    (Hlib : RingCrateLaws lib ae) (Hae : AeadLaws ae) (s : CryptodState) :
  reachable lib s ->
  state_inv ae s /\
  forall now req, request_ok req -> exists r s', handle lib now s req = Returns (r, s').
Proof.
  intros Hs. pose proof (reachable_inv_lemma lib ae s Hs) as Hinv. split; [done|].
  intros now req. by apply handle_returns with (ae := ae), inv_safe.
Qed.

Lemma reachable_consistent_witness :
  state_inv gcm wit_keyed /\
  forall now req, request_ok req -> exists r s', handle ref_ring now wit_keyed req = Returns (r, s').
Proof.
  apply (reachable_consistent ref_ring gcm _ _ wit_keyed).
  apply (reach_handle ref_ring wit_state 0 (RotateKey wit_rotate) ROk wit_keyed).
  - apply (reach_new ref_ring 0). reflexivity.
  - split; [le_closed|split; le_closed].
  - change (handle_rotate ref_ring wit_rotate wit_state = Returns (ROk, wit_keyed)).
    rewrite (handle_rotate_run ref_ring gcm). reflexivity.
Defined.

(** C11: [RotateKey] on every branch: an unknown algorithm byte is refused with
    422, O'z DSt 1105 with 501, material of the wrong length with 422, each
    leaving the state alone; any other key passes the self-test and is
    installed together with its algorithm and a fresh ring provider, the
    counters unchanged. *)
Theorem rotate_key_spec (lib : RingCrate) (ae : Aead)
    (Hlib : RingCrateLaws lib ae) (Hae : AeadLaws ae) (now : Z) (p : RotateKeyParams)
    (s : CryptodState) :
  handle lib now s (RotateKey p) =
  Returns
    match from_u8 (rk_algo p) with
    | None => (Error 422 ("unknown algo: 0x" +:+ fmt_02x (rk_algo p)), s)
    | Some OzDst1105 => (Error 501 "O'z DSt 1105 provider not yet implemented", s)
    | Some a =>
        if decide (zlen (rk_material p) = key_len a) then
          (ROk, mkCryptodState (started_at s) (ring_provider lib (mkRing a)) a
                  (Some (mkKeyHandle (rk_key_id p) a (rk_material p)))
                  (st_packets_sealed s) (st_packets_opened s) (st_crypto_errors s))
        else
          (Error 422 ("invalid key length (expected " +:+ fmt_dec (key_len a) +:+ ", got " +:+
                      fmt_dec (zlen (rk_material p)) +:+ ")"), s)
    end.
Proof.
  simpl. rewrite (handle_rotate_run lib ae). unfold rotation_spec.
  destruct (from_u8 (rk_algo p)) as [[]|]; [| |done|done]; by case_decide.
Qed.

Lemma rotate_key_spec_witness :
  handle ref_ring 0 wit_state (RotateKey wit_rotate) = Returns (ROk, wit_keyed).
Proof. exact (rotate_key_spec ref_ring gcm _ _ 0 wit_rotate wit_state). Defined.

(** C34: a rotation takes effect at once: after it is acknowledged the status
    names the new key and provider, and the next encryption answers with a
    frame whose header carries the new key id and algorithm. *)
Theorem rotation_takes_effect (lib : RingCrate) (ae : Aead)
    (Hlib : RingCrateLaws lib ae) (Hae : AeadLaws ae) (now now' : Z) (p : RotateKeyParams)
    (e : EncryptParams) (s s1 : CryptodState) :
  state_inv ae s -> u32_ok (rk_key_id p) ->
  handle lib now s (RotateKey p) = Returns (ROk, s1) ->
  zlen (ep_nonce e) = 12 -> zlen (ep_plaintext e) + 40 <= gcm_limit ->
  exists a st f s2,
    from_u8 (rk_algo p) = Some a /\
    handle lib now' s1 GetStatus = Returns (Status st, s1) /\
    active_key_id st = Some (rk_key_id p) /\ active_provider st = provider_name a /\
    handle lib now' s1 (Encrypt e) = Returns (Ciphertext (mkBytes f), s2) /\
    decode f = Returns (Ok (mkFrameHeader VERSION x00 (rk_key_id p) a x0c)).
Proof.
  intros Hs Hid Hrot Hn Hp. simpl in Hrot. rewrite (handle_rotate_run lib ae) in Hrot.
  destruct (rotation_spec p) as [[a k]|resp] eqn:E.
  2: { injection Hrot as -> ->. unfold rotation_spec in E.
       destruct (from_u8 (rk_algo p)) as [[]|]; repeat case_decide; done. }
  injection Hrot as <-.
  assert (Hs1 := rotate_inv lib ae p s a k Hs Hid E).
  apply rotation_spec_Ok in E as (Ha & Hk & Hwf & Hki & Hau & _).
  set (s1 := set_active_key k _) in *.
  eexists a, _, _, _. split; [done|]. split; [reflexivity|]. simpl.
  split; [by rewrite Hki|]. split; [done|].
  unfold handle_encrypt. simpl active_key. cbv iota.
  rewrite (encrypt_with_run ae) by (try done; apply (safe_provider _ _ (inv_safe _ _ Hs1))).
  simpl algorithm. rewrite !decide_False by (congruence || lia).
  split; [reflexivity|]. rewrite decode_run. unfold frame_bytes.
  destruct (ae_seal ae (material k) (ep_nonce e) _ (ep_plaintext e)) as [c t].
  unfold frame_header. rewrite Hki.
  by rewrite (decode_header_bytes (mkFrameHeader VERSION x00 (rk_key_id p) a x0c)).
Qed.

Lemma rotation_takes_effect_witness :
  exists a st f s2,
    from_u8 (rk_algo wit_rotate) = Some a /\
    handle ref_ring 9 wit_keyed GetStatus = Returns (Status st, wit_keyed) /\
    active_key_id st = Some (rk_key_id wit_rotate) /\ active_provider st = provider_name a /\
    handle ref_ring 9 wit_keyed (Encrypt wit_encrypt) = Returns (Ciphertext (mkBytes f), s2) /\
    decode f = Returns (Ok (mkFrameHeader VERSION x00 (rk_key_id wit_rotate) a x0c)).
Proof.
  apply (rotation_takes_effect ref_ring gcm _ _ 0 9 wit_rotate wit_encrypt wit_state wit_keyed
    wit_state_inv).
  - split; le_closed.
  - change (handle_rotate ref_ring wit_rotate wit_state = Returns (ROk, wit_keyed)).
    rewrite (handle_rotate_run ref_ring gcm). reflexivity.
  - reflexivity.
  - le_closed.
Defined.

(** C9: [Encrypt] on every branch: without a key 409, with a nonce of the
    wrong length 422, both leaving the state alone; otherwise the whole ACM
    frame under the active key, and one more packet sealed. *)
Theorem encrypt_spec (lib : RingCrate) (ae : Aead)
    (Hlib : RingCrateLaws lib ae) (Hae : AeadLaws ae) (now : Z) (p : EncryptParams)
    (s : CryptodState) :
  state_inv ae s -> zlen (ep_plaintext p) + 40 <= gcm_limit ->
  handle lib now s (Encrypt p) =
  Returns
    match active_key s with
    | None => (Error 409 "no active key — call rotate_key first", s)
    | Some k =>
        if decide (zlen (ep_nonce p) = 12) then
          (Ciphertext (mkBytes (frame_bytes ae (active_algo s) k (id k) (ep_nonce p) x00
                                  (ep_plaintext p))), count_sealed s)
        else
          (Error 422 ("nonce length mismatch: got " +:+ fmt_dec (zlen (ep_nonce p)) +:+
             ", want 12 for " +:+ AlgoId_debug (active_algo s)), s)
    end.
Proof.
  intros Hs Hp. simpl. unfold handle_encrypt. destruct (active_key s) as [k|] eqn:Hk; [|done].
  destruct (safe_key _ _ (inv_safe _ _ Hs) k Hk) as [Hwf _].
  rewrite (encrypt_with_run ae) by (try done; apply (safe_provider _ _ (inv_safe _ _ Hs))).
  rewrite (inv_algo _ _ Hs), (inv_key _ _ Hs k Hk).
  destruct (decide (zlen (ep_nonce p) = 12)) as [Hn|Hn].
  - by rewrite !decide_False by (congruence || lia).
  - rewrite decide_True by done. unfold nonce_error. by rewrite nonce_len_12.
Qed.

Lemma encrypt_spec_witness :
  handle ref_ring 0 wit_keyed (Encrypt wit_encrypt) =
  Returns (Ciphertext (mkBytes (frame_bytes gcm Aes128Gcm wit_key 7 (replicate 12 x01) x00
                                  [x68; x69])), count_sealed wit_keyed).
Proof.
  exact (encrypt_spec ref_ring gcm _ _ 0 wit_encrypt wit_keyed wit_keyed_inv ltac:(le_closed)).
Defined.

(** C10: [Decrypt] on every branch: without a key 409 and no change; a frame
    that opens gives its plaintext and counts one packet opened; any other
    counts one crypto error and is answered 401 when authentication failed
    and 422 when the frame is malformed. *)
Theorem decrypt_spec (lib : RingCrate) (ae : Aead)
    (Hlib : RingCrateLaws lib ae) (Hae : AeadLaws ae) (now : Z) (p : DecryptParams)
    (s : CryptodState) :
  state_inv ae s -> zlen (dp_frame p) <= gcm_limit ->
  handle lib now s (Decrypt p) =
  Returns
    match active_key s with
    | None => (Error 409 "no active key", s)
    | Some k =>
        match wire_open_spec ae (active_algo s) k (dp_frame p) (zlen (dp_frame p)) with
        | Ok pt => (Plaintext (mkBytes pt), count_opened s)
        | Err (Crypto AuthFailed) =>
            (Error 401 "open failed: crypto: authentication failed", count_error s)
        | Err e => (Error 422 ("open failed: " +:+ WireError_display e), count_error s)
        end
    end.
Proof.
  intros Hs Hp. simpl. unfold handle_decrypt. destruct (active_key s) as [k|] eqn:Hk; [|done].
  destruct (safe_key _ _ (inv_safe _ _ Hs) k Hk) as [Hwf _].
  rewrite (decrypt_with_run ae) by (try done; apply (safe_provider _ _ (inv_safe _ _ Hs))).
  rewrite (inv_algo _ _ Hs).
  by destruct (wire_open_spec _ _ _ _ _) as [|[| | | | | | |[]]].
Qed.

Lemma decrypt_spec_witness :
  handle ref_ring 0 wit_keyed (Decrypt (mkDecryptParams [x58; x58])) =
  Returns (Error 422 "open failed: frame too short (2 bytes, need at least 12 for header)",
           count_error wit_keyed).
Proof.
  exact (decrypt_spec ref_ring gcm _ _ 0 (mkDecryptParams [x58; x58]) wit_keyed wit_keyed_inv
    ltac:(le_closed)).
Defined.

(** C8: what one daemon encrypts another decrypts: a frame answered by a
    daemon that holds a key is decrypted, by any daemon that holds the same
    key material and algorithm (under whatever key id), to the plaintext. *)
Theorem encrypt_decrypt_roundtrip (lib : RingCrate) (ae : Aead)
    (Hlib : RingCrateLaws lib ae) (Hae : AeadLaws ae) (now now' : Z) (p : EncryptParams)
    (s1 s1' s2 : CryptodState) (k1 k2 : KeyHandle) (f : Bytes) :
  state_inv ae s1 -> state_inv ae s2 ->
  active_key s1 = Some k1 -> active_key s2 = Some k2 ->
  material k1 = material k2 -> algo k1 = algo k2 ->
  zlen (ep_plaintext p) + 40 <= gcm_limit ->
  handle lib now s1 (Encrypt p) = Returns (Ciphertext f, s1') ->
  handle lib now' s2 (Decrypt (mkDecryptParams (b_bytes f))) =
    Returns (Plaintext (mkBytes (ep_plaintext p)), count_opened s2).
Proof.
  intros Hs1 Hs2 Hk1 Hk2 Hm Ha Hp. simpl.
  unfold handle_encrypt, handle_decrypt. rewrite Hk1, Hk2.
  destruct (safe_key _ _ (inv_safe _ _ Hs1) k1 Hk1) as [Hwf1 Hid1].
  destruct (safe_key _ _ (inv_safe _ _ Hs2) k2 Hk2) as [Hwf2 _].
  pose proof (safe_provider _ _ (inv_safe _ _ Hs1)) as Hp1.
  pose proof (safe_provider _ _ (inv_safe _ _ Hs2)) as Hp2.
  rewrite (encrypt_with_run ae) by done.
  destruct (decide (zlen (ep_nonce p) <> 12)) as [|Hn%dec_stable]; [done|].
  assert (Halg : algorithm (provider s1) = algorithm (provider s2)).
  { rewrite (inv_algo _ _ Hs1), (inv_algo _ _ Hs2).
    by rewrite <-(inv_key _ _ Hs1 k1 Hk1), <-(inv_key _ _ Hs2 k2 Hk2). }
  assert (Hka : algo k1 = algorithm (provider s1))
    by (rewrite (inv_algo _ _ Hs1); by apply (inv_key _ _ Hs1)).
  rewrite decide_False by congruence. intros [= <- <-]. simpl.
  set (fr := frame_bytes _ _ _ _ _ _ _).
  assert (Hgk : gcm_key (material k1)) by eauto using key_wf_gcm, pc_algorithm.
  assert (Hsealed : exists c t, fr = frame_header (algorithm (provider s1)) (id k1) x00 ++
            ep_nonce p ++ c ++ t /\ zlen c = zlen (ep_plaintext p) /\ zlen t = 16 /\
            ae_seal ae (material k1) (ep_nonce p)
              (frame_header (algorithm (provider s1)) (id k1) x00) (ep_plaintext p) = (c, t)).
  { subst fr. unfold frame_bytes.
    destruct (ae_seal ae (material k1) (ep_nonce p) _ (ep_plaintext p)) as [c t] eqn:Es.
    destruct (ae_seal_lengths _ _ _ _ _ _ Hgk Hn Es). eauto 6. }
  destruct Hsealed as (c & t & Efr & Hc & Ht & Es). clearbody fr.
  destruct (frame_parts_app (frame_header (algorithm (provider s1)) (id k1) x00) (ep_nonce p) c t
              eq_refl Hn Ht) as (Eh & En & Ec & Et & El).
  rewrite <-Efr in Eh, En, Ec, Et, El.
  rewrite (decrypt_with_run ae) by (done || simpl; lia). simpl.
  assert (wire_open_spec ae (algorithm (provider s2)) k2 fr (zlen fr) = Ok (ep_plaintext p)) as ->;
    [|done].
  apply open_spec_Ok_iff; [done..|]. unfold sealed_with. rewrite Eh, En, Ec, Et, <-Hm.
  pose proof (zlen_nonneg c). split_and!; [|lia|lia|congruence|done].
  eexists. split; [rewrite Efr; by apply decode_header_bytes|done].
Qed.

Lemma encrypt_decrypt_roundtrip_witness :
  handle ref_ring 5 wit_keyed
    (Decrypt (mkDecryptParams (frame_bytes gcm Aes128Gcm wit_key 7 (replicate 12 x01) x00 [x68; x69]))) =
  Returns (Plaintext (mkBytes [x68; x69]), count_opened wit_keyed).
Proof.
  refine (encrypt_decrypt_roundtrip ref_ring gcm _ _ 0 5 wit_encrypt wit_keyed
    (count_sealed wit_keyed) wit_keyed wit_key wit_key
    (mkBytes (frame_bytes gcm Aes128Gcm wit_key 7 (replicate 12 x01) x00 [x68; x69]))
    wit_keyed_inv wit_keyed_inv eq_refl eq_refl eq_refl eq_refl ltac:(le_closed) _).
  change (encrypt_with wit_key wit_encrypt wit_keyed =
    Returns (Ciphertext (mkBytes (frame_bytes gcm Aes128Gcm wit_key 7 (replicate 12 x01) x00
      [x68; x69])), count_sealed wit_keyed)).
  rewrite (encrypt_with_run gcm); [reflexivity| |reflexivity|le_closed].
  exact (safe_provider _ _ (inv_safe _ _ wit_keyed_inv)).
Defined.

(** C14: the protocol is typed: with a clock that is less than 2^64 seconds
    past the start, every request is answered with a response of its own
    kind or one of its own error codes, a frame is 40 bytes longer than the
    plaintext and a plaintext 40 bytes shorter than the frame, and every
    number of a status fits the width of its field. *)
Theorem replies_typed (lib : RingCrate) (ae : Aead)
    (Hlib : RingCrateLaws lib ae) (Hae : AeadLaws ae) (now : Z) (req : Request)
    (s s' : CryptodState) (r : Response) :
  reachable lib s -> request_ok req -> now - started_at s < 2 ^ 64 * 10 ^ 9 ->
  handle lib now s req = Returns (r, s') -> reply_typed req r.
Proof.
  intros Hs%(reachable_inv_lemma lib ae) Hr Hnow. destruct (inv_safe _ _ Hs) as [Hp Hk ? ? ?].
  destruct req as [|p|p|p|p]; simpl handle.
  - intros [= <- <-]. simpl. split_and!; try done.
    + unfold u64_ok, elapsed_secs. split; [apply Z.div_pos; lia|].
      apply Z.div_lt_upper_bound; lia.
    + intros i. destruct (active_key s) as [k|]; [|done]. intros [= <-]. by apply Hk.
  - by intros [= <- <-].
  - rewrite (handle_rotate_run lib ae). unfold rotation_spec.
    destruct (from_u8 (rk_algo p)) as [[]|]; repeat case_decide; intros [= <- <-]; simpl; auto.
  - unfold handle_encrypt. destruct (active_key s); [eapply encrypt_with_typed; [done|apply Hr]|].
    intros [= <- <-]. simpl. auto.
  - unfold handle_decrypt. destruct (active_key s); [by eapply decrypt_with_typed|].
    intros [= <- <-]. simpl. auto.
Qed.

Lemma replies_typed_witness :
  reply_typed GetStatus (Status (status_of Aes256Gcm None 7 wit_state)).
Proof.
  apply (replies_typed ref_ring gcm _ _ 7 GetStatus wit_state wit_state).
  - apply (reach_new ref_ring 0). reflexivity.
  - exact I.
  - reflexivity.
  - reflexivity.
Defined.

(** C35: a request that is answered with an error changes neither the provider
    nor the algorithm nor the key: a failed rotation leaves the current key in
    force, and only the error counter may move. *)
Theorem error_keeps_key (lib : RingCrate) (ae : Aead)
    (Hlib : RingCrateLaws lib ae) (Hae : AeadLaws ae) (now : Z) (req : Request)
    (s s' : CryptodState) (code : Z) (msg : string) :
  state_inv ae s -> request_ok req -> handle lib now s req = Returns (Error code msg, s') ->
  s' = s \/ s' = count_error s.
Proof.
  intros Hs Hr. pose proof (safe_provider _ _ (inv_safe _ _ Hs)) as Hp.
  destruct req as [|p|p|p|p]; simpl in *.
  - done.
  - done.
  - rewrite (handle_rotate_run lib ae). destruct (rotation_spec p) as [[a k]|]; [done|].
    intros [= _ <-]. by left.
  - unfold handle_encrypt. destruct (active_key s) as [k|]; [|intros [= _ _ <-]; by left].
    unfold encrypt_with. case_match; [intros [= _ _ <-]; by left|].
    destruct (seal _ _ _ _ _ _ _) as [[[n|e] out]|]; [done| |done]. intros [= _ _ <-]. by right.
  - unfold handle_decrypt. destruct (active_key s) as [k|]; [|intros [= _ _ <-]; by left].
    unfold decrypt_with. destruct (open _ _ _ _) as [[[n|e] out]|]; [done| |done].
    intros [= _ _ <-]. by right.
Qed.

Lemma error_keeps_key_witness :
  wit_keyed = wit_keyed \/ wit_keyed = count_error wit_keyed.
Proof.
  apply (error_keeps_key ref_ring gcm _ _ 0 (RotateKey (mkRotateKeyParams 8 xff [])) wit_keyed
    wit_keyed 422 "unknown algo: 0xff" wit_keyed_inv).
  - split; [le_closed|split; le_closed].
  - change (handle_rotate ref_ring (mkRotateKeyParams 8 xff []) wit_keyed =
      Returns (Error 422 "unknown algo: 0xff", wit_keyed)).
    rewrite (handle_rotate_run ref_ring gcm). reflexivity.
Defined.

(** C32: the counters count: over any run of requests, each answered,
    [packets_sealed] and [packets_opened] grow by the number of ciphertexts
    and plaintexts answered, and [crypto_errors] by the number of failed
    seals and opens, modulo 2^64. *)
Theorem counters_exact (lib : RingCrate) (ae : Aead)
    (Hlib : RingCrateLaws lib ae) (Hae : AeadLaws ae) (reqs : list (Z * Request))
    (s : CryptodState) :
  state_inv ae s -> Forall (fun q => request_ok (snd q)) reqs ->
  exists rs s', run lib s reqs = Returns (rs, s') /\ length rs = length reqs /\
    st_packets_sealed s' = wrap64 (st_packets_sealed s + count is_ciphertext rs) /\
    st_packets_opened s' = wrap64 (st_packets_opened s + count is_plaintext rs) /\
    st_crypto_errors s' = wrap64 (st_crypto_errors s +
      count (fun q => is_crypto_failure (snd (fst q)) (snd q)) (combine reqs rs)).
Proof.
  intros Hs Hr. destruct (run_returns lib ae reqs s Hs Hr) as (rs & s' & ? & _ & ? & ? & ? & ?).
  exists rs, s'. auto.
Qed.

Lemma counters_exact_witness :
  exists rs s', run ref_ring wit_keyed [(1, Encrypt wit_encrypt); (2, GetStatus)] = Returns (rs, s') /\
    length rs = 2%nat /\
    st_packets_sealed s' = wrap64 (0 + count is_ciphertext rs) /\
    st_packets_opened s' = wrap64 (0 + count is_plaintext rs) /\
    st_crypto_errors s' = wrap64 (0 +
      count (fun q => is_crypto_failure (snd (fst q)) (snd q))
        (combine [(1, Encrypt wit_encrypt); (2, GetStatus)] rs)).
Proof.
  apply (counters_exact ref_ring gcm _ _ [(1, Encrypt wit_encrypt); (2, GetStatus)] wit_keyed
    wit_keyed_inv).
  repeat constructor; le_closed.
Defined.

(** C40: the additional data of an [Encrypt] request is not authenticated:
    whatever [aad] it brings, the tag of the frame it is answered verifies
    with the 12 header bytes as the only additional data, and the request with
    any other [aad] is answered the same frame. *)
Theorem encrypt_ignores_aad (lib : RingCrate) (ae : Aead)
    (Hlib : RingCrateLaws lib ae) (Hae : AeadLaws ae) (now : Z) (s s' : CryptodState)
    (nonce aad plaintext : bytes) (k : KeyHandle) (f : Bytes) :
  state_inv ae s -> active_key s = Some k -> zlen plaintext + 40 <= gcm_limit ->
  handle lib now s (Encrypt (mkEncryptParams nonce aad plaintext)) =
    Returns (Ciphertext f, s') ->
  ae_open ae (material k) nonce (ztake HEADER_LEN (b_bytes f))
    (f_ct (b_bytes f)) (f_tag (b_bytes f)) = Some plaintext /\
  forall aad', handle lib now s (Encrypt (mkEncryptParams nonce aad' plaintext)) =
    Returns (Ciphertext f, s').
Proof.
  intros Hs Hk Hp. simpl. unfold handle_encrypt. rewrite Hk.
  destruct (safe_key _ _ (inv_safe _ _ Hs) k Hk) as [Hwf _].
  pose proof (safe_provider _ _ (inv_safe _ _ Hs)) as Hq.
  intros Henc. split; [|done]. revert Henc.
  rewrite (encrypt_with_run ae) by done. simpl.
  destruct (decide (zlen nonce <> 12)) as [|Hn%dec_stable]; [done|].
  destruct (decide (algo k <> _)) as [|Ha%dec_stable]; [done|]. intros [= <- _]. simpl.
  assert (Hgk : gcm_key (material k)) by eauto using key_wf_gcm, pc_algorithm.
  unfold frame_bytes.
  destruct (ae_seal ae (material k) nonce _ plaintext) as [c t] eqn:Es.
  destruct (ae_seal_lengths _ _ _ _ _ _ Hgk Hn Es) as [Hc Ht].
  destruct (frame_parts_app (frame_header (algorithm (provider s)) (id k) x00) nonce c t
              eq_refl Hn Ht) as (Eh & _ & Ec & Et & _).
  rewrite Ec, Et. unfold f_header in Eh. change HEADER_LEN with 12. rewrite Eh.
  by eapply ae_open_seal.
Qed.

Lemma encrypt_ignores_aad_witness :
  let f := frame_bytes gcm Aes128Gcm wit_key 7 (replicate 12 x01) x00 [x68; x69] in
  ae_open gcm (replicate 16 x42) (replicate 12 x01) (ztake HEADER_LEN f) (f_ct f) (f_tag f) =
    Some [x68; x69] /\
  forall aad', handle ref_ring 0 wit_keyed (Encrypt (mkEncryptParams (replicate 12 x01) aad' [x68; x69])) =
    Returns (Ciphertext (mkBytes f), count_sealed wit_keyed).
Proof.
  intros f.
  apply (encrypt_ignores_aad ref_ring gcm _ _ 0 wit_keyed (count_sealed wit_keyed)
           (replicate 12 x01) [x61] [x68; x69] wit_key (mkBytes f) wit_keyed_inv eq_refl).
  - le_closed.
  - change (encrypt_with wit_key wit_encrypt wit_keyed =
      Returns (Ciphertext (mkBytes f), count_sealed wit_keyed)).
    rewrite (encrypt_with_run gcm); [reflexivity| |reflexivity|le_closed].
    exact (safe_provider _ _ (inv_safe _ _ wit_keyed_inv)).
Defined.
