(* ===== verification/ConcProps.v ===== *)
(** Properties of acm-cryptod when connections are served concurrently. *)

From Stdlib Require Import Strings.String.
From S2P Require Import Prelude Crypto Aead AesGcmRing AesGcmRef Wire Ipc Cryptod.
From S2P Require Import Concurrent ConcLogic ConcDaemon ConcCells CryptodProps.

(** The keys in force at the start or brought by a rotation. *)
Definition installed (s : CryptodState) (conns : list (list Request)) (k : KeyHandle) : Prop :=
  active_key s = Some k \/
  exists p a, RotateKey p ∈ concat conns /\ rotation_spec p = Ok (a, k).

Definition gcm_algo (a : AlgoId) : Prop := a = Aes128Gcm \/ a = Aes256Gcm.

Definition asked (t : task) : list Request := fst <$> answers t.

(** Concrete inputs of the witnesses: a status request overtakes an
    encryption that waits for the key. *)
Definition wit_conns : list (list Request) :=
  [[Encrypt wit_encrypt]; [GetStatus; SetPolicy (mkPolicyBlob [])]].
Definition wit_sched : list (nat * Z) :=
  [(0%nat, 1); (1%nat, 2); (1%nat, 3); (1%nat, 4); (0%nat, 5); (1%nat, 6); (0%nat, 7); (0%nat, 8);
   (1%nat, 9)].

(** The same, to the end. *)
Definition wit_full : list (nat * Z) :=
  wit_sched ++ replicate 5 (0%nat, 10) ++ replicate 9 (1%nat, 11).

(** An encryption reads the key, a rotation
    to another key of the algorithm commits, and only then the encryption seals. *)
Definition wit_roll : RotateKeyParams := mkRotateKeyParams 9 x01 (replicate 16 x43).
Definition wit_roll_conns : list (list Request) :=
  [[Encrypt wit_encrypt; GetStatus]; [RotateKey wit_roll]].
Definition wit_roll_first : list (nat * Z) :=
  replicate 4 (0%nat, 1) ++ replicate 11 (1%nat, 2).
Definition wit_roll_then : list (nat * Z) := replicate 17 (0%nat, 3).

(** A rotation to a key of the other algorithm commits while an encryption is
    between its two reads. *)
Definition wit_switch_conns : list (list Request) :=
  [[Encrypt wit_encrypt; GetStatus]; [RotateKey (mkRotateKeyParams 8 x02 (zeros 32))]].

Definition run_to (sched : list (nat * Z)) (conns : list (list Request)) (s : CryptodState) : config :=
  match run_schedule ref_ring sched (start s conns) with
  | Some c => c
  | None => start s []
  end.

(** * Lemmas *)

Definition run_on (sched : list (nat * Z)) (c : config) : config :=
  match run_schedule ref_ring sched c with
  | Some c' => c'
  | None => c
  end.

Lemma run_to_Some sched conns s :
  (if run_schedule ref_ring sched (start s conns) is Some _ then true else false) = true ->
  run_schedule ref_ring sched (start s conns) = Some (run_to sched conns s).
Proof. unfold run_to. by destruct (run_schedule _ _ _). Qed.

Lemma run_on_Some sched c :
  (if run_schedule ref_ring sched c is Some _ then true else false) = true ->
  run_schedule ref_ring sched c = Some (run_on sched c).
Proof. unfold run_on. by destruct (run_schedule _ _ _). Qed.

Lemma wit_full_run :
  run_schedule ref_ring wit_full (start wit_keyed wit_conns) = Some (run_to wit_full wit_conns wit_keyed).
Proof. apply run_to_Some. vm_compute. reflexivity. Qed.

Lemma wit_conns_ok : Forall (Forall request_ok) wit_conns.
Proof. repeat constructor; le_closed. Qed.

Lemma idle_asked c : Forall idle (tasks c) -> asked <$> tasks c = script <$> tasks c.
Proof.
  intros Hidle. apply Forall_fmap_ext. eapply Forall_impl; [exact Hidle|]. intros t [Ht Hc].
  unfold asked, script. by rewrite Ht, Hc, app_nil_r.
Qed.

Section Start.
Context (lib : RingCrate) (ae : Aead) `{!RingCrateLaws lib ae, !AeadLaws ae}.
Context (s : CryptodState) (conns : list (list Request)).
Context (Hs : state_inv ae s) (Hreq : Forall (Forall request_ok) conns).

Lemma conns_allowed A :
  (forall p a k, RotateKey p ∈ concat conns -> rotation_spec p = Ok (a, k) -> A a) ->
  Forall (Forall (allowed A (installed s conns))) conns.
Proof.
  intros HA. rewrite Forall_forall. intros reqs Hin. rewrite Forall_forall. intros req Hr.
  assert (Hc : req ∈ concat conns) by (rewrite list_elem_of_In, in_concat; exists reqs; by rewrite <-!list_elem_of_In).
  split.
  - rewrite Forall_forall in Hreq. specialize (Hreq _ Hin).
    rewrite Forall_forall in Hreq. by apply Hreq.
  - destruct req as [|p|p|p|p]; try done. intros a k E.
    split; [by eapply HA|]. right. eauto.
Qed.

Lemma start_good (A : AlgoId -> Prop) :
  A (active_algo s) ->
  good (any_provider ae A) A (any_active A (installed s conns) (active_key s = None)) s.
Proof.
  intros HA. destruct Hs as [Hsafe Ha Hk]. apply good_state; try done.
  - by rewrite Ha.
  - intros k E. split; [by rewrite (Hk k E)|by left].
Qed.

Lemma start_algo : gcm_algo (active_algo s).
Proof.
  rewrite <-(inv_algo _ _ Hs). apply (@pc_algorithm ae), Hs.
Qed.

Lemma rotation_gcm p a k : rotation_spec p = Ok (a, k) -> gcm_algo a.
Proof. intros E. by destruct (rotation_spec_Ok _ _ _ E). Qed.

Lemma started_gcm sched c :
  run_schedule lib sched (start s conns) = Some c ->
  exists gts,
    Inv (any_provider ae gcm_algo) gcm_algo
      (any_active gcm_algo (installed s conns) (active_key s = None))
      (allowed gcm_algo (installed s conns))
      (answer_ok ae gcm_algo (installed s conns) (active_key s = None))
      (fun cn => read_counter cn s) gts c /\
    zlen sched + total task_left gts <= Z.of_nat request_steps * zlen (concat conns).
Proof.
  intros Hrun. apply (started lib ae) with (s := s); try done.
  - apply Hs.
  - by apply start_good, start_algo.
  - apply conns_allowed. intros p a k _. apply rotation_gcm.
Qed.

(** Connections that are idle were answered what they asked. *)
Lemma asked_all sched c :
  run_schedule lib sched (start s conns) = Some c -> Forall idle (tasks c) ->
  asked <$> tasks c = conns.
Proof.
  intros Hrun Hidle. apply run_script in Hrun. simpl in Hrun.
  rewrite <-list_fmap_compose in Hrun. rewrite idle_asked, Hrun by done.
  clear. induction conns as [|reqs l IH]; simpl; [done|]. by f_equal.
Qed.
End Start.

(** Runs the first step of a schedule. *)
Ltac one_step := eapply run_cons; [unfold step; simpl; reflexivity|].

Lemma rotate_proc_run lib ae `{!RingCrateLaws lib ae, !AeadLaws ae} p a k :
  rotation_spec p = Ok (a, k) ->
  rotate_proc lib p =
  Lock LProvider (SetProvider (ring_provider lib (mkRing a)) (Unlock LProvider
  (Lock LAlgo (SetAlgo a (Unlock LAlgo
  (Lock LKey (SetKey k (Unlock LKey (Done ROk))))))))).
Proof. intros E. unfold rotate_proc. by rewrite (prepare_rotation_run lib ae), E. Qed.

(** * Properties *)

(** C33: the handlers written lock by lock are the handlers of the sequential
    daemon: a task that serves a request with no other task in between passes
    through the mutexes, leaves them free, and gives the answer and the state
    of [handle]. *)
Theorem solo_refines (lib : RingCrate) (ae : Aead)
    (Hlib : RingCrateLaws lib ae) (Hae : AeadLaws ae) (now : Z) (req : Request)
    (r : Response) (s' : CryptodState) (c : config) (i : nat) (rest : list Request)
    (ans : list (Request * Response)) :
  state_safe ae (shared c) -> request_ok req -> aborted c = false ->
  (forall l, owner c l = None) -> tasks c !! i = Some (mkTask (req :: rest) None ans) ->
  handle lib now (shared c) req = Returns (r, s') ->
  exists n own,
    run_schedule lib (replicate n (i, now)) c =
      Some (mkConfig s' own (<[i := mkTask rest None (ans ++ [(req, r)])]> (tasks c)) false) /\
    forall l, own l = None.
Proof.
  intros Hs Hreq Ha Ho Ht Hh. rewrite <-run_alone_handle in Hh.
  set (A := fun _ : AlgoId => True). set (K := fun _ : KeyHandle => True).
  destruct (solo_proc (any_provider ae A) A (any_active A K True) (answer_ok ae A K True) lib
              req now handler_steps (handle_proc lib req) None (fun _ => 0) (shared c) (owner c)
              (<[i := mkTask rest (Some (req, handle_proc lib req)) ans]> (tasks c)) i rest ans r s')
    as (m & own' & Hm & Hfree); try done.
  - apply handle_checked; [done..|]. split; [done|]. by destruct req.
  - by apply good_state.
  - intros []; apply Hs.
  - apply list_lookup_insert_eq. by eapply lookup_lt_Some.
  - exists (1 + (m + 1))%nat, own'. split; [|done]. rewrite replicate_add. simpl.
    unfold step at 1. rewrite Ha, Ht. simpl. rewrite replicate_add, run_app, Hm. simpl.
    unfold step. simpl. rewrite list_lookup_insert_eq; simpl.
    + by rewrite !list_insert_insert_eq.
    + rewrite length_insert. by eapply lookup_lt_Some.
Qed.

Lemma solo_refines_witness :
  exists n own,
    run_schedule ref_ring (replicate n (0%nat, 5)) (start wit_state wit_conns) =
      Some (mkConfig wit_state own
              (<[0%nat := mkTask [] None
                   [(Encrypt wit_encrypt,
                     Error 409 "no active key — call rotate_key first")]]>
                 (tasks (start wit_state wit_conns))) false) /\
    forall l, own l = None.
Proof.
  apply (solo_refines ref_ring gcm _ _ 5
           (Encrypt wit_encrypt) _ wit_state
           (start wit_state wit_conns) 0 [] []); try done.
  - exact (inv_safe _ _ wit_state_inv).
Defined.

(** C5: no interleaving breaks the daemon: whatever requests the connections
    send and however their tasks are scheduled, no task panics, the provider
    stays one of the supported algorithms, the key well formed and the
    counters 64-bit numbers, and every access to the provider, the algorithm
    or the key is made by the task that owns its mutex. *)
Theorem interleaving_safe (lib : RingCrate) (ae : Aead)
    (Hlib : RingCrateLaws lib ae) (Hae : AeadLaws ae) (s : CryptodState)
    (conns : list (list Request)) (sched : list (nat * Z)) (c : config) :
  state_inv ae s -> Forall (Forall request_ok) conns ->
  run_schedule lib sched (start s conns) = Some c ->
  aborted c = false /\ state_safe ae (shared c) /\
  forall i t req p l, tasks c !! i = Some t -> current t = Some (req, p) ->
    touches p = Some l -> owner c l = Some i.
Proof.
  intros Hs Hreq Hrun.
  destruct (started_gcm lib ae s conns Hs Hreq sched c Hrun) as (gts & HI & _).
  split_and!; [by eapply inv_alive|by eapply invariant_safe|].
  intros i t req p l. by eapply invariant_exclusive.
Qed.

Lemma interleaving_safe_witness :
  let c := run_to wit_sched wit_conns wit_state in
  aborted c = false /\ state_safe gcm (shared c) /\
  forall i t req p l, tasks c !! i = Some t -> current t = Some (req, p) ->
    touches p = Some l -> owner c l = Some i.
Proof.
  apply (interleaving_safe ref_ring gcm _ _ wit_state wit_conns wit_sched).
  - exact wit_state_inv.
  - exact wit_conns_ok.
  - reflexivity.
Defined.

(** C7: every request is answered: an execution takes at most twelve steps
    for each request; when no task can move, every connection has been
    answered all its requests, in the order it sent them, so that no set of
    tasks deadlocks; and from wherever the daemon is, some schedule gets
    there. *)
Theorem always_answered (lib : RingCrate) (ae : Aead)
    (Hlib : RingCrateLaws lib ae) (Hae : AeadLaws ae) (s : CryptodState)
    (conns : list (list Request)) (sched : list (nat * Z)) (c : config) :
  state_inv ae s -> Forall (Forall request_ok) conns ->
  run_schedule lib sched (start s conns) = Some c ->
  zlen sched <= 12 * zlen (concat conns) /\
  (stuck lib c -> Forall idle (tasks c) /\ asked <$> tasks c = conns) /\
  exists sched' c', run_schedule lib sched' c = Some c' /\ Forall idle (tasks c') /\
    asked <$> tasks c' = conns.
Proof.
  intros Hs Hreq Hrun.
  destruct (started_gcm lib ae s conns Hs Hreq sched c Hrun) as (gts & HI & Hl).
  pose proof (left_nonneg gts). change (Z.of_nat request_steps) with 12 in Hl.
  split_and!; [lia| |].
  + intros Hst. assert (Hidle : Forall idle (tasks c)) by (by eapply stuck_idle).
    split; [done|]. by eapply asked_all.
  + destruct (run_to_idle _ _ _ _ _ lib (handle_checked lib ae _ _ _) _ _ _ HI)
      as (sched' & c' & Hr & Hidle).
    exists sched', c'. split_and!; [done..|]. eapply asked_all; [|done].
    rewrite run_app, Hrun. simpl. exact Hr.
Qed.

Lemma always_answered_witness :
  let c := run_to wit_sched wit_conns wit_state in
  zlen wit_sched <= 12 * zlen (concat wit_conns) /\
  (stuck ref_ring c -> Forall idle (tasks c) /\ asked <$> tasks c = wit_conns) /\
  exists sched' c', run_schedule ref_ring sched' c = Some c' /\ Forall idle (tasks c') /\
    asked <$> tasks c' = wit_conns.
Proof.
  apply (always_answered ref_ring gcm _ _ wit_state wit_conns wit_sched).
  - exact wit_state_inv.
  - exact wit_conns_ok.
  - reflexivity.
Defined.

(** C12: the answers are right in every interleaving: there is a log of the
    reads and writes of the provider's algorithm, the recorded algorithm and
    the key, only ever extended, in which every read gives what was written
    last, and from which every answer follows.  A rotation that succeeds
    writes its algorithm to the provider, then to the record, then its key,
    and one that fails writes nothing; a status reports the algorithm and the
    key it read; an encryption or decryption is answered 409 when it read no
    key, and otherwise with the result of the key it read under the provider
    it read after it.  The accesses of a request lie between its arrival and
    its answer. *)
Theorem concurrent_answers (lib : RingCrate) (ae : Aead)
    (Hlib : RingCrateLaws lib ae) (Hae : AeadLaws ae) (s : CryptodState)
    (conns : list (list Request)) (sched1 sched2 : list (nat * Z)) (c1 c2 : config) :
  state_safe ae s -> Forall (Forall request_ok) conns ->
  run_schedule lib sched1 (start s conns) = Some c1 ->
  run_schedule lib sched2 c1 = Some c2 ->
  exists log ext, accounts ae s log c1 /\ accounts ae s (log ++ ext) c2.
Proof.
  intros Hs Hreq Hr1 Hr2.
  pose proof (cells_start ae s conns Hs Hreq) as HI.
  destruct (cells_run lib ae _ _ _ _ _ HI Hr1) as [log HI1]. simpl in HI1.
  destruct (cells_run lib ae _ _ _ _ _ HI1 Hr2) as [ext HI2].
  exists log, ext. split; by apply CellInv_accounts.
Qed.

Lemma concurrent_answers_witness :
  let c1 := run_on wit_roll_first (start wit_keyed wit_switch_conns) in
  let c2 := run_on wit_roll_then c1 in
  answers <$> tasks c2 =
    [[(Encrypt wit_encrypt,
       Error 500 "seal failed: crypto: algorithm mismatch (provider is Aes256Gcm, key is Aes128Gcm)");
      (GetStatus, Status (mkStatusReport "0.1.0" true 0 "ring/aes-256-gcm" (Some 8) 0 0 1))];
     [(RotateKey (mkRotateKeyParams 8 x02 (zeros 32)), ROk)]] /\
  exists log ext, accounts gcm wit_keyed log c1 /\ accounts gcm wit_keyed (log ++ ext) c2.
Proof.
  intros c1 c2. split; [vm_compute; reflexivity|].
  apply (concurrent_answers ref_ring gcm _ _ wit_keyed wit_switch_conns wit_roll_first
           wit_roll_then).
  - exact (inv_safe _ _ wit_keyed_inv).
  - repeat constructor; le_closed.
  - apply run_on_Some. vm_compute. reflexivity.
  - apply run_on_Some. vm_compute. reflexivity.
Defined.

(** C31: the counters are exact under concurrency: once the connections are
    idle, [packets_sealed], [packets_opened] and [crypto_errors] have grown
    by the numbers of ciphertexts, plaintexts and crypto failures answered on
    all of them, modulo 2^64, however the tasks were interleaved. *)
Theorem concurrent_counters (lib : RingCrate) (ae : Aead)
    (Hlib : RingCrateLaws lib ae) (Hae : AeadLaws ae) (s : CryptodState)
    (conns : list (list Request)) (sched : list (nat * Z)) (c : config) :
  state_inv ae s -> Forall (Forall request_ok) conns ->
  run_schedule lib sched (start s conns) = Some c -> Forall idle (tasks c) ->
  let given := concat (answers <$> tasks c) in
  st_packets_sealed (shared c) =
    wrap64 (st_packets_sealed s + count (fun q => is_ciphertext (snd q)) given) /\
  st_packets_opened (shared c) =
    wrap64 (st_packets_opened s + count (fun q => is_plaintext (snd q)) given) /\
  st_crypto_errors (shared c) =
    wrap64 (st_crypto_errors s + count (fun q => is_crypto_failure (fst q) (snd q)) given).
Proof.
  intros Hs Hreq Hrun Hidle given.
  destruct (started_gcm lib ae s conns Hs Hreq sched c Hrun) as (gts & HI & _).
  pose proof (fun cn => invariant_counters _ _ _ _ _ _ _ cn HI Hidle) as Hc.
  pose proof (Hc CSealed) as H1. pose proof (Hc COpened) as H2. pose proof (Hc CErrors) as H3.
  simpl in H1, H2, H3. rewrite H1, H2, H3.
  split_and!; do 2 f_equal; by apply answered_count.
Qed.

Lemma concurrent_counters_witness :
  let c := run_to wit_full wit_conns wit_keyed in
  let given := concat (answers <$> tasks c) in
  st_packets_sealed (shared c) = wrap64 (0 + count (fun q => is_ciphertext (snd q)) given) /\
  st_packets_opened (shared c) = wrap64 (0 + count (fun q => is_plaintext (snd q)) given) /\
  st_crypto_errors (shared c) =
    wrap64 (0 + count (fun q => is_crypto_failure (fst q) (snd q)) given).
Proof.
  apply (concurrent_counters ref_ring gcm _ _ wit_keyed wit_conns wit_full).
  - exact wit_keyed_inv.
  - exact wit_conns_ok.
  - exact wit_full_run.
  - vm_compute. repeat constructor.
Defined.

(** C13: rolling a key does not disturb the traffic: while the connections
    rotate only to keys of the algorithm in force, provider, algorithm and
    key agree at every moment of every interleaving, and every encryption
    with a 12-byte nonce is answered, once there is a key, with a frame of that
    algorithm under one of the keys installed. *)
Theorem rekey_transparent (lib : RingCrate) (ae : Aead)
    (Hlib : RingCrateLaws lib ae) (Hae : AeadLaws ae) (s : CryptodState)
    (conns : list (list Request)) (sched : list (nat * Z)) (c : config) :
  state_inv ae s -> Forall (Forall request_ok) conns ->
  (forall p a k, RotateKey p ∈ concat conns -> rotation_spec p = Ok (a, k) -> a = active_algo s) ->
  run_schedule lib sched (start s conns) = Some c ->
  state_inv ae (shared c) /\
  forall i t e r, tasks c !! i = Some t -> (Encrypt e, r) ∈ answers t ->
    active_key s <> None -> zlen (ep_nonce e) = 12 -> zlen (ep_plaintext e) + 40 <= gcm_limit ->
    exists k, installed s conns k /\
      r = Ciphertext (mkBytes (frame_bytes ae (active_algo s) k (id k) (ep_nonce e) x00
                                 (ep_plaintext e))).
Proof.
  intros Hs Hreq Hrot Hrun.
  destruct (started lib ae (fun a => a = active_algo s) (installed s conns) (active_key s = None)
              s conns sched c) as (gts & HI & _).
  - apply Hs.
  - by apply start_good.
  - by apply conns_allowed.
  - done.
  - split.
    + destruct (inv_good _ _ _ _ _ _ _ _ HI) as [[_ Hp] Ha Hk].
      split; [by eapply invariant_safe|congruence|]. intros k E. rewrite E in Hk.
      destruct Hk as (_ & _ & -> & _). done.
    + intros i t e r Ht Hin Hkey Hn Hsz.
      pose proof (invariant_answers _ _ _ _ _ _ _ _ _ HI Ht) as Hans.
      rewrite Forall_forall in Hans. specialize (Hans _ Hin Hsz). simpl in Hans.
      destruct Hans as [[? _]|(a & k & -> & (_ & _ & Hak & HK) & ->)]; [done|].
      exists k. split; [done|]. unfold encrypt_result. by rewrite !decide_False by (intros Hne; by apply Hne).
Qed.

Lemma rekey_transparent_witness :
  let c := run_to (wit_roll_first ++ wit_roll_then) wit_roll_conns wit_keyed in
  answers <$> tasks c !! 1%nat = Some [(RotateKey wit_roll, ROk)] /\
  state_inv gcm (shared c) /\
  forall i t e r, tasks c !! i = Some t -> (Encrypt e, r) ∈ answers t ->
    active_key wit_keyed <> None -> zlen (ep_nonce e) = 12 ->
    zlen (ep_plaintext e) + 40 <= gcm_limit ->
    exists k, installed wit_keyed wit_roll_conns k /\
      r = Ciphertext (mkBytes (frame_bytes gcm (active_algo wit_keyed) k (id k) (ep_nonce e) x00
                                 (ep_plaintext e))).
Proof.
  intros c. split; [vm_compute; reflexivity|].
  apply (rekey_transparent ref_ring gcm _ _ wit_keyed wit_roll_conns
           (wit_roll_first ++ wit_roll_then)).
  - exact wit_keyed_inv.
  - repeat constructor; le_closed.
  - intros p a k Hin. rewrite list_elem_of_In in Hin. simpl in Hin.
    destruct Hin as [|[|[[= <-]|[]]]]; [discriminate|discriminate|]. by intros [= <- _].
  - apply run_to_Some. vm_compute. reflexivity.
Defined.

(** C36: the commit of a rotation is three critical sections, not one: when
    two connections rotate to different algorithms, one schedule has both
    acknowledged and leaves the provider of one with the algorithm and the
    key of the other; from then on every encryption with a 12-byte nonce is
    answered 500 and nothing decrypts, until the next rotation. *)
Theorem rotation_race (lib : RingCrate) (ae : Aead)
    (Hlib : RingCrateLaws lib ae) (Hae : AeadLaws ae) (s : CryptodState)
    (p1 p2 : RotateKeyParams) (a1 a2 : AlgoId) (k1 k2 : KeyHandle) :
  rotation_spec p1 = Ok (a1, k1) -> rotation_spec p2 = Ok (a2, k2) -> a1 <> a2 ->
  exists sched c,
    run_schedule lib sched (start s [[RotateKey p1]; [RotateKey p2]]) = Some c /\
    tasks c = [mkTask [] None [(RotateKey p1, ROk)]; mkTask [] None [(RotateKey p2, ROk)]] /\
    algorithm (provider (shared c)) = a2 /\ active_algo (shared c) = a1 /\
    active_key (shared c) = Some k1 /\
    (forall now e, zlen (ep_nonce e) = 12 -> zlen (ep_plaintext e) + 40 <= gcm_limit ->
       exists msg s', handle lib now (shared c) (Encrypt e) = Returns (Error 500 msg, s')) /\
    (forall now d, zlen (dp_frame d) <= gcm_limit ->
       exists code msg s', handle lib now (shared c) (Decrypt d) = Returns (Error code msg, s')).
Proof.
  intros E1 E2 Hne.
  destruct (rotation_spec_Ok _ _ _ E1) as (_ & Hk1 & Hwf1 & _).
  destruct (rotation_spec_Ok _ _ _ E2) as (Ha2 & _).
  exists (replicate 4 (0%nat, 0) ++ replicate 11 (1%nat, 0) ++ replicate 7 (0%nat, 0)).
  eexists. split.
  { pose proof (rotate_proc_run lib ae p1 a1 k1 E1) as P1.
    pose proof (rotate_proc_run lib ae p2 a2 k2 E2) as P2.
    cbn [replicate app]. one_step. rewrite P1. do 3 one_step. one_step. rewrite P2.
    do 17 one_step. reflexivity. }
  simpl. split_and!; try done.
  - intros now e Hn Hsz. unfold handle_encrypt. simpl.
    rewrite (encrypt_with_run ae) by (done || by apply (ring_contract lib ae (mkRing a2) Ha2)). simpl.
    rewrite decide_False by lia. rewrite decide_True by congruence. eauto.
  - intros now d Hsz. unfold handle_decrypt. simpl.
    rewrite (decrypt_with_run ae) by (done || by apply (ring_contract lib ae (mkRing a2) Ha2)). simpl.
    destruct (wire_open_spec _ _ _ _ _) as [pt|e] eqn:Eo; [|eauto].
    pose proof (ring_contract lib ae (mkRing a2) Ha2) as Hq.
    pose proof (open_spec_Ok_iff ae (ring_provider lib (mkRing a2)) k1 (dp_frame d)
                  (zlen (dp_frame d)) pt Hwf1) as Hiff.
    apply Hiff in Eo as (_ & _ & Hk & _). simpl in Hk. congruence.
Qed.

Lemma rotation_race_witness :
  exists sched c,
    run_schedule ref_ring sched
      (start wit_keyed [[RotateKey wit_rotate]; [RotateKey (mkRotateKeyParams 8 x02 (zeros 32))]]) =
      Some c /\
    tasks c = [mkTask [] None [(RotateKey wit_rotate, ROk)];
               mkTask [] None [(RotateKey (mkRotateKeyParams 8 x02 (zeros 32)), ROk)]] /\
    algorithm (provider (shared c)) = Aes256Gcm /\ active_algo (shared c) = Aes128Gcm /\
    active_key (shared c) = Some wit_key /\
    (forall now e, zlen (ep_nonce e) = 12 -> zlen (ep_plaintext e) + 40 <= gcm_limit ->
       exists msg s', handle ref_ring now (shared c) (Encrypt e) = Returns (Error 500 msg, s')) /\
    (forall now d, zlen (dp_frame d) <= gcm_limit ->
       exists code msg s',
         handle ref_ring now (shared c) (Decrypt d) = Returns (Error code msg, s')).
Proof.
  apply (rotation_race ref_ring gcm _ _ wit_keyed wit_rotate
           (mkRotateKeyParams 8 x02 (zeros 32)) Aes128Gcm Aes256Gcm wit_key
           (mkKeyHandle 8 Aes256Gcm (zeros 32))); done.
Defined.
