(* ===== verification/LinProps.v ===== *)
(** Linearizability of acm-cryptod while connections roll keys. *)

From Stdlib Require Import Strings.String.
From S2P Require Import Prelude Crypto Aead AesGcmRing AesGcmRef Wire Ipc Cryptod.
From S2P Require Import Concurrent ConcLogic ConcDaemon ConcLin CryptodProps ConcProps.

(** C4: the daemon is linearizable while connections roll keys of the
    algorithm in force: at every moment of every interleaving there is one
    order of requests, which keeps the order of each connection and is only
    ever extended, such that the sequential daemon handles them in that order
    with the answers that the connections were given (a status up to its
    clock and counters) and the key that is now active.  The order has every
    request answered so far, and besides at most the one each connection is
    at; in particular a request that begins after another was answered takes
    effect after it. *)
Theorem linearizable (lib : RingCrate) (ae : Aead)
    (Hlib : RingCrateLaws lib ae) (Hae : AeadLaws ae) (s : CryptodState)
    (conns : list (list Request)) (sched1 sched2 : list (nat * Z)) (c1 c2 : config) :
  state_inv ae s -> Forall (Forall (linable (active_algo s))) conns ->
  run_schedule lib sched1 (start s conns) = Some c1 ->
  run_schedule lib sched2 c1 = Some c2 ->
  exists log ext, explains lib s log c1 /\ explains lib s (log ++ ext) c2.
Proof.
  intros Hs Hl Hr1 Hr2.
  pose proof (lin_start lib ae (active_algo s) s conns Hs eq_refl Hl) as HI.
  destruct (lin_run _ _ _ _ _ _ _ _ HI Hr1) as [log HI1]. simpl in HI1.
  destruct (lin_run _ _ _ _ _ _ _ _ HI1 Hr2) as [ext HI2].
  exists log, ext. split; by eapply LinInv_explains.
Qed.

Lemma linearizable_witness :
  let c1 := run_on wit_roll_first (start wit_keyed wit_roll_conns) in
  let c2 := run_on wit_roll_then c1 in
  Forall idle (tasks c2) /\
  exists log ext, explains ref_ring wit_keyed log c1 /\ explains ref_ring wit_keyed (log ++ ext) c2.
Proof.
  intros c1 c2. split; [vm_compute; repeat constructor|].
  apply (linearizable ref_ring gcm _ _ wit_keyed wit_roll_conns wit_roll_first wit_roll_then).
  - exact wit_keyed_inv.
  - repeat constructor; try le_closed. intros a' k [= <- _]. reflexivity.
  - apply run_on_Some. vm_compute. reflexivity.
  - apply run_on_Some. vm_compute. reflexivity.
Defined.
