(* ===== verification/StartProps.v ===== *)
(** Properties of the accept loop and of the daemon from its start. *)

From Stdlib Require Import Strings.String.
From S2P Require Import Prelude Crypto Aead AesGcmSw AesGcmRing AesGcmRef Wire Ipc Cryptod Bench Serve.
From S2P Require Import Concurrent Daemon ConcLogic ConcDaemon CryptodProps ConcProps.

(** * What the accept loop does *)

Section Accepts.
Context {W Stream : Type} (os : Os W Stream).

(** From [w] the listener accepts these streams and then fails. *)
Inductive accepts : W -> list Stream -> W -> string -> Prop :=
| accepts_fail w w' e : accept os w = (Err e, w') -> accepts w [] w' e
| accepts_conn w w1 c l w' e :
    accept os w = (Ok c, w1) -> accepts w1 l w' e -> accepts w (c :: l) w' e.

(** Creating the socket's directory, where the path has one. *)
Definition make_dir (path : string) (w : W) : result unit string * W :=
  if Path_parent path is Some parent then create_dir_all os parent w else (Ok tt, w).

(** The ways [serve] can come to an end, each with the streams served. *)
Inductive serves (path : string) (w : W) : list Stream -> W -> string -> Prop :=
| serves_no_dir w' e :
    make_dir path (snd (remove_file os path w)) = (Err e, w') -> serves path w [] w' e
| serves_no_socket w1 w' e :
    make_dir path (snd (remove_file os path w)) = (Ok tt, w1) ->
    bind os path w1 = (Err e, w') -> serves path w [] w' e
| serves_until w1 w2 l w' e :
    make_dir path (snd (remove_file os path w)) = (Ok tt, w1) ->
    bind os path w1 = (Ok tt, w2) -> accepts w2 l w' e -> serves path w l w' e.

Lemma accept_loop_ends w l w' e fuel spawned :
  accepts w l w' e -> (length l < fuel)%nat ->
  accept_loop os fuel w spawned = ServeReturns (Err e) w' (spawned ++ l).
Proof.
  intros Ha. revert fuel spawned.
  induction Ha as [w w' e E|w w1 c l w' e E _ IH]; intros [|fuel] spawned Hf; simpl in *;
    [lia| |lia|]; rewrite E; [by rewrite app_nil_r|].
  rewrite IH by lia. by rewrite <-app_assoc.
Qed.

Lemma accept_loop_inv fuel w spawned r w' l :
  accept_loop os fuel w spawned = ServeReturns r w' l ->
  exists k e, r = Err e /\ l = spawned ++ k /\ accepts w k w' e.
Proof.
  revert w spawned. induction fuel as [|fuel IH]; intros w spawned; simpl; [done|].
  destruct (accept os w) as [[c|e] w1] eqn:E.
  - intros (k & e & -> & -> & Ha)%IH. exists (c :: k), e. rewrite <-app_assoc.
    split_and!; [done|done|]. by eapply accepts_conn.
  - intros [= <- <- <-]. exists [], e. rewrite app_nil_r. split_and!; [done|done|].
    by constructor.
Qed.

Lemma listen_unfold path w :
  listen os path w =
  match make_dir path (snd (remove_file os path w)) with
  | (Err e, w1) => (Err e, w1)
  | (Ok _, w1) => bind os path w1
  end.
Proof.
  unfold listen, make_dir. destruct (remove_file os path w) as [? w0]. simpl.
  destruct (Path_parent path) as [d|]; [by destruct (create_dir_all os d w0) as [[]?]|done].
Qed.

Lemma serve_unfold fuel path w :
  serve os fuel path w =
  match make_dir path (snd (remove_file os path w)) with
  | (Err e, w1) => ServeReturns (Err e) w1 []
  | (Ok _, w1) =>
      match bind os path w1 with
      | (Err e, w2) => ServeReturns (Err e) w2 []
      | (Ok _, w2) => accept_loop os fuel w2 []
      end
  end.
Proof.
  unfold serve. rewrite listen_unfold.
  destruct (make_dir _ _) as [[]?]; [by destruct (bind os path _) as [[]?]|done].
Qed.

Lemma serves_run path w l w' e fuel :
  serves path w l w' e -> (length l < fuel)%nat ->
  serve os fuel path w = ServeReturns (Err e) w' l.
Proof.
  rewrite serve_unfold. intros [? ? ->| ? ? ? -> -> | ? ? ? ? ? -> -> Ha] Hf; [done|done|].
  by rewrite (accept_loop_ends _ _ _ _ _ _ Ha).
Qed.
(** From [w] the listener accepts these streams and is then in [w']. *)
Inductive takes (w : W) : list Stream -> W -> Prop :=
| takes_none : takes w [] w
| takes_conn l w1 c w2 :
    takes w l w1 -> accept os w1 = (Ok c, w2) -> takes w (l ++ [c]) w2.

Lemma takes_accepts w l w1 k w' e :
  takes w l w1 -> accepts w1 k w' e -> accepts w (l ++ k) w' e.
Proof.
  intros Ht. revert k. induction Ht as [|l w1 c w2 _ IH E]; intros k Hk; [done|].
  rewrite <-app_assoc. apply IH. by eapply accepts_conn.
Qed.

(** What the accept loop has done so far. *)
Definition took (w : W) (l : list Stream) (f : option string) (w' : W) : Prop :=
  match f with
  | None => takes w l w'
  | Some e => accepts w l w' e
  end.

Lemma listen_serves path w w1 l w' e :
  listen os path w = (Ok tt, w1) -> accepts w1 l w' e -> serves path w l w' e.
Proof.
  rewrite listen_unfold. destruct (make_dir _ _) as [[[]|?] w0] eqn:Ed; [|done].
  intros Eb Ha. by eapply serves_until.
Qed.
End Accepts.

(** * The daemon at every moment *)

Section Lifecycle.
Context (lib : RingCrate) (ae : Aead) `{!RingCrateLaws lib ae, !AeadLaws ae}.
Context {W Stream : Type} (os : Os W Stream) (requests : Stream -> list Request).
Context (Hreq : forall stream, Forall request_ok (requests stream)).

(** The tasks attend to the connections that brought [conns]: nothing has
    panicked, the shared state is well formed, and each task has answered the
    first requests of its connection, in order. *)
Definition attends (c : Concurrent.config) (conns : list (list Request)) : Prop :=
  aborted c = false /\ state_safe ae (shared c) /\
  Forall2 (fun t reqs => asked t `prefix_of` reqs) (tasks c) conns.

Abbreviation any_algo := (fun _ : KeyHandle => True).
Abbreviation serving := (Inv (any_provider ae gcm_algo) gcm_algo
  (any_active gcm_algo any_algo True) (allowed gcm_algo any_algo)
  (answer_ok ae gcm_algo any_algo True)).

Lemma request_allowed req : request_ok req -> allowed gcm_algo any_algo req.
Proof.
  intros Hr. split; [done|]. destruct req; try done. intros a k E. split; [|done].
  by eapply rotation_gcm.
Qed.

Lemma serving_attends base gts c conns :
  serving base gts c -> script <$> tasks c = conns -> attends c conns.
Proof.
  intros HI <-. split_and!; [by eapply inv_alive|by eapply invariant_safe|].
  apply Forall2_fmap_r, Forall_Forall2_diag, Forall_forall. intros t _. by eexists.
Qed.

(** Whatever happens, the tasks serve what was accepted. *)
Lemma run_server_serving base w0 events : forall sv streams gts,
  serving base gts (conf sv) -> script <$> tasks (conf sv) = requests <$> streams ->
  took os w0 streams (failed sv) (sv_os sv) ->
  match run_server lib os requests events sv with
  | Running sv' => exists gts' streams', serving base gts' (conf sv') /\
      script <$> tasks (conf sv') = requests <$> streams' /\
      took os w0 streams' (failed sv') (sv_os sv')
  | Exited e w' c => exists gts' streams', serving base gts' c /\
      script <$> tasks c = requests <$> streams' /\ accepts os w0 streams' w' e
  | Impossible => True
  end.
Proof.
  induction events as [|ev events IH]; intros sv streams gts HI Hsc Ht; simpl; [eauto|].
  rewrite (inv_alive _ _ _ _ _ _ _ _ HI).
  assert (Hmove : forall i now,
            match step lib i now (conf sv) with
            | Some c => exists gts', serving base gts' c /\ script <$> tasks c = requests <$> streams
            | None => True
            end).
  { intros i now. destruct (step lib i now (conf sv)) as [c|] eqn:Es; [|done].
    destruct (inv_step _ _ _ _ _ lib (handle_checked lib ae _ _ _) _ _ _ _ _ _ HI Es)
      as (gts' & HI' & _).
    exists gts'. split; [done|]. by rewrite (step_script _ _ _ _ _ Es). }
  destruct ev as [|i now|], (failed sv) as [e|] eqn:Ef; try done.
  - destruct (accept os (sv_os sv)) as [[stream|e] w1] eqn:Ea.
    + apply (IH _ (streams ++ [stream]) (gts ++ [(g_none, mkTask (requests stream) None [])])); simpl.
      * apply inv_arrive; [done|]. eapply Forall_impl; [apply Hreq|apply request_allowed].
      * by rewrite !fmap_app, Hsc.
      * by eapply takes_conn.
    + apply (IH _ streams gts); simpl; [done|done|]. rewrite <-(app_nil_r streams).
      eapply takes_accepts; [exact Ht|by constructor].
  - specialize (Hmove i now). destruct (step lib i now (conf sv)) as [c|]; [|done].
    destruct Hmove as (gts' & ? & ?). by apply (IH _ streams gts').
  - specialize (Hmove i now). destruct (step lib i now (conf sv)) as [c|]; [|done].
    destruct Hmove as (gts' & ? & ?). by apply (IH _ streams gts').
  - destruct events; [|done]. by exists gts, streams.
Qed.

Lemma serving_start s :
  state_inv ae s -> serving (fun cn => read_counter cn s) [] (start s []).
Proof.
  intros Hs. apply (inv_start _ _ _ _ _ s []); [| |done].
  - apply good_state; try done; [apply Hs| | |].
    + apply (@pc_algorithm ae), Hs.
    + by eapply start_algo.
    + intros k E. split; [|done]. rewrite (inv_key _ _ Hs k E). by eapply start_algo.
  - intros []; apply Hs.
Qed.

(** From wherever the tasks are, some moves answer all that was asked. *)
Lemma serving_answers base gts sv streams :
  serving base gts (conf sv) -> script <$> tasks (conf sv) = requests <$> streams ->
  exists moves sv', run_server lib os requests moves sv = Running sv' /\
    asked <$> tasks (conf sv') = requests <$> streams.
Proof.
  intros HI Hsc.
  destruct (run_to_idle _ _ _ _ _ lib (handle_checked lib ae _ _ _) _ _ _ HI)
    as (sched & c' & Hr & Hidle).
  destruct sv as [w c f]. simpl in *. exists ((fun m => Move m.1 m.2) <$> sched), (mkServer w c' f).
  split; [by apply run_server_moves|]. simpl. rewrite <-Hsc, <-(run_script _ _ _ _ Hr).
  by apply idle_asked.
Qed.
End Lifecycle.

(** * Properties *)

(** C15: [serve] on every branch: it never returns without an error; when the
    directory or the socket cannot be made it returns that error and serves
    nobody; otherwise it spawns one task for each connection, in the order
    they are accepted, until accepting fails, and returns that error, with any
    fuel greater than the number of connections.  The directory of an absolute
    path is the path without its last name. *)
Theorem serve_spec {W Stream : Type} (os : Os W Stream) (path : string) (w : W) :
  (forall l w' e, serves os path w l w' e <->
     exists fuel, serve os fuel path w = ServeReturns (Err e) w' l) /\
  (forall l w' e, serves os path w l w' e -> forall fuel, (length l < fuel)%nat ->
     serve os fuel path w = ServeReturns (Err e) w' l) /\
  (forall fuel w' l, serve os fuel path w <> ServeReturns (Ok tt) w' l) /\
  (forall names n w', Forall plain names -> plain n -> path = abs_path (names ++ [n]) ->
     make_dir os path w' =
     create_dir_all os (if names is [] then "/"%string else abs_path names) w').
Proof.
  assert (Hinv : forall fuel r l w', serve os fuel path w = ServeReturns r w' l ->
            exists e, r = Err e /\ serves os path w l w' e).
  { intros fuel r l w'. rewrite serve_unfold.
    destruct (make_dir os path _) as [[[]|e] w1] eqn:Ed.
    - destruct (bind os path w1) as [[[]|e] w2] eqn:Eb.
      + intros (k & e & -> & -> & Ha)%accept_loop_inv. exists e. split; [done|].
        by eapply serves_until.
      + intros [= <- <- <-]. exists e. split; [done|]. by eapply serves_no_socket.
    - intros [= <- <- <-]. exists e. split; [done|]. by apply serves_no_dir. }
  split_and!.
  - intros l w' e. split.
    + intros H. exists (S (length l)). eapply serves_run; [done|lia].
    + by intros (fuel & (? & [= <-] & H)%Hinv).
  - intros l w' e H fuel Hf. by eapply serves_run.
  - by intros fuel w' l (? & ? & _)%Hinv.
  - intros names n w' Hns Hn ->. unfold make_dir. by rewrite Path_parent_abs.
Qed.

(** C6: the daemon from its start to its exit.  [main] without [--bench], when
    the runtime is built, fails with the error of making the socket's
    directory or the socket, or starts to serve with a consistent state
    without a key, the ring provider of AES-256-GCM in force.  From then on,
    however accepted connections and the steps of their tasks interleave:
    there is one task for each connection, in the order they were accepted,
    no task panics, the shared state stays well formed, and each task has
    answered its connection's first requests in order; no set of tasks
    deadlocks, and from every moment before the exit some moves of the tasks
    answer all that the connections accepted so far ask.  [main] returns only
    after accepting failed, with that error, as [serve] does; the connections
    are then cut off with what they have been answered. *)
Theorem daemon_lifecycle (swl : AesGcmCrate) (rl : RingCrate) (ae : Aead)
    (Hr : RingCrateLaws rl ae) (Hae : AeadLaws ae) (clock : nat -> Z) (ARCH : string)
    {W Stream : Type} (os : Os W Stream) (cli : Cli) (w : W) (requests : Stream -> list Request)
    (fuel : nat) :
  bench cli = false -> (forall stream, Forall request_ok (requests stream)) ->
  let run events := main rl os requests swl clock ARCH fuel (Ok tt) cli events w in
  match listen os (ipc_socket cli) w with
  | (Err e, w1) => forall events, run events = StartFailed e w1
  | (Ok _, w1) =>
      (exists s, run [] = Ran (Running (mkServer w1 (start s []) None)) /\
         state_inv ae s /\ active_key s = None /\ active_algo s = Aes256Gcm) /\
      forall events,
        match run events with
        | Ran (Running sv) =>
            exists streams, took os w1 streams (failed sv) (sv_os sv) /\
              attends ae (conf sv) (requests <$> streams) /\
              (stuck rl (conf sv) -> asked <$> tasks (conf sv) = requests <$> streams) /\
              exists moves sv', run (events ++ moves) = Ran (Running sv') /\
                asked <$> tasks (conf sv') = requests <$> streams
        | Ran (Exited e w' c) =>
            exists streams, serves os (ipc_socket cli) w streams w' e /\
              attends ae c (requests <$> streams)
        | Ran Impossible => True
        | Benched _ | StartFailed _ _ => False
        end
  end.
Proof.
  intros Hb Hreq run. subst run. unfold main. rewrite Hb.
  destruct (CryptodState_new rl (clock 0%nat)) as [s|] eqn:En; [|done].
  assert (Hs : state_inv ae s) by (by eapply CryptodState_new_inv).
  destruct (listen os (ipc_socket cli) w) as [[[]|e] w1] eqn:El; [|done]. split.
  { exists s. injection En as <-. by split_and!. }
  intros events.
  pose proof (run_server_serving rl ae os requests Hreq _ w1 events (mkServer w1 (start s []) None)
                [] [] (serving_start ae s Hs) eq_refl (takes_none _ _)) as Hrun.
  destruct (run_server _ _ _ events _) as [sv|e w' c|] eqn:Er; [| |done].
  - destruct Hrun as (gts & streams & HI & Hsc & Ht). exists streams. split_and!; [done|..].
    + by eapply serving_attends.
    + intros Hst. rewrite <-Hsc. apply idle_asked. by eapply stuck_idle.
    + destruct (serving_answers rl ae os requests _ _ sv streams HI Hsc) as (moves & sv' & Hm & Ha).
      exists moves, sv'. by rewrite (run_server_app _ _ _ _ _ _ _ Er), Hm.
  - destruct Hrun as (gts & streams & HI & Hsc & Ha). exists streams. split.
    + by eapply listen_serves.
    + by eapply serving_attends.
Qed.

(** A machine whose calls all work, and whose listener accepts as many
    connections as its state says, numbered downwards. *)
Definition wit_os : Os nat nat := mkOs nat nat
  (fun _ n => (Err "No such file or directory"%string, n))
  (fun _ n => (Ok tt, n)) (fun _ n => (Ok tt, n))
  (fun n => match n with
            | O => (Err "Too many open files"%string, O)
            | S n' => (Ok n', n')
            end).

Definition wit_requests (stream : nat) : list Request :=
  match stream with
  | O => [Encrypt wit_encrypt; GetStatus]
  | _ => [GetStatus; SetPolicy (mkPolicyBlob [])]
  end.

(** The first connection is answered its status, the second one nothing. *)
Definition wit_events : list event :=
  [Accept; Move 0 1; Move 0 1; Accept; Move 1 2] ++ replicate 9 (Move 0 3) ++
  [Accept; Move 0 4; Drop].

Lemma daemon_lifecycle_witness :
  match main ref_ring wit_os wit_requests ref_aes_gcm (fun _ => 0) "aarch64" 0 (Ok tt) Cli_default
          wit_events 2%nat with
  | Ran (Exited e w' c) =>
      (e = "Too many open files"%string /\ length <$> (answers <$> tasks c) = [1; 0]%nat) /\
      exists streams, serves wit_os DEFAULT_SOCKET_PATH 2%nat streams w' e /\
        attends gcm c (wit_requests <$> streams)
  | _ => False
  end.
Proof.
  assert (Hreq : forall stream, Forall request_ok (wit_requests stream)).
  { intros [|n]; repeat constructor; le_closed. }
  pose proof (daemon_lifecycle ref_aes_gcm ref_ring gcm _ _ (fun _ => 0) "aarch64" wit_os Cli_default
                2%nat wit_requests 0 eq_refl Hreq) as H.
  destruct H as [_ H]. specialize (H wit_events).
  assert (Hc : match main ref_ring wit_os wit_requests ref_aes_gcm (fun _ => 0) "aarch64" 0 (Ok tt)
                       Cli_default wit_events 2%nat with
               | Ran (Exited e w' c) =>
                   String.eqb e "Too many open files" &&
                   bool_decide (length <$> (answers <$> tasks c) = [1; 0]%nat)
               | _ => false
               end = true) by (vm_compute; reflexivity).
  destruct (main _ _ _ _ _ _ _ _ _ _ _) as [| |[|e w' c|]]; try discriminate Hc.
  apply andb_true_iff in Hc as [He Hl]. split; [|exact H].
  apply String.eqb_eq in He. apply bool_decide_eq_true in Hl. by split.
Defined.
