(* ===== verification/BenchProps.v ===== *)
(** The benchmark of Bench.v ends, and its trace is the one it should have:
    its loops wait for a clock that advances, no call of a provider in them
    fails, and every rate printed is of the calls made. *)

From Stdlib Require Import Strings.String.
From S2P Require Import Prelude Crypto Aead AesGcmSw AesGcmRing AesGcmRef Cryptod Bench.

(** A monotonic clock that gets past every instant. *)
Record advances (clock : nat -> Z) : Prop := {
  clock_mono i j : (i <= j)%nat -> clock i <= clock j;
  clock_unbounded n T : exists k, (n <= k)%nat /\ T <= clock k;
}.

(** * What the trace should be *)

(** A warm-up: [op] is called until the clock reads [T] or later. *)
Inductive warm_trace (T : Z) (op : bench_op) : list bench_event -> Prop :=
| warm_end t : T <= t -> warm_trace T op [Clock t]
| warm_more t tr :
    t < T -> warm_trace T op tr -> warm_trace T op (Clock t :: Called op :: tr).

(** [n] rounds of 256 calls of [op], until [duration] has passed since
    [start]. *)
Inductive timed_trace (start duration : Z) (op : bench_op) : Z -> list bench_event -> Prop :=
| timed_end t : duration <= Z.max 0 (t - start) -> timed_trace start duration op 0 [Clock t]
| timed_more n t tr :
    Z.max 0 (t - start) < duration -> timed_trace start duration op n tr ->
    timed_trace start duration op (n + 1) (Clock t :: replicate 256 (Called op) ++ tr).

(** A warm-up of 50 ms and a measurement, which gives [rate] calls a second:
    256 for each round, over the time that passed. *)
Definition phase_trace (duration : Z) (op : bench_op) (rate : f64) (tr : list bench_event) : Prop :=
  exists t0 w start n r e,
    warm_trace (t0 + 50 * 10 ^ 6) op w /\ timed_trace start duration op n r /\
    duration <= Z.max 0 (e - start) /\ 0 <= n /\
    rate = f64_div (f64_of (wrap64 (256 * n))) (as_secs_f64 (Z.max 0 (e - start))) /\
    tr = Clock t0 :: w ++ Clock start :: r ++ [Clock e].

(** One block size: [seal] measured, one more [seal], whose ciphertext [ct]
    is the one [open] is measured on, and the row of the rates. *)
Definition size_trace (duration : Z) (p : CryptoProvider) (key : KeyHandle) (nonce : bytes)
    (size : Z) (tr : list bench_event) : Prop :=
  let sealing := SealOp p key nonce [] (zeros size) in
  exists ct tr1 tr2 s o,
    run_op sealing (zeros (size + 16)) = Returns (Ok (size + 16), ct) /\
    phase_trace duration sealing s tr1 /\
    phase_trace duration (OpenOp p key nonce [] ct (size + 16)) o tr2 /\
    tr = tr1 ++ Called sealing :: tr2 ++ [Printed (Row size s (mbps s size) o (mbps o size))].

Definition columns : string :=
  "  block      seal ops/s       seal Mbps      open ops/s       open Mbps".

(** A provider of the algorithm [a] at all block sizes, under the all-zero key
    and nonce. *)
Definition provider_trace (duration : Z) (sizes : list Z) (label : string) (a : AlgoId)
    (p : CryptoProvider) (tr : list bench_event) : Prop :=
  exists trs,
    Forall2 (size_trace duration p (mkKeyHandle 0 a (zeros (key_len a))) (zeros 12)) sizes trs /\
    tr = Printed (Line ("=== " +:+ AlgoId_debug a +:+ "  [" +:+ label +:+ "] ===")) ::
         Printed (Line columns) :: concat trs ++ [Printed (Line "")].

Definition banner (ARCH : string) (duration_s : Z) : list bench_event :=
  (fun s => Printed (Line s)) <$>
  ["acm-cryptod bench  version=0.1.0  target=" +:+ ARCH +:+ "  duration_per_size=" +:+
     fmt_dec duration_s +:+ "s";
   "Compare two software AES-GCM providers on the same hardware:";
   "  rustcrypto = `aes-gcm 0.10` (KAT reference; AArch64 stable Rust";
   "               falls back to bitsliced software AES - expect ~120 Mbps).";
   "  ring       = `ring 0.17` (BoringSSL ASM; uses ARMv8 Crypto Extensions";
   "               on AArch64 stable - expect line-rate AES-GCM).";
   ""]%string.

(** The readings of the clock in a trace. *)
Fixpoint times (tr : list bench_event) : list Z :=
  match tr with
  | [] => []
  | Clock t :: tr' => t :: times tr'
  | _ :: tr' => times tr'
  end.

Lemma times_app tr tr' : times (tr ++ tr') = times tr ++ times tr'.
Proof. induction tr as [|[] tr IH]; simpl; [done|by rewrite IH|done|done]. Qed.

(** * Computations that end *)

Section Loops.
Context (clock : nat -> Z) (Hclock : advances clock).

(** [st'] comes from [st] by the events [tr], whose readings are those of the
    clock. *)
Definition extends (st st' : bench_state) (tr : list bench_event) : Prop :=
  trace st' = trace st ++ tr /\
  exists n, reads st' = (reads st + n)%nat /\ times tr = clock <$> seq (reads st) n.

Lemma extends_nil st : extends st st [].
Proof. split; [by rewrite app_nil_r|]. by exists 0%nat. Qed.

Lemma extends_trans st1 st2 st3 tr tr' :
  extends st1 st2 tr -> extends st2 st3 tr' -> extends st1 st3 (tr ++ tr').
Proof.
  intros (E1 & n & R1 & T1) (E2 & m & R2 & T2). split; [by rewrite E2, E1, app_assoc|].
  exists (n + m)%nat. rewrite R2, R1, times_app, T1, T2, R1, seq_app, fmap_app.
  split; [lia|done].
Qed.

(** The state after a reading, and after an event that is none. *)
Definition read (st : bench_state) : bench_state :=
  mkBench (S (reads st)) (trace st ++ [Clock (clock (reads st))]).
Definition note (e : bench_event) (st : bench_state) : bench_state :=
  mkBench (reads st) (trace st ++ [e]).

Lemma extends_read st : extends st (read st) [Clock (clock (reads st))].
Proof. split; [done|]. exists 1%nat. split; [simpl; lia|done]. Qed.

Lemma extends_note e st : times [e] = [] -> extends st (note e st) [e].
Proof. intros He. split; [done|]. exists 0%nat. split; [simpl; lia|done]. Qed.

(** With enough fuel, always the same answer, and no error; [Q] holds of the
    answer, of the state after it and of the events. *)
Definition ends {A} (m : nat -> B A) (st : bench_state)
    (Q : A -> bench_state -> list bench_event -> Prop) : Prop :=
  exists F a st' tr, (forall fuel, (F <= fuel)%nat -> m fuel st = BReturns (Ok a) st') /\
    extends st st' tr /\ Q a st' tr.

Lemma ends_bind {A C} (m : nat -> B A) (f : nat -> A -> B C) st Q R :
  ends m st Q ->
  (forall a st' tr, Q a st' tr ->
     ends (fun fuel => f fuel a) st' (fun c st'' tr' => R c st'' (tr ++ tr'))) ->
  ends (fun fuel => bbind (m fuel) (f fuel)) st R.
Proof.
  intros (F & a & st1 & tr1 & Hm & He1 & HQ) Hf.
  destruct (Hf a st1 tr1 HQ) as (G & c & st2 & tr2 & Hg & He2 & HR).
  exists (F `max` G)%nat, c, st2, (tr1 ++ tr2). split_and!; [|by eapply extends_trans|done].
  intros fuel Hfuel. unfold bbind. rewrite Hm by lia. apply Hg. lia.
Qed.

Lemma ends_step {A C} (m : B A) (f : nat -> A -> B C) st a st' tr R :
  m st = BReturns (Ok a) st' -> extends st st' tr ->
  ends (fun fuel => f fuel a) st' (fun c st'' tr' => R c st'' (tr ++ tr')) ->
  ends (fun fuel => bbind m (f fuel)) st R.
Proof.
  intros Hm He (G & c & st2 & tr2 & Hg & He2 & HR). exists G, c, st2, (tr ++ tr2).
  split_and!; [|by eapply extends_trans|done].
  intros fuel Hfuel. unfold bbind. rewrite Hm. by apply Hg.
Qed.

Lemma ends_mono {A} (m : nat -> B A) st (Q R : A -> bench_state -> list bench_event -> Prop) :
  ends m st Q -> (forall a st' tr, Q a st' tr -> R a st' tr) -> ends m st R.
Proof. intros (F & a & st' & tr & Hm & He & HQ) H. exists F, a, st', tr. auto. Qed.

Lemma ends_ret {A} (m : B A) st a st' tr (R : A -> bench_state -> list bench_event -> Prop) :
  m st = BReturns (Ok a) st' -> extends st st' tr -> R a st' tr -> ends (fun _ => m) st R.
Proof. intros Hm He HR. exists 0%nat, a, st', tr. by split_and!. Qed.

(** A call that gives the same answer and output on every buffer of its
    length. *)
Definition steady (op : bench_op) (n : Z) (out : bytes) : Prop :=
  forall buf, zlen buf = zlen out -> run_op op buf = Returns (Ok n, out).

Lemma call_steady op n out buf st :
  steady op n out -> zlen buf = zlen out ->
  call op buf st = BReturns (Ok (n, out)) (note (Called op) st).
Proof. intros Hop Hb. unfold call. by rewrite Hop. Qed.

(** ** The loops *)

Lemma warm_up_read fuel T op buf st :
  warm_up clock (S fuel) T op buf st =
  if clock (reads st) <? T
  then bbind (call op buf) (fun '(_, buf') => warm_up clock fuel T op buf') (read st)
  else BReturns (Ok buf) (read st).
Proof. simpl. unfold bbind at 1, Instant_now. by case_match. Qed.

Lemma warm_up_steps T op n out k : forall buf st,
  steady op n out -> zlen buf = zlen out -> T <= clock (k + reads st) ->
  exists buf' st' tr, zlen buf' = zlen out /\ extends st st' tr /\ warm_trace T op tr /\
    forall fuel, (k < fuel)%nat -> warm_up clock fuel T op buf st = BReturns (Ok buf') st'.
Proof.
  induction k as [|k IH]; intros buf st Hop Hb Hk;
    (destruct (Z.lt_ge_cases (clock (reads st)) T) as [Hlt|Hge];
       [simpl in Hk; try lia|
        exists buf, (read st), [Clock (clock (reads st))];
        split_and!; [done|apply extends_read|by constructor|];
        intros [|fuel] Hf; [lia|]; rewrite warm_up_read; by rewrite (proj2 (Z.ltb_ge _ _)) by lia]).
  destruct (IH out (note (Called op) (read st)) Hop eq_refl)
    as (buf' & st' & tr & Hl & He & Hw & Hr).
  { simpl. by rewrite Nat.add_succ_r. }
  exists buf', st', (Clock (clock (reads st)) :: Called op :: tr). split_and!; [done| |by constructor|].
  - apply (extends_trans _ _ _ [_] _ (extends_read st)).
    by apply (extends_trans _ _ _ [_] _ (extends_note (Called op) _ eq_refl)).
  - intros [|fuel] Hf; [lia|]. rewrite warm_up_read, (proj2 (Z.ltb_lt _ _)) by lia.
    unfold bbind. rewrite (call_steady _ _ _ _ _ Hop Hb). apply Hr. lia.
Qed.

Lemma warm_up_ends T op n out buf st :
  steady op n out -> zlen buf = zlen out ->
  ends (fun fuel => warm_up clock fuel T op buf) st
    (fun buf' _ tr => zlen buf' = zlen out /\ warm_trace T op tr).
Proof.
  intros Hop Hb. destruct (clock_unbounded _ Hclock (reads st) T) as (k & Hk & HT).
  destruct (warm_up_steps T op n out (k - reads st) buf st Hop Hb)
    as (buf' & st' & tr & Hl & He & Hw & Hr).
  { by rewrite Nat.sub_add. }
  exists (S (k - reads st)), buf', st', tr. split_and!; [|done..]. intros fuel Hf. by apply Hr.
Qed.

Lemma repeat_steady k op n out buf st :
  steady op n out -> zlen buf = zlen out ->
  exists buf' st', zlen buf' = zlen out /\ extends st st' (replicate k (Called op)) /\
    reads st' = reads st /\ repeat_call k op buf st = BReturns (Ok buf') st'.
Proof.
  intros Hop. revert buf st. induction k as [|k IH]; intros buf st Hb.
  - exists buf, st. split_and!; [done|apply extends_nil|done|done].
  - destruct (IH out (note (Called op) st) eq_refl) as (buf' & st' & Hl & He & Hrd & Hr).
    exists buf', st'. split_and!; [done| |done|].
    + by apply (extends_trans _ _ _ [_] _ (extends_note (Called op) st eq_refl)).
    + simpl. unfold bbind. by rewrite (call_steady _ _ _ _ _ Hop Hb).
Qed.

Lemma timed_read fuel start duration op ops buf st :
  timed clock (S fuel) start duration op ops buf st =
  if Z.max 0 (clock (reads st) - start) <? duration
  then bbind (repeat_call 256 op buf)
         (fun buf' => timed clock fuel start duration op (wrap64 (ops + 256)) buf') (read st)
  else BReturns (Ok (ops, buf)) (read st).
Proof. cbn [timed]. unfold bbind at 1, elapsed, bbind at 1, Instant_now, bret. by case_match. Qed.

Lemma rounds_wrap ops : wrap64 (wrap64 (256 * ops) + 256) = wrap64 (256 * (ops + 1)).
Proof. unfold wrap64. rewrite Zplus_mod_idemp_l. f_equal. lia. Qed.

(** The duration has passed since [start] at the next reading. *)
Definition passed (start duration : Z) (st : bench_state) : Prop :=
  duration <= Z.max 0 (clock (reads st) - start).

Lemma timed_steps start duration op n out k : forall ops buf st,
  steady op n out -> zlen buf = zlen out -> 0 <= duration ->
  start + duration <= clock (k + reads st) ->
  exists i buf' st' tr, 0 <= i /\ zlen buf' = zlen out /\ extends st st' tr /\
    timed_trace start duration op i tr /\ passed start duration st' /\
    forall fuel, (k < fuel)%nat ->
      timed clock fuel start duration op (wrap64 (256 * ops)) buf st =
      BReturns (Ok (wrap64 (256 * (ops + i)), buf')) st'.
Proof.
  induction k as [|k IH]; intros ops buf st Hop Hb Hd Hk;
    (destruct (Z.lt_ge_cases (Z.max 0 (clock (reads st) - start)) duration) as [Hlt|Hge];
       [simpl in Hk; try lia|
        exists 0, buf, (read st), [Clock (clock (reads st))];
        split_and!; [done|done|apply extends_read|by constructor| |];
        [unfold passed; simpl;
         pose proof (clock_mono _ Hclock (reads st) (S (reads st)) ltac:(lia)); lia|];
        intros [|fuel] Hf; [lia|]; rewrite timed_read, Z.add_0_r;
        by rewrite (proj2 (Z.ltb_ge _ _)) by lia]).
  destruct (repeat_steady 256 op n out buf (read st) Hop Hb) as (buf1 & st1 & Hl1 & He1 & Hrd & Hr1).
  destruct (IH (ops + 1) buf1 st1 Hop Hl1 Hd) as (i & buf' & st' & tr & Hi & Hl & He & Ht & Hp & Hr).
  { rewrite Hrd. simpl. by rewrite Nat.add_succ_r. }
  exists (i + 1), buf', st', (Clock (clock (reads st)) :: replicate 256 (Called op) ++ tr).
  split_and!; [lia|done| |by constructor|done|].
  - apply (extends_trans _ _ _ [_] _ (extends_read st)). by eapply extends_trans.
  - intros [|fuel] Hf; [lia|]. rewrite timed_read, (proj2 (Z.ltb_lt _ _)) by lia.
    unfold bbind. rewrite Hr1, rounds_wrap, Hr by lia. do 4 f_equal. lia.
Qed.

Lemma timed_ends start duration op n out buf st :
  steady op n out -> zlen buf = zlen out -> 0 <= duration ->
  ends (fun fuel => timed clock fuel start duration op 0 buf) st
    (fun r st' tr => exists i, 0 <= i /\ fst r = wrap64 (256 * i) /\ zlen (snd r) = zlen out /\
       timed_trace start duration op i tr /\ passed start duration st').
Proof.
  intros Hop Hb Hd. destruct (clock_unbounded _ Hclock (reads st) (start + duration)) as (k & Hk & HT).
  destruct (timed_steps start duration op n out (k - reads st) 0 buf st Hop Hb Hd)
    as (i & buf' & st' & tr & Hi & Hl & He & Ht & Hp & Hr).
  { by rewrite Nat.sub_add. }
  exists (S (k - reads st)), (wrap64 (256 * (0 + i)), buf'), st', tr. split_and!; [|done|].
  - intros fuel Hf. apply (Hr fuel). lia.
  - exists i. by split_and!.
Qed.

(** ** One block size *)

(** The readings and the prints of the benchmark, step by step. *)
Lemma ends_now {C} (f : nat -> Z -> B C) st R :
  ends (fun fuel => f fuel (clock (reads st))) (read st)
    (fun c st' tr => R c st' (Clock (clock (reads st)) :: tr)) ->
  ends (fun fuel => bbind (Instant_now clock) (f fuel)) st R.
Proof. intros Hf. eapply (ends_step _ _ _ _ _ [_]); [reflexivity|apply extends_read|exact Hf]. Qed.

Lemma ends_elapsed {C} start (f : nat -> Z -> B C) st R :
  ends (fun fuel => f fuel (Z.max 0 (clock (reads st) - start))) (read st)
    (fun c st' tr => R c st' (Clock (clock (reads st)) :: tr)) ->
  ends (fun fuel => bbind (elapsed clock start) (f fuel)) st R.
Proof. intros Hf. eapply (ends_step _ _ _ _ _ [_]); [reflexivity|apply extends_read|exact Hf]. Qed.

Lemma ends_println {C} s (f : nat -> unit -> B C) st R :
  ends (fun fuel => f fuel tt) (note (Printed (Line s)) st)
    (fun c st' tr => R c st' (Printed (Line s) :: tr)) ->
  ends (fun fuel => bbind (println s) (f fuel)) st R.
Proof. intros Hf. eapply (ends_step _ _ _ _ _ [_]); [reflexivity|by apply extends_note|exact Hf]. Qed.

(** A warm-up and a measurement, followed by [f]. *)
Lemma ends_phase {C} duration op n out buf (f : nat -> Z -> bytes -> Z -> B C) st R :
  steady op n out -> zlen buf = zlen out -> 0 <= duration ->
  (forall ops e buf' st' tr, zlen buf' = zlen out ->
     phase_trace duration op (f64_div (f64_of ops) (as_secs_f64 e)) tr ->
     ends (fun fuel => f fuel ops buf' e) st' (fun c st'' tr' => R c st'' (tr ++ tr'))) ->
  ends (fun fuel =>
    let& t := Instant_now clock in
    let& buf := warm_up clock fuel (t + 50 * 10 ^ 6) op buf in
    let& start := Instant_now clock in
    let& (ops, buf) := timed clock fuel start duration op 0 buf in
    let& e := elapsed clock start in
    f fuel ops buf e) st R.
Proof.
  intros Hop Hb Hd Hf. apply ends_now.
  eapply ends_bind; [by apply (warm_up_ends _ _ n out)|]. intros buf1 st1 w [Hl1 Hw].
  apply ends_now. eapply ends_bind; [by apply (timed_ends _ _ _ n out)|].
  intros [ops buf2] st2 r (i & Hi & Hops & Hl2 & Ht & Hp). simpl in Hops, Hl2.
  apply ends_elapsed. subst ops.
  eapply ends_mono; [apply Hf; [exact Hl2|]|].
  - exists (clock (reads st)), w, (clock (reads st1)), i, r, (clock (reads st2)).
    split_and!; [exact Hw|exact Ht|exact Hp|done|reflexivity|reflexivity].
  - intros c st' tr HR. simpl in HR |- *. revert HR. rewrite <-app_assoc. simpl. by rewrite <-app_assoc.
Qed.
End Loops.

(** ** The calls of the benchmark are steady *)

Section Size.
Context (clock : nat -> Z) (Hclock : advances clock).
Context (ae : Aead) `{!AeadLaws ae}.
Context (p : CryptoProvider) (Hp : ProviderContract ae p).

Lemma bench_calls key nonce size :
  key_wf key -> algo key = algorithm p -> zlen nonce = 12 ->
  0 <= size -> size + 16 <= gcm_limit ->
  exists ct, zlen ct = size + 16 /\
    steady (SealOp p key nonce [] (zeros size)) (size + 16) ct /\
    steady (OpenOp p key nonce [] ct (size + 16)) size (zeros size).
Proof.
  intros Hwf Ha Hn H0 Hs. assert (Hz := zlen_zeros size H0).
  assert (Hgk : gcm_key (material key)) by eauto using key_wf_gcm, pc_algorithm.
  destruct (ae_seal ae (material key) nonce [] (zeros size)) as [c t] eqn:Es.
  destruct (ae_seal_lengths _ _ _ _ _ _ Hgk Hn Es) as [Hc Ht]. exists (c ++ t).
  assert (Hct : zlen (c ++ t) = size + 16) by zlen_solve. split_and!; [done| |].
  - intros buf Hb. simpl. destruct (contract_seal ae p key nonce [] (zeros size) buf)
      as (c' & t' & Es' & _ & _ & ->); [done|done|done|done|le_closed|lia|lia|].
    rewrite Es in Es'. injection Es' as <- <-.
    by rewrite zdrop_all, app_nil_r, Hz by lia.
  - intros buf Hb. simpl. rewrite <-(app_nil_r (c ++ t)), slice_to_app by lia. cbn [obind].
    destruct (contract_open ae p key nonce [] c t buf) as (o & -> & Hl);
      [done|done|done|done|done|le_closed|lia|lia|].
    revert Hl. rewrite (ae_open_seal ae _ _ _ _ _ _ Hgk Hn Es). simpl. intros ->.
    by rewrite zdrop_all, app_nil_r, Hz by lia.
Qed.

Lemma bench_size_ends alg duration key nonce size st :
  key_wf key -> algo key = algorithm p -> zlen nonce = 12 ->
  0 <= duration -> 0 <= size -> size + 16 <= gcm_limit -> algorithm p = alg ->
  ends clock (fun fuel => bench_size clock fuel alg duration p key nonce size) st
    (fun _ _ tr => size_trace duration p key nonce size tr).
Proof.
  intros Hwf Ha Hn Hd H0 Hs Halg.
  destruct (bench_calls key nonce size Hwf Ha Hn H0 Hs) as (ct & Hct & Hseal & Hopen).
  assert (Hz := zlen_zeros size H0). unfold bench_size. cbv zeta. rewrite tag_len_16.
  assert (usize_add size 16 = size + 16) as -> by
    (apply usize_add_small; unfold gcm_limit in *; lia).
  eapply (ends_phase clock Hclock duration _ (size + 16) ct); [done|rewrite zlen_zeros; lia|done|].
  intros ops e buf1 st1 tr1 Hl1 Hph1.
  eapply (ends_step _ _ _ _ _ _ [_]);
    [by apply (call_steady _ _ _ _ _ Hseal)|by apply extends_note|]. cbv beta iota.
  eapply (ends_phase clock Hclock duration _ size (zeros size)); [done|done|done|].
  intros ops' e' buf2 st2 tr2 Hl2 Hph2.
  eapply ends_ret; [reflexivity|by apply (extends_note _ (Printed _))|].
  exists ct, tr1, tr2, (f64_div (f64_of ops) (as_secs_f64 e)), (f64_div (f64_of ops') (as_secs_f64 e')).
  split_and!; [|done|done|done]. apply Hseal. rewrite zlen_zeros; lia.
Qed.

Lemma bench_sizes_ends alg duration key nonce sizes st :
  key_wf key -> algo key = algorithm p -> zlen nonce = 12 ->
  0 <= duration -> Forall (fun size => 0 <= size /\ size + 16 <= gcm_limit) sizes ->
  algorithm p = alg ->
  ends clock (fun fuel => bench_sizes clock fuel alg duration p key nonce sizes) st
    (fun _ _ tr => exists trs, Forall2 (size_trace duration p key nonce) sizes trs /\ tr = concat trs).
Proof.
  intros Hwf Ha Hn Hd Hsz Halg. revert st. induction Hsz as [|size sizes [H0 Hs] _ IH]; intros st; simpl.
  - eapply ends_ret; [reflexivity|apply extends_nil|]. by exists [].
  - eapply ends_bind; [by apply bench_size_ends|]. intros ? st1 tr Htr.
    eapply ends_mono; [apply IH|]. intros ? st2 tr' (trs & Hf & ->).
    exists (tr :: trs). by split; [constructor|].
Qed.

Lemma bench_one_ends alg label name duration sizes st :
  algorithm p = alg -> str_trim label = name -> 0 <= duration ->
  Forall (fun size => 0 <= size /\ size + 16 <= gcm_limit) sizes ->
  ends clock (fun fuel => bench_one clock fuel label alg duration sizes p) st
    (fun _ _ tr => provider_trace duration sizes name alg p tr).
Proof.
  intros Ha <- Hd Hsz. unfold bench_one. cbv zeta.
  assert (Hk : zlen (zeros (key_len alg)) = key_len alg)
    by (apply zlen_zeros; pose proof (key_len_range alg); lia).
  rewrite KeyHandle_new_wf, nonce_len_12 by done.
  eapply (ends_step _ _ _ _ _ _ []); [reflexivity|apply extends_nil|].
  apply ends_println. apply ends_println.
  eapply ends_bind; [by apply bench_sizes_ends|]. intros ? st1 tr (trs & Hf & ->).
  eapply ends_ret; [reflexivity|by apply (extends_note _ (Printed _))|]. by exists trs.
Qed.
End Size.

Lemma block_sizes_fit :
  Forall (fun size => 0 <= size /\ size + 16 <= gcm_limit) bench_block_sizes.
Proof. repeat constructor; le_closed. Qed.

(** Both providers of an algorithm. *)
Definition algo_trace (swl : AesGcmCrate) (rl : RingCrate) (duration : Z) (a : AlgoId)
    (tr : list bench_event) : Prop :=
  exists tr1 tr2,
    provider_trace duration [16; 64; 256; 1024; 8192; 16384] "rustcrypto" a
      (sw_provider swl (mkSw a)) tr1 /\
    provider_trace duration [16; 64; 256; 1024; 8192; 16384] "ring" a
      (ring_provider rl (mkRing a)) tr2 /\
    tr = tr1 ++ tr2.

Lemma bench_algo_ends clock (Hclock : advances clock) (swl : AesGcmCrate) (rl : RingCrate) (ae : Aead)
    `{!AesGcmCrateLaws swl ae, !RingCrateLaws rl ae, !AeadLaws ae} a duration st :
  a = Aes128Gcm \/ a = Aes256Gcm -> 0 <= duration ->
  ends clock (fun fuel => bench_algo clock swl rl fuel duration a) st
    (fun _ _ tr => algo_trace swl rl duration a tr).
Proof.
  intros Ha Hd. unfold bench_algo.
  assert (AesGcmSwProvider_new a = Ok (mkSw a)) as -> by (by destruct Ha as [-> | ->]).
  assert (AesGcmRingProvider_new a = Ok (mkRing a)) as -> by (by destruct Ha as [-> | ->]).
  eapply (ends_step _ _ _ _ _ _ []); [reflexivity|apply extends_nil|].
  eapply ends_bind.
  { apply (bench_one_ends clock Hclock ae _ (sw_contract swl ae (mkSw a) Ha) a _ "rustcrypto");
      [done|reflexivity|done|apply block_sizes_fit]. }
  intros ? st1 tr1 H1. eapply (ends_step _ _ _ _ _ _ []); [reflexivity|apply extends_nil|].
  eapply ends_mono.
  { apply (bench_one_ends clock Hclock ae _ (ring_contract rl ae (mkRing a) Ha) a _ "ring");
      [done|reflexivity|done|apply block_sizes_fit]. }
  intros ? st2 tr2 H2. by exists tr1, tr2.
Qed.

(** * Property *)

(** C25: the benchmark ends and reports what it measured: when the clock
    advances, [run_bench] returns [Ok] with enough fuel for its loops, the
    same for any more fuel.  Its trace is the banner and then, for AES-128
    and for AES-256, first the aes-gcm provider and then the ring provider of
    that algorithm, each at the six block sizes in order: [seal] is called
    for a warm-up of 50 ms and then in rounds of 256 until the duration asked
    for has passed, then [open] likewise on a ciphertext [seal] made, and the
    row printed has 256 calls for each round over the time that passed.  The
    times are the readings of the clock, one after the other. *)
Theorem run_bench_ends (clock : nat -> Z) (ARCH : string) (swl : AesGcmCrate) (rl : RingCrate)
    (ae : Aead) (Hsw : AesGcmCrateLaws swl ae) (Hr : RingCrateLaws rl ae) (Hae : AeadLaws ae)
    (Hclock : advances clock) (duration_s : Z) :
  0 <= duration_s ->
  exists F st' tr128 tr256,
    (forall fuel, (F <= fuel)%nat ->
       run_bench clock ARCH swl rl fuel duration_s (mkBench 0 []) = BReturns (Ok tt) st') /\
    trace st' = banner ARCH duration_s ++ tr128 ++ tr256 /\
    algo_trace swl rl (duration_s * 10 ^ 9) Aes128Gcm tr128 /\
    algo_trace swl rl (duration_s * 10 ^ 9) Aes256Gcm tr256 /\
    times (trace st') = clock <$> seq 0 (reads st').
Proof.
  intros Hd.
  assert (He : ends clock (fun fuel => run_bench clock ARCH swl rl fuel duration_s) (mkBench 0 [])
            (fun _ _ tr => exists tr128 tr256, tr = banner ARCH duration_s ++ tr128 ++ tr256 /\
               algo_trace swl rl (duration_s * 10 ^ 9) Aes128Gcm tr128 /\
               algo_trace swl rl (duration_s * 10 ^ 9) Aes256Gcm tr256)).
  { unfold run_bench. cbv zeta. do 7 apply ends_println.
    eapply ends_bind; [apply (bench_algo_ends clock Hclock swl rl ae); [by left|lia]|].
    intros ? st1 tr1 H1.
    eapply ends_mono; [apply (bench_algo_ends clock Hclock swl rl ae); [by right|lia]|].
    intros ? st2 tr2 H2. by exists tr1, tr2. }
  destruct He as (F & [] & st' & tr & Hrun & (E & n & Rn & Tn) & tr1 & tr2 & -> & H1 & H2).
  exists F, st', tr1, tr2. simpl in E, Rn, Tn. rewrite E, Rn. by split_and!.
Qed.

(** A clock that ticks once a second. *)
Lemma run_bench_ends_witness :
  let clock := fun n => Z.of_nat n * 10 ^ 9 in
  exists F st' tr128 tr256,
    (forall fuel, (F <= fuel)%nat ->
       run_bench clock "aarch64" ref_aes_gcm ref_ring fuel 3 (mkBench 0 []) =
       BReturns (Ok tt) st') /\
    trace st' = banner "aarch64" 3 ++ tr128 ++ tr256 /\
    algo_trace ref_aes_gcm ref_ring (3 * 10 ^ 9) Aes128Gcm tr128 /\
    algo_trace ref_aes_gcm ref_ring (3 * 10 ^ 9) Aes256Gcm tr256 /\
    times (trace st') = clock <$> seq 0 (reads st').
Proof.
  apply (run_bench_ends (fun n => Z.of_nat n * 10 ^ 9) "aarch64" ref_aes_gcm ref_ring gcm _ _ _).
  - split.
    + intros i j Hij. lia.
    + intros n T. exists (n + Z.to_nat T)%nat. split; [lia|]. nia.
  - lia.
Defined.
