(* ===== verification/UnitTests.v ===== *)
(** The unit tests of the crates acm-crypto, acm-wire and acm-dpdk
    (the [tests] modules of src/cryptod/crates), as programs: a failed
    assertion and [unwrap] of an error panic.  The two AES-GCM crates and
    [hex::decode] are parameters. *)

From Stdlib Require Import Strings.String.
From S2P Require Import Prelude Crypto Aead AesGcmSw AesGcmRing Wire.

(** acm-dpdk is this constant. *)
Definition PLACEHOLDER : string := "acm-dpdk: placeholder, no FFI yet".

(** * Assertions *)

Definition unwrap {A E} (r : result A E) : outcome A :=
  match r with Ok a => Returns a | Err _ => Panics end.
Definition assert_true (b : bool) : outcome unit := if b then Returns tt else Panics.
Definition assert_eq {A} `{EqDecision A} (x y : A) : outcome unit :=
  assert_true (bool_decide (x = y)).

(** A call on the buffer [out]: its unwrapped value and the buffer after it. *)
Definition unwrapped {E A} (m : M bytes E A) (out : bytes) : outcome (A * bytes) :=
  let! (r, out') := m out in
  let! a := unwrap r in
  Returns (a, out').

(** [for x in l { body(x) }]. *)
Fixpoint for_each {A} (l : list A) (body : A -> outcome unit) : outcome unit :=
  match l with
  | [] => Returns tt
  | x :: l' => let! _ := body x in for_each l' body
  end.

(** [buf[i] ^= m]. *)
Definition xor_at (i : Z) (m : byte) (buf : bytes) : outcome bytes :=
  let! b := index i buf in
  Returns (<[Z.to_nat i := u8_of_Z (Z.lxor (Z_of_u8 b) (Z_of_u8 m))]> buf).

(** [b"..."]. *)
Definition b_str (s : string) : bytes := list_byte_of_string s.

Section Tests.
Context (swl : AesGcmCrate) (rl : RingCrate).
Context (hex_decode : string -> result bytes string).

Definition hex (s : string) : outcome bytes := unwrap (hex_decode s).

(** * acm_dpdk::tests and acm_crypto::tests *)

Definition test_smoke : outcome unit :=
  assert_true (negb (bool_decide (PLACEHOLDER = EmptyString))).

Definition test_algo_id_roundtrip : outcome unit :=
  let! _ := for_each [Aes128Gcm; Aes256Gcm; OzDst1105] (fun algo =>
    assert_eq (from_u8 (algo_as_u8 algo)) (Some algo)) in
  assert_eq (from_u8 xff) None.

Definition test_algo_id_lengths : outcome unit :=
  let! _ := assert_eq (key_len Aes128Gcm) 16 in
  let! _ := assert_eq (key_len Aes256Gcm) 32 in
  let! _ := assert_eq (nonce_len Aes128Gcm) 12 in
  assert_eq (tag_len Aes128Gcm) 16.

Definition test_keyhandle_rejects_wrong_length : outcome unit :=
  let bad := KeyHandle_new 1 Aes256Gcm (zeros 16) in
  assert_true (match bad with Err (InvalidKey 32 16) => true | _ => false end).

Definition test_keyhandle_accepts_correct_length : outcome unit :=
  let ok := KeyHandle_new 1 Aes128Gcm (zeros 16) in
  assert_true (is_ok ok).

Definition test_keyhandle_wipe_zeroes_material (vec_zeroize : bytes -> bytes) : outcome unit :=
  let! k := unwrap (KeyHandle_new 1 Aes128Gcm (replicate 16 xab)) in
  let k := wipe vec_zeroize k in
  assert_true (forallb (fun b => bool_decide (b = x00)) (material k)).

(** * aes_gcm_sw::tests *)

Definition sw (a : AlgoId) : outcome CryptoProvider :=
  let! p := unwrap (AesGcmSwProvider_new a) in Returns (sw_provider swl p).

Definition test_aes128_gcm_mcgrew_viega_test2 : outcome unit :=
  let! key := hex "00000000000000000000000000000000" in
  let! iv := hex "000000000000000000000000" in
  let aad := [] in
  let! pt := hex "00000000000000000000000000000000" in
  let! ct_expected := hex "0388dace60b6a392f328c2b971b2fe78" in
  let! tag_expected := hex "ab6e47d42cec13bdf53a67b21257bddf" in
  let! kh := unwrap (KeyHandle_new 1 Aes128Gcm key) in
  let! prov := sw Aes128Gcm in
  let! (n, out) := unwrapped (p_seal prov kh iv aad pt) (zeros (zlen pt + 16)) in
  let! _ := assert_eq n (zlen pt + 16) in
  let! ct := slice_to (zlen pt) out in
  let! _ := assert_eq ct ct_expected in
  let! tag := slice (zlen pt) n out in
  let! _ := assert_eq tag tag_expected in
  let! body := slice_to n out in
  let! (m, pt_back) := unwrapped (p_open prov kh iv aad body) (zeros (zlen pt)) in
  let! _ := assert_eq m (zlen pt) in
  assert_eq pt_back pt.

Definition test_aes256_gcm_mcgrew_viega_test14 : outcome unit :=
  let! key := hex "0000000000000000000000000000000000000000000000000000000000000000" in
  let! iv := hex "000000000000000000000000" in
  let aad := [] in
  let! pt := hex "00000000000000000000000000000000" in
  let! ct_expected := hex "cea7403d4d606b6e074ec5d3baf39d18" in
  let! tag_expected := hex "d0d1c8a799996bf0265b98b5d48ab919" in
  let! kh := unwrap (KeyHandle_new 7 Aes256Gcm key) in
  let! prov := sw Aes256Gcm in
  let! (n, out) := unwrapped (p_seal prov kh iv aad pt) (zeros (zlen pt + 16)) in
  let! ct := slice_to (zlen pt) out in
  let! _ := assert_eq ct ct_expected in
  let! tag := slice (zlen pt) n out in
  let! _ := assert_eq tag tag_expected in
  let! body := slice_to n out in
  let! (_, pt_back) := unwrapped (p_open prov kh iv aad body) (zeros (zlen pt)) in
  assert_eq pt_back pt.

Definition test_aes128_gcm_mcgrew_viega_test4 : outcome unit :=
  let! key := hex "feffe9928665731c6d6a8f9467308308" in
  let! iv := hex "cafebabefacedbaddecaf888" in
  let! aad := hex "feedfacedeadbeeffeedfacedeadbeefabaddad2" in
  let! pt := hex
    "d9313225f88406e5a55909c5aff5269a86a7a9531534f7da2e4c303d8a318a721c3c0c95956809532fcf0e2449a6b525b16aedf5aa0de657ba637b39" in
  let! ct_expected := hex
    "42831ec2217774244b7221b784d0d49ce3aa212f2c02a4e035c17e2329aca12e21d514b25466931c7d8f6a5aac84aa051ba30b396a0aac973d58e091" in
  let! tag_expected := hex "5bc94fbc3221a5db94fae95ae7121a47" in
  let! kh := unwrap (KeyHandle_new 42 Aes128Gcm key) in
  let! prov := sw Aes128Gcm in
  let! (n, out) := unwrapped (p_seal prov kh iv aad pt) (zeros (zlen pt + 16)) in
  let! ct := slice_to (zlen pt) out in
  let! _ := assert_eq ct ct_expected in
  let! tag := slice (zlen pt) n out in
  let! _ := assert_eq tag tag_expected in
  let! body := slice_to n out in
  let! (_, pt_back) := unwrapped (p_open prov kh iv aad body) (zeros (zlen pt)) in
  assert_eq pt_back pt.

Definition test_roundtrip_various_sizes : outcome unit :=
  let! prov := sw Aes256Gcm in
  let key := replicate 32 x42 in
  let! kh := unwrap (KeyHandle_new 99 Aes256Gcm key) in
  let nonce := replicate 12 xcc in
  let aad := b_str "acm-uz-frame-aad-v1" in
  for_each [0; 1; 15; 16; 17; 64; 1500; 9000] (fun n =>
    let pt := (fun i => u8_of_Z (Z.land i 255)) <$> seqZ 0 n in
    let! (total, sealed) := unwrapped (p_seal prov kh nonce aad pt) (zeros (zlen pt + 16)) in
    let! _ := assert_eq total (zlen pt + 16) in
    let! body := slice_to total sealed in
    let! (m, opened) := unwrapped (p_open prov kh nonce aad body) (zeros (zlen pt)) in
    let! _ := assert_eq m (zlen pt) in
    assert_eq opened pt).

Definition test_open_fails_on_tampered_ciphertext : outcome unit :=
  let! prov := sw Aes128Gcm in
  let! kh := unwrap (KeyHandle_new 1 Aes128Gcm (zeros 16)) in
  let nonce := zeros 12 in
  let pt := b_str "hello acm" in
  let! (n, sealed) := unwrapped (p_seal prov kh nonce [] pt) (zeros (zlen pt + 16)) in
  let! sealed := xor_at 0 x01 sealed in
  let! body := slice_to n sealed in
  let! (r, _) := p_open prov kh nonce [] body (zeros (zlen pt)) in
  assert_true (match r with Err AuthFailed => true | _ => false end).

Definition test_open_fails_on_tampered_aad : outcome unit :=
  let! prov := sw Aes128Gcm in
  let! kh := unwrap (KeyHandle_new 1 Aes128Gcm (zeros 16)) in
  let nonce := zeros 12 in
  let pt := b_str "hello acm" in
  let! (n, sealed) :=
    unwrapped (p_seal prov kh nonce (b_str "orig-aad") pt) (zeros (zlen pt + 16)) in
  let! body := slice_to n sealed in
  let! (r, _) := p_open prov kh nonce (b_str "different-aad") body (zeros (zlen pt)) in
  assert_true (match r with Err AuthFailed => true | _ => false end).

Definition test_algorithm_mismatch_rejected : outcome unit :=
  let! prov := sw Aes128Gcm in
  let! kh := unwrap (KeyHandle_new 1 Aes256Gcm (zeros 32)) in
  let nonce := zeros 12 in
  let! (r, _) := p_seal prov kh nonce [] [] (zeros 16) in
  assert_true (match r with Err (AlgorithmMismatch Aes128Gcm Aes256Gcm) => true | _ => false end).

Definition test_bad_nonce_length_rejected : outcome unit :=
  let! prov := sw Aes128Gcm in
  let! kh := unwrap (KeyHandle_new 1 Aes128Gcm (zeros 16)) in
  let bad_nonce := zeros 8 in
  let! (r, _) := p_seal prov kh bad_nonce [] [] (zeros 16) in
  assert_true (match r with Err (InvalidNonce 12 8) => true | _ => false end).

(** * aes_gcm_ring::tests *)

Definition ring (a : AlgoId) : outcome CryptoProvider :=
  let! p := unwrap (AesGcmRingProvider_new a) in Returns (ring_provider rl p).

Definition test_ring_aes128_gcm_mcgrew_viega_test2 : outcome unit :=
  let! key := hex "00000000000000000000000000000000" in
  let! iv := hex "000000000000000000000000" in
  let! pt := hex "00000000000000000000000000000000" in
  let! ct_expected := hex "0388dace60b6a392f328c2b971b2fe78" in
  let! tag_expected := hex "ab6e47d42cec13bdf53a67b21257bddf" in
  let! kh := unwrap (KeyHandle_new 1 Aes128Gcm key) in
  let! prov := ring Aes128Gcm in
  let! (n, out) := unwrapped (p_seal prov kh iv [] pt) (zeros (zlen pt + 16)) in
  let! ct := slice_to (zlen pt) out in
  let! _ := assert_eq ct ct_expected in
  let! tag := slice (zlen pt) n out in
  let! _ := assert_eq tag tag_expected in
  let! body := slice_to n out in
  let! (m, back) := unwrapped (p_open prov kh iv [] body) (zeros (zlen pt)) in
  let! _ := assert_eq m (zlen pt) in
  assert_eq back pt.

Definition test_ring_aes256_gcm_mcgrew_viega_test14 : outcome unit :=
  let! key := hex "0000000000000000000000000000000000000000000000000000000000000000" in
  let! iv := hex "000000000000000000000000" in
  let! pt := hex "00000000000000000000000000000000" in
  let! ct_expected := hex "cea7403d4d606b6e074ec5d3baf39d18" in
  let! tag_expected := hex "d0d1c8a799996bf0265b98b5d48ab919" in
  let! kh := unwrap (KeyHandle_new 7 Aes256Gcm key) in
  let! prov := ring Aes256Gcm in
  let! (n, out) := unwrapped (p_seal prov kh iv [] pt) (zeros (zlen pt + 16)) in
  let! ct := slice_to (zlen pt) out in
  let! _ := assert_eq ct ct_expected in
  let! tag := slice (zlen pt) n out in
  assert_eq tag tag_expected.

Definition test_ring_matches_rustcrypto_arbitrary : outcome unit :=
  let key := replicate 32 x42 in
  let nonce := replicate 12 x88 in
  let aad := b_str "acm-uz-interop-test" in
  let pt := (fun i => u8_of_Z (Z.land i 255)) <$> seqZ 0 555 in
  let! kh := unwrap (KeyHandle_new 1 Aes256Gcm key) in
  let! sw := sw Aes256Gcm in
  let! ring := ring Aes256Gcm in
  let! (_, sw_ct) := unwrapped (p_seal sw kh nonce aad pt) (zeros (zlen pt + 16)) in
  let! (_, ring_ct) := unwrapped (p_seal ring kh nonce aad pt) (zeros (zlen pt + 16)) in
  let! _ := assert_eq sw_ct ring_ct in
  let! (_, by_ring) := unwrapped (p_open ring kh nonce aad sw_ct) (zeros (zlen pt)) in
  let! _ := assert_eq by_ring pt in
  let! (_, by_sw) := unwrapped (p_open sw kh nonce aad ring_ct) (zeros (zlen pt)) in
  assert_eq by_sw pt.

Definition test_ring_tampered_tag_fails : outcome unit :=
  let! prov := ring Aes128Gcm in
  let! kh := unwrap (KeyHandle_new 1 Aes128Gcm (zeros 16)) in
  let nonce := zeros 12 in
  let pt := b_str "hello acm" in
  let! (n, sealed) := unwrapped (p_seal prov kh nonce [] pt) (zeros (zlen pt + 16)) in
  let! sealed := xor_at (n - 1) x01 sealed in
  let! body := slice_to n sealed in
  let! (r, _) := p_open prov kh nonce [] body (zeros (zlen pt)) in
  assert_true (match r with Err AuthFailed => true | _ => false end).

(** * acm_wire::tests *)

Definition test_header_roundtrip : outcome unit :=
  let h := mkFrameHeader VERSION x80 3735928559 Aes256Gcm x0c in
  let! (_, buf) := unwrapped (encode h) (zeros HEADER_LEN) in
  let! r := decode buf in
  let! d := unwrap r in
  assert_eq d h.

Definition test_header_bad_magic : outcome unit :=
  let buf := <[1%nat := x58]> (<[0%nat := x58]> (zeros HEADER_LEN)) in
  let! r := decode buf in
  assert_true (match r with Err BadMagic => true | _ => false end).

(** [buf[..2].copy_from_slice(&MAGIC)]. *)
Definition with_magic : outcome bytes :=
  let! (_, buf) := unwrapped (@on_slice WireError unit 0 2 (copy_from_slice MAGIC)) (zeros HEADER_LEN) in
  Returns buf.

Definition test_header_bad_version : outcome unit :=
  let! buf := with_magic in
  let buf := <[2%nat := x63]> buf in
  let! r := decode buf in
  assert_true (match r with Err (BadVersion x63) => true | _ => false end).

Definition test_header_unknown_algo : outcome unit :=
  let! buf := with_magic in
  let buf := <[2%nat := VERSION]> buf in
  let buf := <[8%nat := xfe]> buf in
  let! r := decode buf in
  assert_true (match r with Err (UnknownAlgo xfe) => true | _ => false end).

Definition test_seal_open_aes128 : outcome unit :=
  let! prov := sw Aes128Gcm in
  let! kh := unwrap (KeyHandle_new 11 Aes128Gcm (replicate 16 x33)) in
  let nonce := replicate 12 xaa in
  let pt := b_str "hello, ACM-UZ wire format roundtrip!" in
  let room := frame_len (zlen pt) (zlen nonce) (tag_len Aes128Gcm) in
  let! (n, frame) := unwrapped (seal prov kh (id kh) nonce x00 pt) (zeros room) in
  let! _ := assert_eq n (zlen frame) in
  let! magic := slice_to 2 frame in
  let! _ := assert_eq magic MAGIC in
  let! a := index 8 frame in
  let! _ := assert_eq a (algo_as_u8 Aes128Gcm) in
  let! k0 := index 4 frame in
  let! k1 := index 5 frame in
  let! k2 := index 6 frame in
  let! k3 := index 7 frame in
  let! _ := assert_eq (u32_from_be_bytes k0 k1 k2 k3) 11 in
  let! body := slice_to n frame in
  let! (m, pt_back) := unwrapped (open prov kh body) (zeros (zlen pt)) in
  let! _ := assert_eq m (zlen pt) in
  assert_eq pt_back pt.

Definition test_seal_open_aes256_various_sizes : outcome unit :=
  let! prov := sw Aes256Gcm in
  let! kh := unwrap (KeyHandle_new 7 Aes256Gcm (replicate 32 x55)) in
  let nonce := replicate 12 x11 in
  for_each [0; 1; 64; 1500; 9000] (fun size =>
    let pt := (fun i => u8_of_Z (i * 31)) <$> seqZ 0 size in
    let total := frame_len size 12 16 in
    let! (n, frame) := unwrapped (seal prov kh (id kh) nonce x00 pt) (zeros total) in
    let! _ := assert_eq n total in
    let! body := slice_to n frame in
    let! (m, pt_back) := unwrapped (open prov kh body) (zeros size) in
    let! _ := assert_eq m size in
    assert_eq pt_back pt).

Definition test_open_fails_when_header_tampered : outcome unit :=
  let! prov := sw Aes128Gcm in
  let! kh := unwrap (KeyHandle_new 1 Aes128Gcm (zeros 16)) in
  let nonce := zeros 12 in
  let pt := b_str "top secret" in
  let! (_, frame) :=
    unwrapped (seal prov kh (id kh) nonce x00 pt) (zeros (frame_len (zlen pt) 12 16)) in
  let! frame := xor_at 4 xff frame in
  let! (r, _) := open prov kh frame (zeros (zlen pt)) in
  assert_true (match r with Err (Crypto AuthFailed) => true | _ => false end).

Definition test_open_fails_when_ciphertext_tampered : outcome unit :=
  let! prov := sw Aes128Gcm in
  let! kh := unwrap (KeyHandle_new 1 Aes128Gcm (zeros 16)) in
  let nonce := zeros 12 in
  let pt := b_str "do not trust the wire" in
  let! (n, frame) :=
    unwrapped (seal prov kh (id kh) nonce x00 pt) (zeros (frame_len (zlen pt) 12 16)) in
  let! frame := xor_at (HEADER_LEN + 12 + 0) x01 frame in
  let! body := slice_to n frame in
  let! (r, _) := open prov kh body (zeros (zlen pt)) in
  assert_true (match r with Err (Crypto AuthFailed) => true | _ => false end).

Definition test_open_rejects_truncated_frame : outcome unit :=
  let! prov := sw Aes128Gcm in
  let! kh := unwrap (KeyHandle_new 1 Aes128Gcm (zeros 16)) in
  let! (r, _) := open prov kh (zeros 5) (zeros 16) in
  assert_true (match r with Err (Truncated 5) => true | _ => false end).

Definition test_open_rejects_mismatched_provider : outcome unit :=
  let! sealing := sw Aes128Gcm in
  let! opening := sw Aes256Gcm in
  let! kh_seal := unwrap (KeyHandle_new 1 Aes128Gcm (zeros 16)) in
  let! kh_open := unwrap (KeyHandle_new 1 Aes256Gcm (zeros 32)) in
  let nonce := zeros 12 in
  let! (_, frame) := unwrapped (seal sealing kh_seal (id kh_seal) nonce x00 (b_str "hi there"))
                       (zeros (frame_len 8 12 16)) in
  let! (r, _) := open opening kh_open frame (zeros 8) in
  assert_true (match r with Err (Crypto (AlgorithmMismatch _ _)) => true | _ => false end).

(** [hay.windows(n)] for a positive [n]. *)
Definition windows (n : Z) (hay : bytes) : list bytes :=
  (fun i => ztake n (zdrop i hay)) <$> seqZ 0 (zlen hay - n + 1).

Definition contains_subslice (hay needle : bytes) : bool :=
  if (zlen needle =? 0) || (zlen hay <? zlen needle) then false
  else existsb (fun w => bool_decide (w = needle)) (windows (zlen needle) hay).

Definition test_header_inspectable_plaintext_hidden : outcome unit :=
  let! prov := sw Aes256Gcm in
  let! key := hex "00112233445566778899aabbccddeeff00112233445566778899aabbccddeeff" in
  let! kh := unwrap (KeyHandle_new 3405691582 Aes256Gcm key) in
  let! nonce := hex "000102030405060708090a0b" in
  let secret := b_str "ATTACK AT DAWN" in
  let! (_, frame) := unwrapped (seal prov kh (id kh) nonce x00 secret)
                       (zeros (frame_len (zlen secret) 12 16)) in
  let! r := decode frame in
  let! h := unwrap r in
  let! _ := assert_eq (h_key_id h) 3405691582 in
  let! _ := assert_eq (h_algo h) Aes256Gcm in
  let! cipher_blob := slice_from (HEADER_LEN + 12) frame in
  assert_true (negb (contains_subslice cipher_blob secret)).

(** * The suites *)

(** Tests whose outcome the laws of the crates decide. *)
Definition law_tests (vec_zeroize : bytes -> bytes) : list (outcome unit) :=
  [test_smoke; test_algo_id_roundtrip; test_algo_id_lengths;
   test_keyhandle_rejects_wrong_length; test_keyhandle_accepts_correct_length;
   test_keyhandle_wipe_zeroes_material vec_zeroize;
   test_roundtrip_various_sizes; test_algorithm_mismatch_rejected; test_bad_nonce_length_rejected;
   test_ring_matches_rustcrypto_arbitrary; test_ring_tampered_tag_fails;
   test_header_roundtrip; test_header_bad_magic; test_header_bad_version;
   test_header_unknown_algo; test_seal_open_aes128; test_seal_open_aes256_various_sizes;
   test_open_rejects_truncated_frame; test_open_rejects_mismatched_provider].

(** Tests of AES-GCM itself: published vectors, and forgeries that are only
    unlikely to verify. *)
Definition vector_tests : list (outcome unit) :=
  [test_aes128_gcm_mcgrew_viega_test2; test_aes256_gcm_mcgrew_viega_test14;
   test_aes128_gcm_mcgrew_viega_test4; test_open_fails_on_tampered_ciphertext;
   test_open_fails_on_tampered_aad; test_ring_aes128_gcm_mcgrew_viega_test2;
   test_ring_aes256_gcm_mcgrew_viega_test14; test_open_fails_when_header_tampered;
   test_open_fails_when_ciphertext_tampered; test_header_inspectable_plaintext_hidden].
End Tests.
