(* ===== verification/TestProps.v ===== *)
(** The unit tests of UnitTests.v pass: those that the laws of the crates
    decide with every pair of crates that keeps them, the published vectors
    and the forgeries with every pair of crates that implements AES-GCM. *)

From Stdlib Require Import Strings.String Strings.Ascii.
From S2P Require Import Prelude Crypto Aead AesGcmSw AesGcmRing AesGcmRef Wire UnitTests.

(** [hex::decode] on lower-case digits. *)
Definition nibble (c : ascii) : Z :=
  let n := Z.of_N (N_of_ascii c) in if n <? 58 then n - 48 else n - 87.
Fixpoint hex_digits (s : string) : bytes :=
  match s with
  | String a (String b s') => u8_of_Z (16 * nibble a + nibble b) :: hex_digits s'
  | _ => []
  end.
Definition lower_digit (c : ascii) : bool :=
  let n := Z.of_N (N_of_ascii c) in ((48 <=? n) && (n <=? 57)) || ((97 <=? n) && (n <=? 102)).
Fixpoint lower_hex (s : string) : bool :=
  match s with
  | EmptyString => true
  | String a (String b s') => lower_digit a && lower_digit b && lower_hex s'
  | _ => false
  end.
Definition ref_hex (s : string) : result bytes string :=
  if lower_hex s then Ok (hex_digits s) else Err "Invalid character"%string.

(** * Lemmas *)

Lemma for_each_ok {A} (l : list A) body :
  Forall (fun x => body x = Returns tt) l -> for_each l body = Returns tt.
Proof. induction 1 as [|x l Hx _ IH]; simpl; [done|]. by rewrite Hx. Qed.

Lemma assert_eq_refl {A} `{EqDecision A} (x y : A) : x = y -> assert_eq x y = Returns tt.
Proof. intros ->. unfold assert_eq. by rewrite bool_decide_true. Qed.

Lemma zlen_map_seqZ (f : Z -> byte) n : 0 <= n -> zlen (f <$> seqZ 0 n) = n.
Proof. intros. unfold zlen. rewrite length_fmap, length_seqZ. lia. Qed.

Lemma slice_to_all {A} (l : list A) n : n = zlen l -> slice_to n l = Returns l.
Proof. intros ->. rewrite <-(app_nil_r l) at 2. by apply slice_to_app. Qed.

Section Provider.
Context (ae : Aead) `{!AeadLaws ae}.
Context (p : CryptoProvider) (Hp : ProviderContract ae p).

(** Sealing into a buffer of exactly the needed length. *)
Lemma seal_exact key nonce aad pt n :
  key_wf key -> algo key = algorithm p -> zlen nonce = 12 -> zlen aad <= gcm_limit ->
  n = zlen pt -> n + 16 <= gcm_limit ->
  exists c t, ae_seal ae (material key) nonce aad pt = (c, t) /\ zlen c = n /\
    zlen t = 16 /\ unwrapped (p_seal p key nonce aad pt) (zeros (n + 16)) =
      Returns (n + 16, c ++ t).
Proof.
  intros Hwf Ha Hn Haad -> Hpt. pose proof (zlen_nonneg pt).
  destruct (contract_seal ae p key nonce aad pt (zeros (zlen pt + 16)))
    as (c & t & Es & Hc & Ht & E); [try done; rewrite ?zlen_zeros; lia..|].
  exists c, t. unfold unwrapped. rewrite E. simpl.
  by rewrite zdrop_all, app_nil_r by (rewrite zlen_zeros; lia).
Qed.

Lemma open_exact key nonce aad pt c t n :
  key_wf key -> algo key = algorithm p -> zlen nonce = 12 -> zlen aad <= gcm_limit ->
  n = zlen pt -> n + 16 <= gcm_limit -> ae_seal ae (material key) nonce aad pt = (c, t) ->
  unwrapped (p_open p key nonce aad (c ++ t)) (zeros n) = Returns (n, pt).
Proof.
  intros Hwf Ha Hn Haad -> Hpt Es. pose proof (zlen_nonneg pt).
  assert (Hgk : gcm_key (material key)) by eauto using key_wf_gcm, pc_algorithm.
  destruct (ae_seal_lengths _ _ _ _ _ _ Hgk Hn Es) as [Hc Ht].
  destruct (contract_open ae p key nonce aad c t (zeros (zlen pt))) as (o & E & Hl);
    [try done; rewrite ?zlen_zeros; lia..|].
  unfold unwrapped. rewrite E. revert Hl.
  rewrite (ae_open_seal ae _ _ _ _ _ _ Hgk Hn Es). simpl. intros ->.
  by rewrite zdrop_all, app_nil_r by (rewrite zlen_zeros; lia).
Qed.

(** A frame sealed into a buffer of exactly the needed length, and opened. *)
Lemma frame_exact key nonce pt n :
  key_wf key -> algo key = algorithm p -> zlen nonce = 12 -> u32_ok (id key) ->
  n = zlen pt -> n + 40 <= gcm_limit ->
  let f := frame_bytes ae (algorithm p) key (id key) nonce x00 pt in
  unwrapped (seal p key (id key) nonce x00 pt) (zeros (n + 40)) = Returns (n + 40, f) /\
  zlen f = n + 40 /\ unwrapped (open p key f) (zeros n) = Returns (n, pt).
Proof.
  intros Hwf Ha Hn Hid -> Hpt f. pose proof (zlen_nonneg pt).
  assert (Hf : zlen f = zlen pt + 40).
  { unfold f, frame_bytes.
    destruct (ae_seal ae (material key) nonce _ pt) as [c t] eqn:Es.
    assert (Hgk : gcm_key (material key)) by eauto using key_wf_gcm, pc_algorithm.
    destruct (ae_seal_lengths _ _ _ _ _ _ Hgk Hn Es) as [Hc Ht].
    assert (zlen (frame_header (algorithm p) (id key) x00) = 12) by done. zlen_solve. }
  split; [|split; [done|]].
  - unfold unwrapped. rewrite (seal_run ae) by
      (try done; unfold fits, isize_max, gcm_limit in *; lia).
    unfold wire_seal_spec. rewrite !decide_False by (rewrite ?zlen_zeros; lia || congruence).
    simpl. by rewrite zdrop_all, app_nil_r by (rewrite zlen_zeros; lia).
  - unfold unwrapped, f. rewrite (open_sealed_frame ae) by (try done; rewrite ?zlen_zeros; lia).
    simpl. by rewrite zdrop_all, app_nil_r by (rewrite zlen_zeros; lia).
Qed.
End Provider.

Lemma xor_1_neq b : u8_of_Z (Z.lxor (Z_of_u8 b) (Z_of_u8 x01)) <> b.
Proof. destruct b; vm_compute; discriminate. Qed.

(** Passes the steps before the first call of a provider. *)
Ltac run_on := cbn [obind]; rewrite ?KeyHandle_new_wf by done; cbn [obind unwrap]; cbv zeta.

Section Laws.
Context (swl : AesGcmCrate) (rl : RingCrate) (ae : Aead).
Context (Hsw : AesGcmCrateLaws swl ae) (Hr : RingCrateLaws rl ae) (Hae : AeadLaws ae).

Lemma sw_is a :
  a = Aes128Gcm \/ a = Aes256Gcm ->
  exists p, sw swl a = Returns p /\ algorithm p = a /\ ProviderContract ae p.
Proof.
  intros Ha. exists (sw_provider swl (mkSw a)). split; [by destruct Ha as [-> | ->]|].
  split; [done|]. by apply (sw_contract swl ae (mkSw a)).
Qed.

Lemma ring_is a :
  a = Aes128Gcm \/ a = Aes256Gcm ->
  exists p, ring rl a = Returns p /\ algorithm p = a /\ ProviderContract ae p.
Proof.
  intros Ha. exists (ring_provider rl (mkRing a)). split; [by destruct Ha as [-> | ->]|].
  split; [done|]. by apply (ring_contract rl ae (mkRing a)).
Qed.

Lemma wipe_passes vec_zeroize :
  (forall v, Forall (fun b => b = x00) (vec_zeroize v)) ->
  test_keyhandle_wipe_zeroes_material vec_zeroize = Returns tt.
Proof.
  intros Hz. unfold test_keyhandle_wipe_zeroes_material. simpl.
  rewrite (proj2 (forallb_forall _ _)); [done|]. intros b Hb.
  apply bool_decide_eq_true. pose proof (Hz (replicate 16 xab)) as Hf.
  rewrite Forall_forall in Hf. by apply Hf, list_elem_of_In.
Qed.

Lemma roundtrip_passes : test_roundtrip_various_sizes swl = Returns tt.
Proof.
  unfold test_roundtrip_various_sizes.
  destruct (sw_is Aes256Gcm) as (p & -> & Ha & Hp); [auto|]. run_on.
  apply for_each_ok, Forall_forall. intros n Hn.
  assert (0 <= n <= 9000) as Hb by (rewrite !elem_of_cons, elem_of_nil in Hn; lia).
  set (key := mkKeyHandle _ _ _). set (aad := b_str _).
  pose proof (zlen_map_seqZ (fun i => u8_of_Z (Z.land i 255)) n ltac:(lia)) as Hl.
  set (pt := _ <$> seqZ 0 n) in *. clearbody pt. rewrite Hl.
  destruct (seal_exact ae p Hp key (replicate 12 xcc) aad pt n) as (c & t & Es & Hc & Ht & ->);
    [done|done|done|le_closed|done|unfold gcm_limit; lia|].
  cbn [obind]. rewrite assert_eq_refl by done. cbn [obind].
  rewrite slice_to_all by zlen_solve. cbn [obind].
  rewrite (open_exact ae p Hp key _ aad pt c t n);
    [|done|done|done|le_closed|done|unfold gcm_limit; lia|done].
  cbn [obind]. rewrite assert_eq_refl by done. cbn [obind]. by apply assert_eq_refl.
Qed.

Lemma mismatch_passes : test_algorithm_mismatch_rejected swl = Returns tt.
Proof.
  unfold test_algorithm_mismatch_rejected.
  destruct (sw_is Aes128Gcm) as (p & -> & Ha & Hp); [auto|]. run_on.
  rewrite (pc_seal (ae := ae)) by (done || le_closed). unfold seal_spec. by rewrite Ha.
Qed.

Lemma bad_nonce_passes : test_bad_nonce_length_rejected swl = Returns tt.
Proof.
  unfold test_bad_nonce_length_rejected.
  destruct (sw_is Aes128Gcm) as (p & -> & Ha & Hp); [auto|]. run_on.
  rewrite (pc_seal (ae := ae)) by (done || le_closed). unfold seal_spec. by rewrite Ha.
Qed.

Lemma interop_passes : test_ring_matches_rustcrypto_arbitrary swl rl = Returns tt.
Proof.
  unfold test_ring_matches_rustcrypto_arbitrary. cbv zeta.
  assert (Hl := zlen_map_seqZ (fun i => u8_of_Z (Z.land i 255)) 555 ltac:(lia)).
  set (pt := _ <$> seqZ 0 555) in *. clearbody pt. rewrite Hl.
  destruct (sw_is Aes256Gcm) as (p & -> & Ha & Hp); [auto|].
  destruct (ring_is Aes256Gcm) as (q & -> & Hb & Hq); [auto|].
  run_on. set (key := mkKeyHandle _ _ _).
  set (aad := b_str _).
  destruct (seal_exact ae p Hp key (replicate 12 x88) aad pt 555) as (c & t & Es & Hc & Ht & ->);
    [done|done|done|le_closed|done|le_closed|].
  destruct (seal_exact ae q Hq key (replicate 12 x88) aad pt 555) as (c' & t' & Es' & _ & _ & ->);
    [done|done|done|le_closed|done|le_closed|].
  rewrite Es in Es'. injection Es' as <- <-.
  cbn [obind]. rewrite assert_eq_refl by done. cbn [obind].
  rewrite !(open_exact ae) with (pt := pt) by (try done; le_closed). cbn [obind].
  by rewrite assert_eq_refl.
Qed.

Lemma tampered_tag_passes : test_ring_tampered_tag_fails rl = Returns tt.
Proof.
  unfold test_ring_tampered_tag_fails.
  destruct (ring_is Aes128Gcm) as (p & -> & Ha & Hp); [auto|]. run_on.
  set (pt := b_str _). assert (Hl : zlen pt = 9) by done. clearbody pt. rewrite Hl.
  set (key := mkKeyHandle _ _ _).
  destruct (seal_exact ae p Hp key (zeros 12) [] pt 9) as (c & t & Es & Hc & Ht & ->);
    [done|done|done|le_closed|done|le_closed|].
  assert (exists b, t !! 15%nat = Some b) as [b Hb].
  { apply lookup_lt_is_Some. unfold zlen in Ht. lia. }
  assert (Hc9 : length c = 9%nat) by (unfold zlen in Hc; lia).
  cbn [obind]. change (9 + 16 - 1) with 24. change (9 + 16) with 25. unfold xor_at, index.
  change (Z.to_nat 24) with 24%nat. change (0 <=? 24) with true.
  rewrite lookup_app_r, Hc9 by lia. change (24 - 9)%nat with 15%nat. rewrite Hb. cbn [obind].
  rewrite insert_app_r_alt, Hc9 by lia. change (24 - 9)%nat with 15%nat.
  set (t' := <[15%nat := _]> t).
  assert (Ht' : zlen t' = 16) by (unfold t', zlen; rewrite length_insert; exact Ht).
  rewrite slice_to_all by zlen_solve. cbn [obind].
  destruct (contract_open ae p key (zeros 12) [] c t' (zeros 9)) as (o & E & _);
    [done|done|by rewrite Ha|done|done|le_closed|rewrite Hc; le_closed|by rewrite Hc|].
  rewrite E. destruct (ae_open _ _ _ _ _ _) as [pt'|] eqn:Eo; [exfalso|done].
  assert (Hgk : gcm_key (material key)) by (left; done).
  pose proof (ae_open_tag_unique ae _ (zeros 12) _ _ _ _ _ _ Hgk eq_refl Ht' Eo Es) as Heq.
  apply (f_equal (.!! 15%nat)) in Heq. unfold t' in Heq.
  rewrite list_lookup_insert_eq, Hb in Heq by (by eapply lookup_lt_Some).
  injection Heq. apply xor_1_neq.
Qed.

Lemma frame_test_passes : test_seal_open_aes128 swl = Returns tt.
Proof.
  unfold test_seal_open_aes128.
  destruct (sw_is Aes128Gcm) as (p & -> & Ha & Hp); [auto|]. run_on.
  set (pt := b_str _). assert (Hl : zlen pt = 36) by done. clearbody pt. rewrite Hl.
  change (frame_len 36 (zlen (replicate 12 xaa)) (tag_len Aes128Gcm)) with (36 + 40).
  set (key := mkKeyHandle _ _ _).
  destruct (frame_exact ae p Hp key (replicate 12 xaa) pt 36) as (-> & Hf & Ho);
    [done|done|done|split; le_closed|done|le_closed|].
  cbn [obind]. rewrite Hf, assert_eq_refl by done. cbn [obind]. revert Hf Ho. rewrite Ha.
  unfold frame_bytes. destruct (ae_seal _ _ _ _ _) as [c t].
  change (frame_header Aes128Gcm (id key) x00) with
    ([x41; x43; x01; x00; x00; x00; x00; x0b; x01; x0c; x00; x00] : bytes).
  set (r := replicate 12 xaa ++ c ++ t). clearbody r. set (f := _ ++ r). intros Hf Ho.
  assert (slice_to 2 f = Returns MAGIC) as ->
    by (by apply (slice_to_app MAGIC ([x01; x00; x00; x00; x00; x0b; x01; x0c; x00; x00] ++ r))).
  cbn [obind]. rewrite assert_eq_refl by done. cbn [obind].
  change (index 8 f) with (Returns (algo_as_u8 Aes128Gcm)). cbn [obind].
  rewrite assert_eq_refl by done. cbn [obind].
  change (index 4 f) with (Returns x00). change (index 5 f) with (Returns x00).
  change (index 6 f) with (Returns x00). change (index 7 f) with (Returns x0b). cbn [obind].
  rewrite assert_eq_refl by done. cbn [obind]. rewrite slice_to_all by done. cbn [obind].
  rewrite Ho. cbn [obind]. rewrite assert_eq_refl by done. cbn [obind]. by apply assert_eq_refl.
Qed.

Lemma frame_sizes_pass : test_seal_open_aes256_various_sizes swl = Returns tt.
Proof.
  unfold test_seal_open_aes256_various_sizes.
  destruct (sw_is Aes256Gcm) as (p & -> & Ha & Hp); [auto|]. run_on.
  apply for_each_ok, Forall_forall. intros n Hn.
  assert (0 <= n <= 9000) as Hb by (rewrite !elem_of_cons, elem_of_nil in Hn; lia).
  pose proof (zlen_map_seqZ (fun i => u8_of_Z (i * 31)) n ltac:(lia)) as Hl.
  set (key := mkKeyHandle _ _ _). set (pt := _ <$> seqZ 0 n) in *. clearbody pt.
  assert (frame_len n 12 16 = n + 40) as ->.
  { rewrite <-Hl. apply frame_len_small. unfold fits, isize_max. lia. }
  destruct (frame_exact ae p Hp key (replicate 12 x11) pt n) as (-> & Hf & Ho);
    [done|done|done|split; le_closed|done|unfold gcm_limit; lia|].
  cbn [obind]. rewrite assert_eq_refl by done. cbn [obind]. rewrite slice_to_all by done.
  cbn [obind]. rewrite Ho. cbn [obind]. rewrite assert_eq_refl by done. cbn [obind].
  by apply assert_eq_refl.
Qed.

Lemma truncated_passes : test_open_rejects_truncated_frame swl = Returns tt.
Proof.
  unfold test_open_rejects_truncated_frame.
  destruct (sw_is Aes128Gcm) as (p & -> & Ha & Hp); [auto|]. run_on. reflexivity.
Qed.

Lemma mismatched_provider_passes : test_open_rejects_mismatched_provider swl = Returns tt.
Proof.
  unfold test_open_rejects_mismatched_provider.
  destruct (sw_is Aes128Gcm) as (p & -> & Ha & Hp); [auto|].
  destruct (sw_is Aes256Gcm) as (q & -> & Hb & Hq); [auto|]. run_on.
  set (k := mkKeyHandle 1 Aes128Gcm _). set (k' := mkKeyHandle 1 Aes256Gcm _).
  set (pt := b_str _). assert (Hl : zlen pt = 8) by done. clearbody pt.
  change (frame_len 8 12 16) with (8 + 40).
  destruct (frame_exact ae p Hp k (zeros 12) pt 8) as (-> & Hf & _);
    [done|done|done|split; le_closed|done|le_closed|].
  cbn [obind]. set (f := frame_bytes _ _ _ _ _ _ _) in *.
  destruct (open_run ae q k' f (zeros 8)) as (o & -> & _);
    [done|unfold fits; rewrite Hf; le_closed|rewrite Hf; le_closed|].
  assert (wire_open_spec ae (algorithm q) k' f (zlen (zeros 8)) =
          Err (Crypto (AlgorithmMismatch (algorithm q) Aes128Gcm))) as ->; [|done].
  unfold wire_open_spec.
  assert (decode_spec f = Ok (mkFrameHeader VERSION x00 1 Aes128Gcm x0c)) as ->.
  { unfold f, frame_bytes. rewrite Ha. by destruct (ae_seal _ _ _ _ _). }
  rewrite Hb. by rewrite decide_True.
Qed.
End Laws.

(** ** AES-GCM itself *)

(** Runs the head of a test, when it needs no provider. *)
Ltac step_closed :=
  cbn [obind unwrap]; cbv beta iota zeta;
  lazymatch goal with
  | |- obind (unwrapped (seal _ _ _ _ _ _) _) _ = _ => fail
  | |- obind (open _ _ _ _) _ = _ => fail
  | |- obind ?m _ = _ =>
      let v := eval vm_compute in m in
      lazymatch v with
      | Returns _ => replace m with v by (vm_compute; reflexivity); cbn [obind]
      end
  end.
Ltac closed_side := first [done | le_closed | vm_compute; reflexivity | vm_compute; congruence].

Section Vectors.
Context (swl : AesGcmCrate) (rl : RingCrate).
Context (Hsw : AesGcmCrateLaws swl gcm) (Hr : RingCrateLaws rl gcm).
Context (hex_decode : string -> result bytes string).
Context (Hhex : forall s, lower_hex s = true -> hex_decode s = Ok (hex_digits s)).

Lemma hex_ok s : lower_hex s = true -> hex hex_decode s = Returns (hex_digits s).
Proof. intros Hs. unfold hex. by rewrite Hhex. Qed.

(** The ciphertext and tag of AES-GCM. *)
Definition gcm_body (key nonce aad pt : bytes) : bytes :=
  let '(c, t) := gcm_seal key nonce aad pt in c ++ t.

Section Provider.
Context (p : CryptoProvider) (Hp : ProviderContract gcm p).

Lemma seal_gcm key nonce aad pt n m :
  key_wf key -> algo key = algorithm p -> zlen nonce = 12 -> zlen aad <= gcm_limit ->
  n = zlen pt -> n + 16 <= gcm_limit -> m = n + 16 ->
  unwrapped (p_seal p key nonce aad pt) (zeros m) =
    Returns (m, gcm_body (material key) nonce aad pt).
Proof.
  intros Hwf Ha Hn Haad Hl Hpt ->.
  destruct (seal_exact gcm p Hp key nonce aad pt n Hwf Ha Hn Haad Hl Hpt) as (c & t & Es & _ & _ & ->).
  simpl in Es. unfold gcm_body. by rewrite Es.
Qed.

Lemma open_gcm key nonce aad body n :
  key_wf key -> algo key = algorithm p -> zlen nonce = 12 -> zlen aad <= gcm_limit ->
  zlen body = n + 16 -> 0 <= n -> n + 16 <= gcm_limit ->
  let r := ok_or (gcm_open (material key) nonce aad (ztake n body) (zdrop n body)) AuthFailed in
  exists o, p_open p key nonce aad body (zeros n) = Returns (map_ok zlen r, o) /\
    open_leaves r (zeros n) o.
Proof.
  intros Hwf Ha Hn Haad Hl H0 Hpt.
  destruct (contract_open gcm p key nonce aad (ztake n body) (zdrop n body) (zeros n))
    as (o & Ho & Hlv);
    [done|done|done|done|rewrite zlen_zdrop; lia|done|rewrite zlen_ztake; lia|
     rewrite zlen_ztake, zlen_zeros; lia|].
  rewrite ztake_zdrop in Ho. by exists o.
Qed.

Lemma open_gcm_ok key nonce aad body n pt :
  key_wf key -> algo key = algorithm p -> zlen nonce = 12 -> zlen aad <= gcm_limit ->
  zlen body = n + 16 -> 0 <= n -> n + 16 <= gcm_limit ->
  gcm_open (material key) nonce aad (ztake n body) (zdrop n body) = Some pt -> zlen pt = n ->
  unwrapped (p_open p key nonce aad body) (zeros n) = Returns (n, pt).
Proof.
  intros Hwf Ha Hn Haad Hl H0 Hpt E El.
  destruct (open_gcm key nonce aad body n Hwf Ha Hn Haad Hl H0 Hpt) as (o & Ho & Hlv).
  rewrite E in Ho, Hlv. simpl in Ho, Hlv. unfold unwrapped. rewrite Ho, Hlv, El. simpl.
  by rewrite zdrop_all, app_nil_r by (rewrite zlen_zeros; lia).
Qed.

Lemma open_gcm_refused key nonce aad body n :
  key_wf key -> algo key = algorithm p -> zlen nonce = 12 -> zlen aad <= gcm_limit ->
  zlen body = n + 16 -> 0 <= n -> n + 16 <= gcm_limit ->
  gcm_open (material key) nonce aad (ztake n body) (zdrop n body) = None ->
  exists o, p_open p key nonce aad body (zeros n) = Returns (Err AuthFailed, o).
Proof.
  intros Hwf Ha Hn Haad Hl H0 Hpt E.
  destruct (open_gcm key nonce aad body n Hwf Ha Hn Haad Hl H0 Hpt) as (o & Ho & _).
  rewrite E in Ho. by exists o.
Qed.
End Provider.

Ltac side Ha := first [by rewrite Ha | vm_compute; reflexivity | le_closed].

(** Runs a test to its call of [p_seal], and over it. *)
Ltac run_seal p Hp Ha n :=
  repeat step_closed; rewrite (seal_gcm p Hp _ _ _ _ n) by side Ha; repeat step_closed.
(** The rest of a known-answer test that opens what it sealed. *)
Ltac run_open p Hp Ha n pt :=
  rewrite (open_gcm_ok p Hp _ _ _ _ n pt) by side Ha; repeat step_closed; vm_compute; reflexivity.
(** The rest of a test whose [p_open] must refuse. *)
Ltac run_refused p Hp Ha :=
  match goal with
  | |- context [p_open p ?k ?no ?a ?b (zeros ?m)] =>
      destruct (open_gcm_refused p Hp k no a b m) as [? ->]; [side Ha..|reflexivity]
  end.

Lemma vector2_sw : test_aes128_gcm_mcgrew_viega_test2 swl hex_decode = Returns tt.
Proof.
  unfold test_aes128_gcm_mcgrew_viega_test2. rewrite !hex_ok by reflexivity.
  destruct (sw_is swl gcm Hsw _ Aes128Gcm) as (p & -> & Ha & Hp); [auto|].
  run_seal p Hp Ha 16. run_open p Hp Ha 16 (zeros 16).
Qed.

Lemma vector14_sw : test_aes256_gcm_mcgrew_viega_test14 swl hex_decode = Returns tt.
Proof.
  unfold test_aes256_gcm_mcgrew_viega_test14. rewrite !hex_ok by reflexivity.
  destruct (sw_is swl gcm Hsw _ Aes256Gcm) as (p & -> & Ha & Hp); [auto|].
  run_seal p Hp Ha 16. run_open p Hp Ha 16 (zeros 16).
Qed.

Lemma vector4_sw : test_aes128_gcm_mcgrew_viega_test4 swl hex_decode = Returns tt.
Proof.
  unfold test_aes128_gcm_mcgrew_viega_test4. rewrite !hex_ok by reflexivity.
  destruct (sw_is swl gcm Hsw _ Aes128Gcm) as (p & -> & Ha & Hp); [auto|].
  run_seal p Hp Ha 60.
  match goal with |- context [assert_eq _ ?pt] => run_open p Hp Ha 60 pt end.
Qed.

Lemma vector2_ring : test_ring_aes128_gcm_mcgrew_viega_test2 rl hex_decode = Returns tt.
Proof.
  unfold test_ring_aes128_gcm_mcgrew_viega_test2. rewrite !hex_ok by reflexivity.
  destruct (ring_is rl gcm Hr _ Aes128Gcm) as (p & -> & Ha & Hp); [auto|].
  run_seal p Hp Ha 16. run_open p Hp Ha 16 (zeros 16).
Qed.

Lemma vector14_ring : test_ring_aes256_gcm_mcgrew_viega_test14 rl hex_decode = Returns tt.
Proof.
  unfold test_ring_aes256_gcm_mcgrew_viega_test14. rewrite !hex_ok by reflexivity.
  destruct (ring_is rl gcm Hr _ Aes256Gcm) as (p & -> & Ha & Hp); [auto|].
  run_seal p Hp Ha 16. vm_compute. reflexivity.
Qed.

Lemma tampered_ciphertext_passes : test_open_fails_on_tampered_ciphertext swl = Returns tt.
Proof.
  unfold test_open_fails_on_tampered_ciphertext.
  destruct (sw_is swl gcm Hsw _ Aes128Gcm) as (p & -> & Ha & Hp); [auto|].
  run_seal p Hp Ha 9. run_refused p Hp Ha.
Qed.

Lemma tampered_aad_passes : test_open_fails_on_tampered_aad swl = Returns tt.
Proof.
  unfold test_open_fails_on_tampered_aad.
  destruct (sw_is swl gcm Hsw _ Aes128Gcm) as (p & -> & Ha & Hp); [auto|].
  run_seal p Hp Ha 9. run_refused p Hp Ha.
Qed.

(** Runs a test to its call of [acm_wire::seal], and over it. *)
Ltac run_frame p Hp Ha n :=
  repeat step_closed;
  match goal with
  | |- context [unwrapped (seal p ?k ?i ?no ?f ?pt) (zeros ?m)] =>
      let Hf := fresh in
      destruct (frame_exact gcm p Hp k no pt n) as (Hf & _);
        [side Ha|side Ha|side Ha|split; le_closed|side Ha|side Ha|];
      change (unwrapped (seal p k i no f pt) (zeros m)) with
        (unwrapped (seal p k (id k) no x00 pt) (zeros (n + 40)));
      rewrite Hf, Ha; clear Hf
  end; repeat step_closed.
(** The rest of a test whose [acm_wire::open] must refuse. *)
Ltac run_frame_refused p Hp Ha :=
  match goal with
  | |- context [open p ?k ?f (zeros ?m)] =>
      let Hr := fresh in
      destruct (open_run gcm p k f (zeros m)) as (? & Hr & _);
        [side Ha|le_closed|le_closed|];
      rewrite Ha in Hr;
      match type of Hr with _ = Returns (map_ok zlen ?r, _) =>
        let v := eval vm_compute in r in
        replace r with v in Hr by (vm_compute; reflexivity)
      end; rewrite Hr; reflexivity
  end.

Lemma tampered_header_passes : test_open_fails_when_header_tampered swl = Returns tt.
Proof.
  unfold test_open_fails_when_header_tampered.
  destruct (sw_is swl gcm Hsw _ Aes128Gcm) as (p & -> & Ha & Hp); [auto|].
  run_frame p Hp Ha 10. run_frame_refused p Hp Ha.
Qed.

Lemma tampered_frame_passes : test_open_fails_when_ciphertext_tampered swl = Returns tt.
Proof.
  unfold test_open_fails_when_ciphertext_tampered.
  destruct (sw_is swl gcm Hsw _ Aes128Gcm) as (p & -> & Ha & Hp); [auto|].
  run_frame p Hp Ha 21. run_frame_refused p Hp Ha.
Qed.

Lemma hidden_passes : test_header_inspectable_plaintext_hidden swl hex_decode = Returns tt.
Proof.
  unfold test_header_inspectable_plaintext_hidden. rewrite !hex_ok by reflexivity.
  destruct (sw_is swl gcm Hsw _ Aes256Gcm) as (p & -> & Ha & Hp); [auto|].
  run_frame p Hp Ha 14. vm_compute. reflexivity.
Qed.
End Vectors.

(** * Properties *)

(** C22: the unit tests whose outcome the laws of the crates decide pass with
    every aes-gcm crate and every ring crate that implement one AEAD scheme:
    the round trips at all their sizes, the agreement of the two providers,
    the tampered tag, the header tests and the refusals. *)
Theorem law_tests_pass (swl : AesGcmCrate) (rl : RingCrate) (ae : Aead)
    (Hsw : AesGcmCrateLaws swl ae) (Hr : RingCrateLaws rl ae) (Hae : AeadLaws ae)
    (vec_zeroize : bytes -> bytes) :
  (forall v, Forall (fun b => b = x00) (vec_zeroize v)) ->
  Forall (fun t => t = Returns tt) (law_tests swl rl vec_zeroize).
Proof.
  intros Hz. unfold law_tests.
  do 5 (apply Forall_cons_2; [reflexivity|]).
  apply Forall_cons_2; [by apply wipe_passes|].
  apply Forall_cons_2; [by apply (roundtrip_passes swl ae)|].
  apply Forall_cons_2; [by apply (mismatch_passes swl ae)|].
  apply Forall_cons_2; [by apply (bad_nonce_passes swl ae)|].
  apply Forall_cons_2; [by apply (interop_passes swl rl ae)|].
  apply Forall_cons_2; [by apply (tampered_tag_passes rl ae)|].
  do 4 (apply Forall_cons_2; [reflexivity|]).
  apply Forall_cons_2; [by apply (frame_test_passes swl ae)|].
  apply Forall_cons_2; [by apply (frame_sizes_pass swl ae)|].
  apply Forall_cons_2; [by apply (truncated_passes swl ae)|].
  apply Forall_cons_2; [by apply (mismatched_provider_passes swl ae)|].
  by apply List.Forall_nil.
Qed.

Lemma law_tests_pass_witness :
  Forall (fun t => t = Returns tt) (law_tests ref_aes_gcm ref_ring (fun _ => [])).
Proof.
  exact (law_tests_pass ref_aes_gcm ref_ring gcm _ _ _ (fun _ => [])
           (fun _ => List.Forall_nil _)).
Defined.

(** C21: the crates' AES-GCM is what the providers compute: with every aes-gcm
    crate and every ring crate that implement AES-GCM (FIPS 197, SP 800-38D)
    and any [hex::decode] that reads lower-case digits, the published vectors
    come out of both providers, byte for byte, and the tests' forged
    ciphertext, additional data, header and frame are refused with a failed
    authentication. *)
Theorem vector_tests_pass (swl : AesGcmCrate) (rl : RingCrate)
    (Hsw : AesGcmCrateLaws swl gcm) (Hr : RingCrateLaws rl gcm)
    (hex_decode : string -> result bytes string) :
  (forall s, lower_hex s = true -> hex_decode s = Ok (hex_digits s)) ->
  Forall (fun t => t = Returns tt) (vector_tests swl rl hex_decode).
Proof.
  intros Hhex. unfold vector_tests.
  apply Forall_cons_2; [by apply vector2_sw|].
  apply Forall_cons_2; [by apply vector14_sw|].
  apply Forall_cons_2; [by apply vector4_sw|].
  apply Forall_cons_2; [by apply tampered_ciphertext_passes|].
  apply Forall_cons_2; [by apply tampered_aad_passes|].
  apply Forall_cons_2; [by apply vector2_ring|].
  apply Forall_cons_2; [by apply vector14_ring|].
  apply Forall_cons_2; [by apply tampered_header_passes|].
  apply Forall_cons_2; [by apply tampered_frame_passes|].
  apply Forall_cons_2; [by apply hidden_passes|].
  by apply List.Forall_nil.
Qed.

Lemma vector_tests_pass_witness :
  Forall (fun t => t = Returns tt) (vector_tests ref_aes_gcm ref_ring ref_hex).
Proof.
  apply (vector_tests_pass ref_aes_gcm ref_ring _ _ ref_hex).
  intros s Hs. unfold ref_hex. by rewrite Hs.
Defined.
